(** * Lighting preview engine (hammer/lpreview_thread.cpp)

  A shallow embedding of the incremental lighting preview thread of the
  Hammer editor: the bit-reversed line schedule, the per-light incremental
  bookkeeping and its priority order, the shadow-traced shading kernel,
  the message handlers and the scheduler loop, followed by the proofs of
  the properties C1 to C10 of its specification and of the further
  properties X1 to X30 of the code.

  Conventions.
  - [int] is a 32-bit two's complement integer, carried as a [Z] and
    re-wrapped by [Int.wrap32] after every operation that can leave the
    range.
  - [float] is an IEEE-754 binary32 value, carried as a [spec_float];
    [double] is binary64.  SIMD lanes are 32-bit patterns, decoded when an
    instruction reads them as floats.
  - following a null or dangling pointer, and reading or writing a vector
    past its end, make the embedded function return a [Fault].
  - of what the file calls and does not define, the parts with one plain
    meaning (vector and SIMD arithmetic, the matrix type, the messages) are
    modelled and marked as such; the others (approximate mathlib routines,
    the light evaluation, the ray tracer) are fields of the class
    [External]; the clock and the inbound queue are inputs of the functions
    that read them. *)

From Stdlib Require Import ZArith List Bool Lia.
From Stdlib Require Import Floats.SpecFloat.
From stdpp Require Import base list.
Import ListNotations.

Local Open Scope Z_scope.

(** ** Machine integers *)

Module Int.

Definition wrap32 (z : Z) : Z := (z + 2 ^ 31) mod 2 ^ 32 - 2 ^ 31.

Definition in_range (z : Z) : Prop := - 2 ^ 31 <= z < 2 ^ 31.

Definition add (a b : Z) : Z := wrap32 (a + b).
Definition sub (a b : Z) : Z := wrap32 (a - b).
Definition mul (a b : Z) : Z := wrap32 (a * b).
Definition shl (a n : Z) : Z := wrap32 (Z.shiftl a n).
Definition shr (a n : Z) : Z := Z.shiftr a n.
Definition and (a b : Z) : Z := Z.land a b.
Definition or (a b : Z) : Z := Z.lor a b.
Definition not (a : Z) : Z := Z.lnot a.
Definition abs (a : Z) : Z := wrap32 (Z.abs a).

(** C truth value of an integer expression. *)
Definition truthy (a : Z) : bool := negb (a =? 0).

End Int.

(** A counted loop [for (i = start; n iterations; i++) s = body i s]. *)
Fixpoint for_loop {St : Type} (n : nat) (i : Z) (body : Z -> St -> St) (s : St) : St :=
match n with
| O => s
| S n' => for_loop n' (i + 1) body (body i s)
end.

(** The integers [lo, lo + n), for checks that run over a whole index range. *)
Definition Zrange (lo : Z) (n : nat) : list Z := map (fun i => lo + Z.of_nat i) (seq 0 n).


(** ** The line schedule: [InitIncrementalInformation] *)

Definition N_INCREMENTAL_STEPS : Z := 32.

Module LineSchedule.

(** The inner [while (msk_test)] loop: it halves [msk_test] each turn, so
    32 turns of fuel are enough for any non-negative [int]. *)
Fixpoint bit_reverse_loop (fuel : nat) (i msk msk_or msk_test : Z) : option Z :=
  if Int.truthy msk_test then
    match fuel with
    | O => None
    | S fuel' =>
        let msk' := if Int.truthy (Int.and i msk_test) then Int.or msk msk_or else msk in
        bit_reverse_loop fuel' i msk' (Int.shl msk_or 1) (Int.shr msk_test 1)
    end
  else Some msk.

Definition bit_reverse (i : Z) : option Z :=
  bit_reverse_loop 32 i 0 1 (Int.shr N_INCREMENTAL_STEPS 1).

(** First loop: the masks of the lines calculated up to each level.
    The state is [calculated_bit_mask] and the array [m_LineMask]. *)
Definition line_mask_body (i : Z) (s : option (Z * list Z)) : option (Z * list Z) :=
  match s with
  | None => None
  | Some (calculated_bit_mask, m_LineMask) =>
      match bit_reverse i with
      | None => None
      | Some msk =>
          let calculated_bit_mask := Int.or calculated_bit_mask (Int.shl 1 msk) in
          Some (calculated_bit_mask, <[Z.to_nat i := calculated_bit_mask]> m_LineMask)
      end
  end.

Definition init_line_mask (uninit : list Z) : option (list Z) :=
  match for_loop (Z.to_nat N_INCREMENTAL_STEPS) 0 line_mask_body (Some (0, uninit)) with
  | Some (_, m) => Some m
  | None => None
  end.

(** The test [m_LineMask[lvl] & ( 1 << chk )]. *)
Definition line_bit (mask chk : Z) : bool := Int.truthy (Int.and mask (Int.shl 1 chk)).

(** Body of [for (chk = 0; chk <= linemod; chk++)]. *)
Definition closest_body (mask linemod : Z) (chk closest_line : Z) : Z :=
  if line_bit mask chk then
    if Int.abs (Int.sub chk linemod) <? Int.abs (Int.sub closest_line linemod)
    then chk else closest_line
  else closest_line.

Definition closest_line_for (mask linemod : Z) : Z :=
  for_loop (Z.to_nat (linemod + 1)) 0 (closest_body mask linemod) 1000000.

(** [int m_ClosestLineOffset[N][N]] is one row-major block of N*N ints:
    the cell [lvl][linemod] is at [lvl * N + linemod].  The loop runs
    [linemod] up to N inclusive, so its last store of a row lands on the
    first cell of the next row, and for the last row behind the block. *)
Definition cell (lvl linemod : Z) : nat := Z.to_nat (lvl * N_INCREMENTAL_STEPS + linemod).

Definition closest_row_body (m_LineMask : list Z) (lvl : Z) (linemod : Z) (tbl : list Z) : list Z :=
  <[cell lvl linemod := closest_line_for (m_LineMask !!! Z.to_nat lvl) linemod]> tbl.

Definition closest_table_body (m_LineMask : list Z) (lvl : Z) (tbl : list Z) : list Z :=
  for_loop (Z.to_nat (N_INCREMENTAL_STEPS + 1)) 0 (closest_row_body m_LineMask lvl) tbl.

Definition init_closest_line (m_LineMask : list Z) (uninit : list Z) : list Z :=
  for_loop (Z.to_nat N_INCREMENTAL_STEPS) 0 (closest_table_body m_LineMask) uninit.

Record tables := { m_LineMask : list Z; m_ClosestLineOffset : list Z }.

(** Both arrays are uninitialised members before the call; every cell is
    written, so the zeros below never show. *)
Definition InitIncrementalInformation : option tables :=
  match init_line_mask (repeat 0 (Z.to_nat N_INCREMENTAL_STEPS)) with
  | None => None
  | Some lm =>
      Some {| m_LineMask := lm;
              m_ClosestLineOffset :=
                init_closest_line lm
                  (repeat 0 (Z.to_nat (N_INCREMENTAL_STEPS * N_INCREMENTAL_STEPS))) |}
  end.

(** Array reads [m_LineMask[k]] and [m_ClosestLineOffset[k][m]]. *)
Definition line_mask (t : tables) (k : Z) : option Z := m_LineMask t !! Z.to_nat k.
Definition closest_line (t : tables) (k m : Z) : option Z := m_ClosestLineOffset t !! cell k m.

(** The tables as the constructor leaves them, evaluated once. *)
Definition the_tables : option tables := Eval vm_compute in InitIncrementalInformation.

End LineSchedule.

(** *** The line schedule in the words of the specification *)

(** The value of [k] with its low [w] bits in reverse order. *)
Fixpoint reverse_bits_spec (w : nat) (k : Z) : Z :=
  match w with
  | O => 0
  | S w' => (if Z.odd k then 2 ^ Z.of_nat w' else 0) + reverse_bits_spec w' (k / 2)
  end.

(** The set bit of [mask] closest to [m] among the rows [0 .. N-1] of a
    tile, the lower index on a tie. *)
Definition nearest_set_bit_spec (mask m : Z) : Z :=
  fold_left
    (fun best b =>
       if Z.testbit mask b && (Z.abs (b - m) <? Z.abs (best - m)) then b else best)
    (Zrange 0 (Z.to_nat N_INCREMENTAL_STEPS)) 1000000.


(** Checks that are run over the whole tables.  One level of the mask
    table: *)
Definition level_step_ok (t : LineSchedule.tables) (k : Z) : bool :=
  match LineSchedule.line_mask t (k - 1), LineSchedule.line_mask t k,
        LineSchedule.bit_reverse k with
  | Some prev, Some cur, Some r =>
      (cur =? Z.lor prev (Int.shl 1 r)) && (r =? reverse_bits_spec 5 k)
      && (0 <=? r) && (r <? N_INCREMENTAL_STEPS) && negb (Z.testbit prev r)
      && forallb (fun b => Bool.eqb (Z.testbit (Int.shl 1 r) b) (b =? r))
           (Zrange 0 (Z.to_nat N_INCREMENTAL_STEPS))
  | _, _, _ => false
  end.

(** One cell of the resampling table: the cell holds what the scan of its
    row offset returned, row 0 is in the mask, and the bit test of the scan
    agrees with [Z.testbit]. *)
Definition cell_ok (t : LineSchedule.tables) (k m : Z) : bool :=
  match LineSchedule.line_mask t k, LineSchedule.closest_line t k m with
  | Some mask, Some c =>
      (c =? LineSchedule.closest_line_for mask m)
      && Bool.eqb (LineSchedule.line_bit mask m) (Z.testbit mask m)
      && LineSchedule.line_bit mask 0
  | _, _ => false
  end.

(** ** Floating point *)

Definition float : Type := spec_float.
Definition double : Type := spec_float.

(** IEEE-754 binary32, the C++ [float]. *)
Module F32.

Definition prec : Z := 24.
Definition emax : Z := 128.

Definition add : float -> float -> float := SFadd prec emax.
Definition sub : float -> float -> float := SFsub prec emax.
Definition mul : float -> float -> float := SFmul prec emax.
Definition div : float -> float -> float := SFdiv prec emax.
Definition sqrt : float -> float := SFsqrt prec emax.

Definition eqb : float -> float -> bool := SFeqb.
Definition ltb : float -> float -> bool := SFltb.
Definition leb : float -> float -> bool := SFleb.
Definition gtb (a b : float) : bool := SFltb b a.
Definition geb (a b : float) : bool := SFleb b a.
(** [a != b] is true as soon as one side is a NaN. *)
Definition neb (a b : float) : bool := negb (SFeqb a b).

Definition zero : float := S754_zero false.
Definition one : float := S754_finite false 8388608 (-23).

(** Conversion of an [int] to [float]. *)
Definition of_int (z : Z) : float := binary_normalize prec emax z 0 false.

(** Narrowing of a [double], as in [const float newtime = Plat_FloatTime()]. *)
Definition of_double (x : double) : float :=
  match x with
  | S754_finite s m e => binary_round prec emax s m e
  | _ => x
  end.

(** The 32-bit pattern of a value and back.  NaN payloads are not tracked:
    every NaN pattern decodes to [S754_nan], which encodes to 0x7FC00000. *)
Definition of_bits (w : Z) : float :=
  let s := Z.testbit w 31 in
  let e := Z.land (Z.shiftr w 23) 255 in
  let m := Z.land w (2 ^ 23 - 1) in
  if e =? 255 then (if m =? 0 then S754_infinity s else S754_nan)
  else if e =? 0 then
    match m with
    | Zpos p => S754_finite s p (-149)
    | _ => S754_zero s
    end
  else
    match m + 2 ^ 23 with
    | Zpos p => S754_finite s p (e - 150)
    | _ => S754_nan
    end.

Definition sign_bit (s : bool) : Z := if s then 2 ^ 31 else 0.

Definition to_bits (x : float) : Z :=
  match x with
  | S754_zero s => sign_bit s
  | S754_infinity s => sign_bit s + 255 * 2 ^ 23
  | S754_nan => 255 * 2 ^ 23 + 2 ^ 22
  | S754_finite s m e =>
      sign_bit s +
      (if 2 ^ 23 <=? Zpos m then (e + 150) * 2 ^ 23 + (Zpos m - 2 ^ 23) else Zpos m)
  end.

(** Literals of the source, by their bit patterns. *)
Definition c_0_02 : float := Eval vm_compute in of_bits 0x3CA3D70A.      (* 0.02f *)
Definition c_10 : float := Eval vm_compute in of_bits 0x41200000.        (* 10.0f *)
Definition c_1e9 : float := Eval vm_compute in of_bits 0x4E6E6B28.       (* 1.0e9 *)
Definition c_threshold : float := Eval vm_compute in of_bits 0x38CCCCCD. (* 0.1f / 1024.0f *)
Definition c_0_0001 : float := Eval vm_compute in of_bits 0x38D1B717.    (* 0.0001f *)
Definition c_0_05 : float := Eval vm_compute in of_bits 0x3D4CCCCD.      (* 0.05f *)
Definition c_0_5 : float := Eval vm_compute in of_bits 0x3F000000.       (* .5 *)
Definition c_255 : float := Eval vm_compute in of_bits 0x437F0000.       (* 255.0f *)
Definition c_minus_1e6 : float := Eval vm_compute in of_bits 0xC9742400. (* -1.0e6 *)

End F32.

(** IEEE-754 binary64, the C++ [double] of [Plat_FloatTime]. *)
Module F64.

Definition prec : Z := 53.
Definition emax : Z := 1024.

Definition sub : double -> double -> double := SFsub prec emax.

(** Widening of a [float]: exact, re-normalised to 53 bits. *)
Definition of_float (x : float) : double :=
  match x with
  | S754_finite s m e => binary_round prec emax s m e
  | _ => x
  end.

Definition c_9 : double := Eval vm_compute in of_float (F32.of_bits 0x41100000). (* 9.f *)

End F64.

(** ** Faults

    What the C++ leaves undefined (a null pointer followed, a vector read
    past its end) stops the embedded function with the fault named here. *)

Inductive fault : Type :=
| NullLightList        (* m_pLightList followed while nullptr *)
| NullIncrementalInfo  (* a light's m_pIncrementalInfo followed while invalid *)
| NullLight            (* an m_pLight followed while nullptr *)
| NullRtEnv            (* m_pRtEnv followed while nullptr *)
| IndexOutOfRange.     (* a vector or matrix read or written past its end *)

Inductive result (A : Type) : Type :=
| Ok (a : A)
| Fault (f : fault).

Arguments Ok {A} a.
Arguments Fault {A} f.

Definition bind {A B : Type} (m : result A) (k : A -> result B) : result B :=
  match m with
  | Ok a => k a
  | Fault f => Fault f
  end.

Notation "x <-- m ;; k" := (bind m (fun x => k))
  (at level 100, m at next level, right associativity).

(** [v[i]] on a vector or array. *)
Definition vec_get {A : Type} (v : list A) (i : Z) : result A :=
  if i <? 0 then Fault IndexOutOfRange
  else match v !! Z.to_nat i with
       | Some a => Ok a
       | None => Fault IndexOutOfRange
       end.

(** [v[i] = a]. *)
Definition vec_set {A : Type} (v : list A) (i : Z) (a : A) : result (list A) :=
  if (i <? 0) || (Z.of_nat (length v) <=? i) then Fault IndexOutOfRange
  else Ok (<[Z.to_nat i := a]> v).

(** A counted loop whose body can fault. *)
Definition for_loop_r {St : Type} (n : nat) (i : Z) (body : Z -> St -> result St) (s : St)
  : result St :=
  for_loop n i (fun j acc => s' <-- acc ;; body j s') (Ok s).

(** ** SIMD registers and the instructions the kernel uses *)

(** Modelled from the spec: the type [fltx4] and the SIMD wrappers of
    mathlib ([ReplicateX4], [AddSIMD], [OrSIMD], [AndNotSIMD], [CmpGtSIMD],
    [MinSIMD], [IsAllZeros], ...) are not part of this file.  They are
    taken as the SSE instructions they are named after, like the
    intrinsics the kernel calls directly; this is the reading of section 9
    of the spec, where a comparison gives a per-lane mask and the mask
    zeroes lanes.  A register is four 32-bit lanes, each a pattern in
    [0, 2^32). *)
Record fltx4 : Type := mk_fltx4 { lane0 : Z; lane1 : Z; lane2 : Z; lane3 : Z }.

Definition map4 (f : Z -> Z) (a : fltx4) : fltx4 :=
  mk_fltx4 (f (lane0 a)) (f (lane1 a)) (f (lane2 a)) (f (lane3 a)).

Definition zip4 (f : Z -> Z -> Z) (a b : fltx4) : fltx4 :=
  mk_fltx4 (f (lane0 a) (lane0 b)) (f (lane1 a) (lane1 b))
           (f (lane2 a) (lane2 b)) (f (lane3 a) (lane3 b)).

(** Lane [i] of a register, [m128_f32[i]] when read as a float. *)
Definition lane (a : fltx4) (i : Z) : Z :=
  if i =? 0 then lane0 a else if i =? 1 then lane1 a
  else if i =? 2 then lane2 a else lane3 a.

Definition all_ones : Z := 2 ^ 32 - 1.
Definition lane_mask (b : bool) : Z := if b then all_ones else 0.
Definition lane_not (a : Z) : Z := Z.lxor a all_ones.

(** The signed value of a lane read as [int]. *)
Definition lane_signed (a : Z) : Z := Int.wrap32 a.
(** The lane that stores an [int]. *)
Definition lane_of_int (z : Z) : Z := z mod 2 ^ 32.

Definition Four_Zeros : fltx4 := mk_fltx4 0 0 0 0.
Definition ReplicateX4 (f : float) : fltx4 :=
  let w := F32.to_bits f in mk_fltx4 w w w w.

(** Lane-wise IEEE arithmetic ([addps], [subps], [mulps]). *)
Definition lane_op (op : float -> float -> float) (a b : Z) : Z :=
  F32.to_bits (op (F32.of_bits a) (F32.of_bits b)).
Definition AddSIMD : fltx4 -> fltx4 -> fltx4 := zip4 (lane_op F32.add).
Definition SubSIMD : fltx4 -> fltx4 -> fltx4 := zip4 (lane_op F32.sub).
Definition MulSIMD : fltx4 -> fltx4 -> fltx4 := zip4 (lane_op F32.mul).

(** Bitwise instructions ([orps], [andps], [andnps]: the first operand of
    an and-not is the one complemented). *)
Definition OrSIMD : fltx4 -> fltx4 -> fltx4 := zip4 Z.lor.
Definition AndSIMD : fltx4 -> fltx4 -> fltx4 := zip4 Z.land.
Definition AndNotSIMD : fltx4 -> fltx4 -> fltx4 := zip4 (fun a b => Z.land (lane_not a) b).
Definition _mm_andnot_si128 : fltx4 -> fltx4 -> fltx4 := AndNotSIMD.

(** Comparisons: a lane of ones where the test holds, of zeros elsewhere. *)
Definition lane_cmp (test : float -> float -> bool) (a b : Z) : Z :=
  lane_mask (test (F32.of_bits a) (F32.of_bits b)).
Definition CmpGtSIMD : fltx4 -> fltx4 -> fltx4 := zip4 (lane_cmp F32.gtb).
Definition CmpEqSIMD : fltx4 -> fltx4 -> fltx4 := zip4 (lane_cmp F32.eqb).
Definition _mm_cmplt_ps : fltx4 -> fltx4 -> fltx4 := zip4 (lane_cmp F32.ltb).
Definition _mm_cmplt_epi32 : fltx4 -> fltx4 -> fltx4 :=
  zip4 (fun a b => lane_mask (lane_signed a <? lane_signed b)).
Definition _mm_setzero_si128 : fltx4 := Four_Zeros.

Definition MinSIMD : fltx4 -> fltx4 -> fltx4 :=
  zip4 (fun a b => if F32.ltb (F32.of_bits a) (F32.of_bits b) then a else b).
Definition MaxSIMD : fltx4 -> fltx4 -> fltx4 :=
  zip4 (fun a b => if F32.gtb (F32.of_bits a) (F32.of_bits b) then a else b).

(** Every lane compares equal to zero. *)
Definition IsAllZeros (a : fltx4) : bool :=
  F32.eqb (F32.of_bits (lane0 a)) F32.zero && F32.eqb (F32.of_bits (lane1 a)) F32.zero
  && F32.eqb (F32.of_bits (lane2 a)) F32.zero && F32.eqb (F32.of_bits (lane3 a)) F32.zero.

(** ** Vectors *)

(** Modelled from the spec: [Vector] and [FourVectors] are mathlib's and not
    part of this file.  A [Vector] is three floats; its operators work
    coordinate by coordinate, [Min] and [Max] with the comparisons
    [a < b ? a : b] and [a > b ? a : b]. *)
Record Vector : Type := mk_Vector { vx : float; vy : float; vz : float }.

Definition Vector_scale (s : float) (v : Vector) : Vector :=
  mk_Vector (F32.mul (vx v) s) (F32.mul (vy v) s) (F32.mul (vz v) s).
Definition Vector_add (a b : Vector) : Vector :=
  mk_Vector (F32.add (vx a) (vx b)) (F32.add (vy a) (vy b)) (F32.add (vz a) (vz b)).
Definition fmin (a b : float) : float := if F32.ltb a b then a else b.
Definition fmax (a b : float) : float := if F32.gtb a b then a else b.
Definition Vector_Min (a b : Vector) : Vector :=
  mk_Vector (fmin (vx a) (vx b)) (fmin (vy a) (vy b)) (fmin (vz a) (vz b)).
Definition Vector_Max (a b : Vector) : Vector :=
  mk_Vector (fmax (vx a) (vx b)) (fmax (vy a) (vy b)) (fmax (vz a) (vz b)).

(** Modelled from the spec: [Vector::WithinAABox] is mathlib's and not part
    of this file; section 4.2 has it as "its position lies within the scene
    bounds", and the bounds are the min and max corners of section 3, so the
    test is inclusive on each axis. *)
Definition WithinAABox (p boxmin boxmax : Vector) : bool :=
  F32.geb (vx p) (vx boxmin) && F32.leb (vx p) (vx boxmax)
  && F32.geb (vy p) (vy boxmin) && F32.leb (vy p) (vy boxmax)
  && F32.geb (vz p) (vz boxmin) && F32.leb (vz p) (vz boxmax).

(** Modelled from the spec: [FourVectors], the "structure of four parallel
    RGB vectors" of section 3: one register per coordinate, with operators
    that work lane by lane. *)
Record FourVectors : Type := mk_FourVectors { fx : fltx4; fy : fltx4; fz : fltx4 }.

Definition FourVectors_map2 (op : fltx4 -> fltx4 -> fltx4) (a b : FourVectors) : FourVectors :=
  mk_FourVectors (op (fx a) (fx b)) (op (fy a) (fy b)) (op (fz a) (fz b)).

Definition zero_vector : FourVectors := mk_FourVectors Four_Zeros Four_Zeros Four_Zeros.
Definition DuplicateVector (v : Vector) : FourVectors :=
  mk_FourVectors (ReplicateX4 (vx v)) (ReplicateX4 (vy v)) (ReplicateX4 (vz v)).
(** [a += b], [a -= b], [a *= b] (coordinate by coordinate). *)
Definition FourVectors_add : FourVectors -> FourVectors -> FourVectors := FourVectors_map2 AddSIMD.
Definition FourVectors_sub : FourVectors -> FourVectors -> FourVectors := FourVectors_map2 SubSIMD.
Definition FourVectors_mul : FourVectors -> FourVectors -> FourVectors := FourVectors_map2 MulSIMD.
(** [a *= s] for a register [s] and for a [float] [s]. *)
Definition FourVectors_scale (a : FourVectors) (s : fltx4) : FourVectors :=
  mk_FourVectors (MulSIMD (fx a) s) (MulSIMD (fy a) s) (MulSIMD (fz a) s).
Definition FourVectors_scale_f (a : FourVectors) (s : float) : FourVectors :=
  FourVectors_scale a (ReplicateX4 s).
(** [a.Vec(i)]: the i-th of the four vectors. *)
Definition FourVectors_Vec (a : FourVectors) (i : Z) : Vector :=
  mk_Vector (F32.of_bits (lane (fx a) i)) (F32.of_bits (lane (fy a) i))
            (F32.of_bits (lane (fz a) i)).

Record FourRays : Type := mk_FourRays { origin : FourVectors; direction : FourVectors }.

(** [HitIds] is [int32 HitIds[4]], kept as the register [_mm_load_si128]
    reads from it: lane [i] stores the id of ray [i], -1 for no hit. *)
Record RayTracingResult : Type :=
  mk_RayTracingResult { HitIds : fltx4; HitDistance : fltx4 }.

(** ** Image matrices *)

(** Modelled from the spec: [CSIMDVectorMatrix] is mathlib's and not part of
    this file.  Section 3 has the matrices "addressable in 4-pixel
    horizontal groups"; the loops of this file run [x] over
    [m_nPaddedWidth] groups in each of [m_nHeight] rows, row after row in
    [m_pData], so [m_nPaddedWidth] counts groups. *)
Record CSIMDVectorMatrix : Type := mk_CSIMDVectorMatrix {
  m_nWidth : Z;
  m_nHeight : Z;
  m_nPaddedWidth : Z;
  m_pData : list FourVectors
}.

Definition empty_matrix : CSIMDVectorMatrix := mk_CSIMDVectorMatrix 0 0 0 [].

Definition CompoundElement (m : CSIMDVectorMatrix) (x y : Z) : result FourVectors :=
  vec_get (m_pData m) (x + m_nPaddedWidth m * y).

Definition set_CompoundElement (m : CSIMDVectorMatrix) (x y : Z) (v : FourVectors)
  : result CSIMDVectorMatrix :=
  d <-- vec_set (m_pData m) (x + m_nPaddedWidth m * y) v ;;
  Ok (mk_CSIMDVectorMatrix (m_nWidth m) (m_nHeight m) (m_nPaddedWidth m) d).

(** [Element(x, y)]: pixel [x] of row [y]. *)
Definition Element (m : CSIMDVectorMatrix) (x y : Z) : result Vector :=
  g <-- CompoundElement m (Z.shiftr x 2) y ;;
  Ok (FourVectors_Vec g (Z.land x 3)).

(** Modelled from the spec: [CSIMDVectorMatrix::SetSize] is mathlib's and not
    part of this file.  The spec has [SetSize(0, 0)] "release the
    contribution matrix"; a matrix that already has the asked size keeps its
    content (the refinement passes of one light add rows to the same
    matrix), and a new allocation holds [fresh] in every cell. *)
Definition SetSize (fresh : FourVectors) (w h : Z) (m : CSIMDVectorMatrix) : CSIMDVectorMatrix :=
  if (w =? m_nWidth m) && (h =? m_nHeight m) && negb ((w =? 0) || (h =? 0)) then m
  else
    let pw := Z.shiftr (w + 3) 2 in
    mk_CSIMDVectorMatrix w h pw
      (if (w =? 0) || (h =? 0) then [] else repeat fresh (Z.to_nat (pw * h))).

(** ** Lights and their incremental state *)

(** Modelled from the spec: the light types of the material system are not
    part of this file, which names [MATERIAL_LIGHT_DIRECTIONAL] alone;
    section 3 has a "type tag (directional vs positional)". *)
Inductive LightType_t : Type :=
| MATERIAL_LIGHT_DISABLE
| MATERIAL_LIGHT_POINT
| MATERIAL_LIGHT_DIRECTIONAL
| MATERIAL_LIGHT_SPOT.

Definition LightType_eqb (a b : LightType_t) : bool :=
  match a, b with
  | MATERIAL_LIGHT_DISABLE, MATERIAL_LIGHT_DISABLE
  | MATERIAL_LIGHT_POINT, MATERIAL_LIGHT_POINT
  | MATERIAL_LIGHT_DIRECTIONAL, MATERIAL_LIGHT_DIRECTIONAL
  | MATERIAL_LIGHT_SPOT, MATERIAL_LIGHT_SPOT => true
  | _, _ => false
  end.

(** Modelled from the spec: [CLightingPreviewLightDescription] is declared
    in lpreview_thread.h, not part of this file; the members are those this
    file reads and section 3 lists.  [m_pIncrementalInfo] is the address
    of a record in the engine's store of incremental records, [None] for
    nullptr.  [m_Params] stands for the members of the description that only
    the light evaluation reads. *)
Record CLightingPreviewLightDescription : Type := mk_LightDescription {
  m_Type : LightType_t;
  m_Color : Vector;
  m_Position : Vector;
  m_Params : list float;
  m_nObjectID : Z;
  m_pIncrementalInfo : option nat
}.

Inductive IncrementalLightState : Type :=
| INCR_STATE_NO_RESULTS
| INCR_STATE_PARTIAL_RESULTS
| INCR_STATE_NEW
| INCR_STATE_HAVE_FULL_RESULTS.

(** The value of the enumerator. *)
Definition state_value (s : IncrementalLightState) : Z :=
  match s with
  | INCR_STATE_NO_RESULTS => 0
  | INCR_STATE_PARTIAL_RESULTS => 1
  | INCR_STATE_NEW => 2
  | INCR_STATE_HAVE_FULL_RESULTS => 3
  end.

Definition state_eqb (a b : IncrementalLightState) : bool := state_value a =? state_value b.

(** [CIncrementalLightInfo].  [m_pNext] is implicit in the order of the
    engine's store.  [m_pLight] points into the current light list; the
    members of a description that are read through it ([m_Position]) never
    change once the list has arrived, so the pointer is kept as the
    description it points to, [None] for nullptr. *)
Record CIncrementalLightInfo : Type := mk_IncrementalLightInfo {
  m_pLight : option CLightingPreviewLightDescription;
  info_nObjectID : Z;
  m_PartialResultsStage : Z;
  m_eIncrState : IncrementalLightState;
  m_CalculatedContribution : CSIMDVectorMatrix;
  m_fTotalContribution : float;
  m_fDistanceToEye : float;
  m_nMostRecentNonZeroContributionTimeStamp : Z
}.

(** The constructor. *)
Definition new_CIncrementalLightInfo : CIncrementalLightInfo :=
  {| m_pLight := None;
     info_nObjectID := -1;
     m_PartialResultsStage := 0;
     m_eIncrState := INCR_STATE_NEW;
     m_CalculatedContribution := empty_matrix;
     m_fTotalContribution := F32.zero;
     m_fDistanceToEye := F32.zero;
     m_nMostRecentNonZeroContributionTimeStamp := 0 |}.

Definition set_matrix (m : CSIMDVectorMatrix) (i : CIncrementalLightInfo) : CIncrementalLightInfo :=
  {| m_pLight := m_pLight i; info_nObjectID := info_nObjectID i;
     m_PartialResultsStage := m_PartialResultsStage i; m_eIncrState := m_eIncrState i;
     m_CalculatedContribution := m;
     m_fTotalContribution := m_fTotalContribution i; m_fDistanceToEye := m_fDistanceToEye i;
     m_nMostRecentNonZeroContributionTimeStamp := m_nMostRecentNonZeroContributionTimeStamp i |}.

Definition set_state (s : IncrementalLightState) (i : CIncrementalLightInfo) : CIncrementalLightInfo :=
  {| m_pLight := m_pLight i; info_nObjectID := info_nObjectID i;
     m_PartialResultsStage := m_PartialResultsStage i; m_eIncrState := s;
     m_CalculatedContribution := m_CalculatedContribution i;
     m_fTotalContribution := m_fTotalContribution i; m_fDistanceToEye := m_fDistanceToEye i;
     m_nMostRecentNonZeroContributionTimeStamp := m_nMostRecentNonZeroContributionTimeStamp i |}.

Definition set_stage (k : Z) (i : CIncrementalLightInfo) : CIncrementalLightInfo :=
  {| m_pLight := m_pLight i; info_nObjectID := info_nObjectID i;
     m_PartialResultsStage := k; m_eIncrState := m_eIncrState i;
     m_CalculatedContribution := m_CalculatedContribution i;
     m_fTotalContribution := m_fTotalContribution i; m_fDistanceToEye := m_fDistanceToEye i;
     m_nMostRecentNonZeroContributionTimeStamp := m_nMostRecentNonZeroContributionTimeStamp i |}.

Definition set_total (t : float) (i : CIncrementalLightInfo) : CIncrementalLightInfo :=
  {| m_pLight := m_pLight i; info_nObjectID := info_nObjectID i;
     m_PartialResultsStage := m_PartialResultsStage i; m_eIncrState := m_eIncrState i;
     m_CalculatedContribution := m_CalculatedContribution i;
     m_fTotalContribution := t; m_fDistanceToEye := m_fDistanceToEye i;
     m_nMostRecentNonZeroContributionTimeStamp := m_nMostRecentNonZeroContributionTimeStamp i |}.

Definition set_distance (d : float) (i : CIncrementalLightInfo) : CIncrementalLightInfo :=
  {| m_pLight := m_pLight i; info_nObjectID := info_nObjectID i;
     m_PartialResultsStage := m_PartialResultsStage i; m_eIncrState := m_eIncrState i;
     m_CalculatedContribution := m_CalculatedContribution i;
     m_fTotalContribution := m_fTotalContribution i; m_fDistanceToEye := d;
     m_nMostRecentNonZeroContributionTimeStamp := m_nMostRecentNonZeroContributionTimeStamp i |}.

Definition set_timestamp (t : Z) (i : CIncrementalLightInfo) : CIncrementalLightInfo :=
  {| m_pLight := m_pLight i; info_nObjectID := info_nObjectID i;
     m_PartialResultsStage := m_PartialResultsStage i; m_eIncrState := m_eIncrState i;
     m_CalculatedContribution := m_CalculatedContribution i;
     m_fTotalContribution := m_fTotalContribution i; m_fDistanceToEye := m_fDistanceToEye i;
     m_nMostRecentNonZeroContributionTimeStamp := t |}.

Definition set_pLight (l : CLightingPreviewLightDescription) (i : CIncrementalLightInfo)
  : CIncrementalLightInfo :=
  {| m_pLight := Some l; info_nObjectID := info_nObjectID i;
     m_PartialResultsStage := m_PartialResultsStage i; m_eIncrState := m_eIncrState i;
     m_CalculatedContribution := m_CalculatedContribution i;
     m_fTotalContribution := m_fTotalContribution i; m_fDistanceToEye := m_fDistanceToEye i;
     m_nMostRecentNonZeroContributionTimeStamp := m_nMostRecentNonZeroContributionTimeStamp i |}.

Definition set_ObjectID (id : Z) (i : CIncrementalLightInfo) : CIncrementalLightInfo :=
  {| m_pLight := m_pLight i; info_nObjectID := id;
     m_PartialResultsStage := m_PartialResultsStage i; m_eIncrState := m_eIncrState i;
     m_CalculatedContribution := m_CalculatedContribution i;
     m_fTotalContribution := m_fTotalContribution i; m_fDistanceToEye := m_fDistanceToEye i;
     m_nMostRecentNonZeroContributionTimeStamp := m_nMostRecentNonZeroContributionTimeStamp i |}.

(** [CIncrementalLightInfo::DiscardResults]. *)
Definition Info_DiscardResults (fresh : FourVectors) (i : CIncrementalLightInfo)
  : CIncrementalLightInfo :=
  let i := set_matrix (SetSize fresh 0 0 (m_CalculatedContribution i)) i in
  if negb (state_eqb (m_eIncrState i) INCR_STATE_NEW)
  then set_state INCR_STATE_NO_RESULTS i
  else i.

(** [CIncrementalLightInfo::ClearIncremental]. *)
Definition ClearIncremental (fresh : FourVectors) (i : CIncrementalLightInfo)
  : CIncrementalLightInfo :=
  Info_DiscardResults fresh (set_state INCR_STATE_NEW i).

(** [CIncrementalLightInfo::HasWorkToDo]. *)
Definition HasWorkToDo (i : CIncrementalLightInfo) : bool :=
  negb (state_eqb (m_eIncrState i) INCR_STATE_HAVE_FULL_RESULTS).

(** ** The ray tracing environment *)

(** Modelled from the spec: [RayTracingEnvironment] is the ray tracer's and
    not part of this file; section 2 has it hold "a triangle set".  One
    [AddTriangle(id, v1, v2, v3, color)]: *)
Record Triangle : Type := mk_Triangle {
  tri_id : Z; tri_v1 : Vector; tri_v2 : Vector; tri_v3 : Vector; tri_color : Vector
}.

(** [RayTracingEnvironment], as far as this file fills it: the triangles
    in the order they were added. *)
Record RayTracingEnvironment : Type := mk_RayTracingEnvironment {
  env_triangles : list Triangle
}.

Definition AddTriangle (t : Triangle) (env : RayTracingEnvironment) : RayTracingEnvironment :=
  mk_RayTracingEnvironment (env_triangles env ++ [t]).

(** ** The engine *)

(** [CLightingPreviewThread].  [m_pIncrementalLightInfoList] is the store of
    incremental records: the address of a record is its position, a new
    record is added at the end, and the linked list of the source runs from
    the last position (its head) down to position 0.  [m_Tables] holds
    [m_LineMask] and [m_ClosestLineOffset]. *)
Record CLightingPreviewThread : Type := mk_CLightingPreviewThread {
  m_pLightList : option (list CLightingPreviewLightDescription);
  m_Positions : CSIMDVectorMatrix;
  m_Normals : CSIMDVectorMatrix;
  m_Albedos : CSIMDVectorMatrix;
  m_ResultImage : CSIMDVectorMatrix;
  m_pRtEnv : option RayTracingEnvironment;
  m_pIncrementalLightInfoList : list CIncrementalLightInfo;
  m_bAccStructureBuilt : bool;
  m_LastEyePosition : Vector;
  m_bResultChangedSinceLastSend : bool;
  m_fLastSendTime : float;
  m_Tables : LineSchedule.tables;
  m_nBitmapGenerationCounter : Z;
  m_nContributionCounter : Z;
  m_MinViewCoords : Vector;
  m_MaxViewCoords : Vector
}.

Definition set_m_pLightList (v : option (list CLightingPreviewLightDescription)) (st : CLightingPreviewThread)
  : CLightingPreviewThread :=
  {| m_pLightList := v; m_Positions := m_Positions st; m_Normals := m_Normals st;
     m_Albedos := m_Albedos st; m_ResultImage := m_ResultImage st; m_pRtEnv := m_pRtEnv st;
     m_pIncrementalLightInfoList := m_pIncrementalLightInfoList st;
     m_bAccStructureBuilt := m_bAccStructureBuilt st;
     m_LastEyePosition := m_LastEyePosition st;
     m_bResultChangedSinceLastSend := m_bResultChangedSinceLastSend st;
     m_fLastSendTime := m_fLastSendTime st; m_Tables := m_Tables st;
     m_nBitmapGenerationCounter := m_nBitmapGenerationCounter st;
     m_nContributionCounter := m_nContributionCounter st;
     m_MinViewCoords := m_MinViewCoords st; m_MaxViewCoords := m_MaxViewCoords st |}.

Definition set_m_Positions (v : CSIMDVectorMatrix) (st : CLightingPreviewThread)
  : CLightingPreviewThread :=
  {| m_pLightList := m_pLightList st; m_Positions := v; m_Normals := m_Normals st;
     m_Albedos := m_Albedos st; m_ResultImage := m_ResultImage st; m_pRtEnv := m_pRtEnv st;
     m_pIncrementalLightInfoList := m_pIncrementalLightInfoList st;
     m_bAccStructureBuilt := m_bAccStructureBuilt st;
     m_LastEyePosition := m_LastEyePosition st;
     m_bResultChangedSinceLastSend := m_bResultChangedSinceLastSend st;
     m_fLastSendTime := m_fLastSendTime st; m_Tables := m_Tables st;
     m_nBitmapGenerationCounter := m_nBitmapGenerationCounter st;
     m_nContributionCounter := m_nContributionCounter st;
     m_MinViewCoords := m_MinViewCoords st; m_MaxViewCoords := m_MaxViewCoords st |}.

Definition set_m_Normals (v : CSIMDVectorMatrix) (st : CLightingPreviewThread)
  : CLightingPreviewThread :=
  {| m_pLightList := m_pLightList st; m_Positions := m_Positions st; m_Normals := v;
     m_Albedos := m_Albedos st; m_ResultImage := m_ResultImage st; m_pRtEnv := m_pRtEnv st;
     m_pIncrementalLightInfoList := m_pIncrementalLightInfoList st;
     m_bAccStructureBuilt := m_bAccStructureBuilt st;
     m_LastEyePosition := m_LastEyePosition st;
     m_bResultChangedSinceLastSend := m_bResultChangedSinceLastSend st;
     m_fLastSendTime := m_fLastSendTime st; m_Tables := m_Tables st;
     m_nBitmapGenerationCounter := m_nBitmapGenerationCounter st;
     m_nContributionCounter := m_nContributionCounter st;
     m_MinViewCoords := m_MinViewCoords st; m_MaxViewCoords := m_MaxViewCoords st |}.

Definition set_m_Albedos (v : CSIMDVectorMatrix) (st : CLightingPreviewThread)
  : CLightingPreviewThread :=
  {| m_pLightList := m_pLightList st; m_Positions := m_Positions st;
     m_Normals := m_Normals st; m_Albedos := v; m_ResultImage := m_ResultImage st;
     m_pRtEnv := m_pRtEnv st; m_pIncrementalLightInfoList := m_pIncrementalLightInfoList st;
     m_bAccStructureBuilt := m_bAccStructureBuilt st;
     m_LastEyePosition := m_LastEyePosition st;
     m_bResultChangedSinceLastSend := m_bResultChangedSinceLastSend st;
     m_fLastSendTime := m_fLastSendTime st; m_Tables := m_Tables st;
     m_nBitmapGenerationCounter := m_nBitmapGenerationCounter st;
     m_nContributionCounter := m_nContributionCounter st;
     m_MinViewCoords := m_MinViewCoords st; m_MaxViewCoords := m_MaxViewCoords st |}.

Definition set_m_ResultImage (v : CSIMDVectorMatrix) (st : CLightingPreviewThread)
  : CLightingPreviewThread :=
  {| m_pLightList := m_pLightList st; m_Positions := m_Positions st;
     m_Normals := m_Normals st; m_Albedos := m_Albedos st; m_ResultImage := v;
     m_pRtEnv := m_pRtEnv st; m_pIncrementalLightInfoList := m_pIncrementalLightInfoList st;
     m_bAccStructureBuilt := m_bAccStructureBuilt st;
     m_LastEyePosition := m_LastEyePosition st;
     m_bResultChangedSinceLastSend := m_bResultChangedSinceLastSend st;
     m_fLastSendTime := m_fLastSendTime st; m_Tables := m_Tables st;
     m_nBitmapGenerationCounter := m_nBitmapGenerationCounter st;
     m_nContributionCounter := m_nContributionCounter st;
     m_MinViewCoords := m_MinViewCoords st; m_MaxViewCoords := m_MaxViewCoords st |}.

Definition set_m_pRtEnv (v : option RayTracingEnvironment) (st : CLightingPreviewThread)
  : CLightingPreviewThread :=
  {| m_pLightList := m_pLightList st; m_Positions := m_Positions st;
     m_Normals := m_Normals st; m_Albedos := m_Albedos st;
     m_ResultImage := m_ResultImage st; m_pRtEnv := v;
     m_pIncrementalLightInfoList := m_pIncrementalLightInfoList st;
     m_bAccStructureBuilt := m_bAccStructureBuilt st;
     m_LastEyePosition := m_LastEyePosition st;
     m_bResultChangedSinceLastSend := m_bResultChangedSinceLastSend st;
     m_fLastSendTime := m_fLastSendTime st; m_Tables := m_Tables st;
     m_nBitmapGenerationCounter := m_nBitmapGenerationCounter st;
     m_nContributionCounter := m_nContributionCounter st;
     m_MinViewCoords := m_MinViewCoords st; m_MaxViewCoords := m_MaxViewCoords st |}.

Definition set_m_pIncrementalLightInfoList (v : list CIncrementalLightInfo) (st : CLightingPreviewThread)
  : CLightingPreviewThread :=
  {| m_pLightList := m_pLightList st; m_Positions := m_Positions st;
     m_Normals := m_Normals st; m_Albedos := m_Albedos st;
     m_ResultImage := m_ResultImage st; m_pRtEnv := m_pRtEnv st;
     m_pIncrementalLightInfoList := v; m_bAccStructureBuilt := m_bAccStructureBuilt st;
     m_LastEyePosition := m_LastEyePosition st;
     m_bResultChangedSinceLastSend := m_bResultChangedSinceLastSend st;
     m_fLastSendTime := m_fLastSendTime st; m_Tables := m_Tables st;
     m_nBitmapGenerationCounter := m_nBitmapGenerationCounter st;
     m_nContributionCounter := m_nContributionCounter st;
     m_MinViewCoords := m_MinViewCoords st; m_MaxViewCoords := m_MaxViewCoords st |}.

Definition set_m_bAccStructureBuilt (v : bool) (st : CLightingPreviewThread)
  : CLightingPreviewThread :=
  {| m_pLightList := m_pLightList st; m_Positions := m_Positions st;
     m_Normals := m_Normals st; m_Albedos := m_Albedos st;
     m_ResultImage := m_ResultImage st; m_pRtEnv := m_pRtEnv st;
     m_pIncrementalLightInfoList := m_pIncrementalLightInfoList st;
     m_bAccStructureBuilt := v; m_LastEyePosition := m_LastEyePosition st;
     m_bResultChangedSinceLastSend := m_bResultChangedSinceLastSend st;
     m_fLastSendTime := m_fLastSendTime st; m_Tables := m_Tables st;
     m_nBitmapGenerationCounter := m_nBitmapGenerationCounter st;
     m_nContributionCounter := m_nContributionCounter st;
     m_MinViewCoords := m_MinViewCoords st; m_MaxViewCoords := m_MaxViewCoords st |}.

Definition set_m_LastEyePosition (v : Vector) (st : CLightingPreviewThread)
  : CLightingPreviewThread :=
  {| m_pLightList := m_pLightList st; m_Positions := m_Positions st;
     m_Normals := m_Normals st; m_Albedos := m_Albedos st;
     m_ResultImage := m_ResultImage st; m_pRtEnv := m_pRtEnv st;
     m_pIncrementalLightInfoList := m_pIncrementalLightInfoList st;
     m_bAccStructureBuilt := m_bAccStructureBuilt st; m_LastEyePosition := v;
     m_bResultChangedSinceLastSend := m_bResultChangedSinceLastSend st;
     m_fLastSendTime := m_fLastSendTime st; m_Tables := m_Tables st;
     m_nBitmapGenerationCounter := m_nBitmapGenerationCounter st;
     m_nContributionCounter := m_nContributionCounter st;
     m_MinViewCoords := m_MinViewCoords st; m_MaxViewCoords := m_MaxViewCoords st |}.

Definition set_m_bResultChangedSinceLastSend (v : bool) (st : CLightingPreviewThread)
  : CLightingPreviewThread :=
  {| m_pLightList := m_pLightList st; m_Positions := m_Positions st;
     m_Normals := m_Normals st; m_Albedos := m_Albedos st;
     m_ResultImage := m_ResultImage st; m_pRtEnv := m_pRtEnv st;
     m_pIncrementalLightInfoList := m_pIncrementalLightInfoList st;
     m_bAccStructureBuilt := m_bAccStructureBuilt st;
     m_LastEyePosition := m_LastEyePosition st; m_bResultChangedSinceLastSend := v;
     m_fLastSendTime := m_fLastSendTime st; m_Tables := m_Tables st;
     m_nBitmapGenerationCounter := m_nBitmapGenerationCounter st;
     m_nContributionCounter := m_nContributionCounter st;
     m_MinViewCoords := m_MinViewCoords st; m_MaxViewCoords := m_MaxViewCoords st |}.

Definition set_m_fLastSendTime (v : float) (st : CLightingPreviewThread)
  : CLightingPreviewThread :=
  {| m_pLightList := m_pLightList st; m_Positions := m_Positions st;
     m_Normals := m_Normals st; m_Albedos := m_Albedos st;
     m_ResultImage := m_ResultImage st; m_pRtEnv := m_pRtEnv st;
     m_pIncrementalLightInfoList := m_pIncrementalLightInfoList st;
     m_bAccStructureBuilt := m_bAccStructureBuilt st;
     m_LastEyePosition := m_LastEyePosition st;
     m_bResultChangedSinceLastSend := m_bResultChangedSinceLastSend st;
     m_fLastSendTime := v; m_Tables := m_Tables st;
     m_nBitmapGenerationCounter := m_nBitmapGenerationCounter st;
     m_nContributionCounter := m_nContributionCounter st;
     m_MinViewCoords := m_MinViewCoords st; m_MaxViewCoords := m_MaxViewCoords st |}.

Definition set_m_nBitmapGenerationCounter (v : Z) (st : CLightingPreviewThread)
  : CLightingPreviewThread :=
  {| m_pLightList := m_pLightList st; m_Positions := m_Positions st;
     m_Normals := m_Normals st; m_Albedos := m_Albedos st;
     m_ResultImage := m_ResultImage st; m_pRtEnv := m_pRtEnv st;
     m_pIncrementalLightInfoList := m_pIncrementalLightInfoList st;
     m_bAccStructureBuilt := m_bAccStructureBuilt st;
     m_LastEyePosition := m_LastEyePosition st;
     m_bResultChangedSinceLastSend := m_bResultChangedSinceLastSend st;
     m_fLastSendTime := m_fLastSendTime st; m_Tables := m_Tables st;
     m_nBitmapGenerationCounter := v; m_nContributionCounter := m_nContributionCounter st;
     m_MinViewCoords := m_MinViewCoords st; m_MaxViewCoords := m_MaxViewCoords st |}.

Definition set_m_nContributionCounter (v : Z) (st : CLightingPreviewThread)
  : CLightingPreviewThread :=
  {| m_pLightList := m_pLightList st; m_Positions := m_Positions st;
     m_Normals := m_Normals st; m_Albedos := m_Albedos st;
     m_ResultImage := m_ResultImage st; m_pRtEnv := m_pRtEnv st;
     m_pIncrementalLightInfoList := m_pIncrementalLightInfoList st;
     m_bAccStructureBuilt := m_bAccStructureBuilt st;
     m_LastEyePosition := m_LastEyePosition st;
     m_bResultChangedSinceLastSend := m_bResultChangedSinceLastSend st;
     m_fLastSendTime := m_fLastSendTime st; m_Tables := m_Tables st;
     m_nBitmapGenerationCounter := m_nBitmapGenerationCounter st;
     m_nContributionCounter := v; m_MinViewCoords := m_MinViewCoords st;
     m_MaxViewCoords := m_MaxViewCoords st |}.

Definition set_m_MinViewCoords (v : Vector) (st : CLightingPreviewThread)
  : CLightingPreviewThread :=
  {| m_pLightList := m_pLightList st; m_Positions := m_Positions st;
     m_Normals := m_Normals st; m_Albedos := m_Albedos st;
     m_ResultImage := m_ResultImage st; m_pRtEnv := m_pRtEnv st;
     m_pIncrementalLightInfoList := m_pIncrementalLightInfoList st;
     m_bAccStructureBuilt := m_bAccStructureBuilt st;
     m_LastEyePosition := m_LastEyePosition st;
     m_bResultChangedSinceLastSend := m_bResultChangedSinceLastSend st;
     m_fLastSendTime := m_fLastSendTime st; m_Tables := m_Tables st;
     m_nBitmapGenerationCounter := m_nBitmapGenerationCounter st;
     m_nContributionCounter := m_nContributionCounter st; m_MinViewCoords := v;
     m_MaxViewCoords := m_MaxViewCoords st |}.

Definition set_m_MaxViewCoords (v : Vector) (st : CLightingPreviewThread)
  : CLightingPreviewThread :=
  {| m_pLightList := m_pLightList st; m_Positions := m_Positions st;
     m_Normals := m_Normals st; m_Albedos := m_Albedos st;
     m_ResultImage := m_ResultImage st; m_pRtEnv := m_pRtEnv st;
     m_pIncrementalLightInfoList := m_pIncrementalLightInfoList st;
     m_bAccStructureBuilt := m_bAccStructureBuilt st;
     m_LastEyePosition := m_LastEyePosition st;
     m_bResultChangedSinceLastSend := m_bResultChangedSinceLastSend st;
     m_fLastSendTime := m_fLastSendTime st; m_Tables := m_Tables st;
     m_nBitmapGenerationCounter := m_nBitmapGenerationCounter st;
     m_nContributionCounter := m_nContributionCounter st;
     m_MinViewCoords := m_MinViewCoords st; m_MaxViewCoords := v |}.

(** ** What the engine calls and this file does not define *)

Class External : Type := {
  (** content of freshly allocated matrix storage *)
  uninit_cell : FourVectors;
  (** mathlib: approximate reciprocal and the length of four vectors *)
  ReciprocalSIMD : fltx4 -> fltx4;
  FourVectors_length : FourVectors -> fltx4;
  (** mathlib: [Vector::DistTo], [Vector::NormalizeInPlace] *)
  DistTo : Vector -> Vector -> float;
  NormalizeInPlace : Vector -> Vector;
  (** mathlib: gamma curve, and the conversion of a [float] to [uint8] *)
  LinearToGammaFullRange : float -> float;
  uint8_of_float : float -> Z;
  (** mathlib: [CSIMDVectorMatrix::CreateFromRGBA_FloatImageData] *)
  CreateFromRGBA_FloatImageData : Z -> Z -> list float -> CSIMDVectorMatrix;
  (** the light evaluation: light, positions, normals, accumulator, shadow flag *)
  ComputeLightAtPoints :
    CLightingPreviewLightDescription -> FourVectors -> FourVectors -> FourVectors -> bool
    -> FourVectors;
  (** raytrace: environment, rays, tmin, tmax *)
  SetupAccelerationStructure : RayTracingEnvironment -> RayTracingEnvironment;
  Trace4Rays : RayTracingEnvironment -> FourRays -> fltx4 -> fltx4 -> RayTracingResult
}.

(** The members as the constructor sets them; [uninit] stands for the three
    [Vector] members it leaves unset, and the matrices are
    default-constructed. *)
Definition initial_members (t : LineSchedule.tables) (uninit : Vector) : CLightingPreviewThread :=
  {| m_pLightList := None;
     m_Positions := empty_matrix; m_Normals := empty_matrix;
     m_Albedos := empty_matrix; m_ResultImage := empty_matrix;
     m_pRtEnv := None;
     m_pIncrementalLightInfoList := [];
     m_bAccStructureBuilt := false;
     m_LastEyePosition := uninit;
     m_bResultChangedSinceLastSend := false;
     m_fLastSendTime := F32.c_minus_1e6;
     m_Tables := t;
     m_nBitmapGenerationCounter := -1;
     m_nContributionCounter := 1000000;
     m_MinViewCoords := uninit; m_MaxViewCoords := uninit |}.

(** The constructor: the members, then [InitIncrementalInformation]. *)
Definition new_CLightingPreviewThread (uninit : Vector) : option CLightingPreviewThread :=
  match LineSchedule.InitIncrementalInformation with
  | None => None
  | Some t => Some (initial_members t uninit)
  end.

(** [*p] for a light's [m_pIncrementalInfo]. *)
Definition get_info (infos : list CIncrementalLightInfo) (p : option nat)
  : result CIncrementalLightInfo :=
  match p with
  | None => Fault NullIncrementalInfo
  | Some a => match infos !! a with
              | Some i => Ok i
              | None => Fault NullIncrementalInfo
              end
  end.

(** [p->member = ...], as an update [f] of the record at [p]. *)
Definition update_info (infos : list CIncrementalLightInfo) (p : option nat)
    (f : CIncrementalLightInfo -> CIncrementalLightInfo)
  : result (list CIncrementalLightInfo) :=
  match p with
  | None => Fault NullIncrementalInfo
  | Some a => match infos !! a with
              | Some i => Ok (<[a := f i]> infos)
              | None => Fault NullIncrementalInfo
              end
  end.

(** ** Priority of incremental records *)

Definition IsHighPriority (pLPV : CLightingPreviewThread) (self : CIncrementalLightInfo)
  : result bool :=
  if state_eqb (m_eIncrState self) INCR_STATE_NEW then
    match m_pLight self with
    | None => Fault NullLight
    | Some l => Ok (WithinAABox (m_Position l) (m_MinViewCoords pLPV) (m_MaxViewCoords pLPV))
    end
  else Ok false.

(** The value of a case label [a + 16 * b]. *)
Definition combo (a b : IncrementalLightState) : Z :=
  Int.add (state_value a) (Int.mul 16 (state_value b)).

Definition IsLowerPriorityThan (pLPV : CLightingPreviewThread)
    (self other : CIncrementalLightInfo) : result bool :=
  highpriority <-- IsHighPriority pLPV self ;;
  other_highpriority <-- IsHighPriority pLPV other ;;
  if highpriority && negb other_highpriority then Ok false
  else if other_highpriority && negb highpriority then Ok true
  else
    let state_combo := combo (m_eIncrState self) (m_eIncrState other) in
    let tc := m_fTotalContribution self in
    let otc := m_fTotalContribution other in
    let ts := m_nMostRecentNonZeroContributionTimeStamp self in
    let ots := m_nMostRecentNonZeroContributionTimeStamp other in
    if state_combo =? combo INCR_STATE_NEW INCR_STATE_NEW then
      Ok (F32.gtb (m_fDistanceToEye self) (m_fDistanceToEye other))
    else if state_combo =? combo INCR_STATE_NEW INCR_STATE_NO_RESULTS then
      Ok (F32.gtb otc F32.zero)
    else if state_combo =? combo INCR_STATE_NEW INCR_STATE_PARTIAL_RESULTS then
      Ok false
    else if state_combo =? combo INCR_STATE_PARTIAL_RESULTS INCR_STATE_NEW then
      Ok true
    else if state_combo =? combo INCR_STATE_NO_RESULTS INCR_STATE_NEW then
      Ok (F32.eqb tc F32.zero)
    else if state_combo =? combo INCR_STATE_PARTIAL_RESULTS INCR_STATE_PARTIAL_RESULTS then
      if F32.eqb tc F32.zero && F32.eqb otc F32.zero && (ots >? ts) then Ok true
      else if F32.eqb otc F32.zero && F32.gtb tc F32.zero then Ok false
      else if F32.eqb tc F32.zero && F32.gtb otc F32.zero then Ok true
      else if Int.abs (Int.sub (m_PartialResultsStage self) (m_PartialResultsStage other)) <=? 1
      then Ok (F32.ltb tc otc)
      else Ok (m_PartialResultsStage self >? m_PartialResultsStage other)
    else if state_combo =? combo INCR_STATE_PARTIAL_RESULTS INCR_STATE_NO_RESULTS then
      if F32.neb otc F32.zero then Ok true
      else if F32.eqb tc F32.zero && F32.eqb otc F32.zero then Ok (ots >? ts)
      else Ok (F32.ltb tc otc)
    else if state_combo =? combo INCR_STATE_NO_RESULTS INCR_STATE_PARTIAL_RESULTS then
      if F32.neb tc F32.zero then Ok false
      else if F32.eqb tc F32.zero && F32.eqb otc F32.zero then Ok (ots >? ts)
      else Ok (F32.ltb tc otc)
    else if state_combo =? Int.add (Int.mul (state_value INCR_STATE_NO_RESULTS) 16)
                                   (state_value INCR_STATE_NO_RESULTS) then
      if F32.eqb tc F32.zero && F32.eqb otc F32.zero then Ok (ots >? ts)
      else Ok (F32.ltb tc otc)
    else Ok false.

Section Engine.

Context `{External}.

(** ** Discarding results: [CLightingPreviewThread::DiscardResults]

    [now] is what [Plat_FloatTime()] returns at the call. *)

(** The loop that refreshes [m_fDistanceToEye] through each light's
    [m_pIncrementalInfo]. *)
Definition update_distance (eye : Vector) (l : CLightingPreviewLightDescription)
    (infos : list CIncrementalLightInfo) : result (list CIncrementalLightInfo) :=
  if LightType_eqb (m_Type l) MATERIAL_LIGHT_DIRECTIONAL
  then update_info infos (m_pIncrementalInfo l) (set_distance (F32.of_int 0))
  else update_info infos (m_pIncrementalInfo l) (set_distance (DistTo eye (m_Position l))).

Fixpoint update_distances (eye : Vector) (lights : list CLightingPreviewLightDescription)
    (infos : list CIncrementalLightInfo) : result (list CIncrementalLightInfo) :=
  match lights with
  | [] => Ok infos
  | l :: rest =>
      infos' <-- update_distance eye l infos ;;
      update_distances eye rest infos'
  end.

Definition DiscardResults (now : double) (st : CLightingPreviewThread)
  : result CLightingPreviewThread :=
  (* invalidate all per light result data *)
  let infos := map (Info_DiscardResults uninit_cell) (m_pIncrementalLightInfoList st) in
  (* bump time stamp *)
  let counter := Int.add (m_nContributionCounter st) 1 in
  (* update distances to lights *)
  infos <-- match m_pLightList st with
            | Some lights => update_distances (m_LastEyePosition st) lights infos
            | None => Ok infos
            end ;;
  Ok (set_m_fLastSendTime (F32.of_double (F64.sub now F64.c_9))
       (set_m_bResultChangedSinceLastSend true
         (set_m_nContributionCounter counter
           (set_m_pIncrementalLightInfoList infos st)))).

(** ** The shading kernel: [CalculateForLightTask] *)

(** The four rays from a group of pixels towards the light. *)
Definition shadow_rays (l : CLightingPreviewLightDescription) (pos : FourVectors)
  : FourRays * fltx4 :=
  let lpos := DuplicateVector (m_Position l) in
  let dir := FourVectors_sub lpos pos in
  let len := FourVectors_length dir in
  let dir := FourVectors_scale dir (ReciprocalSIMD len) in
  (* slide towards light to avoid self-intersection *)
  let org := FourVectors_add (FourVectors_scale_f dir F32.c_0_02) pos in
  (mk_FourRays org dir, len).

(** The arguments [TMin] and [TMax] of the call of [Trace4Rays]. *)
Definition trace_tmin : fltx4 := Four_Zeros.
Definition trace_tmax : fltx4 := ReplicateX4 F32.c_1e9.

(** The lanes to black out: no negative hit id and a hit nearer than the light. *)
Definition shadow_mask (r_rslt : RayTracingResult) (len : fltx4) : fltx4 :=
  _mm_andnot_si128 (_mm_cmplt_epi32 (HitIds r_rslt) _mm_setzero_si128)
                   (_mm_cmplt_ps (HitDistance r_rslt) len).

Definition apply_mask (mask : fltx4) (l_add : FourVectors) : FourVectors :=
  mk_FourVectors (AndNotSIMD mask (fx l_add)) (AndNotSIMD mask (fy l_add))
                 (AndNotSIMD mask (fz l_add)).

(** Brightness not above the threshold is dropped. *)
Definition suppress (l_add : FourVectors) : FourVectors :=
  let ThresholdBrightness := ReplicateX4 F32.c_threshold in
  mk_FourVectors (AndSIMD (fx l_add) (CmpGtSIMD (fx l_add) ThresholdBrightness))
                 (AndSIMD (fy l_add) (CmpGtSIMD (fy l_add) ThresholdBrightness))
                 (AndSIMD (fz l_add) (CmpGtSIMD (fz l_add) ThresholdBrightness)).

(** One group of four pixels: the value stored in the contribution matrix
    and the light added to the total of the line, if any is. *)
Definition shade_group (st : CLightingPreviewThread) (l : CLightingPreviewLightDescription)
    (x y : Z) : result (FourVectors * option FourVectors) :=
  pos <-- CompoundElement (m_Positions st) x y ;;
  normal <-- CompoundElement (m_Normals st) x y ;;
  let l_add := ComputeLightAtPoints l pos normal zero_vector false in
  let v_or := OrSIMD (fx l_add) (OrSIMD (fy l_add) (fz l_add)) in
  if negb (IsAllZeros v_or) then
    let '(myray, len) := shadow_rays l pos in
    env <-- match m_pRtEnv st with Some e => Ok e | None => Fault NullRtEnv end ;;
    let r_rslt := Trace4Rays env myray trace_tmin trace_tmax in
    let l_add := apply_mask (shadow_mask r_rslt len) l_add in
    albedo <-- CompoundElement (m_Albedos st) x y ;;
    Ok (l_add, Some (suppress (FourVectors_mul l_add albedo)))
  else Ok (l_add, None).

(** The loop over the groups of line [y]; the state is the matrix and
    [ThisLinesTotalLight]. *)
Definition shade_line (st : CLightingPreviewThread) (l : CLightingPreviewLightDescription)
    (y : Z) (rslt : CSIMDVectorMatrix) : result (CSIMDVectorMatrix * FourVectors) :=
  for_loop_r (Z.to_nat (m_nPaddedWidth rslt)) 0
    (fun x '(rslt, ThisLinesTotalLight) =>
       g <-- shade_group st l x y ;;
       rslt <-- set_CompoundElement rslt x y (fst g) ;;
       Ok (rslt, match snd g with
                 | Some l_add => FourVectors_add ThisLinesTotalLight l_add
                 | None => ThisLinesTotalLight
                 end))
    (rslt, zero_vector).

(** The loop over the lines; the state is the matrix, [total_light] and
    [work_line_number].  A line that is not in [calc_mask] only copies
    [LastLinesTotalLight] into a local that is not read again. *)
Definition task_line (st : CLightingPreviewThread) (nLineMask nLineMatch : Z)
    (l : CLightingPreviewLightDescription) (calc_mask : Z)
    (y : Z) (s : CSIMDVectorMatrix * FourVectors * Z)
  : result (CSIMDVectorMatrix * FourVectors * Z) :=
  let '(rslt, total_light, work_line_number) := s in
  let ybit := Int.shl 1 (Int.and y (Int.sub N_INCREMENTAL_STEPS 1)) in
  if Int.and ybit calc_mask =? 0 then Ok s
  else
    if Int.and work_line_number nLineMask =? nLineMatch then
      r <-- shade_line st l y rslt ;;
      Ok (fst r, FourVectors_add total_light (snd r), Int.add work_line_number 1)
    else Ok (rslt, total_light, Int.add work_line_number 1).

Definition sum_lanes (lmag : fltx4) : float :=
  F32.add (F32.add (F32.add (F32.of_bits (lane0 lmag)) (F32.of_bits (lane1 lmag)))
                   (F32.of_bits (lane2 lmag)))
          (F32.of_bits (lane3 lmag)).

(** [CalculateForLightTask]: the matrix it leaves and [*fContributionOut]. *)
Definition CalculateForLightTask (st : CLightingPreviewThread) (nLineMask nLineMatch : Z)
    (l : CLightingPreviewLightDescription) (calc_mask : Z) (rslt : CSIMDVectorMatrix)
  : result (CSIMDVectorMatrix * float) :=
  s <-- for_loop_r (Z.to_nat (m_nHeight rslt)) 0
          (task_line st nLineMask nLineMatch l calc_mask) (rslt, zero_vector, 0) ;;
  let '(rslt, total_light, _) := s in
  Ok (rslt, sum_lanes (FourVectors_length total_light)).

(** ** One refinement pass of a light: [CalculateForLight] *)

(** The four tasks between [BeginExecuteParallel] and [EndExecuteParallel].
    They read the same G-buffers and write lines of the matrix that no other
    task writes, so they are run here one after the other, in the order
    they are started.  The result is the matrix and the four magnitudes. *)
Definition fan_out (st : CLightingPreviewThread) (l : CLightingPreviewLightDescription)
    (calc_mask : Z) (rslt : CSIMDVectorMatrix) : result (CSIMDVectorMatrix * list float) :=
  r0 <-- CalculateForLightTask st 3 0 l calc_mask rslt ;;
  r1 <-- CalculateForLightTask st 3 1 l calc_mask (fst r0) ;;
  r2 <-- CalculateForLightTask st 3 2 l calc_mask (fst r1) ;;
  r3 <-- CalculateForLightTask st 3 3 l calc_mask (fst r2) ;;
  Ok (fst r3, [snd r0; snd r1; snd r2; snd r3]).

(** [for (const float& light : total_light) m_fTotalContribution += light],
    from 0.f. *)
Definition accumulate (total_light : list float) : float :=
  fold_left F32.add total_light F32.zero.

(** The level of the pass and the mask of the lines done before it. *)
Definition next_level (st : CLightingPreviewThread) (l_info : CIncrementalLightInfo)
  : result (Z * Z) :=
  if state_eqb (m_eIncrState l_info) INCR_STATE_PARTIAL_RESULTS then
    prev_msk <-- vec_get (LineSchedule.m_LineMask (m_Tables st)) (m_PartialResultsStage l_info) ;;
    Ok (Int.add 1 (m_PartialResultsStage l_info), prev_msk)
  else Ok (0, 0).

(** What follows the join: the bookkeeping on [l_info]. *)
Definition account (st : CLightingPreviewThread) (new_incr_level : Z)
    (rslt : CSIMDVectorMatrix) (total_light : list float) (l_info : CIncrementalLightInfo)
  : CIncrementalLightInfo :=
  let l_info := set_total (accumulate total_light) (set_matrix rslt l_info) in
  (* throw away light array if no contribution *)
  let l_info :=
    if F32.eqb (m_fTotalContribution l_info) F32.zero
    then set_matrix (SetSize uninit_cell 0 0 (m_CalculatedContribution l_info)) l_info
    else set_timestamp (m_nContributionCounter st) l_info in
  let l_info := set_stage new_incr_level l_info in
  if new_incr_level =? Int.sub N_INCREMENTAL_STEPS 1
  then set_state INCR_STATE_HAVE_FULL_RESULTS l_info
  else set_state INCR_STATE_PARTIAL_RESULTS l_info.

Definition build_acceleration (st : CLightingPreviewThread) : CLightingPreviewThread :=
  match m_pRtEnv st with
  | Some env =>
      if negb (m_bAccStructureBuilt st)
      then set_m_pRtEnv (Some (SetupAccelerationStructure env)) (set_m_bAccStructureBuilt true st)
      else st
  | None => st
  end.

Definition CalculateForLight (st : CLightingPreviewThread) (l : CLightingPreviewLightDescription)
  : result CLightingPreviewThread :=
  let st := build_acceleration st in
  l_info <-- get_info (m_pIncrementalLightInfoList st) (m_pIncrementalInfo l) ;;
  let rslt := SetSize uninit_cell (m_nWidth (m_Albedos st)) (m_nHeight (m_Albedos st))
                (m_CalculatedContribution l_info) in
  (* figure out which lines need to be calculated *)
  lv <-- next_level st l_info ;;
  let '(new_incr_level, prev_msk) := lv in
  new_msk <-- vec_get (LineSchedule.m_LineMask (m_Tables st)) new_incr_level ;;
  let calc_mask := Int.and new_msk (Int.not prev_msk) in
  r <-- fan_out st l calc_mask rslt ;;
  infos <-- update_info (m_pIncrementalLightInfoList st) (m_pIncrementalInfo l)
              (account st new_incr_level (fst r) (snd r)) ;;
  Ok (set_m_pIncrementalLightInfoList infos st).

End Engine.

(** ** Messages *)

(** Modelled from the spec: the messages are declared in lpreview_thread.h,
    not part of this file; the members are those this file reads and
    section 6 lists.  A deferred rendering bitmap of a G-buffers message: *)
Record FloatBitMap_t : Type := mk_FloatBitMap {
  Width : Z; Height : Z; RGBAData : list float
}.

(** [MessageToLPreview], by [m_MsgType], with the members each type uses. *)
Inductive MessageToLPreview : Type :=
| LPREVIEW_MSG_EXIT
| LPREVIEW_MSG_LIGHT_DATA (m_pLightList : list CLightingPreviewLightDescription)
                          (m_EyePosition : Vector)
| LPREVIEW_MSG_GEOM_DATA (m_pShadowTriangleList : list Vector)
| LPREVIEW_MSG_G_BUFFERS (m_pDefferedRenderingBMs : FloatBitMap_t * FloatBitMap_t * FloatBitMap_t)
                         (m_EyePosition : Vector) (m_nBitmapGenerationCounter : Z).

(** The output bitmap: RGBA8888, four bytes a pixel, row after row. *)
Record Bitmap_t : Type := mk_Bitmap { bm_Width : Z; bm_Height : Z; bm_Pixels : list Z }.

(** [MessageFromLPreview] of type [LPREVIEW_MSG_DISPLAY_RESULT]. *)
Record MessageFromLPreview : Type := mk_DisplayResult {
  m_pBitmapToDisplay : Bitmap_t;
  msg_nBitmapGenerationCounter : Z
}.

Section Scheduler.

Context `{External}.

(** ** [HandleGeomMessage] *)

Definition add_triangle_at (tris : list Vector) (j : Z) (env : RayTracingEnvironment)
  : result RayTracingEnvironment :=
  let i := Int.mul 3 j in
  v1 <-- vec_get tris i ;;
  v2 <-- vec_get tris (Int.add 1 i) ;;
  v3 <-- vec_get tris (Int.add 2 i) ;;
  Ok (AddTriangle (mk_Triangle i v1 v2 v3 (mk_Vector F32.c_0_5 F32.c_0_5 F32.c_0_5)) env).

(** [for (i = 0; i < tris.Count(); i += 3)] runs once for every started
    group of three. *)
Definition build_environment (tris : list Vector) : result (option RayTracingEnvironment) :=
  match tris with
  | [] => Ok None
  | _ =>
      env <-- for_loop_r (Z.to_nat ((Z.of_nat (length tris) + 2) / 3)) 0
                (add_triangle_at tris) (mk_RayTracingEnvironment []) ;;
      Ok (Some env)
  end.

Definition HandleGeomMessage (tris : list Vector) (now : double) (st : CLightingPreviewThread)
  : result CLightingPreviewThread :=
  env <-- build_environment tris ;;
  DiscardResults now (set_m_bAccStructureBuilt false (set_m_pRtEnv env st)).

(** ** [CalculateSceneBounds] and [HandleGBuffersMessage] *)

Definition bounds_body (positions : CSIMDVectorMatrix) (y x : Z) (b : FourVectors * FourVectors)
  : result (FourVectors * FourVectors) :=
  let '(minbound, maxbound) := b in
  c <-- vec_get (m_pData positions) (m_nPaddedWidth positions * y + x) ;;
  Ok (mk_FourVectors (MinSIMD (fx c) (fx minbound)) (MinSIMD (fy c) (fy minbound))
                     (MinSIMD (fz c) (fz minbound)),
      mk_FourVectors (MaxSIMD (fx c) (fx maxbound)) (MaxSIMD (fy c) (fy maxbound))
                     (MaxSIMD (fz c) (fz maxbound))).

Definition CalculateSceneBounds (st : CLightingPreviewThread) : result CLightingPreviewThread :=
  let eye4 := DuplicateVector (m_LastEyePosition st) in
  let positions := m_Positions st in
  b <-- for_loop_r (Z.to_nat (m_nHeight positions)) 0
          (fun y b => for_loop_r (Z.to_nat (m_nPaddedWidth positions)) 0
                        (bounds_body positions y) b)
          (eye4, eye4) ;;
  let '(minbound, maxbound) := b in
  let lo := for_loop 3 1 (fun v acc => Vector_Min acc (FourVectors_Vec minbound v))
              (FourVectors_Vec minbound 0) in
  let hi := for_loop 3 1 (fun v acc => Vector_Max acc (FourVectors_Vec maxbound v))
              (FourVectors_Vec maxbound 0) in
  Ok (set_m_MaxViewCoords hi (set_m_MinViewCoords lo st)).

(** [n_gbufs_queued], a counter shared with the host, is not part of the
    engine and is left out. *)
Definition HandleGBuffersMessage (bms : FloatBitMap_t * FloatBitMap_t * FloatBitMap_t)
    (eye : Vector) (generation : Z) (st : CLightingPreviewThread)
  : result CLightingPreviewThread :=
  let '(bm0, bm1, bm2) := bms in
  let st := set_m_Albedos
              (CreateFromRGBA_FloatImageData (Width bm0) (Height bm0) (RGBAData bm0)) st in
  let st := set_m_Normals
              (CreateFromRGBA_FloatImageData (Width bm1) (Height bm1) (RGBAData bm1)) st in
  let st := set_m_Positions
              (CreateFromRGBA_FloatImageData (Width bm2) (Height bm2) (RGBAData bm2)) st in
  let st := set_m_LastEyePosition eye st in
  let st := set_m_nBitmapGenerationCounter generation st in
  CalculateSceneBounds st.

(** ** [UpdateIncrementalForNewLightList] *)

(** The walk [for (i = m_pIncrementalLightInfoList; i; i = i->m_pNext)] from
    the head: the first record with the object id, by its address. *)
Fixpoint find_info (infos : list CIncrementalLightInfo) (id : Z) (n : nat) : option nat :=
  match n with
  | O => None
  | S a =>
      match infos !! a with
      | Some i => if info_nObjectID i =? id then Some a else find_info infos id a
      | None => find_info infos id a
      end
  end.

Definition set_pIncrementalInfo (p : option nat) (l : CLightingPreviewLightDescription)
  : CLightingPreviewLightDescription :=
  {| m_Type := m_Type l; m_Color := m_Color l; m_Position := m_Position l;
     m_Params := m_Params l; m_nObjectID := m_nObjectID l; m_pIncrementalInfo := p |}.

(** The body of the loop for the description at index [i]; the state is the
    light list and the store of records. *)
Definition bind_light (i : Z)
    (s : list CLightingPreviewLightDescription * list CIncrementalLightInfo)
  : result (list CLightingPreviewLightDescription * list CIncrementalLightInfo) :=
  let '(lights, infos) := s in
  descr <-- vec_get lights i ;;
  (* see if we know about this light *)
  let '(descr, infos) :=
    match find_info infos (m_nObjectID descr) (length infos) with
    | Some a =>
        let descr := set_pIncrementalInfo (Some a) descr in
        (descr, alter (set_pLight descr) a infos)
    | None => (descr, infos)
    end in
  let '(descr, infos) :=
    match m_pIncrementalInfo descr with
    | None =>
        let descr := set_pIncrementalInfo (Some (length infos)) descr in
        (descr,
         infos ++ [set_pLight descr (set_ObjectID (m_nObjectID descr) new_CIncrementalLightInfo)])
    | Some _ => (descr, infos)
    end in
  lights <-- vec_set lights i descr ;;
  Ok (lights, infos).

Definition UpdateIncrementalForNewLightList (st : CLightingPreviewThread)
  : result CLightingPreviewThread :=
  match m_pLightList st with
  | None => Fault NullLightList
  | Some lights =>
      s <-- for_loop_r (length lights) 0 bind_light (lights, m_pIncrementalLightInfoList st) ;;
      Ok (set_m_pIncrementalLightInfoList (snd s) (set_m_pLightList (Some (fst s)) st))
  end.

(** ** [HandleAMessage]

    [now] and [now'] are the readings of the clock in the calls of
    [DiscardResults] the message leads to; only a geometry message leads to
    two.  The result tells whether the thread should exit. *)
Definition HandleAMessage (msg_in : MessageToLPreview) (now now' : double)
    (st : CLightingPreviewThread) : result (CLightingPreviewThread * bool) :=
  match msg_in with
  | LPREVIEW_MSG_EXIT => Ok (st, true)
  | LPREVIEW_MSG_LIGHT_DATA lights eye =>
      st <-- UpdateIncrementalForNewLightList
               (set_m_LastEyePosition eye (set_m_pLightList (Some lights) st)) ;;
      st <-- DiscardResults now st ;;
      Ok (st, false)
  | LPREVIEW_MSG_GEOM_DATA tris =>
      st <-- HandleGeomMessage tris now st ;;
      st <-- DiscardResults now' st ;;
      Ok (st, false)
  | LPREVIEW_MSG_G_BUFFERS bms eye generation =>
      st <-- HandleGBuffersMessage bms eye generation st ;;
      st <-- DiscardResults now st ;;
      Ok (st, false)
  end.

(** ** [AnyUsefulWorkToDo] *)

Fixpoint any_light_with_work (infos : list CIncrementalLightInfo) (has_env : bool)
    (lights : list CLightingPreviewLightDescription) : result bool :=
  match lights with
  | [] => Ok false
  | l :: rest =>
      l_info <-- get_info infos (m_pIncrementalInfo l) ;;
      if HasWorkToDo l_info then Ok has_env
      else any_light_with_work infos has_env rest
  end.

Definition AnyUsefulWorkToDo (st : CLightingPreviewThread) : result bool :=
  match m_pLightList st with
  | Some lights =>
      any_light_with_work (m_pIncrementalLightInfoList st)
        (match m_pRtEnv st with Some _ => true | None => false end) lights
  | None => Ok false
  end.

(** ** [DoWork] *)

(** The body of the selection loop; [best_l] is kept as the description it
    points to. *)
Definition pick_best (st : CLightingPreviewThread) (l : CLightingPreviewLightDescription)
    (best_l : option CLightingPreviewLightDescription)
  : result (option CLightingPreviewLightDescription) :=
  l_info <-- get_info (m_pIncrementalLightInfoList st) (m_pIncrementalInfo l) ;;
  if HasWorkToDo l_info then
    match best_l with
    | None => Ok (Some l)
    | Some b =>
        b_info <-- get_info (m_pIncrementalLightInfoList st) (m_pIncrementalInfo b) ;;
        lower <-- IsLowerPriorityThan st b_info l_info ;;
        Ok (if lower then Some l else best_l)
    end
  else Ok best_l.

Fixpoint select_light (st : CLightingPreviewThread)
    (lights : list CLightingPreviewLightDescription)
    (best_l : option CLightingPreviewLightDescription)
  : result (option CLightingPreviewLightDescription) :=
  match lights with
  | [] => Ok best_l
  | l :: rest =>
      best_l <-- pick_best st l best_l ;;
      select_light st rest best_l
  end.

Definition DoWork (st : CLightingPreviewThread) : result CLightingPreviewThread :=
  match m_pLightList st with
  | None => Ok st
  | Some lights =>
      best_l <-- select_light st lights None ;;
      match best_l with
      | None => Ok st
      | Some l =>
          st <-- CalculateForLight st l ;;
          l_info <-- get_info (m_pIncrementalLightInfoList st) (m_pIncrementalInfo l) ;;
          if F32.neb (m_fTotalContribution l_info) F32.zero
          then Ok (set_m_bResultChangedSinceLastSend true st)
          else Ok st
      end
  end.

(** ** The compositor: [EstimatedUnshotAmbient], [SendResult],
    [SendVectorMatrixAsRendering] *)

Definition ambient_body (infos : list CIncrementalLightInfo)
    (l : CLightingPreviewLightDescription) (sum_colors : Vector) : result Vector :=
  match m_pIncrementalInfo l with
  | None => Ok sum_colors
  | Some _ =>
      l_info <-- get_info infos (m_pIncrementalInfo l) ;;
      if state_eqb (m_eIncrState l_info) INCR_STATE_HAVE_FULL_RESULTS
         || state_eqb (m_eIncrState l_info) INCR_STATE_PARTIAL_RESULTS
      then Ok (Vector_add sum_colors (Vector_scale (m_fTotalContribution l_info) (m_Color l)))
      else Ok sum_colors
  end.

Fixpoint ambient_sum (infos : list CIncrementalLightInfo)
    (lights : list CLightingPreviewLightDescription) (sum_colors : Vector) : result Vector :=
  match lights with
  | [] => Ok sum_colors
  | l :: rest =>
      sum_colors <-- ambient_body infos l sum_colors ;;
      ambient_sum infos rest sum_colors
  end.

Definition EstimatedUnshotAmbient (st : CLightingPreviewThread) : result Vector :=
  let sum_weights := F32.c_0_0001 in
  let sum_colors := mk_Vector sum_weights sum_weights sum_weights in
  sum_colors <-- match m_pLightList st with
                 | Some lights => ambient_sum (m_pIncrementalLightInfoList st) lights sum_colors
                 | None => Ok sum_colors
                 end ;;
  Ok (Vector_scale F32.c_0_05 (NormalizeInPlace sum_colors)).

(** Modelled from the spec: [m *= v] on a matrix is mathlib's; section 4.5
    has "Result = Albedos * EstimatedUnshotAmbient", every cell times the
    vector. *)
Definition Matrix_scale (m : CSIMDVectorMatrix) (v : Vector) : CSIMDVectorMatrix :=
  mk_CSIMDVectorMatrix (m_nWidth m) (m_nHeight m) (m_nPaddedWidth m)
    (map (fun c => FourVectors_mul c (DuplicateVector v)) (m_pData m)).

(** The loop over the groups of one output line: [*dest++ += albedo * src]. *)
Definition composite_group (st : CLightingPreviewThread) (src : CSIMDVectorMatrix)
    (y src_y : Z) (x : Z) (image : CSIMDVectorMatrix) : result CSIMDVectorMatrix :=
  albedo_value <-- vec_get (m_pData (m_Albedos st)) (m_nPaddedWidth (m_Albedos st) * y + x) ;;
  c <-- vec_get (m_pData src) (m_nPaddedWidth src * src_y + x) ;;
  let albedo_value := FourVectors_mul albedo_value c in
  let at_dest := m_nPaddedWidth image * y + x in
  d <-- vec_get (m_pData image) at_dest ;;
  data <-- vec_set (m_pData image) at_dest (FourVectors_add d albedo_value) ;;
  Ok (mk_CSIMDVectorMatrix (m_nWidth image) (m_nHeight image) (m_nPaddedWidth image) data).

Definition composite_line (st : CLightingPreviewThread) (l_info : CIncrementalLightInfo)
    (y : Z) (image : CSIMDVectorMatrix) : result CSIMDVectorMatrix :=
  let src := m_CalculatedContribution l_info in
  let yo := Int.and y (Int.sub N_INCREMENTAL_STEPS 1) in
  off <-- vec_get (LineSchedule.m_ClosestLineOffset (m_Tables st))
            (m_PartialResultsStage l_info * N_INCREMENTAL_STEPS + yo) ;;
  let src_y := Int.add (Int.and y (Int.not (Int.sub N_INCREMENTAL_STEPS 1))) off in
  for_loop_r (Z.to_nat (m_nPaddedWidth image)) 0 (composite_group st src y src_y) image.

Definition composite_light (st : CLightingPreviewThread) (l : CLightingPreviewLightDescription)
    (image : CSIMDVectorMatrix) : result CSIMDVectorMatrix :=
  l_info <-- get_info (m_pIncrementalLightInfoList st) (m_pIncrementalInfo l) ;;
  if F32.gtb (m_fTotalContribution l_info) F32.zero
     && (state_value INCR_STATE_PARTIAL_RESULTS <=? state_value (m_eIncrState l_info))
  then for_loop_r (Z.to_nat (m_nHeight image)) 0 (composite_line st l_info) image
  else Ok image.

Fixpoint composite_lights (st : CLightingPreviewThread)
    (lights : list CLightingPreviewLightDescription) (image : CSIMDVectorMatrix)
  : result CSIMDVectorMatrix :=
  match lights with
  | [] => Ok image
  | l :: rest =>
      image <-- composite_light st l image ;;
      composite_lights st rest image
  end.

(** One pixel of the output bitmap. *)
Definition to_byte (c : float) : Z :=
  Z.min (uint8_of_float F32.c_255) (uint8_of_float (F32.mul F32.c_255 (LinearToGammaFullRange c))).

Definition pixel_bytes (color : Vector) : list Z :=
  [to_byte (vz color); to_byte (vy color); to_byte (vx color); 0].

Definition bitmap_row (src : CSIMDVectorMatrix) (y : Z) (pixels : list Z) : result (list Z) :=
  for_loop_r (Z.to_nat (m_nWidth src)) 0
    (fun x pixels => color <-- Element src x y ;; Ok (pixels ++ pixel_bytes color)) pixels.

(** [SendVectorMatrixAsRendering]: the message it queues. *)
Definition SendVectorMatrixAsRendering (st : CLightingPreviewThread) (src : CSIMDVectorMatrix)
  : result MessageFromLPreview :=
  pixels <-- for_loop_r (Z.to_nat (m_nHeight src)) 0 (bitmap_row src) [] ;;
  Ok {| m_pBitmapToDisplay := mk_Bitmap (m_nWidth src) (m_nHeight src) pixels;
        msg_nBitmapGenerationCounter := m_nBitmapGenerationCounter st |}.

(** [SendResult]; [now] is the reading of the clock at its end.  The light
    list is followed without a test. *)
Definition SendResult (now : double) (st : CLightingPreviewThread)
  : result (CLightingPreviewThread * MessageFromLPreview) :=
  ambient <-- EstimatedUnshotAmbient st ;;
  let image := Matrix_scale (m_Albedos st) ambient in
  lights <-- match m_pLightList st with
             | Some lights => Ok lights
             | None => Fault NullLightList
             end ;;
  image <-- composite_lights st lights image ;;
  let st := set_m_ResultImage image st in
  ret_msg <-- SendVectorMatrixAsRendering st image ;;
  Ok (set_m_bResultChangedSinceLastSend false (set_m_fLastSendTime (F32.of_double now) st),
      ret_msg).

(** ** The main loop: [Run] *)

(** What the inbound queue shows the thread, in the order the thread looks:
    no message waiting at a test of [MessageWaiting()], or the next message,
    with the clock readings its handling takes. *)
Inductive QueueEvent : Type :=
| NoMessageWaiting
| Message (m : MessageToLPreview) (now now' : double).

(** What the thread does, in order. *)
Inductive TraceEvent : Type :=
| Handled (m : MessageToLPreview)
| Worked
| Sent (d : MessageFromLPreview).

Inductive LoopEnd : Type :=
| LoopDone (should_quit : bool) (rest : list QueueEvent)
| LoopBlocked                                   (* WaitMessage never returns *)
| LoopFault (f : fault).

(** The inner loop
    [while (!should_quit && (!AnyUsefulWorkToDo() || MessageWaiting()))].
    An exhausted queue stays empty. *)
Fixpoint message_loop (q : list QueueEvent) (st : CLightingPreviewThread)
  : CLightingPreviewThread * list TraceEvent * LoopEnd :=
  match AnyUsefulWorkToDo st with
  | Fault f => (st, [], LoopFault f)
  | Ok useful =>
      match q with
      | [] => (st, [], if useful then LoopDone false [] else LoopBlocked)
      | NoMessageWaiting :: q' =>
          if useful then (st, [], LoopDone false q') else message_loop q' st
      | Message m now now' :: q' =>
          match HandleAMessage m now now' st with
          | Fault f => (st, [], LoopFault f)
          | Ok (st', should_quit) =>
              if should_quit then (st', [Handled m], LoopDone true q')
              else let '(st'', tr, e) := message_loop q' st' in (st'', Handled m :: tr, e)
          end
      end
  end.

(** [if (!should_quit && AnyUsefulWorkToDo()) DoWork();] *)
Definition work_step (should_quit : bool) (st : CLightingPreviewThread)
  : result (CLightingPreviewThread * list TraceEvent) :=
  if should_quit then Ok (st, [])
  else
    useful <-- AnyUsefulWorkToDo st ;;
    if useful then st <-- DoWork st ;; Ok (st, [Worked]) else Ok (st, []).

(** The test that guards the call of [SendResult]. *)
Definition send_due (newtime : float) (st : CLightingPreviewThread) : result bool :=
  if F32.gtb (F32.sub newtime (m_fLastSendTime st)) F32.c_10 then Ok true
  else useful <-- AnyUsefulWorkToDo st ;; Ok (negb useful).

(** [if (m_bResultChangedSinceLastSend) ...]; [clock] holds the readings of
    [Plat_FloatTime()] in [Run] and in [SendResult]. *)
Definition send_step (clock : double * double) (st : CLightingPreviewThread)
  : result (CLightingPreviewThread * list TraceEvent) :=
  if m_bResultChangedSinceLastSend st then
    let newtime := F32.of_double (fst clock) in
    due <-- send_due newtime st ;;
    if due then
      r <-- SendResult (snd clock) st ;;
      Ok (set_m_fLastSendTime newtime (set_m_bResultChangedSinceLastSend false (fst r)),
          [Sent (snd r)])
    else Ok (st, [])
  else Ok (st, []).

Inductive RunStatus : Type :=
| Exited                 (* Run returned *)
| Blocked                (* waiting for a message that never comes *)
| Faulted (f : fault)
| Running.               (* still looping when the clock readings end *)

(** [Run]: one turn of the outer loop for each pair of clock readings. *)
Fixpoint Run (clocks : list (double * double)) (q : list QueueEvent)
    (st : CLightingPreviewThread) : CLightingPreviewThread * list TraceEvent * RunStatus :=
  match clocks with
  | [] => (st, [], Running)
  | clock :: clocks' =>
      let '(st1, tr1, e) := message_loop q st in
      match e with
      | LoopFault f => (st1, tr1, Faulted f)
      | LoopBlocked => (st1, tr1, Blocked)
      | LoopDone should_quit q' =>
          match work_step should_quit st1 with
          | Fault f => (st1, tr1, Faulted f)
          | Ok (st2, tr2) =>
              match send_step clock st2 with
              | Fault f => (st2, tr1 ++ tr2, Faulted f)
              | Ok (st3, tr3) =>
                  if should_quit then (st3, tr1 ++ tr2 ++ tr3, Exited)
                  else
                    let '(st4, tr4, status) := Run clocks' q' st3 in
                    (st4, tr1 ++ tr2 ++ tr3 ++ tr4, status)
              end
          end
      end
  end.

End Scheduler.

(** ** A reference instance of [External]

    IEEE-exact arithmetic where mathlib approximates, a light evaluation
    that adds the colour of the light to every pixel, and a ray tracer that
    never hits.  It serves to run the engine on concrete inputs. *)

Definition exact_length (v : FourVectors) : fltx4 :=
  let sq := AddSIMD (AddSIMD (MulSIMD (fx v) (fx v)) (MulSIMD (fy v) (fy v)))
                    (MulSIMD (fz v) (fz v)) in
  map4 (fun a => F32.to_bits (F32.sqrt (F32.of_bits a))) sq.

Definition exact_DistTo (a b : Vector) : float :=
  let dx := F32.sub (vx a) (vx b) in
  let dy := F32.sub (vy a) (vy b) in
  let dz := F32.sub (vz a) (vz b) in
  F32.sqrt (F32.add (F32.add (F32.mul dx dx) (F32.mul dy dy)) (F32.mul dz dz)).

Definition exact_Normalize (v : Vector) : Vector :=
  let len := exact_DistTo v (mk_Vector F32.zero F32.zero F32.zero) in
  mk_Vector (F32.div (vx v) len) (F32.div (vy v) len) (F32.div (vz v) len).

(** Truncation of a float in [0, 256) to a byte, 0 outside. *)
Definition trunc_uint8 (x : float) : Z :=
  match x with
  | S754_finite false m e =>
      let v := if 0 <=? e then Zpos m * 2 ^ e else Zpos m / 2 ^ (- e) in
      if v <? 256 then v else 0
  | _ => 0
  end.

(** The float image as groups of four pixels: lane [i] of group [g] of
    row [y] is pixel [4 g + i], zero past the width. *)
Definition image_group (w : Z) (data : list float) (y g : Z) : FourVectors :=
  let chan (c i : Z) : Z :=
    let x := 4 * g + i in
    F32.to_bits (if x <? w then nth (Z.to_nat (4 * (y * w + x) + c)) data F32.zero
                 else F32.zero) in
  mk_FourVectors (mk_fltx4 (chan 0 0) (chan 0 1) (chan 0 2) (chan 0 3))
                 (mk_fltx4 (chan 1 0) (chan 1 1) (chan 1 2) (chan 1 3))
                 (mk_fltx4 (chan 2 0) (chan 2 1) (chan 2 2) (chan 2 3)).

Definition image_from_rgba (w h : Z) (data : list float) : CSIMDVectorMatrix :=
  let pw := Z.shiftr (w + 3) 2 in
  mk_CSIMDVectorMatrix w h pw
    (flat_map (fun y => map (image_group w data y) (Zrange 0 (Z.to_nat pw)))
              (Zrange 0 (Z.to_nat h))).

Definition reference_external : External := {|
  uninit_cell := zero_vector;
  ReciprocalSIMD := map4 (fun a => F32.to_bits (F32.div F32.one (F32.of_bits a)));
  FourVectors_length := exact_length;
  DistTo := exact_DistTo;
  NormalizeInPlace := exact_Normalize;
  LinearToGammaFullRange := fun x => x;
  uint8_of_float := trunc_uint8;
  CreateFromRGBA_FloatImageData := image_from_rgba;
  ComputeLightAtPoints := fun l pos normal acc shadow =>
                           FourVectors_add acc (DuplicateVector (m_Color l));
  SetupAccelerationStructure := fun env => env;
  Trace4Rays := fun env rays tmin tmax =>
                  mk_RayTracingResult (mk_fltx4 all_ones all_ones all_ones all_ones) tmax
|}.

(** ** Concrete inputs

    Values on which the engine is evaluated in examples. *)

Definition origin_point : Vector := mk_Vector F32.zero F32.zero F32.zero.
Definition corner (c : Z) : Vector := mk_Vector (F32.of_int c) (F32.of_int c) (F32.of_int c).

(** A directional light whose position field is the origin. *)
Definition sun : CLightingPreviewLightDescription :=
  {| m_Type := MATERIAL_LIGHT_DIRECTIONAL;
     m_Color := corner 1; m_Position := origin_point; m_Params := [];
     m_nObjectID := 1; m_pIncrementalInfo := Some 0%nat |}.

(** A record in state Partial with no light found so far. *)
Definition dark_partial (level stamp : Z) : CIncrementalLightInfo :=
  {| m_pLight := None; info_nObjectID := 0;
     m_PartialResultsStage := level; m_eIncrState := INCR_STATE_PARTIAL_RESULTS;
     m_CalculatedContribution := empty_matrix;
     m_fTotalContribution := F32.zero; m_fDistanceToEye := F32.zero;
     m_nMostRecentNonZeroContributionTimeStamp := stamp |}.

(** The engine as its constructor leaves it. *)
Definition fresh_engine : CLightingPreviewThread :=
  Eval vm_compute in
    match new_CLightingPreviewThread origin_point with
    | Some st => st
    | None => initial_members (LineSchedule.Build_tables [] []) origin_point
    end.

(** The engine after a geometry message without triangles, the first one
    it gets; [now] is the clock reading of the second of the two calls of
    [DiscardResults] the message leads to. *)
Definition after_empty_geometry (now : double) : CLightingPreviewThread :=
  set_m_fLastSendTime (F32.of_double (F64.sub now F64.c_9))
    (set_m_bResultChangedSinceLastSend true
       (set_m_nContributionCounter 1000002 fresh_engine)).

(** Clock readings: 100 s, 101 s and 120 s. *)
Definition t100 : double := F64.of_float (F32.of_int 100).
Definition t101 : double := F64.of_float (F32.of_int 101).
Definition t120 : double := F64.of_float (F32.of_int 120).

(** A 4 x 2 image that holds [v] in every pixel. *)
Definition flat_bitmap (v : Vector) : FloatBitMap_t :=
  mk_FloatBitMap 4 2 (concat (repeat [vx v; vy v; vz v; F32.zero] 8)).

(** G-buffers of generation 5: white albedo, normals along +z, every
    position at the origin, the eye at the origin. *)
Definition gbuffers_msg : MessageToLPreview :=
  LPREVIEW_MSG_G_BUFFERS
    (flat_bitmap (corner 1), flat_bitmap (mk_Vector F32.zero F32.zero F32.one),
     flat_bitmap origin_point)
    origin_point 5.

(** One shadow triangle. *)
Definition geometry_msg : MessageToLPreview :=
  LPREVIEW_MSG_GEOM_DATA [origin_point; corner 1; corner 2].

(** One white point light at (0, 0, 2). *)
Definition lamp : CLightingPreviewLightDescription :=
  {| m_Type := MATERIAL_LIGHT_POINT;
     m_Color := corner 1; m_Position := mk_Vector F32.zero F32.zero (F32.of_int 2);
     m_Params := []; m_nObjectID := 7; m_pIncrementalInfo := None |}.

Definition lights_msg : MessageToLPreview := LPREVIEW_MSG_LIGHT_DATA [lamp] origin_point.

(** The light as the engine holds it once bound to its record. *)
Definition bound_lamp : CLightingPreviewLightDescription :=
  set_pIncrementalInfo (Some 0%nat) lamp.

(** The engine after G-buffers, geometry and the light list, all at 100 s,
    run with the reference instance. *)
Definition lit_engine : result CLightingPreviewThread :=
  r <-- HandleAMessage (H := reference_external) gbuffers_msg t100 t100 fresh_engine ;;
  r <-- HandleAMessage (H := reference_external) geometry_msg t100 t100 (fst r) ;;
  r <-- HandleAMessage (H := reference_external) lights_msg t100 t100 (fst r) ;;
  Ok (fst r).

Definition value_or {A : Type} (d : A) (r : result A) : A :=
  match r with
  | Ok a => a
  | Fault _ => d
  end.

Definition lit_state : CLightingPreviewThread := value_or fresh_engine lit_engine.

(** Two refinement passes of the light in a row. *)
Definition first_pass : CLightingPreviewThread :=
  value_or fresh_engine (CalculateForLight (H := reference_external) lit_state bound_lamp).
Definition second_pass : CLightingPreviewThread :=
  value_or fresh_engine (CalculateForLight (H := reference_external) first_pass bound_lamp).

(** ** Definitions used in the proofs *)

(** A record with its distance to the eye blanked. *)
Definition erase_distance (i : CIncrementalLightInfo) : CIncrementalLightInfo :=
  set_distance F32.zero i.

(** The distance [DiscardResults] stores for a light. *)
Definition distance_of `{External} (eye : Vector) (l : CLightingPreviewLightDescription)
  : float :=
  if LightType_eqb (m_Type l) MATERIAL_LIGHT_DIRECTIONAL then F32.of_int 0
  else DistTo eye (m_Position l).

(** Two stores that differ at most in the distances that the lights of
    [lights] are about to overwrite. *)
Definition agree_upto (lights : list CLightingPreviewLightDescription)
    (X Y : list CIncrementalLightInfo) : Prop :=
  length X = length Y /\
  (forall a, erase_distance <$> (X !! a) = erase_distance <$> (Y !! a)) /\
  (forall a, (forall l, In l lights -> m_pIncrementalInfo l <> Some a) -> X !! a = Y !! a).

(** A lane that holds a 32-bit pattern, and registers made of such lanes. *)
Definition lane_ok (a : Z) : Prop := 0 <= a < 2 ^ 32.
Definition fltx4_ok (a : fltx4) : Prop :=
  lane_ok (lane0 a) /\ lane_ok (lane1 a) /\ lane_ok (lane2 a) /\ lane_ok (lane3 a).
Definition FourVectors_ok (v : FourVectors) : Prop :=
  fltx4_ok (fx v) /\ fltx4_ok (fy v) /\ fltx4_ok (fz v).

(** The shadow test in the words of the specification: lane [i] reports a
    hit id >= 0 at a hit distance less than the distance [len] of that lane
    to the light. *)
Definition lane_hit (r : RayTracingResult) (len : fltx4) (i : Z) : bool :=
  (0 <=? lane_signed (lane (HitIds r) i))
  && F32.ltb (F32.of_bits (lane (HitDistance r) i)) (F32.of_bits (lane len i)).

(** A register with the lanes picked by [hit] set to zero. *)
Definition blackout (hit : Z -> bool) (a : fltx4) : fltx4 :=
  mk_fltx4 (if hit 0 then 0 else lane0 a) (if hit 1 then 0 else lane1 a)
           (if hit 2 then 0 else lane2 a) (if hit 3 then 0 else lane3 a).

(** The generation a display result has to carry after the events [tr],
    when it was [g0] before them: that of the last G-buffers message
    handled. *)
Fixpoint generation_after (g0 : Z) (tr : list TraceEvent) : Z :=
  match tr with
  | [] => g0
  | Handled (LPREVIEW_MSG_G_BUFFERS _ _ g) :: tr' => generation_after g tr'
  | _ :: tr' => generation_after g0 tr'
  end.

(** Every display result of [tr] carries the generation of the G-buffers
    message handled last before it, [g0] when there is none. *)
Fixpoint echoes (g0 : Z) (tr : list TraceEvent) : Prop :=
  match tr with
  | [] => True
  | Handled (LPREVIEW_MSG_G_BUFFERS _ _ g) :: tr' => echoes g tr'
  | Sent d :: tr' => msg_nBitmapGenerationCounter d = g0 /\ echoes g0 tr'
  | _ :: tr' => echoes g0 tr'
  end.

(** A run on the 4 x 2 image: the three messages, then four turns of the
    loop at 101 s, 101 s, 120 s and 120 s. *)
Definition sample_queue : list QueueEvent :=
  [Message gbuffers_msg t100 t100; Message geometry_msg t100 t100;
   Message lights_msg t100 t100].

Definition sample_run : CLightingPreviewThread * list TraceEvent * RunStatus :=
  Run (H := reference_external) [(t101, t101); (t101, t101); (t120, t120); (t120, t120)]
    sample_queue fresh_engine.

Definition sent_messages (tr : list TraceEvent) : list MessageFromLPreview :=
  flat_map (fun e => match e with Sent d => [d] | _ => [] end) tr.

Definition sample_result : MessageFromLPreview :=
  hd (mk_DisplayResult (mk_Bitmap 0 0 []) 0) (sent_messages (snd (fst sample_run))).

(** The decision of [IsLowerPriorityThan] once both high-priority flags
    are known and equal. *)
Definition by_state (self other : CIncrementalLightInfo) : bool :=
  let tc := m_fTotalContribution self in
  let otc := m_fTotalContribution other in
  let ts := m_nMostRecentNonZeroContributionTimeStamp self in
  let ots := m_nMostRecentNonZeroContributionTimeStamp other in
  match m_eIncrState self, m_eIncrState other with
  | INCR_STATE_NEW, INCR_STATE_NEW => F32.gtb (m_fDistanceToEye self) (m_fDistanceToEye other)
  | INCR_STATE_NEW, INCR_STATE_NO_RESULTS => F32.gtb otc F32.zero
  | INCR_STATE_NEW, INCR_STATE_PARTIAL_RESULTS => false
  | INCR_STATE_PARTIAL_RESULTS, INCR_STATE_NEW => true
  | INCR_STATE_NO_RESULTS, INCR_STATE_NEW => F32.eqb tc F32.zero
  | INCR_STATE_PARTIAL_RESULTS, INCR_STATE_PARTIAL_RESULTS =>
      if F32.eqb tc F32.zero && F32.eqb otc F32.zero && (ots >? ts) then true
      else if F32.eqb otc F32.zero && F32.gtb tc F32.zero then false
      else if F32.eqb tc F32.zero && F32.gtb otc F32.zero then true
      else if Int.abs (Int.sub (m_PartialResultsStage self) (m_PartialResultsStage other)) <=? 1
      then F32.ltb tc otc
      else m_PartialResultsStage self >? m_PartialResultsStage other
  | INCR_STATE_PARTIAL_RESULTS, INCR_STATE_NO_RESULTS =>
      if F32.neb otc F32.zero then true
      else if F32.eqb tc F32.zero && F32.eqb otc F32.zero then ots >? ts
      else F32.ltb tc otc
  | INCR_STATE_NO_RESULTS, INCR_STATE_PARTIAL_RESULTS =>
      if F32.neb tc F32.zero then false
      else if F32.eqb tc F32.zero && F32.eqb otc F32.zero then ots >? ts
      else F32.ltb tc otc
  | INCR_STATE_NO_RESULTS, INCR_STATE_NO_RESULTS =>
      if F32.eqb tc F32.zero && F32.eqb otc F32.zero then ots >? ts
      else F32.ltb tc otc
  | _, _ => false
  end.


(** ** Definitions used in the further properties *)

(** The source row [src_y] that [SendResult] reads for the output row [y]
    of a light: the first two statements of the body of its loop over
    [y]. *)
Definition source_row (st : CLightingPreviewThread) (l_info : CIncrementalLightInfo) (y : Z)
  : result Z :=
  let yo := Int.and y (Int.sub N_INCREMENTAL_STEPS 1) in
  off <-- vec_get (LineSchedule.m_ClosestLineOffset (m_Tables st))
            (m_PartialResultsStage l_info * N_INCREMENTAL_STEPS + yo) ;;
  Ok (Int.add (Int.and y (Int.not (Int.sub N_INCREMENTAL_STEPS 1))) off).

(** The test [( ybit & calc_mask ) == 0] failing: line [y] is one the
    kernel works on. *)
Definition line_selected (calc_mask y : Z) : bool :=
  negb (Int.and (Int.shl 1 (Int.and y (Int.sub N_INCREMENTAL_STEPS 1))) calc_mask =? 0).

(** Checks run over the whole tables.  The reversal of [i] is in range and
    reverses back to [i]: *)
Definition bit_reverse_ok (i : Z) : bool :=
  match LineSchedule.bit_reverse i with
  | Some r =>
      (0 <=? r) && (r <? N_INCREMENTAL_STEPS)
      && match LineSchedule.bit_reverse r with
         | Some i' => i' =? i
         | None => false
         end
  | None => false
  end.

(** The mask of the lines of the pass at level [lvl], for a record that is
    at level [lvl - 1] (or has no results, for level 0), selects the row
    offset [m] iff [m] is the reversal of [lvl]. *)
Definition pass_mask_ok (t : LineSchedule.tables) (lvl m : Z) : bool :=
  match LineSchedule.line_mask t lvl, LineSchedule.bit_reverse lvl with
  | Some new_msk, Some r =>
      let prev_msk := if lvl =? 0 then 0
                      else default 0 (LineSchedule.line_mask t (lvl - 1)) in
      Bool.eqb (line_selected (Int.and new_msk (Int.not prev_msk)) m) (m =? r)
  | _, _ => false
  end.


(** The lights of the list, none while [m_pLightList] is nullptr. *)
Definition lights_of (st : CLightingPreviewThread) : list CLightingPreviewLightDescription :=
  default [] (m_pLightList st).

(** The light's [m_pIncrementalInfo] points to a record of the store. *)
Definition is_bound (infos : list CIncrementalLightInfo) (l : CLightingPreviewLightDescription)
  : bool :=
  match get_info infos (m_pIncrementalInfo l) with
  | Ok _ => true
  | Fault _ => false
  end.

(** The record of the light has work to do. *)
Definition has_work (infos : list CIncrementalLightInfo) (l : CLightingPreviewLightDescription)
  : bool :=
  match get_info infos (m_pIncrementalInfo l) with
  | Ok l_info => HasWorkToDo l_info
  | Fault _ => false
  end.

(** The state [CIncrementalLightInfo::DiscardResults] leaves. *)
Definition discarded_state (s : IncrementalLightState) : IncrementalLightState :=
  match s with
  | INCR_STATE_NEW => INCR_STATE_NEW
  | _ => INCR_STATE_NO_RESULTS
  end.

(** The colour [EstimatedUnshotAmbient] returns when no light adds to it. *)
Definition ambient_floor `{External} : Vector :=
  Vector_scale F32.c_0_05
    (NormalizeInPlace (mk_Vector F32.c_0_0001 F32.c_0_0001 F32.c_0_0001)).

(** A record with its [m_pLight] blanked. *)
Definition erase_pLight (i : CIncrementalLightInfo) : CIncrementalLightInfo :=
  {| m_pLight := None; info_nObjectID := info_nObjectID i;
     m_PartialResultsStage := m_PartialResultsStage i; m_eIncrState := m_eIncrState i;
     m_CalculatedContribution := m_CalculatedContribution i;
     m_fTotalContribution := m_fTotalContribution i; m_fDistanceToEye := m_fDistanceToEye i;
     m_nMostRecentNonZeroContributionTimeStamp := m_nMostRecentNonZeroContributionTimeStamp i |}.

(** The object ids of the records of the store, by address. *)
Definition object_ids (infos : list CIncrementalLightInfo) : list Z :=
  info_nObjectID <$> infos.

(** The description arrives with a null [m_pIncrementalInfo]. *)
Definition unbound (l : CLightingPreviewLightDescription) : bool :=
  match m_pIncrementalInfo l with
  | None => true
  | Some _ => false
  end.

(** The store [Y] has every record of [X] at its address, with at most
    [m_pLight] changed, and then to a light of the record's object id. *)
Definition keeps (X Y : list CIncrementalLightInfo) : Prop :=
  forall a r, X !! a = Some r ->
    exists r', Y !! a = Some r' /\ erase_pLight r' = erase_pLight r /\
      (m_pLight r' = m_pLight r \/
       exists dl, m_pLight r' = Some dl /\ m_nObjectID dl = info_nObjectID r).

(** The records of [Y] from the address [n] on are as the constructor of
    [CIncrementalLightInfo] makes them, but for object id and light. *)
Definition fresh_from (n : nat) (Y : list CIncrementalLightInfo) : Prop :=
  forall a r, (n <= a)%nat -> Y !! a = Some r ->
    erase_pLight r = erase_pLight (set_ObjectID (info_nObjectID r) new_CIncrementalLightInfo).

(** The description [d'] is [d] bound to a record of [Y] that has the
    object id of [d] and points back to a light of that id. *)
Definition bound_to (Y : list CIncrementalLightInfo) (d d' : CLightingPreviewLightDescription)
  : Prop :=
  exists a r dl, d' = set_pIncrementalInfo (Some a) d /\ Y !! a = Some r /\
    info_nObjectID r = m_nObjectID d /\ m_pLight r = Some dl /\ m_nObjectID dl = m_nObjectID d.

(** The invariant of the loop of [UpdateIncrementalForNewLightList] before
    the description at index [j], from the light list [lights0] and the
    store [infos0]. *)
Definition binding_inv (lights0 : list CLightingPreviewLightDescription)
    (infos0 : list CIncrementalLightInfo) (j : Z)
    (s : list CLightingPreviewLightDescription * list CIncrementalLightInfo) : Prop :=
  length (fst s) = length lights0 /\
  (forall k, (Z.to_nat j <= k)%nat -> fst s !! k = lights0 !! k) /\
  (forall k d, (k < Z.to_nat j)%nat -> lights0 !! k = Some d ->
     exists d', fst s !! k = Some d' /\
       set_pIncrementalInfo None d' = set_pIncrementalInfo None d /\
       (m_pIncrementalInfo d = None -> bound_to (snd s) d d')) /\
  keeps infos0 (snd s) /\
  fresh_from (length infos0) (snd s) /\
  (NoDup (object_ids infos0) -> NoDup (object_ids (snd s))).

(** [n] refinement passes of the light [l] in a row. *)
Fixpoint refine `{External} (n : nat) (st : CLightingPreviewThread)
    (l : CLightingPreviewLightDescription) : result CLightingPreviewThread :=
  match n with
  | O => Ok st
  | S n' => st1 <-- refine n' st l ;; CalculateForLight st1 l
  end.

(** The bytes of a run of pixels, four a pixel. *)
Definition bytes_of `{External} (colors : list Vector) : list Z :=
  concat (pixel_bytes <$> colors).

(** The invariant of the loops of [SendVectorMatrixAsRendering]: the bytes
    written so far are those of the pixels of [src] in row order, [n] of
    them. *)
Definition rendered `{External} (src : CSIMDVectorMatrix) (n : Z) (pixels : list Z) : Prop :=
  exists colors,
    pixels = bytes_of colors /\ Z.of_nat (length colors) = n /\
    forall k color, colors !! k = Some color ->
      Element src (Z.of_nat k mod Z.of_nat (Z.to_nat (m_nWidth src)))
                  (Z.of_nat k / Z.of_nat (Z.to_nat (m_nWidth src))) = Ok color.

(** The width, height and padded width of a matrix and the size of its
    storage. *)
Definition same_shape (m m' : CSIMDVectorMatrix) : Prop :=
  m_nWidth m' = m_nWidth m /\ m_nHeight m' = m_nHeight m /\
  m_nPaddedWidth m' = m_nPaddedWidth m /\ length (m_pData m') = length (m_pData m).

(** The light adds nothing to the image [SendResult] composes. *)
Definition dark (infos : list CIncrementalLightInfo) (l : CLightingPreviewLightDescription)
  : bool :=
  match get_info infos (m_pIncrementalInfo l) with
  | Ok l_info => negb (F32.gtb (m_fTotalContribution l_info) F32.zero)
  | Fault _ => false
  end.

(** The messages the thread has handled, and those the queue holds, in
    order. *)
Definition handled_messages (tr : list TraceEvent) : list MessageToLPreview :=
  flat_map (fun e => match e with Handled m => [m] | _ => [] end) tr.

Definition queue_messages (q : list QueueEvent) : list MessageToLPreview :=
  flat_map (fun e => match e with Message m _ _ => [m] | NoMessageWaiting => [] end) q.

(** No Exit message has been handled in [tr]. *)
Definition no_exit (tr : list TraceEvent) : Prop := ~ In (Handled LPREVIEW_MSG_EXIT) tr.

(** What a run that has handled Exit looks like: Exit is handled once, and
    after it at most one display result is sent. *)
Definition exits_cleanly (tr : list TraceEvent) : Prop :=
  exists pre post,
    tr = pre ++ Handled LPREVIEW_MSG_EXIT :: post /\ no_exit pre /\
    (post = [] \/ exists d, post = [Sent d]).

Definition is_exit (m : MessageToLPreview) : bool :=
  match m with
  | LPREVIEW_MSG_EXIT => true
  | _ => false
  end.

(** The number of calls of [DiscardResults] that handling a message leads
    to, and the clock reading of the last of them. *)
Definition discards_of (m : MessageToLPreview) : nat :=
  match m with
  | LPREVIEW_MSG_EXIT => 0
  | LPREVIEW_MSG_GEOM_DATA _ => 2
  | _ => 1
  end.

Definition last_discard_at (m : MessageToLPreview) (now now' : double) : double :=
  match m with
  | LPREVIEW_MSG_GEOM_DATA _ => now'
  | _ => now
  end.

(** A record without results: New or NoResults, its matrix released. *)
Definition without_results (i : CIncrementalLightInfo) : Prop :=
  (m_eIncrState i = INCR_STATE_NEW \/ m_eIncrState i = INCR_STATE_NO_RESULTS) /\
  m_CalculatedContribution i = empty_matrix.

(** The triangle [HandleGeomMessage] adds for the vertices at [3 j],
    [3 j + 1] and [3 j + 2]. *)
Definition triangle_at (tris : list Vector) (j : nat) : option Triangle :=
  match tris !! (3 * j)%nat, tris !! (3 * j + 1)%nat, tris !! (3 * j + 2)%nat with
  | Some v1, Some v2, Some v3 =>
      Some (mk_Triangle (3 * Z.of_nat j) v1 v2 v3 (mk_Vector F32.c_0_5 F32.c_0_5 F32.c_0_5))
  | _, _, _ => None
  end.

(** The value of [work_line_number] when the kernel reaches line [n]: the
    number of lines before it that the pass works on. *)
Fixpoint work_line_number_at (calc_mask : Z) (n : nat) : Z :=
  match n with
  | O => 0
  | S n' =>
      let w := work_line_number_at calc_mask n' in
      if line_selected calc_mask (Z.of_nat n') then w + 1 else w
  end.

(** The task with [nLineMask] and [nLineMatch] shades line [y]. *)
Definition task_shades (nLineMask nLineMatch calc_mask y : Z) : bool :=
  line_selected calc_mask y
  && (Int.and (work_line_number_at calc_mask (Z.to_nat y)) nLineMask =? nLineMatch).

(** The cell at index [idx] of the storage lies in line [y] of [m]. *)
Definition in_line (m : CSIMDVectorMatrix) (y : Z) (idx : nat) : Prop :=
  m_nPaddedWidth m * y <= Z.of_nat idx < m_nPaddedWidth m * y + m_nPaddedWidth m.

(** The matrix [m'] holds what the kernel stores for the light in every
    group of line [y]. *)
Definition line_shaded `{External} (st : CLightingPreviewThread)
    (l : CLightingPreviewLightDescription) (m' : CSIMDVectorMatrix) (y : Z) : Prop :=
  forall x, 0 <= x < m_nPaddedWidth m' ->
    exists g, shade_group st l x y = Ok g /\
              m_pData m' !! Z.to_nat (x + m_nPaddedWidth m' * y) = Some (fst g).

(** The faults of a null or dangling pointer to a record or to a light. *)
Definition pointer_fault (f : fault) : bool :=
  match f with
  | NullIncrementalInfo | NullLight => true
  | _ => false
  end.

(** The call returns or stops on a fault of another kind. *)
Definition safe {A : Type} (r : result A) : Prop :=
  match r with
  | Ok _ => True
  | Fault f => pointer_fault f = false
  end.

(** The light points to a record of the store whose [m_pLight] is set. *)
Definition well_bound (infos : list CIncrementalLightInfo) (l : CLightingPreviewLightDescription)
  : bool :=
  match get_info infos (m_pIncrementalInfo l) with
  | Ok r => match m_pLight r with Some _ => true | None => false end
  | Fault _ => false
  end.

(** Every light of the list is bound to a record that points to a light. *)
Definition linked (st : CLightingPreviewThread) : Prop :=
  forallb (well_bound (m_pIncrementalLightInfoList st)) (lights_of st) = true.

(** Every light list of the queue arrives with null [m_pIncrementalInfo]
    pointers. *)
Definition fresh_lights (e : QueueEvent) : bool :=
  match e with
  | Message (LPREVIEW_MSG_LIGHT_DATA lights _) _ _ => forallb unbound lights
  | _ => true
  end.

(** The record of the light is high priority: New and within the scene
    bounds. *)
Definition high_priority (st : CLightingPreviewThread) (l : CLightingPreviewLightDescription)
  : bool :=
  match get_info (m_pIncrementalLightInfoList st) (m_pIncrementalInfo l) with
  | Ok r => match IsHighPriority st r with
            | Ok b => b
            | Fault _ => false
            end
  | Fault _ => false
  end.

(** The light that is chosen, if one is, is high priority. *)
Definition chosen_high (st : CLightingPreviewThread)
    (best : option CLightingPreviewLightDescription) : Prop :=
  exists b, best = Some b /\ high_priority st b = true.

(** Whether the geometry message handled last in [tr] brought triangles,
    and whether the light list handled last brought lights; [b] when
    there is no such message. *)
Definition geometry_after (b : bool) (tr : list TraceEvent) : bool :=
  fold_left (fun b e => match e with
                        | Handled (LPREVIEW_MSG_GEOM_DATA tris) =>
                            match tris with [] => false | _ => true end
                        | _ => b
                        end) tr b.

Definition lights_after (b : bool) (tr : list TraceEvent) : bool :=
  fold_left (fun b e => match e with
                        | Handled (LPREVIEW_MSG_LIGHT_DATA lights _) =>
                            match lights with [] => false | _ => true end
                        | _ => b
                        end) tr b.

(** Every piece of work in [tr] is done after a geometry message with
    triangles and a light list with lights, when [g] and [l] tell whether
    such messages came before [tr]. *)
Fixpoint works_when_fed (g l : bool) (tr : list TraceEvent) : Prop :=
  match tr with
  | [] => True
  | Worked :: tr' => g = true /\ l = true /\ works_when_fed g l tr'
  | e :: tr' => works_when_fed (geometry_after g [e]) (lights_after l [e]) tr'
  end.

(** The engine holds an environment only if [g], and lights only if [l]. *)
Definition fed (g l : bool) (st : CLightingPreviewThread) : Prop :=
  (m_pRtEnv st <> None -> g = true) /\ (lights_of st <> [] -> l = true).

(** A float that is not a NaN, and a vector without NaN. *)
Definition ordered (a : float) : bool :=
  match a with
  | S754_nan => false
  | _ => true
  end.

Definition Vector_ordered (v : Vector) : bool :=
  ordered (vx v) && ordered (vy v) && ordered (vz v).

(** Coordinate [k] (0, 1, 2 for x, y, z) of a vector and of four vectors,
    and the float in lane [i] of coordinate [k]. *)
Definition vcoord (k : Z) (v : Vector) : float :=
  if k =? 0 then vx v else if k =? 1 then vy v else vz v.

Definition coord (k : Z) (v : FourVectors) : fltx4 :=
  if k =? 0 then fx v else if k =? 1 then fy v else fz v.

Definition lane_value (v : FourVectors) (k i : Z) : float :=
  F32.of_bits (lane (coord k v) i).

(** The eye position as [CalculateSceneBounds] holds it in a register. *)
Definition eye_in_register (st : CLightingPreviewThread) : Vector :=
  FourVectors_Vec (DuplicateVector (m_LastEyePosition st)) 0.

(** Lane [i] of coordinate [k] of the running bounds [b] encloses [v]. *)
Definition between (b : FourVectors * FourVectors) (k i : Z) (v : float) : Prop :=
  F32.leb (lane_value (fst b) k i) v = true /\ F32.leb v (lane_value (snd b) k i) = true.

(** The invariant of the scan of [CalculateSceneBounds] after [n] cells of
    [data]: every lane of the running bounds encloses the eye and the
    floats of that lane in the cells scanned. *)
Definition encloses (eye : Vector) (data : list FourVectors) (n : Z)
    (b : FourVectors * FourVectors) : Prop :=
  (forall k i, between b k i (vcoord k eye)) /\
  (forall idx c k i, Z.of_nat idx < n -> data !! idx = Some c ->
     ordered (lane_value c k i) = true -> between b k i (lane_value c k i)).

(** ** Further concrete inputs *)

(** The record at address 0 of the store, that of the lamp in the
    examples. *)
Definition record_0 (st : CLightingPreviewThread) : CIncrementalLightInfo :=
  default new_CIncrementalLightInfo (m_pIncrementalLightInfoList st !! 0%nat).

(** A second point light, at the origin, where every pixel of the 4 x 2
    image lies. *)
Definition glow : CLightingPreviewLightDescription :=
  {| m_Type := MATERIAL_LIGHT_POINT;
     m_Color := corner 1; m_Position := origin_point;
     m_Params := []; m_nObjectID := 9; m_pIncrementalInfo := None |}.

Definition no_message : MessageFromLPreview := mk_DisplayResult (mk_Bitmap 0 0 []) 0.

(** The lit engine after one call of [DoWork]. *)
Definition worked_once : CLightingPreviewThread :=
  value_or fresh_engine (DoWork (H := reference_external) lit_state).

(** The engine after two passes and a discard-results at 120 s. *)
Definition discarded_engine : CLightingPreviewThread :=
  value_or fresh_engine (DiscardResults (H := reference_external) t120 second_pass).

(** The lit engine handed a list of the lamp and the glow, before and
    after [UpdateIncrementalForNewLightList]. *)
Definition two_lights_arrived : CLightingPreviewThread :=
  set_m_pLightList (Some [lamp; glow]) lit_state.

Definition two_lights_bound : CLightingPreviewThread :=
  value_or fresh_engine (UpdateIncrementalForNewLightList two_lights_arrived).

(** The lit engine after the message that brings the two lights. *)
Definition two_lights_state : CLightingPreviewThread :=
  fst (value_or (fresh_engine, true)
         (HandleAMessage (H := reference_external)
            (LPREVIEW_MSG_LIGHT_DATA [lamp; glow] origin_point) t100 t100 lit_state)).

Definition bound_glow : CLightingPreviewLightDescription :=
  set_pIncrementalInfo (Some 1%nat) glow.

(** The lit engine after the 32 passes of the lamp. *)
Definition fully_refined : CLightingPreviewThread :=
  value_or fresh_engine (refine (H := reference_external) 32 lit_state bound_lamp).

(** The albedo buffer of the lit engine as a display result. *)
Definition albedo_message : MessageFromLPreview :=
  value_or no_message
    (SendVectorMatrixAsRendering (H := reference_external) lit_state (m_Albedos lit_state)).

(** [SendResult] at 120 s after the first pass. *)
Definition sent_at_120 : CLightingPreviewThread * MessageFromLPreview :=
  value_or (fresh_engine, no_message) (SendResult (H := reference_external) t120 first_pass).

(** A geometry message handled after two passes, its two discards at
    100 s and 101 s. *)
Definition after_geometry : CLightingPreviewThread * bool :=
  value_or (fresh_engine, true)
    (HandleAMessage (H := reference_external) geometry_msg t100 t101 second_pass).

(** The four tasks of the pass at level 0 on a fresh 4 x 2 matrix. *)
Definition level_0_matrix : CSIMDVectorMatrix := SetSize zero_vector 4 2 empty_matrix.

Definition level_0_pass : CSIMDVectorMatrix * list float :=
  value_or (empty_matrix, [])
    (fan_out (H := reference_external) lit_state bound_lamp 1 level_0_matrix).

(** The sample queue followed by an Exit message. *)
Definition exit_queue : list QueueEvent :=
  sample_queue ++ [Message LPREVIEW_MSG_EXIT t100 t100].

(** The turn of the loop at 120 s in the lit engine, which sends. *)
Definition sent_turn : CLightingPreviewThread * list TraceEvent :=
  value_or (fresh_engine, [])
    (send_step (H := reference_external) (t120, t120) lit_state).

Definition sent_turn_result : MessageFromLPreview :=
  hd no_message (sent_messages (snd sent_turn)).

(** The inner loop of [Run] on the sample queue. *)
Definition sample_loop : CLightingPreviewThread * list TraceEvent * LoopEnd :=
  message_loop (H := reference_external) sample_queue fresh_engine.

(** The lit engine with the eye moved to (5, 5, 5), before and after
    [CalculateSceneBounds]. *)
Definition eye_moved : CLightingPreviewThread := set_m_LastEyePosition (corner 5) lit_state.

Definition bounds_found : CLightingPreviewThread :=
  value_or fresh_engine (CalculateSceneBounds eye_moved).

(** * Proofs *)

(** ** Machine integers and loops *)

Lemma wrap32_small z : Int.in_range z -> Int.wrap32 z = z.
Proof.
  unfold Int.in_range, Int.wrap32. intros Hz.
  rewrite Z.mod_small by lia. lia.
Qed.

Lemma wrap32_in_range z : Int.in_range (Int.wrap32 z).
Proof.
  unfold Int.in_range, Int.wrap32.
  pose proof (Z.mod_pos_bound (z + 2 ^ 31) (2 ^ 32) ltac:(lia)). lia.
Qed.

Lemma for_loop_snoc {St : Type} (n : nat) (i : Z) (body : Z -> St -> St) (s : St) :
  for_loop (S n) i body s = body (i + Z.of_nat n) (for_loop n i body s).
Proof.
  revert i s. induction n as [|n IH]; intros i s.
  - simpl. f_equal. lia.
  - change (for_loop (S (S n)) i body s) with (for_loop (S n) (i + 1) body (body i s)).
    rewrite IH. simpl for_loop. f_equal. lia.
Qed.

Lemma Zrange_forallb (f : Z -> bool) (lo : Z) (n : nat) :
  forallb f (Zrange lo n) = true ->
  forall k, lo <= k < lo + Z.of_nat n -> f k = true.
Proof.
  intros Hall k Hk.
  rewrite forallb_forall in Hall. apply Hall.
  unfold Zrange. apply in_map_iff. exists (Z.to_nat (k - lo)). split.
  - lia.
  - apply in_seq. lia.
Qed.

(** ** The line schedule *)

Section LineScheduleFacts.

Import LineSchedule.

Lemma init_returns : InitIncrementalInformation = the_tables.
Proof. vm_compute. reflexivity. Qed.

Lemma the_tables_some : exists t, the_tables = Some t.
Proof. unfold the_tables. eexists. reflexivity. Qed.

Lemma level_steps_ok t :
  the_tables = Some t -> forallb (level_step_ok t) (Zrange 1 31) = true.
Proof. intros [= <-]. vm_compute. reflexivity. Qed.

Lemma cells_ok t :
  the_tables = Some t ->
  forallb (fun k => forallb (cell_ok t k) (Zrange 0 32)) (Zrange 0 32) = true.
Proof. intros [= <-]. vm_compute. reflexivity. Qed.

Lemma cell_ok_at t k m :
  the_tables = Some t -> 0 <= k < 32 -> 0 <= m < 32 -> cell_ok t k m = true.
Proof.
  intros Ht Hk Hm.
  pose proof (Zrange_forallb _ 0 32 (cells_ok t Ht) k ltac:(lia)) as Hrow.
  cbv beta in Hrow. exact (Zrange_forallb _ 0 32 Hrow m ltac:(lia)).
Qed.

Lemma sub_small a b :
  -1000000 <= a <= 1000000 -> -1000000 <= b <= 1000000 -> Int.sub a b = a - b.
Proof. intros Ha Hb. apply wrap32_small. unfold Int.in_range. lia. Qed.

Lemma abs_small a : -2000000 <= a <= 2000000 -> Int.abs a = Z.abs a.
Proof. intros Ha. apply wrap32_small. unfold Int.in_range. lia. Qed.

(** Invariant of the scan [for (chk = 0; chk <= linemod; chk++)] after [n]
    turns: [closest_line] is the last set bit met, or still the sentinel. *)
Lemma closest_scan_inv mask m (n : nat) :
  0 <= m < 500000 -> (Z.of_nat n <= m + 1) ->
  let c := for_loop n 0 (closest_body mask m) 1000000 in
  (c = 1000000 /\ forall b, 0 <= b < Z.of_nat n -> line_bit mask b = false)
  \/ (0 <= c < Z.of_nat n /\ line_bit mask c = true
      /\ forall b, c < b < Z.of_nat n -> line_bit mask b = false).
Proof.
  intros Hm. induction n as [|n IH]; intros Hn c.
  - left. split; [reflexivity | intros b Hb; lia].
  - subst c. rewrite for_loop_snoc. rewrite Z.add_0_l.
    specialize (IH ltac:(lia)). cbv zeta in IH.
    set (c0 := for_loop n 0 (closest_body mask m) 1000000) in *.
    unfold closest_body.
    destruct (line_bit mask (Z.of_nat n)) eqn:Hbit.
    + assert (Hlt : (Int.abs (Int.sub (Z.of_nat n) m) <? Int.abs (Int.sub c0 m)) = true).
      { apply Z.ltb_lt.
        rewrite !sub_small by (destruct IH as [[-> _]|[? _]]; lia).
        rewrite !abs_small by (destruct IH as [[-> _]|[? _]]; lia).
        destruct IH as [[-> _]|[? _]]; lia. }
      rewrite Hlt. right. split; [lia|]. split; [exact Hbit|]. intros b Hb; lia.
    + destruct IH as [[Hc Hnone]|[Hc [Hset Hnone]]].
      * left. split; [exact Hc|]. intros b Hb.
        destruct (Z.eq_dec b (Z.of_nat n)) as [->|Hne]; [exact Hbit|apply Hnone; lia].
      * right. split; [lia|]. split; [exact Hset|]. intros b Hb.
        destruct (Z.eq_dec b (Z.of_nat n)) as [->|Hne]; [exact Hbit|apply Hnone; lia].
Qed.

(** With row 0 calculated, the scan returns the last set bit at or
    before [m]. *)
Lemma closest_line_for_floor mask m :
  0 <= m < 500000 -> line_bit mask 0 = true ->
  let c := closest_line_for mask m in
  0 <= c <= m /\ line_bit mask c = true
  /\ forall b, c < b <= m -> line_bit mask b = false.
Proof.
  intros Hm H0 c. subst c. unfold closest_line_for.
  pose proof (closest_scan_inv mask m (Z.to_nat (m + 1)) Hm ltac:(lia)) as Hinv.
  cbv zeta in Hinv. rewrite Z2Nat.id in Hinv by lia.
  destruct Hinv as [[_ Hnone]|[Hc [Hset Hnone]]].
  - rewrite Hnone in H0 by lia. discriminate.
  - split; [lia|]. split; [exact Hset|]. intros b Hb. apply Hnone. lia.
Qed.

(** C6: for every level k in [1, N) the mask of level k is the mask of
    level k-1 with one more bit set, the bit at the position obtained by
    reversing the log2 N = 5 bits of k; that bit is not in the mask of
    level k-1, so the inclusion is proper.  Level 0 has row 0 alone, level 1
    adds row N/2 and level 2 row N/4, and the mask of level N-1 has every
    one of its N low bits [b] set. *)
Theorem line_mask_monotone (k b : Z) :
  1 <= k < N_INCREMENTAL_STEPS -> 0 <= b < N_INCREMENTAL_STEPS ->
  exists t prev cur r last,
    InitIncrementalInformation = Some t /\
    line_mask t (k - 1) = Some prev /\ line_mask t k = Some cur /\
    bit_reverse k = Some r /\ r = reverse_bits_spec 5 k /\
    0 <= r < N_INCREMENTAL_STEPS /\
    cur = Z.lor prev (Int.shl 1 r) /\
    Z.testbit cur b = Z.testbit prev b || (b =? r) /\
    Z.testbit prev r = false /\ Z.testbit cur r = true /\
    line_mask t 0 = Some 1 /\
    bit_reverse 0 = Some 0 /\
    bit_reverse 1 = Some (N_INCREMENTAL_STEPS / 2) /\
    bit_reverse 2 = Some (N_INCREMENTAL_STEPS / 4) /\
    line_mask t (N_INCREMENTAL_STEPS - 1) = Some last /\
    Z.testbit last b = true.
Proof.
  intros Hk Hb. unfold N_INCREMENTAL_STEPS in Hk, Hb.
  destruct the_tables_some as [t Ht].
  pose proof (Zrange_forallb _ 1 31 (level_steps_ok t Ht) k ltac:(lia)) as Hok.
  unfold level_step_ok in Hok.
  destruct (line_mask t (k - 1)) as [prev|] eqn:Hprev; [|discriminate].
  destruct (line_mask t k) as [cur|] eqn:Hcur; [|discriminate].
  destruct (bit_reverse k) as [r|] eqn:Hr; [|discriminate].
  apply andb_prop in Hok. destruct Hok as [Hok Hbits].
  apply andb_prop in Hok. destruct Hok as [Hok Hnew].
  apply andb_prop in Hok. destruct Hok as [Hok Hhi].
  apply andb_prop in Hok. destruct Hok as [Hok Hlo].
  apply andb_prop in Hok. destruct Hok as [Hlor Hspec].
  apply Z.eqb_eq in Hlor, Hspec. apply Z.leb_le in Hlo. apply Z.ltb_lt in Hhi.
  apply negb_true_iff in Hnew. unfold N_INCREMENTAL_STEPS in Hhi.
  assert (Hbit : forall b', 0 <= b' < 32 -> Z.testbit (Int.shl 1 r) b' = (b' =? r)).
  { intros b' Hb'. pose proof (Zrange_forallb _ 0 32 Hbits b' ltac:(lia)) as Hb''.
    cbv beta in Hb''. apply Bool.eqb_prop in Hb''. exact Hb''. }
  exists t, prev, cur, r, (-1).
  split; [rewrite init_returns; exact Ht|].
  split; [exact Hprev|]. split; [exact Hcur|]. split; [reflexivity|].
  split; [exact Hspec|]. split; [unfold N_INCREMENTAL_STEPS; lia|].
  split; [exact Hlor|].
  split; [rewrite Hlor, Z.lor_spec, Hbit by lia; reflexivity|].
  split; [exact Hnew|].
  split; [rewrite Hlor, Z.lor_spec, Hbit, Z.eqb_refl by lia; apply orb_true_r|].
  injection Ht as <-.
  split; [reflexivity|]. split; [reflexivity|]. split; [reflexivity|].
  split; [reflexivity|]. split; [reflexivity|].
  apply Z.bits_m1. lia.
Qed.

Lemma line_mask_monotone_witness :
  exists t prev cur r last,
    InitIncrementalInformation = Some t /\
    line_mask t (1 - 1) = Some prev /\ line_mask t 1 = Some cur /\
    bit_reverse 1 = Some r /\ r = reverse_bits_spec 5 1 /\
    0 <= r < N_INCREMENTAL_STEPS /\
    cur = Z.lor prev (Int.shl 1 r) /\
    Z.testbit cur 16 = Z.testbit prev 16 || (16 =? r) /\
    Z.testbit prev r = false /\ Z.testbit cur r = true /\
    line_mask t 0 = Some 1 /\
    bit_reverse 0 = Some 0 /\
    bit_reverse 1 = Some (N_INCREMENTAL_STEPS / 2) /\
    bit_reverse 2 = Some (N_INCREMENTAL_STEPS / 4) /\
    line_mask t (N_INCREMENTAL_STEPS - 1) = Some last /\
    Z.testbit last 16 = true.
Proof.
  apply (line_mask_monotone 1 16); unfold N_INCREMENTAL_STEPS; lia.
Defined.

(** C2, as the code has it: for every level k and row offset m in [0, N),
    closest_line[k][m] is a set bit of line_mask[k] at or before m, and the
    closest of them to m: every set bit [b] in [0, m] is farther from m, or
    is the entry itself. *)
Theorem closest_line_floor (k m b : Z) :
  0 <= k < N_INCREMENTAL_STEPS -> 0 <= m < N_INCREMENTAL_STEPS -> 0 <= b <= m ->
  exists t mask c,
    InitIncrementalInformation = Some t /\
    line_mask t k = Some mask /\ closest_line t k m = Some c /\
    0 <= c <= m /\ Z.testbit mask c = true /\
    (Z.testbit mask b = false \/ Z.abs (c - m) < Z.abs (b - m) \/ b = c).
Proof.
  intros Hk Hm Hb. unfold N_INCREMENTAL_STEPS in Hk, Hm.
  destruct the_tables_some as [t Ht].
  pose proof (cell_ok_at t k m Ht Hk Hm) as Hcell.
  unfold cell_ok in Hcell.
  destruct (line_mask t k) as [mask|] eqn:Hmask; [|discriminate].
  destruct (closest_line t k m) as [c|] eqn:Hc; [|discriminate].
  apply andb_prop in Hcell. destruct Hcell as [Hcell H0].
  apply andb_prop in Hcell. destruct Hcell as [Hval _].
  apply Z.eqb_eq in Hval.
  assert (Hbits : forall j, 0 <= j < 32 -> line_bit mask j = Z.testbit mask j).
  { intros j Hj. pose proof (cell_ok_at t k j Ht Hk Hj) as Hcj.
    unfold cell_ok in Hcj. rewrite Hmask in Hcj.
    destruct (closest_line t k j); [|discriminate].
    apply andb_prop in Hcj. destruct Hcj as [Hcj _].
    apply andb_prop in Hcj. destruct Hcj as [_ Hcj].
    apply Bool.eqb_prop in Hcj. exact Hcj. }
  destruct (closest_line_for_floor mask m ltac:(lia) H0) as [Hrange [Hset Hlast]].
  rewrite <- Hval in Hrange, Hset, Hlast.
  exists t, mask, c.
  split; [rewrite init_returns; exact Ht|].
  split; [exact Hmask|]. split; [exact Hc|]. split; [exact Hrange|].
  split; [rewrite <- Hbits by lia; exact Hset|].
  destruct (Z.testbit mask b) eqn:Hbset; [right|left; reflexivity].
  destruct (Z.lt_trichotomy b c) as [Hlt|[Heq|Hgt]].
  - left. lia.
  - right. exact Heq.
  - exfalso. rewrite <- Hbits in Hbset by lia.
    rewrite Hlast in Hbset by lia. discriminate.
Qed.

Lemma closest_line_floor_witness :
  exists t mask c,
    InitIncrementalInformation = Some t /\
    line_mask t 1 = Some mask /\ closest_line t 1 15 = Some c /\
    0 <= c <= 15 /\ Z.testbit mask c = true /\
    (Z.testbit mask 0 = false \/ Z.abs (c - 15) < Z.abs (0 - 15) \/ 0 = c).
Proof.
  apply (closest_line_floor 1 15 0); unfold N_INCREMENTAL_STEPS; lia.
Defined.

(** C2, as stated, fails at level 1 and row offset 15: the table holds
    row 0, at distance 15, while row 16 is a set bit of line_mask[1] at
    distance 1, and is the nearest set bit in the words of the claim. *)
Lemma closest_line_not_nearest :
  exists t mask,
    InitIncrementalInformation = Some t /\
    line_mask t 1 = Some mask /\
    closest_line t 1 15 = Some 0 /\
    Z.testbit mask 16 = true /\
    Z.abs (16 - 15) < Z.abs (0 - 15) /\
    nearest_set_bit_spec mask 15 = 16 /\
    closest_line t 1 15 <> Some (nearest_set_bit_spec mask 15).
Proof.
  destruct the_tables_some as [t Ht]. exists t, 65537.
  split; [rewrite init_returns; exact Ht|].
  injection Ht as <-.
  split; [reflexivity|]. split; [reflexivity|]. split; [reflexivity|].
  split; [reflexivity|]. split; [reflexivity|].
  vm_compute. discriminate.
Qed.

End LineScheduleFacts.

(** ** Priority *)

(** C9, as the code has it: for a record bound to a light, IsHighPriority
    returns true iff the state of the record is New and the position of the
    light lies within the scene bounds; the type of the light is not looked
    at. *)
Theorem IsHighPriority_iff (pLPV : CLightingPreviewThread)
    (l : CLightingPreviewLightDescription) (self : CIncrementalLightInfo) :
  IsHighPriority pLPV (set_pLight l self)
  = Ok (state_eqb (m_eIncrState self) INCR_STATE_NEW
        && WithinAABox (m_Position l) (m_MinViewCoords pLPV) (m_MaxViewCoords pLPV)).
Proof.
  unfold IsHighPriority. cbn [set_pLight m_eIncrState m_pLight].
  destruct (state_eqb (m_eIncrState self) INCR_STATE_NEW); reflexivity.
Qed.

(** C9, as stated, fails for a directional light: with the bounds
    [-1, 1]^3, a new directional light whose position field is the origin
    is high priority. *)
Lemma directional_light_high_priority :
  exists st,
    new_CLightingPreviewThread origin_point = Some st /\
    m_Type sun = MATERIAL_LIGHT_DIRECTIONAL /\
    IsHighPriority (set_m_MaxViewCoords (corner 1) (set_m_MinViewCoords (corner (-1)) st))
      (set_pLight sun new_CIncrementalLightInfo) = Ok true.
Proof.
  unfold new_CLightingPreviewThread. rewrite init_returns.
  destruct the_tables_some as [t ->].
  eexists. split; [reflexivity|]. split; [reflexivity|].
  vm_compute. reflexivity.
Qed.

(** C1 fails on two records in state Partial that are both dark: one at
    level 5 that was last bright at tick 1000003, and one at level 0 that
    never was (its stamp is the 0 of the constructor).  Each is lower
    priority than the other.  Neither is Full, the stamps differ and the
    levels differ, so no tie is involved. *)
Theorem partial_dark_both_lower (pLPV : CLightingPreviewThread) :
  IsLowerPriorityThan pLPV (dark_partial 5 1000003) (dark_partial 0 0) = Ok true /\
  IsLowerPriorityThan pLPV (dark_partial 0 0) (dark_partial 5 1000003) = Ok true.
Proof. split; reflexivity. Qed.

(** *** Where the priority order is asymmetric *)

Lemma SFcompare_antisym (a b : spec_float) :
  SFcompare b a = option_map CompOpp (SFcompare a b).
Proof.
  destruct a as [sa|sa| |sa ma ea], b as [sb|sb| |sb mb eb]; cbn;
    try destruct sa; try destruct sb; try reflexivity.
  - rewrite (Z.compare_antisym ea eb). destruct (ea ?= eb); cbn; try reflexivity.
    rewrite (Pos.compare_cont_antisym ma mb Eq). reflexivity.
  - rewrite (Z.compare_antisym ea eb). destruct (ea ?= eb); cbn; try reflexivity.
    rewrite (Pos.compare_cont_antisym ma mb Eq). reflexivity.
Qed.

Lemma ltb_asym (a b : float) : F32.ltb a b = true -> F32.ltb b a = false.
Proof.
  unfold F32.ltb, SFltb. rewrite (SFcompare_antisym a b).
  destruct (SFcompare a b) as [[]|]; cbn; congruence.
Qed.

Lemma eqb_zero (x : float) : F32.eqb x F32.zero = true -> exists s, x = S754_zero s.
Proof.
  destruct x as [s|s| |s m e]; cbn; try discriminate.
  - intros _. exists s. reflexivity.
  - destruct s; discriminate.
  - destruct s; discriminate.
Qed.

Lemma zero_not_positive (x : float) :
  F32.eqb x F32.zero = true -> F32.gtb x F32.zero = false.
Proof. intros Hx. destruct (eqb_zero x Hx) as [s ->]. reflexivity. Qed.

Lemma zeros_not_less (x y : float) :
  F32.eqb x F32.zero = true -> F32.eqb y F32.zero = true -> F32.ltb x y = false.
Proof.
  intros Hx Hy. destruct (eqb_zero x Hx) as [s ->]. destruct (eqb_zero y Hy) as [s' ->].
  reflexivity.
Qed.

Lemma combo_eqb (a b c d : IncrementalLightState) :
  (combo a b =? combo c d) = state_eqb a c && state_eqb b d.
Proof. destruct a, b, c, d; reflexivity. Qed.

Lemma level_distance (a b : Z) :
  0 <= a < N_INCREMENTAL_STEPS -> 0 <= b < N_INCREMENTAL_STEPS ->
  Int.abs (Int.sub a b) = Z.abs (a - b).
Proof.
  unfold N_INCREMENTAL_STEPS. intros Ha Hb.
  unfold Int.abs, Int.sub. rewrite (wrap32_small (a - b)) by (unfold Int.in_range; lia).
  apply wrap32_small. unfold Int.in_range. lia.
Qed.

Lemma IsLowerPriorityThan_by_state pLPV self other :
  IsLowerPriorityThan pLPV self other
  = bind (IsHighPriority pLPV self) (fun highpriority =>
    bind (IsHighPriority pLPV other) (fun other_highpriority =>
      if highpriority && negb other_highpriority then Ok false
      else if other_highpriority && negb highpriority then Ok true
      else Ok (by_state self other))).
Proof.
  unfold IsLowerPriorityThan, by_state.
  destruct (IsHighPriority pLPV self) as [hp|]; [|reflexivity].
  destruct (IsHighPriority pLPV other) as [ohp|]; [|reflexivity].
  cbn [bind].
  destruct (hp && negb ohp); [reflexivity|].
  destruct (ohp && negb hp); [reflexivity|].
  cbv zeta. rewrite !combo_eqb.
  change (Int.add (Int.mul (state_value INCR_STATE_NO_RESULTS) 16)
                  (state_value INCR_STATE_NO_RESULTS))
    with (combo INCR_STATE_NO_RESULTS INCR_STATE_NO_RESULTS).
  rewrite combo_eqb.
  destruct (m_eIncrState self), (m_eIncrState other);
    cbv beta iota delta [state_eqb state_value Z.eqb Pos.eqb andb];
    repeat match goal with
           | |- context [if ?c then _ else _] => destruct c
           end; reflexivity.
Qed.

(** X29: elsewhere the order is asymmetric.  Two records that are not
    Full, with levels in [0, N), are each lower priority than the other
    only if both are Partial, both dark, stamped differently and more than
    one level apart. *)
Lemma both_lower_only_dark_partial pLPV (A B : CIncrementalLightInfo) :
  m_eIncrState A <> INCR_STATE_HAVE_FULL_RESULTS ->
  m_eIncrState B <> INCR_STATE_HAVE_FULL_RESULTS ->
  0 <= m_PartialResultsStage A < N_INCREMENTAL_STEPS ->
  0 <= m_PartialResultsStage B < N_INCREMENTAL_STEPS ->
  IsLowerPriorityThan pLPV A B = Ok true ->
  IsLowerPriorityThan pLPV B A = Ok true ->
  m_eIncrState A = INCR_STATE_PARTIAL_RESULTS /\
  m_eIncrState B = INCR_STATE_PARTIAL_RESULTS /\
  F32.eqb (m_fTotalContribution A) F32.zero = true /\
  F32.eqb (m_fTotalContribution B) F32.zero = true /\
  m_nMostRecentNonZeroContributionTimeStamp A <> m_nMostRecentNonZeroContributionTimeStamp B /\
  1 < Z.abs (m_PartialResultsStage A - m_PartialResultsStage B).
Proof.
  intros HA HB HlA HlB. rewrite !IsLowerPriorityThan_by_state.
  destruct (IsHighPriority pLPV A) as [ha|]; [|discriminate].
  destruct (IsHighPriority pLPV B) as [hb|]; [|discriminate].
  cbn [bind].
  destruct ha, hb; cbn [andb negb]; try discriminate;
    intros [= HAB] [= HBA]; revert HAB HBA; unfold by_state;
    rewrite (level_distance _ _ HlA HlB), (level_distance _ _ HlB HlA);
    destruct (m_eIncrState A) eqn:EA, (m_eIncrState B) eqn:EB;
    try congruence; try discriminate; cbv zeta; unfold F32.neb;
    pose proof (zero_not_positive (m_fTotalContribution A)) as ZA;
    pose proof (zero_not_positive (m_fTotalContribution B)) as ZB;
    pose proof (ltb_asym (m_fTotalContribution A) (m_fTotalContribution B)) as LAB;
    pose proof (zeros_not_less (m_fTotalContribution A) (m_fTotalContribution B)) as ZAB;
    pose proof (zeros_not_less (m_fTotalContribution B) (m_fTotalContribution A)) as ZBA;
    pose proof (ltb_asym (m_fDistanceToEye B) (m_fDistanceToEye A)) as LD;
    unfold F32.gtb in *; fold F32.ltb in *;
    destruct (F32.eqb (m_fTotalContribution A) F32.zero);
    destruct (F32.eqb (m_fTotalContribution B) F32.zero);
    destruct (F32.ltb F32.zero (m_fTotalContribution A));
    destruct (F32.ltb F32.zero (m_fTotalContribution B));
    destruct (F32.ltb (m_fTotalContribution A) (m_fTotalContribution B));
    destruct (F32.ltb (m_fTotalContribution B) (m_fTotalContribution A));
    destruct (F32.ltb (m_fDistanceToEye B) (m_fDistanceToEye A));
    destruct (F32.ltb (m_fDistanceToEye A) (m_fDistanceToEye B));
    cbn [andb negb]; intros; try discriminate;
    try (specialize (ZA eq_refl)); try (specialize (ZB eq_refl));
    try (specialize (LAB eq_refl)); try (specialize (LD eq_refl));
    try (specialize (ZAB eq_refl eq_refl)); try (specialize (ZBA eq_refl eq_refl));
    try discriminate;
    repeat match goal with
           | Hc : (if ?c then _ else _) = true |- _ => destruct c eqn:?; try discriminate Hc
           end;
    repeat split; try reflexivity; lia.
Qed.

(** ** Discarding results *)

Lemma SetSize_zero fresh m : SetSize fresh 0 0 m = empty_matrix.
Proof.
  unfold SetSize. cbn [Z.eqb orb negb].
  rewrite andb_false_r. reflexivity.
Qed.

Lemma Info_DiscardResults_idem fresh i :
  Info_DiscardResults fresh (Info_DiscardResults fresh i) = Info_DiscardResults fresh i.
Proof.
  unfold Info_DiscardResults. rewrite !SetSize_zero.
  destruct i as [pl id stage state mat tc dist stamp].
  destruct state; reflexivity.
Qed.

Lemma Info_DiscardResults_set_distance fresh d i :
  Info_DiscardResults fresh (set_distance d i) = set_distance d (Info_DiscardResults fresh i).
Proof.
  unfold Info_DiscardResults. rewrite !SetSize_zero.
  destruct i as [pl id stage state mat tc dist stamp].
  destruct state; reflexivity.
Qed.

Lemma erase_set_distance d i : erase_distance (set_distance d i) = erase_distance i.
Proof. destruct i; reflexivity. Qed.

Lemma set_distance_erase d i j :
  erase_distance i = erase_distance j -> set_distance d i = set_distance d j.
Proof.
  destruct i, j. unfold erase_distance, set_distance. cbn.
  intros Heq. injection Heq. intros. subst. reflexivity.
Qed.

Section DiscardFacts.

Context `{External}.

Lemma update_distance_eq eye l infos :
  update_distance eye l infos
  = update_info infos (m_pIncrementalInfo l) (set_distance (distance_of eye l)).
Proof.
  unfold update_distance, distance_of.
  destruct (LightType_eqb (m_Type l) MATERIAL_LIGHT_DIRECTIONAL); reflexivity.
Qed.

Lemma update_distances_agree eye lights X Y :
  update_distances eye lights X = Ok Y -> agree_upto lights X Y.
Proof.
  revert X. induction lights as [|l rest IH]; intros X Hrun.
  - injection Hrun as <-. repeat split; reflexivity.
  - cbn [update_distances] in Hrun. rewrite update_distance_eq in Hrun.
    unfold update_info in Hrun.
    destruct (m_pIncrementalInfo l) as [a|] eqn:Hp; [|discriminate].
    destruct (X !! a) as [i|] eqn:Hi; [|discriminate].
    cbn [bind] in Hrun. destruct (IH _ Hrun) as [Hlen [Herase Hsame]].
    rewrite length_insert in Hlen.
    split; [exact Hlen|]. split.
    + intros a'. rewrite <- Herase.
      destruct (decide (a = a')) as [<-|Hne].
      * rewrite list_lookup_insert_eq by (eapply lookup_lt_Some; exact Hi).
        rewrite Hi. cbn. rewrite erase_set_distance. reflexivity.
      * rewrite list_lookup_insert_ne by exact Hne. reflexivity.
    + intros a' Hfree. rewrite <- Hsame.
      * rewrite list_lookup_insert_ne; [reflexivity|].
        intros ->. apply (Hfree l); [left; reflexivity|exact Hp].
      * intros l' Hl'. apply Hfree. right. exact Hl'.
Qed.

Lemma update_distances_stable eye lights X X' Y :
  agree_upto lights X X' ->
  update_distances eye lights X = Ok Y -> update_distances eye lights X' = Ok Y.
Proof.
  revert X X'. induction lights as [|l rest IH]; intros X X' [Hlen [Herase Hsame]] Hrun.
  - injection Hrun as <-. cbn. f_equal. symmetry.
    apply list_eq. intros a. apply Hsame. intros l [].
  - cbn [update_distances] in Hrun |- *. rewrite update_distance_eq in Hrun |- *.
    unfold update_info in Hrun |- *.
    destruct (m_pIncrementalInfo l) as [a|] eqn:Hp; [|discriminate].
    destruct (X !! a) as [i|] eqn:Hi; [|discriminate].
    pose proof (Herase a) as Ha. rewrite Hi in Ha.
    destruct (X' !! a) as [i'|] eqn:Hi'; [|discriminate].
    change (Some (erase_distance i) = Some (erase_distance i')) in Ha.
    assert (Hii : erase_distance i = erase_distance i') by congruence. clear Ha.
    cbn [bind] in Hrun |- *. apply (IH _ _ ) with (2 := Hrun).
    split; [rewrite !length_insert; exact Hlen|]. split.
    + intros a'. destruct (decide (a = a')) as [<-|Hne].
      * rewrite !list_lookup_insert_eq by (eapply lookup_lt_Some; eassumption).
        cbn. rewrite !erase_set_distance, Hii. reflexivity.
      * rewrite !list_lookup_insert_ne by exact Hne. apply Herase.
    + intros a' Hfree. destruct (decide (a = a')) as [<-|Hne].
      * rewrite !list_lookup_insert_eq by (eapply lookup_lt_Some; eassumption).
        f_equal. apply set_distance_erase. exact Hii.
      * rewrite !list_lookup_insert_ne by exact Hne. apply Hsame.
        intros l' [<-|Hl']; [rewrite Hp; congruence|apply Hfree; exact Hl'].
Qed.

Lemma update_distances_idem eye lights X Y :
  update_distances eye lights X = Ok Y -> update_distances eye lights Y = Ok Y.
Proof.
  intros Hrun. apply (update_distances_stable eye lights X Y Y); [|exact Hrun].
  apply update_distances_agree with (eye := eye). exact Hrun.
Qed.

Lemma update_distances_discarded eye lights X Y :
  Forall (fun i => Info_DiscardResults uninit_cell i = i) X ->
  update_distances eye lights X = Ok Y ->
  Forall (fun i => Info_DiscardResults uninit_cell i = i) Y.
Proof.
  revert X. induction lights as [|l rest IH]; intros X HX Hrun.
  - injection Hrun as <-. exact HX.
  - cbn [update_distances] in Hrun. rewrite update_distance_eq in Hrun.
    unfold update_info in Hrun.
    destruct (m_pIncrementalInfo l) as [a|]; [|discriminate].
    destruct (X !! a) as [i|] eqn:Hi; [|discriminate].
    cbn [bind] in Hrun. apply (IH _) with (2 := Hrun).
    apply Forall_insert; [exact HX|].
    rewrite Info_DiscardResults_set_distance. f_equal.
    rewrite Forall_forall in HX. apply HX.
    eapply list_elem_of_lookup_2. exact Hi.
Qed.

Lemma map_fixed {A : Type} (f : A -> A) (l : list A) :
  Forall (fun x => f x = x) l -> map f l = l.
Proof.
  induction 1 as [|x l Hx _ IH]; [reflexivity|].
  cbn. rewrite Hx, IH. reflexivity.
Qed.

Lemma discarded_after_map (X : list CIncrementalLightInfo) :
  Forall (fun i => Info_DiscardResults uninit_cell i = i)
         (map (Info_DiscardResults uninit_cell) X).
Proof.
  induction X as [|i X IH]; constructor.
  - apply Info_DiscardResults_idem.
  - exact IH.
Qed.

(** C7, as the code has it: a second call of discard-results right after a
    first one leaves the engine as the first call left it (every per-light
    record with its state, level, contribution matrix, total_contribution,
    time stamp and distance, the light list, the result-changed flag),
    except that the global contribution counter is bumped once more and the
    last-send-time is set from the clock reading of the second call. *)
Theorem DiscardResults_twice (now now' : double) (st st1 : CLightingPreviewThread) :
  DiscardResults now st = Ok st1 ->
  DiscardResults now' st1
  = Ok (set_m_fLastSendTime (F32.of_double (F64.sub now' F64.c_9))
          (set_m_nContributionCounter (Int.add (m_nContributionCounter st1) 1) st1)).
Proof.
  unfold DiscardResults at 1. intros Hrun.
  destruct (m_pLightList st) as [lights|] eqn:Hlights.
  - destruct (update_distances (m_LastEyePosition st) lights
                (map (Info_DiscardResults uninit_cell) (m_pIncrementalLightInfoList st)))
      as [Y|f] eqn:Hup; [|discriminate].
    cbn [bind] in Hrun. injection Hrun as <-.
    pose proof (update_distances_discarded _ _ _ _ (discarded_after_map _) Hup) as Hfix.
    unfold DiscardResults. cbn. rewrite Hlights.
    rewrite (map_fixed _ _ Hfix).
    rewrite (update_distances_idem _ _ _ _ Hup). cbn. reflexivity.
  - cbn [bind] in Hrun. injection Hrun as <-.
    unfold DiscardResults. cbn. rewrite Hlights. cbn.
    rewrite (map_fixed _ _ (discarded_after_map _)). reflexivity.
Qed.

End DiscardFacts.

Lemma fresh_engine_constructed : new_CLightingPreviewThread origin_point = Some fresh_engine.
Proof. vm_compute. reflexivity. Qed.

Lemma DiscardResults_twice_witness :
  exists st1,
    DiscardResults (H := reference_external) t100 fresh_engine = Ok st1 /\
    DiscardResults (H := reference_external) t101 st1
    = Ok (set_m_fLastSendTime (F32.of_double (F64.sub t101 F64.c_9))
            (set_m_nContributionCounter (Int.add (m_nContributionCounter st1) 1) st1)).
Proof.
  eexists. split.
  - vm_compute. reflexivity.
  - apply (DiscardResults_twice (H := reference_external) t100 t101 fresh_engine).
    vm_compute. reflexivity.
Defined.

(** C7, as stated, fails on the engine as constructed: with the same clock
    reading for both calls, the global contribution counter is 1000001
    after one call and 1000002 after two. *)
Lemma second_discard_bumps_counter :
  exists st1 st2,
    new_CLightingPreviewThread origin_point = Some fresh_engine /\
    DiscardResults (H := reference_external) t100 fresh_engine = Ok st1 /\
    DiscardResults (H := reference_external) t100 st1 = Ok st2 /\
    m_nContributionCounter st1 = 1000001 /\
    m_nContributionCounter st2 = 1000002 /\
    st2 <> st1.
Proof.
  eexists. eexists.
  split; [exact fresh_engine_constructed|].
  split; [vm_compute; reflexivity|].
  split; [vm_compute; reflexivity|].
  split; [reflexivity|]. split; [reflexivity|].
  intros Heq. apply (f_equal m_nContributionCounter) in Heq.
  vm_compute in Heq. discriminate.
Qed.

(** ** One refinement pass *)

Section PassFacts.

Context `{External}.

Lemma build_acceleration_infos st :
  m_pIncrementalLightInfoList (build_acceleration st) = m_pIncrementalLightInfoList st.
Proof.
  unfold build_acceleration.
  destruct (m_pRtEnv st); [destruct (negb (m_bAccStructureBuilt st))|]; reflexivity.
Qed.

Lemma build_acceleration_counter st :
  m_nContributionCounter (build_acceleration st) = m_nContributionCounter st.
Proof.
  unfold build_acceleration.
  destruct (m_pRtEnv st); [destruct (negb (m_bAccStructureBuilt st))|]; reflexivity.
Qed.

Lemma fan_out_four st l calc_mask rslt rslt' total_light :
  fan_out st l calc_mask rslt = Ok (rslt', total_light) ->
  exists m0 m1 m2 m3, total_light = [m0; m1; m2; m3].
Proof.
  unfold fan_out. intros Hrun.
  destruct (CalculateForLightTask st 3 0 l calc_mask rslt) as [r0|]; [|discriminate].
  cbn [bind] in Hrun.
  destruct (CalculateForLightTask st 3 1 l calc_mask (fst r0)) as [r1|]; [|discriminate].
  cbn [bind] in Hrun.
  destruct (CalculateForLightTask st 3 2 l calc_mask (fst r1)) as [r2|]; [|discriminate].
  cbn [bind] in Hrun.
  destruct (CalculateForLightTask st 3 3 l calc_mask (fst r2)) as [r3|]; [|discriminate].
  cbn [bind] in Hrun. injection Hrun as _ <-.
  exists (snd r0), (snd r1), (snd r2), (snd r3). reflexivity.
Qed.

Lemma account_spec st new_incr_level rslt total_light l_info :
  let l_info' := account st new_incr_level rslt total_light l_info in
  m_fTotalContribution l_info' = accumulate total_light /\
  (if F32.eqb (accumulate total_light) F32.zero
   then m_CalculatedContribution l_info' = empty_matrix /\
        m_nMostRecentNonZeroContributionTimeStamp l_info'
          = m_nMostRecentNonZeroContributionTimeStamp l_info
   else m_CalculatedContribution l_info' = rslt /\
        m_nMostRecentNonZeroContributionTimeStamp l_info' = m_nContributionCounter st) /\
  m_PartialResultsStage l_info' = new_incr_level /\
  m_eIncrState l_info'
    = (if new_incr_level =? N_INCREMENTAL_STEPS - 1
       then INCR_STATE_HAVE_FULL_RESULTS else INCR_STATE_PARTIAL_RESULTS).
Proof.
  unfold account. cbn [m_fTotalContribution set_total set_matrix m_CalculatedContribution].
  rewrite SetSize_zero.
  change (Int.sub N_INCREMENTAL_STEPS 1) with (N_INCREMENTAL_STEPS - 1).
  destruct (F32.eqb (accumulate total_light) F32.zero);
    destruct (new_incr_level =? N_INCREMENTAL_STEPS - 1);
    repeat split; reflexivity.
Qed.

(** C3, as the code has it: after the four-way fan-out for a light the four
    magnitudes are summed, from 0 and in the order of the tasks, into
    total_contribution.  If the sum is zero the contribution matrix is
    released and the time stamp is kept; otherwise the matrix is kept and
    the time stamp becomes the current value of the global counter, which
    is not incremented.  In both cases the level becomes the level of the
    pass (one more than before for a record in state Partial, 0 for any
    other) and the state becomes Full iff that level is N-1, Partial
    otherwise. *)
Theorem CalculateForLight_accounting (st st' : CLightingPreviewThread)
    (l : CLightingPreviewLightDescription) :
  CalculateForLight st l = Ok st' ->
  exists a l_info l_info' new_incr_level prev_msk new_msk rslt m0 m1 m2 m3,
    m_pIncrementalInfo l = Some a /\
    m_pIncrementalLightInfoList st !! a = Some l_info /\
    next_level (build_acceleration st) l_info = Ok (new_incr_level, prev_msk) /\
    vec_get (LineSchedule.m_LineMask (m_Tables (build_acceleration st))) new_incr_level
      = Ok new_msk /\
    fan_out (build_acceleration st) l (Int.and new_msk (Int.not prev_msk))
      (SetSize uninit_cell (m_nWidth (m_Albedos (build_acceleration st)))
         (m_nHeight (m_Albedos (build_acceleration st))) (m_CalculatedContribution l_info))
      = Ok (rslt, [m0; m1; m2; m3]) /\
    m_pIncrementalLightInfoList st' = <[a := l_info']> (m_pIncrementalLightInfoList st) /\
    m_fTotalContribution l_info'
      = F32.add (F32.add (F32.add (F32.add F32.zero m0) m1) m2) m3 /\
    (if F32.eqb (m_fTotalContribution l_info') F32.zero
     then m_CalculatedContribution l_info' = empty_matrix /\
          m_nMostRecentNonZeroContributionTimeStamp l_info'
            = m_nMostRecentNonZeroContributionTimeStamp l_info
     else m_CalculatedContribution l_info' = rslt /\
          m_nMostRecentNonZeroContributionTimeStamp l_info' = m_nContributionCounter st) /\
    new_incr_level
      = (if state_eqb (m_eIncrState l_info) INCR_STATE_PARTIAL_RESULTS
         then Int.add 1 (m_PartialResultsStage l_info) else 0) /\
    m_PartialResultsStage l_info' = new_incr_level /\
    m_eIncrState l_info'
      = (if new_incr_level =? N_INCREMENTAL_STEPS - 1
         then INCR_STATE_HAVE_FULL_RESULTS else INCR_STATE_PARTIAL_RESULTS) /\
    m_nContributionCounter st' = m_nContributionCounter st.
Proof.
  unfold CalculateForLight. intros Hrun.
  set (stb := build_acceleration st) in *.
  unfold get_info in Hrun.
  destruct (m_pIncrementalInfo l) as [a|] eqn:Hp; [|discriminate].
  destruct (m_pIncrementalLightInfoList stb !! a) as [l_info|] eqn:Hinfo; [|discriminate].
  cbn [bind] in Hrun.
  destruct (next_level stb l_info) as [[new_incr_level prev_msk]|] eqn:Hlevel; [|discriminate].
  cbn [bind] in Hrun.
  destruct (vec_get (LineSchedule.m_LineMask (m_Tables stb)) new_incr_level)
    as [new_msk|] eqn:Hmask; [|discriminate].
  cbn [bind] in Hrun.
  destruct (fan_out stb l _ _) as [[rslt total_light]|] eqn:Hfan; [|discriminate].
  cbn [bind fst snd] in Hrun.
  destruct (fan_out_four _ _ _ _ _ _ Hfan) as (m0 & m1 & m2 & m3 & ->).
  unfold update_info in Hrun. rewrite Hinfo in Hrun.
  injection Hrun as <-.
  subst stb. rewrite build_acceleration_infos in Hinfo |- *.
  exists a, l_info, (account (build_acceleration st) new_incr_level rslt [m0; m1; m2; m3] l_info),
    new_incr_level, prev_msk, new_msk, rslt, m0, m1, m2, m3.
  split; [reflexivity|]. split; [exact Hinfo|]. split; [exact Hlevel|].
  split; [exact Hmask|]. split; [exact Hfan|].
  split; [reflexivity|].
  assert (Hnext : new_incr_level
                  = (if state_eqb (m_eIncrState l_info) INCR_STATE_PARTIAL_RESULTS
                     then Int.add 1 (m_PartialResultsStage l_info) else 0)).
  { unfold next_level in Hlevel.
    destruct (state_eqb (m_eIncrState l_info) INCR_STATE_PARTIAL_RESULTS).
    - destruct (vec_get _ (m_PartialResultsStage l_info)); [|discriminate].
      cbn [bind] in Hlevel. injection Hlevel as <- _. reflexivity.
    - injection Hlevel as <- _. reflexivity. }
  pose proof (account_spec (build_acceleration st) new_incr_level rslt [m0; m1; m2; m3] l_info)
    as Hacc.
  cbv zeta in Hacc. rewrite build_acceleration_counter in Hacc.
  destruct Hacc as (Htotal & Hkeep & Hstage & Hstate).
  change (accumulate [m0; m1; m2; m3])
    with (F32.add (F32.add (F32.add (F32.add F32.zero m0) m1) m2) m3) in Htotal, Hkeep.
  split; [exact Htotal|]. split; [rewrite Htotal; exact Hkeep|].
  split; [exact Hnext|]. split; [exact Hstage|]. split; [exact Hstate|].
  apply build_acceleration_counter.
Qed.

End PassFacts.

Lemma lit_engine_runs : lit_engine = Ok lit_state.
Proof. vm_compute. reflexivity. Qed.

Lemma first_pass_runs :
  CalculateForLight (H := reference_external) lit_state bound_lamp = Ok first_pass.
Proof. vm_compute. reflexivity. Qed.

Lemma second_pass_runs :
  CalculateForLight (H := reference_external) first_pass bound_lamp = Ok second_pass.
Proof. vm_compute. reflexivity. Qed.

Lemma CalculateForLight_accounting_witness :
  CalculateForLight (H := reference_external) lit_state bound_lamp = Ok first_pass /\
  exists a l_info l_info' new_incr_level prev_msk new_msk rslt m0 m1 m2 m3,
    m_pIncrementalInfo bound_lamp = Some a /\
    m_pIncrementalLightInfoList lit_state !! a = Some l_info /\
    next_level (build_acceleration (H := reference_external) lit_state) l_info
      = Ok (new_incr_level, prev_msk) /\
    vec_get (LineSchedule.m_LineMask
               (m_Tables (build_acceleration (H := reference_external) lit_state)))
            new_incr_level
      = Ok new_msk /\
    fan_out (H := reference_external) (build_acceleration (H := reference_external) lit_state)
      bound_lamp (Int.and new_msk (Int.not prev_msk))
      (SetSize (uninit_cell (External := reference_external))
         (m_nWidth (m_Albedos (build_acceleration (H := reference_external) lit_state)))
         (m_nHeight (m_Albedos (build_acceleration (H := reference_external) lit_state)))
         (m_CalculatedContribution l_info))
      = Ok (rslt, [m0; m1; m2; m3]) /\
    m_pIncrementalLightInfoList first_pass
      = <[a := l_info']> (m_pIncrementalLightInfoList lit_state) /\
    m_fTotalContribution l_info'
      = F32.add (F32.add (F32.add (F32.add F32.zero m0) m1) m2) m3 /\
    (if F32.eqb (m_fTotalContribution l_info') F32.zero
     then m_CalculatedContribution l_info' = empty_matrix /\
          m_nMostRecentNonZeroContributionTimeStamp l_info'
            = m_nMostRecentNonZeroContributionTimeStamp l_info
     else m_CalculatedContribution l_info' = rslt /\
          m_nMostRecentNonZeroContributionTimeStamp l_info'
            = m_nContributionCounter lit_state) /\
    new_incr_level
      = (if state_eqb (m_eIncrState l_info) INCR_STATE_PARTIAL_RESULTS
         then Int.add 1 (m_PartialResultsStage l_info) else 0) /\
    m_PartialResultsStage l_info' = new_incr_level /\
    m_eIncrState l_info'
      = (if new_incr_level =? N_INCREMENTAL_STEPS - 1
         then INCR_STATE_HAVE_FULL_RESULTS else INCR_STATE_PARTIAL_RESULTS) /\
    m_nContributionCounter first_pass = m_nContributionCounter lit_state.
Proof.
  split.
  - vm_compute. reflexivity.
  - apply (CalculateForLight_accounting (H := reference_external) lit_state first_pass
             bound_lamp).
    vm_compute. reflexivity.
Defined.

(** C3, as stated, fails on a 4 x 2 image lit by one point light.  The
    first pass of the light finds a nonzero sum: the record is stamped
    1000004, the value the global counter holds before and after the pass,
    not that value plus one.  The second pass, at level 1, calculates no
    line of so low an image and finds the sum zero: the matrix is released,
    and the level still moves from 0 to 1. *)
Lemma pass_stamps_and_levels :
  exists before after,
    lit_engine = Ok lit_state /\
    CalculateForLight (H := reference_external) lit_state bound_lamp = Ok first_pass /\
    CalculateForLight (H := reference_external) first_pass bound_lamp = Ok second_pass /\
    m_pIncrementalLightInfoList first_pass !! 0%nat = Some before /\
    m_pIncrementalLightInfoList second_pass !! 0%nat = Some after /\
    F32.eqb (m_fTotalContribution before) F32.zero = false /\
    m_nContributionCounter lit_state = 1000004 /\
    m_nMostRecentNonZeroContributionTimeStamp before = 1000004 /\
    m_nContributionCounter first_pass = 1000004 /\
    F32.eqb (m_fTotalContribution after) F32.zero = true /\
    m_CalculatedContribution after = empty_matrix /\
    m_PartialResultsStage before = 0 /\
    m_PartialResultsStage after = 1.
Proof.
  eexists. eexists.
  split; [exact lit_engine_runs|].
  split; [exact first_pass_runs|].
  split; [exact second_pass_runs|].
  split; [vm_compute; reflexivity|].
  split; [vm_compute; reflexivity|].
  repeat split; vm_compute; reflexivity.
Qed.

(** ** The shading kernel *)

Lemma lane_not_ones : lane_not all_ones = 0.
Proof. reflexivity. Qed.

Lemma land_all_ones a : lane_ok a -> Z.land all_ones a = a.
Proof.
  unfold lane_ok. intros Ha.
  change all_ones with (Z.ones 32).
  rewrite Z.land_comm, Z.land_ones by lia.
  apply Z.mod_small. exact Ha.
Qed.

(** An and-not with a comparison mask keeps the lane or clears it. *)
Lemma andnot_lane_mask (b : bool) (a : Z) :
  lane_ok a -> Z.land (lane_not (lane_mask b)) a = if b then 0 else a.
Proof.
  intros Ha. destruct b.
  - reflexivity.
  - apply land_all_ones. exact Ha.
Qed.

(** A lane of the shadow mask is the mask of the shadow test. *)
Lemma shadow_mask_lane (id dist len : Z) :
  Z.land (lane_not (lane_mask (lane_signed id <? lane_signed 0)))
         (lane_mask (F32.ltb (F32.of_bits dist) (F32.of_bits len)))
  = lane_mask ((0 <=? lane_signed id) && F32.ltb (F32.of_bits dist) (F32.of_bits len)).
Proof.
  change (lane_signed 0) with 0.
  rewrite (Z.leb_antisym (lane_signed id) 0).
  destruct (lane_signed id <? 0); destruct (F32.ltb (F32.of_bits dist) (F32.of_bits len));
    reflexivity.
Qed.

Lemma shadow_mask_eq (r : RayTracingResult) (len : fltx4) :
  shadow_mask r len
  = mk_fltx4 (lane_mask (lane_hit r len 0)) (lane_mask (lane_hit r len 1))
             (lane_mask (lane_hit r len 2)) (lane_mask (lane_hit r len 3)).
Proof.
  unfold shadow_mask, _mm_andnot_si128, AndNotSIMD, _mm_cmplt_epi32, _mm_cmplt_ps,
    _mm_setzero_si128, Four_Zeros, zip4, lane_cmp, lane_hit, lane.
  cbn [lane0 lane1 lane2 lane3 Z.eqb].
  rewrite !shadow_mask_lane. reflexivity.
Qed.

Lemma AndNotSIMD_blackout (r : RayTracingResult) (len a : fltx4) :
  fltx4_ok a -> AndNotSIMD (shadow_mask r len) a = blackout (lane_hit r len) a.
Proof.
  intros (H0 & H1 & H2 & H3). rewrite shadow_mask_eq.
  unfold AndNotSIMD, zip4, blackout. cbn [lane0 lane1 lane2 lane3].
  rewrite !andnot_lane_mask by assumption. reflexivity.
Qed.

Section KernelFacts.

Context `{External}.

(** C4, as the code has it: for a group of four pixels whose unshadowed
    contribution is not zero in every lane and channel, four rays are
    traced with direction = (light position - pixel position) times the
    reciprocal of its length, origin = pixel position + 0.02 times the
    direction, min-t = 0 and max-t = 1.0e9 in every lane; what is stored
    for the group is the contribution with the lanes set to zero that
    report a hit id >= 0 at a hit distance less than the length of that
    lane's ray, and the other lanes unchanged. *)
Theorem shade_group_shadow (st : CLightingPreviewThread) (l : CLightingPreviewLightDescription)
    (x y : Z) (pos normal albedo : FourVectors) (env : RayTracingEnvironment) :
  CompoundElement (m_Positions st) x y = Ok pos ->
  CompoundElement (m_Normals st) x y = Ok normal ->
  CompoundElement (m_Albedos st) x y = Ok albedo ->
  m_pRtEnv st = Some env ->
  FourVectors_ok (ComputeLightAtPoints l pos normal zero_vector false) ->
  IsAllZeros (OrSIMD (fx (ComputeLightAtPoints l pos normal zero_vector false))
                (OrSIMD (fy (ComputeLightAtPoints l pos normal zero_vector false))
                        (fz (ComputeLightAtPoints l pos normal zero_vector false)))) = false ->
  let l_add := ComputeLightAtPoints l pos normal zero_vector false in
  let to_light := FourVectors_sub (DuplicateVector (m_Position l)) pos in
  let len := FourVectors_length to_light in
  let dir := FourVectors_scale to_light (ReciprocalSIMD len) in
  let org := FourVectors_add (FourVectors_scale_f dir F32.c_0_02) pos in
  let r_rslt := Trace4Rays env (mk_FourRays org dir) Four_Zeros (ReplicateX4 F32.c_1e9) in
  let stored := mk_FourVectors (blackout (lane_hit r_rslt len) (fx l_add))
                               (blackout (lane_hit r_rslt len) (fy l_add))
                               (blackout (lane_hit r_rslt len) (fz l_add)) in
  shade_group st l x y = Ok (stored, Some (suppress (FourVectors_mul stored albedo))).
Proof.
  intros Hpos Hnormal Halbedo Henv (Hx & Hy & Hz) Hlit.
  cbv zeta. unfold shade_group.
  rewrite Hpos. cbn [bind]. rewrite Hnormal. cbn [bind]. rewrite Hlit.
  cbn [negb]. unfold shadow_rays. rewrite Henv. cbn [bind]. rewrite Halbedo. cbn [bind].
  unfold apply_mask, trace_tmin, trace_tmax.
  rewrite !AndNotSIMD_blackout by assumption.
  reflexivity.
Qed.

End KernelFacts.

Lemma shade_group_shadow_witness :
  exists pos normal albedo env,
    CompoundElement (m_Positions lit_state) 0 0 = Ok pos /\
    CompoundElement (m_Normals lit_state) 0 0 = Ok normal /\
    CompoundElement (m_Albedos lit_state) 0 0 = Ok albedo /\
    m_pRtEnv lit_state = Some env /\
    FourVectors_ok
      (ComputeLightAtPoints (External := reference_external) bound_lamp pos normal zero_vector
         false) /\
    (let l_add := ComputeLightAtPoints (External := reference_external) bound_lamp pos normal
                    zero_vector false in
     IsAllZeros (OrSIMD (fx l_add) (OrSIMD (fy l_add) (fz l_add))) = false) /\
    let l_add := ComputeLightAtPoints (External := reference_external) bound_lamp pos normal
                   zero_vector false in
    let to_light := FourVectors_sub (DuplicateVector (m_Position bound_lamp)) pos in
    let len := FourVectors_length (External := reference_external) to_light in
    let dir := FourVectors_scale to_light
                 (ReciprocalSIMD (External := reference_external) len) in
    let org := FourVectors_add (FourVectors_scale_f dir F32.c_0_02) pos in
    let r_rslt := Trace4Rays (External := reference_external) env (mk_FourRays org dir)
                    Four_Zeros (ReplicateX4 F32.c_1e9) in
    let stored := mk_FourVectors (blackout (lane_hit r_rslt len) (fx l_add))
                                 (blackout (lane_hit r_rslt len) (fy l_add))
                                 (blackout (lane_hit r_rslt len) (fz l_add)) in
    shade_group (H := reference_external) lit_state bound_lamp 0 0
    = Ok (stored, Some (suppress (FourVectors_mul stored albedo))).
Proof.
  eexists. eexists. eexists. eexists.
  split; [vm_compute; reflexivity|].
  split; [vm_compute; reflexivity|].
  split; [vm_compute; reflexivity|].
  split; [vm_compute; reflexivity|].
  split; [vm_compute; repeat split; discriminate|].
  split; [vm_compute; reflexivity|].
  apply (shade_group_shadow (H := reference_external) lit_state bound_lamp 0 0).
  - vm_compute. reflexivity.
  - vm_compute. reflexivity.
  - vm_compute. reflexivity.
  - vm_compute. reflexivity.
  - vm_compute. repeat split; discriminate.
  - vm_compute. reflexivity.
Defined.

(** C4, as stated, fails on the max-t of the packet: for the pixels at the
    origin and the light at (0, 0, 2) the rays have length 2 in every lane,
    and the max-t handed to the tracer is 1.0e9. *)
Lemma trace_tmax_not_ray_length :
  exists pos,
    CompoundElement (m_Positions lit_state) 0 0 = Ok pos /\
    snd (shadow_rays (H := reference_external) bound_lamp pos) = ReplicateX4 (F32.of_int 2) /\
    trace_tmax = ReplicateX4 F32.c_1e9 /\
    trace_tmax <> snd (shadow_rays (H := reference_external) bound_lamp pos).
Proof.
  eexists.
  split; [vm_compute; reflexivity|].
  split; [vm_compute; reflexivity|].
  split; [reflexivity|].
  vm_compute. discriminate.
Qed.

(** ** The scheduler *)

(** Splits the first [bind] of a hypothesis on its two outcomes. *)
Tactic Notation "bind_inv" hyp(Hrun) "as" simple_intropattern(x) "eqn" ":" ident(E) :=
  match type of Hrun with
  | bind ?m _ = Ok _ =>
      destruct m as [x|] eqn:E; [cbn [bind] in Hrun | discriminate Hrun]
  end.

Lemma echoes_app g0 tr1 tr2 :
  echoes g0 (tr1 ++ tr2) <-> echoes g0 tr1 /\ echoes (generation_after g0 tr1) tr2.
Proof.
  revert g0. induction tr1 as [|e tr1 IH]; intros g0.
  - cbn. tauto.
  - destruct e as [m| |d]; cbn [app echoes generation_after].
    + destruct m; apply IH.
    + apply IH.
    + rewrite IH. tauto.
Qed.

Lemma generation_after_app g0 tr1 tr2 :
  generation_after g0 (tr1 ++ tr2) = generation_after (generation_after g0 tr1) tr2.
Proof.
  revert g0. induction tr1 as [|e tr1 IH]; intros g0; [reflexivity|].
  destruct e as [m| |d]; cbn [app generation_after]; [destruct m|..]; apply IH.
Qed.

Lemma generation_after_no_gbuffers g0 tr :
  (forall bms eye g, ~ In (Handled (LPREVIEW_MSG_G_BUFFERS bms eye g)) tr) ->
  generation_after g0 tr = g0.
Proof.
  induction tr as [|e tr IH]; intros Hnone; [reflexivity|].
  assert (Htail : forall bms eye g, ~ In (Handled (LPREVIEW_MSG_G_BUFFERS bms eye g)) tr).
  { intros bms eye g Hin. apply (Hnone bms eye g). right. exact Hin. }
  destruct e as [m| |d]; cbn [generation_after]; try (apply IH; exact Htail).
  destruct m; try (apply IH; exact Htail).
  exfalso. eapply Hnone. left. reflexivity.
Qed.

Section SchedulerFacts.

Context `{External}.

Lemma DiscardResults_generation now st st' :
  DiscardResults now st = Ok st' ->
  m_nBitmapGenerationCounter st' = m_nBitmapGenerationCounter st.
Proof.
  unfold DiscardResults. intros Hrun. bind_inv Hrun as infos eqn:E.
  injection Hrun as <-. reflexivity.
Qed.

Lemma CalculateSceneBounds_generation st st' :
  CalculateSceneBounds st = Ok st' ->
  m_nBitmapGenerationCounter st' = m_nBitmapGenerationCounter st.
Proof.
  unfold CalculateSceneBounds. intros Hrun. bind_inv Hrun as [minbound maxbound] eqn:E.
  injection Hrun as <-. reflexivity.
Qed.

Lemma UpdateIncrementalForNewLightList_generation st st' :
  UpdateIncrementalForNewLightList st = Ok st' ->
  m_nBitmapGenerationCounter st' = m_nBitmapGenerationCounter st.
Proof.
  unfold UpdateIncrementalForNewLightList. intros Hrun.
  destruct (m_pLightList st); [|discriminate].
  bind_inv Hrun as s eqn:E. injection Hrun as <-. reflexivity.
Qed.

(** The generation after a message is the one a G-buffers message brings,
    and the one before for any other message. *)
Lemma HandleAMessage_generation m now now' st st' quit :
  HandleAMessage m now now' st = Ok (st', quit) ->
  m_nBitmapGenerationCounter st'
  = generation_after (m_nBitmapGenerationCounter st) [Handled m].
Proof.
  unfold HandleAMessage. intros Hrun.
  destruct m as [|lights eye|tris|bms eye g]; cbn [generation_after].
  - injection Hrun as <- _. reflexivity.
  - bind_inv Hrun as st1 eqn:E. bind_inv Hrun as st2 eqn:E0. injection Hrun as <- _.
    rewrite (DiscardResults_generation _ _ _ E0).
    rewrite (UpdateIncrementalForNewLightList_generation _ _ E). reflexivity.
  - bind_inv Hrun as st1 eqn:E. bind_inv Hrun as st2 eqn:E0. injection Hrun as <- _.
    rewrite (DiscardResults_generation _ _ _ E0).
    unfold HandleGeomMessage in E. bind_inv E as env eqn:Eenv.
    rewrite (DiscardResults_generation _ _ _ E). reflexivity.
  - bind_inv Hrun as st1 eqn:E. bind_inv Hrun as st2 eqn:E0. injection Hrun as <- _.
    rewrite (DiscardResults_generation _ _ _ E0).
    unfold HandleGBuffersMessage in E. destruct bms as [[bm0 bm1] bm2].
    rewrite (CalculateSceneBounds_generation _ _ E). reflexivity.
Qed.

Lemma message_loop_generation q st st' tr e :
  message_loop q st = (st', tr, e) ->
  echoes (m_nBitmapGenerationCounter st) tr /\
  m_nBitmapGenerationCounter st' = generation_after (m_nBitmapGenerationCounter st) tr.
Proof.
  revert st st' tr e. induction q as [|ev q IH]; intros st st' tr e Hrun.
  - cbn [message_loop] in Hrun.
    destruct (AnyUsefulWorkToDo st); injection Hrun as <- <- _; split; exact I || reflexivity.
  - cbn [message_loop] in Hrun.
    destruct (AnyUsefulWorkToDo st) as [useful|f].
    2:{ injection Hrun as <- <- _. split; exact I || reflexivity. }
    destruct ev as [|m now now'].
    + destruct useful; [injection Hrun as <- <- _; split; exact I || reflexivity|].
      apply IH with (1 := Hrun).
    + destruct (HandleAMessage m now now' st) as [[st1 quit]|f] eqn:Hmsg.
      2:{ injection Hrun as <- <- _. split; exact I || reflexivity. }
      pose proof (HandleAMessage_generation _ _ _ _ _ _ Hmsg) as Hgen.
      destruct quit.
      * injection Hrun as <- <- _. split; [|exact Hgen].
        destruct m; exact I.
      * destruct (message_loop q st1) as [[st2 tr2] e2] eqn:Hloop.
        injection Hrun as <- <- _.
        destruct (IH _ _ _ _ Hloop) as [Hecho Hgen2].
        rewrite Hgen in Hecho, Hgen2.
        split; [|destruct m; exact Hgen2].
        destruct m; exact Hecho.
Qed.

Lemma CalculateForLight_generation st l st' :
  CalculateForLight st l = Ok st' ->
  m_nBitmapGenerationCounter st' = m_nBitmapGenerationCounter st.
Proof.
  unfold CalculateForLight. intros Hrun.
  bind_inv Hrun as l_info eqn:E. bind_inv Hrun as [new_incr_level prev_msk] eqn:E0.
  bind_inv Hrun as new_msk eqn:E1. bind_inv Hrun as r eqn:E2.
  bind_inv Hrun as infos eqn:E3. injection Hrun as <-.
  unfold build_acceleration.
  destruct (m_pRtEnv st); [destruct (negb (m_bAccStructureBuilt st))|]; reflexivity.
Qed.

Lemma DoWork_generation st st' :
  DoWork st = Ok st' ->
  m_nBitmapGenerationCounter st' = m_nBitmapGenerationCounter st.
Proof.
  unfold DoWork. intros Hrun.
  destruct (m_pLightList st); [|injection Hrun as <-; reflexivity].
  bind_inv Hrun as best_l eqn:E.
  destruct best_l as [best|]; [|injection Hrun as <-; reflexivity].
  bind_inv Hrun as st1 eqn:E0. bind_inv Hrun as l_info eqn:E1.
  pose proof (CalculateForLight_generation _ _ _ E0) as Hgen.
  destruct (F32.neb (m_fTotalContribution l_info) F32.zero); injection Hrun as <-;
    rewrite <- Hgen; reflexivity.
Qed.

Lemma work_step_generation quit st st' tr :
  work_step quit st = Ok (st', tr) ->
  echoes (m_nBitmapGenerationCounter st) tr /\
  m_nBitmapGenerationCounter st' = generation_after (m_nBitmapGenerationCounter st) tr.
Proof.
  unfold work_step. intros Hrun.
  destruct quit; [injection Hrun as <- <-; split; exact I || reflexivity|].
  bind_inv Hrun as useful eqn:E. destruct useful.
  - bind_inv Hrun as st1 eqn:E0. injection Hrun as <- <-.
    split; [exact I|]. apply (DoWork_generation _ _ E0).
  - injection Hrun as <- <-. split; exact I || reflexivity.
Qed.

(** The message [SendResult] queues carries the generation of the engine. *)
Lemma SendResult_generation now st st' d :
  SendResult now st = Ok (st', d) ->
  msg_nBitmapGenerationCounter d = m_nBitmapGenerationCounter st /\
  m_nBitmapGenerationCounter st' = m_nBitmapGenerationCounter st.
Proof.
  unfold SendResult. intros Hrun.
  bind_inv Hrun as ambient eqn:E. bind_inv Hrun as lights eqn:E0.
  bind_inv Hrun as image eqn:E1. bind_inv Hrun as ret_msg eqn:E2.
  injection Hrun as <- <-.
  unfold SendVectorMatrixAsRendering in E2. bind_inv E2 as pixels eqn:E3.
  injection E2 as <-.
  split; reflexivity.
Qed.

Lemma send_step_generation clock st st' tr :
  send_step clock st = Ok (st', tr) ->
  echoes (m_nBitmapGenerationCounter st) tr /\
  m_nBitmapGenerationCounter st' = generation_after (m_nBitmapGenerationCounter st) tr.
Proof.
  unfold send_step. intros Hrun.
  destruct (m_bResultChangedSinceLastSend st);
    [|injection Hrun as <- <-; split; exact I || reflexivity].
  bind_inv Hrun as due eqn:E.
  destruct due; [|injection Hrun as <- <-; split; exact I || reflexivity].
  bind_inv Hrun as [st1 d] eqn:E0. injection Hrun as <- <-.
  destruct (SendResult_generation _ _ _ _ E0) as [Hd Hst].
  cbn [echoes generation_after fst snd]. repeat split; assumption.
Qed.

(** Along any run, every display result carries the generation of the
    G-buffers message handled last before it. *)
Lemma Run_echoes clocks q st :
  echoes (m_nBitmapGenerationCounter st) (snd (fst (Run clocks q st))).
Proof.
  revert q st. induction clocks as [|clock clocks IH]; intros q st; [exact I|].
  cbn [Run].
  destruct (message_loop q st) as [[st1 tr1] e] eqn:Hloop.
  destruct (message_loop_generation _ _ _ _ _ Hloop) as [Hecho1 Hgen1].
  destruct e as [quit q'| |f]; try exact Hecho1.
  destruct (work_step quit st1) as [[st2 tr2]|f] eqn:Hwork; [|exact Hecho1].
  destruct (work_step_generation _ _ _ _ Hwork) as [Hecho2 Hgen2].
  destruct (send_step clock st2) as [[st3 tr3]|f] eqn:Hsend.
  2:{ cbn [fst snd]. apply echoes_app. split; [exact Hecho1|].
      rewrite <- Hgen1. exact Hecho2. }
  destruct (send_step_generation _ _ _ _ Hsend) as [Hecho3 Hgen3].
  assert (Hecho : echoes (m_nBitmapGenerationCounter st) (tr1 ++ tr2 ++ tr3)).
  { apply echoes_app. split; [exact Hecho1|]. rewrite <- Hgen1.
    apply echoes_app. split; [exact Hecho2|]. rewrite <- Hgen2. exact Hecho3. }
  destruct quit; [exact Hecho|].
  specialize (IH q' st3).
  destruct (Run clocks q' st3) as [[st4 tr4] status]. cbn [fst snd] in IH |- *.
  rewrite !app_assoc. apply echoes_app. rewrite <- !app_assoc. split; [exact Hecho|].
  rewrite !generation_after_app, <- Hgen1, <- Hgen2, <- Hgen3. exact IH.
Qed.

(** C5: in the events of any run, a DisplayResult emitted after a GBuffers
    message of generation [g] was handled, with no other GBuffers message
    handled in between, carries the generation [g]. *)
Theorem generation_echo (clocks : list (double * double)) (q : list QueueEvent)
    (st : CLightingPreviewThread) (pre mid post : list TraceEvent)
    (bms : FloatBitMap_t * FloatBitMap_t * FloatBitMap_t) (eye : Vector) (g : Z)
    (d : MessageFromLPreview) :
  snd (fst (Run clocks q st))
    = pre ++ Handled (LPREVIEW_MSG_G_BUFFERS bms eye g) :: mid ++ Sent d :: post ->
  (forall bms' eye' g', ~ In (Handled (LPREVIEW_MSG_G_BUFFERS bms' eye' g')) mid) ->
  msg_nBitmapGenerationCounter d = g.
Proof.
  intros Htrace Hmid.
  pose proof (Run_echoes clocks q st) as Hecho. rewrite Htrace in Hecho.
  apply echoes_app in Hecho. destruct Hecho as [_ Hecho].
  cbn [echoes] in Hecho. apply echoes_app in Hecho. destruct Hecho as [_ Hecho].
  rewrite (generation_after_no_gbuffers _ _ Hmid) in Hecho.
  cbn [echoes] in Hecho. destruct Hecho as [Hd _]. exact Hd.
Qed.

End SchedulerFacts.

Lemma generation_echo_witness :
  snd (fst (Run (H := reference_external)
              [(t101, t101); (t101, t101); (t120, t120); (t120, t120)]
              sample_queue fresh_engine))
    = [] ++ Handled (LPREVIEW_MSG_G_BUFFERS
                       (flat_bitmap (corner 1),
                        flat_bitmap (mk_Vector F32.zero F32.zero F32.one),
                        flat_bitmap origin_point) origin_point 5)
         :: [Handled geometry_msg; Handled lights_msg; Worked; Worked; Worked]
            ++ Sent sample_result :: [Worked] /\
  (forall bms' eye' g',
     ~ In (Handled (LPREVIEW_MSG_G_BUFFERS bms' eye' g'))
          [Handled geometry_msg; Handled lights_msg; Worked; Worked; Worked]) /\
  msg_nBitmapGenerationCounter sample_result = 5.
Proof.
  assert (Htrace :
    snd (fst (Run (H := reference_external)
                [(t101, t101); (t101, t101); (t120, t120); (t120, t120)]
                sample_queue fresh_engine))
      = [] ++ Handled (LPREVIEW_MSG_G_BUFFERS
                         (flat_bitmap (corner 1),
                          flat_bitmap (mk_Vector F32.zero F32.zero F32.one),
                          flat_bitmap origin_point) origin_point 5)
           :: [Handled geometry_msg; Handled lights_msg; Worked; Worked; Worked]
              ++ Sent sample_result :: [Worked]).
  { vm_compute. reflexivity. }
  assert (Hmid : forall bms' eye' g',
     ~ In (Handled (LPREVIEW_MSG_G_BUFFERS bms' eye' g'))
          [Handled geometry_msg; Handled lights_msg; Worked; Worked; Worked]).
  { intros bms' eye' g' Hin. cbn in Hin.
    destruct Hin as [Hin|[Hin|[Hin|[Hin|[Hin|[]]]]]]; discriminate Hin. }
  split; [exact Htrace|]. split; [exact Hmid|].
  exact (generation_echo (H := reference_external) _ _ _ _ _ _ _ _ _ _ Htrace Hmid).
Defined.

Section PacingFacts.

Context `{External}.

(** After discard-results the result counts as changed and the
    last-send-time is the clock reading less 9 s, so that a send falls due
    once the clock has moved 1 s on, or at once when no useful work is
    left. *)
Lemma DiscardResults_backdates now st st' :
  DiscardResults now st = Ok st' ->
  m_bResultChangedSinceLastSend st' = true /\
  m_fLastSendTime st' = F32.of_double (F64.sub now F64.c_9).
Proof.
  unfold DiscardResults. intros Hrun. bind_inv Hrun as infos eqn:E.
  injection Hrun as <-. split; reflexivity.
Qed.

(** X30: when a turn sends.  A turn of the loop that completes emits a
    display result iff the result has changed since the last send and
    either more than 10 s have passed since then or no useful work is
    left. *)
Lemma send_step_emits clock st st' tr :
  send_step clock st = Ok (st', tr) ->
  (exists d, tr = [Sent d]) <->
  m_bResultChangedSinceLastSend st = true /\
  (F32.gtb (F32.sub (F32.of_double (fst clock)) (m_fLastSendTime st)) F32.c_10 = true \/
   AnyUsefulWorkToDo st = Ok false).
Proof.
  unfold send_step, send_due. intros Hrun.
  destruct (m_bResultChangedSinceLastSend st).
  2:{ injection Hrun as <- <-. split; [intros [d [=]]|intros [[=] _]]. }
  destruct (F32.gtb (F32.sub (F32.of_double (fst clock)) (m_fLastSendTime st)) F32.c_10).
  - cbn [bind] in Hrun. bind_inv Hrun as r eqn:E. injection Hrun as <- <-.
    split; [intros _; split; [reflexivity|left; reflexivity]|intros _; eexists; reflexivity].
  - destruct (AnyUsefulWorkToDo st) as [useful|f]; [|discriminate].
    cbn [bind] in Hrun. destruct useful; cbn [negb] in Hrun.
    + injection Hrun as <- <-.
      split; [intros [d [=]]|intros [_ [[=]|[=]]]].
    + bind_inv Hrun as r eqn:E. injection Hrun as <- <-.
      split; [intros _; split; [reflexivity|right; reflexivity]|intros _; eexists; reflexivity].
Qed.

(** When a send falls due and no light list has arrived, [SendResult]
    follows the null [m_pLightList] and the turn faults before any display
    result is queued. *)
Lemma send_step_without_light_list clock st :
  m_bResultChangedSinceLastSend st = true ->
  m_pLightList st = None ->
  send_step clock st = Fault NullLightList.
Proof.
  intros Hchanged Hnull. unfold send_step, send_due, AnyUsefulWorkToDo.
  rewrite Hchanged, Hnull.
  destruct (F32.gtb _ F32.c_10); cbn [bind negb];
    unfold SendResult, EstimatedUnshotAmbient; rewrite Hnull; reflexivity.
Qed.

Lemma empty_geometry_then_exit (now now' now'' : double) :
  message_loop
    [Message (LPREVIEW_MSG_GEOM_DATA []) now now'; Message LPREVIEW_MSG_EXIT now'' now'']
    fresh_engine
  = (after_empty_geometry now',
     [Handled (LPREVIEW_MSG_GEOM_DATA []); Handled LPREVIEW_MSG_EXIT], LoopDone true []).
Proof. reflexivity. Qed.

(** C10 fails on a run the thread can make from its start: a geometry
    message with no triangle, then Exit, before any light list.  The
    geometry message marks the result changed; at Exit no useful work is
    left, the send is due, and [SendResult] follows the null light list. *)
Theorem send_before_light_list (clock : double * double) (now now' now'' : double) :
  new_CLightingPreviewThread origin_point = Some fresh_engine /\
  Run [clock]
      [Message (LPREVIEW_MSG_GEOM_DATA []) now now'; Message LPREVIEW_MSG_EXIT now'' now'']
      fresh_engine
  = (after_empty_geometry now',
     [Handled (LPREVIEW_MSG_GEOM_DATA []); Handled LPREVIEW_MSG_EXIT],
     Faulted NullLightList) /\
  m_pLightList (after_empty_geometry now') = None /\
  m_bResultChangedSinceLastSend (after_empty_geometry now') = true.
Proof.
  split; [exact fresh_engine_constructed|].
  split; [|split; reflexivity].
  cbn [Run]. rewrite empty_geometry_then_exit. cbn [work_step].
  rewrite send_step_without_light_list by reflexivity. reflexivity.
Qed.

End PacingFacts.

(** C8 fails on a run the thread can make from its start: G-buffers, then
    Exit, before any light list.  In the last turn the result has changed
    since the last send and no useful work is left, so a display result is
    due; [SendResult] follows the null light list and none is emitted. *)
Theorem due_send_not_emitted :
  exists st,
    Run (H := reference_external) [(t101, t101)]
        [Message gbuffers_msg t100 t100; Message LPREVIEW_MSG_EXIT t100 t100] fresh_engine
    = (st, [Handled gbuffers_msg; Handled LPREVIEW_MSG_EXIT], Faulted NullLightList) /\
    m_bResultChangedSinceLastSend st = true /\
    AnyUsefulWorkToDo st = Ok false /\
    m_pLightList st = None /\
    sent_messages [Handled gbuffers_msg; Handled LPREVIEW_MSG_EXIT] = [].
Proof.
  eexists. split; [vm_compute; reflexivity|].
  repeat split.
Qed.

(** * Further properties of the engine *)

(** ** Loops that can fault *)

Lemma for_loop_fault {St : Type} (n : nat) (i : Z) (body : Z -> St -> result St) (f : fault) :
  for_loop n i (fun j acc => s' <-- acc ;; body j s') (Fault f) = Fault f.
Proof.
  revert i. induction n as [|n IH]; intros i; [reflexivity|].
  cbn [for_loop bind]. apply IH.
Qed.

Lemma for_loop_r_S {St : Type} (n : nat) (i : Z) (body : Z -> St -> result St) (s : St) :
  for_loop_r (S n) i body s = (s1 <-- body i s ;; for_loop_r n (i + 1) body s1).
Proof.
  unfold for_loop_r. cbn [for_loop bind].
  destruct (body i s) as [s1|f]; cbn [bind]; [reflexivity|apply for_loop_fault].
Qed.

(** A loop that returns has kept every invariant its body keeps. *)
Lemma for_loop_r_inv {St : Type} (P : Z -> St -> Prop) (body : Z -> St -> result St)
    (n : nat) (i : Z) (s s' : St) :
  P i s ->
  (forall j s1 s2, i <= j < i + Z.of_nat n -> P j s1 -> body j s1 = Ok s2 -> P (j + 1) s2) ->
  for_loop_r n i body s = Ok s' -> P (i + Z.of_nat n) s'.
Proof.
  revert i s. induction n as [|n IH]; intros i s Hinit Hstep Hrun.
  - injection Hrun as <-. replace (i + Z.of_nat 0) with i by lia. exact Hinit.
  - rewrite for_loop_r_S in Hrun. bind_inv Hrun as s1 eqn:E.
    replace (i + Z.of_nat (S n)) with ((i + 1) + Z.of_nat n) by lia.
    apply (IH (i + 1) s1).
    + apply (Hstep i s s1); [lia|exact Hinit|exact E].
    + intros j a b Hj. apply Hstep. lia.
    + exact Hrun.
Qed.

(** Turns boolean comparisons among the hypotheses into propositions. *)
Ltac to_Z :=
  repeat match goal with
  | H : (_ && _) = true |- _ => apply andb_prop in H as [? ?]
  | H : (_ <=? _) = true |- _ => apply Z.leb_le in H
  | H : (_ <? _) = true |- _ => apply Z.ltb_lt in H
  | H : (_ =? _) = true |- _ => apply Z.eqb_eq in H
  | H : (_ <=? _) = false |- _ => apply Z.leb_gt in H
  | H : (_ <? _) = false |- _ => apply Z.ltb_ge in H
  | H : (_ =? _) = false |- _ => apply Z.eqb_neq in H
  end.

(** ** The line schedule, continued *)

Section ScheduleOrder.

Import LineSchedule.

Lemma bit_reverse_all_ok : forallb bit_reverse_ok (Zrange 0 32) = true.
Proof. vm_compute. reflexivity. Qed.

(** X1: the row order is its own inverse.  For every level i in [0, N) the
    bit reversal computed by InitIncrementalInformation returns a row r in
    [0, N), and reversing r gives i back; so the N levels work on N
    different rows of a tile and every row is worked on at exactly one
    level. *)
Theorem bit_reverse_involutive (i : Z) :
  0 <= i < N_INCREMENTAL_STEPS ->
  exists r, bit_reverse i = Some r /\ 0 <= r < N_INCREMENTAL_STEPS /\ bit_reverse r = Some i.
Proof.
  unfold N_INCREMENTAL_STEPS. intros Hi.
  pose proof (Zrange_forallb _ 0 32 bit_reverse_all_ok i ltac:(lia)) as Hok.
  unfold bit_reverse_ok, N_INCREMENTAL_STEPS in Hok.
  destruct (bit_reverse i) as [r|]; [|discriminate].
  destruct (bit_reverse r) as [i'|] eqn:Hback; [|rewrite andb_false_r in Hok; discriminate].
  to_Z. exists r. split; [reflexivity|]. split; [lia|].
  rewrite Hback. f_equal. lia.
Qed.

Lemma pass_masks_ok t :
  the_tables = Some t ->
  forallb (fun lvl => forallb (pass_mask_ok t lvl) (Zrange 0 32)) (Zrange 0 32) = true.
Proof. intros [= <-]. vm_compute. reflexivity. Qed.


Lemma land_31 y : 0 <= y -> Int.and y (Int.sub N_INCREMENTAL_STEPS 1) = y mod 32.
Proof.
  intros Hy. change (Int.sub N_INCREMENTAL_STEPS 1) with (Z.ones 5).
  unfold Int.and. rewrite Z.land_ones by lia. reflexivity.
Qed.


Lemma vec_get_Ok {A : Type} (v : list A) (i : Z) (a : A) :
  vec_get v i = Ok a -> 0 <= i /\ v !! Z.to_nat i = Some a.
Proof.
  unfold vec_get. destruct (i <? 0) eqn:Hneg; [discriminate|].
  destruct (v !! Z.to_nat i) as [a'|]; [|discriminate].
  intros [= <-]. split; [lia|reflexivity].
Qed.

Lemma line_mask_length t : the_tables = Some t -> length (m_LineMask t) = 32%nat.
Proof. intros [= <-]. reflexivity. Qed.

End ScheduleOrder.

Section PassRows.

Context `{External}.

Import LineSchedule.

(** X2: the rows of a pass.  In an engine with the tables of the
    constructor, the pass that CalculateForLight runs at level lvl (0 for a
    record that is not Partial, one more than its level for a Partial
    record) works on exactly the rows y whose offset y mod N in their tile
    is the bit reversal of lvl: the kernel's test of row y against
    calc_mask = m_LineMask[lvl] & ~prev_msk succeeds for these rows and for
    no other. *)
Theorem pass_rows (st : CLightingPreviewThread) (l_info : CIncrementalLightInfo)
    (lvl prev_msk new_msk y : Z) :
  InitIncrementalInformation = Some (m_Tables st) ->
  next_level st l_info = Ok (lvl, prev_msk) ->
  vec_get (m_LineMask (m_Tables st)) lvl = Ok new_msk ->
  0 <= y < 2 ^ 31 ->
  exists r, bit_reverse lvl = Some r /\
            line_selected (Int.and new_msk (Int.not prev_msk)) y = (y mod 32 =? r).
Proof.
  rewrite init_returns. intros Ht Hnext Hnew Hy.
  pose proof (line_mask_length _ Ht) as Hlen.
  apply vec_get_Ok in Hnew as [Hlvl0 Hnew].
  pose proof (lookup_lt_Some _ _ _ Hnew) as Hlvl. rewrite Hlen in Hlvl.
  pose proof (Zrange_forallb _ 0 32 (pass_masks_ok _ Ht) lvl ltac:(lia)) as Hrow.
  cbv beta in Hrow.
  pose proof (Z.mod_pos_bound y 32 ltac:(lia)) as Hmod.
  pose proof (Zrange_forallb _ 0 32 Hrow (y mod 32) ltac:(lia)) as Hok.
  unfold pass_mask_ok, line_mask in Hok. rewrite Hnew in Hok.
  destruct (bit_reverse lvl) as [r|]; [|discriminate].
  exists r. split; [reflexivity|].
  apply eqb_prop in Hok. rewrite <- Hok.
  unfold line_selected. rewrite !land_31 by lia.
  rewrite Z.mod_mod by lia.
  unfold next_level in Hnext.
  destruct (state_eqb (m_eIncrState l_info) INCR_STATE_PARTIAL_RESULTS).
  - bind_inv Hnext as p eqn:Hprev. injection Hnext as <- <-.
    apply vec_get_Ok in Hprev as [Hs0 Hprev].
    assert (Hadd : Int.add 1 (m_PartialResultsStage l_info) = 1 + m_PartialResultsStage l_info).
    { pose proof (lookup_lt_Some _ _ _ Hprev) as Hs. rewrite Hlen in Hs.
      apply wrap32_small. unfold Int.in_range. lia. }
    rewrite Hadd in *.
    replace (1 + m_PartialResultsStage l_info =? 0) with false by lia.
    replace (1 + m_PartialResultsStage l_info - 1) with (m_PartialResultsStage l_info) by lia.
    rewrite Hprev. reflexivity.
  - injection Hnext as <- <-. reflexivity.
Qed.

End PassRows.

Section SourceRows.

Context `{External}.

Import LineSchedule.

Lemma composite_line_source_row st l_info y image :
  composite_line st l_info y image
  = (src_y <-- source_row st l_info y ;;
     for_loop_r (Z.to_nat (m_nPaddedWidth image)) 0
       (composite_group st (m_CalculatedContribution l_info) y src_y) image).
Proof.
  unfold composite_line, source_row.
  destruct (vec_get _ _); reflexivity.
Qed.

Lemma closest_length t : the_tables = Some t -> length (m_ClosestLineOffset t) = 1024%nat.
Proof. intros [= <-]. reflexivity. Qed.


End SourceRows.

(** ** Useful work and the choice of a light *)

Lemma has_work_bound infos l : has_work infos l = true -> is_bound infos l = true.
Proof.
  unfold has_work, is_bound. destruct (get_info infos (m_pIncrementalInfo l)); congruence.
Qed.

Lemma any_light_with_work_spec infos has_env lights :
  forallb (is_bound infos) lights = true ->
  any_light_with_work infos has_env lights = Ok (has_env && existsb (has_work infos) lights).
Proof.
  induction lights as [|l rest IH]; intros Hbound.
  - cbn. rewrite andb_false_r. reflexivity.
  - cbn [forallb] in Hbound. apply andb_prop in Hbound as [Hl Hrest].
    cbn [any_light_with_work existsb]. unfold is_bound in Hl. unfold has_work at 1.
    destruct (get_info infos (m_pIncrementalInfo l)) as [l_info|]; [|discriminate].
    cbn [bind]. destruct (HasWorkToDo l_info); cbn [orb].
    + rewrite andb_true_r. reflexivity.
    + apply IH. exact Hrest.
Qed.

(** X4: when there is useful work.  With every light of the list bound to
    a record of the store, AnyUsefulWorkToDo returns true iff a ray tracing
    environment exists and some light of the list has a record that is not
    Full; without a light list it returns false. *)
Theorem AnyUsefulWorkToDo_iff (st : CLightingPreviewThread) :
  forallb (is_bound (m_pIncrementalLightInfoList st)) (lights_of st) = true ->
  AnyUsefulWorkToDo st
  = Ok (match m_pRtEnv st with Some _ => true | None => false end
        && existsb (has_work (m_pIncrementalLightInfoList st)) (lights_of st)).
Proof.
  unfold AnyUsefulWorkToDo, lights_of. intros Hbound.
  destruct (m_pLightList st) as [lights|]; cbn [default] in *.
  - apply any_light_with_work_spec. exact Hbound.
  - cbn. rewrite andb_false_r. reflexivity.
Qed.

Section Selection.

Context `{External}.

Lemma pick_best_inv st l b0 best :
  pick_best st l b0 = Ok best ->
  best = b0 /\ (b0 = None -> has_work (m_pIncrementalLightInfoList st) l = false)
  \/ best = Some l /\ has_work (m_pIncrementalLightInfoList st) l = true.
Proof.
  unfold pick_best, has_work. intros Hrun.
  destruct (get_info (m_pIncrementalLightInfoList st) (m_pIncrementalInfo l)) as [l_info|];
    [|discriminate].
  cbn [bind] in Hrun. destruct (HasWorkToDo l_info).
  - destruct b0 as [b|].
    + bind_inv Hrun as b_info eqn:Eb. bind_inv Hrun as lower eqn:El.
      injection Hrun as <-. destruct lower.
      * right. split; reflexivity.
      * left. split; [reflexivity|discriminate].
    + injection Hrun as <-. right. split; reflexivity.
  - injection Hrun as <-. left. split; reflexivity.
Qed.

Lemma select_light_inv st lights b0 best :
  select_light st lights b0 = Ok best ->
  best = b0 /\ (b0 = None ->
                forall l, In l lights -> has_work (m_pIncrementalLightInfoList st) l = false)
  \/ exists l, best = Some l /\ In l lights
               /\ has_work (m_pIncrementalLightInfoList st) l = true.
Proof.
  revert b0. induction lights as [|l rest IH]; intros b0 Hrun.
  - injection Hrun as <-. left. split; [reflexivity|]. intros _ l [].
  - cbn [select_light] in Hrun. bind_inv Hrun as b1 eqn:Epick.
    apply pick_best_inv in Epick. apply IH in Hrun.
    destruct Hrun as [[-> Hnone]|[l' [-> [Hin Hwork]]]].
    + destruct Epick as [[-> Hl]|[-> Hl]].
      * left. split; [reflexivity|]. intros Hb0 l' [<-|Hin]; [apply Hl|apply Hnone]; assumption.
      * right. exists l. split; [reflexivity|]. split; [left; reflexivity|exact Hl].
    + right. exists l'. split; [reflexivity|]. split; [right; exact Hin|exact Hwork].
Qed.

(** X5: what DoWork does.  A call of DoWork that returns has either left
    the engine as it was, and then no light of the list has a record that
    is not Full, or it has run one refinement pass, CalculateForLight, on a
    light of the list whose record was not Full, after which it has at most
    set the result-changed flag. *)
Theorem DoWork_one_pass (st st' : CLightingPreviewThread) :
  DoWork st = Ok st' ->
  (st' = st /\ existsb (has_work (m_pIncrementalLightInfoList st)) (lights_of st) = false)
  \/ exists l st1,
       In l (lights_of st) /\ has_work (m_pIncrementalLightInfoList st) l = true /\
       CalculateForLight st l = Ok st1 /\
       (st' = st1 \/ st' = set_m_bResultChangedSinceLastSend true st1).
Proof.
  unfold DoWork, lights_of. intros Hrun.
  destruct (m_pLightList st) as [lights|]; cbn [default].
  2:{ injection Hrun as <-. left. split; reflexivity. }
  bind_inv Hrun as best eqn:Esel. apply select_light_inv in Esel.
  destruct Esel as [[-> Hnone]|[l [-> [Hin Hwork]]]].
  - injection Hrun as <-. left. split; [reflexivity|].
    apply not_true_is_false. intros Hex. apply existsb_exists in Hex as [l [Hin Hl]].
    rewrite (Hnone eq_refl l Hin) in Hl. discriminate.
  - bind_inv Hrun as st1 eqn:Epass. bind_inv Hrun as l_info eqn:Einfo.
    right. exists l, st1. split; [exact Hin|]. split; [exact Hwork|].
    split; [exact Epass|].
    destruct (F32.neb (m_fTotalContribution l_info) F32.zero);
      injection Hrun as <-; [right|left]; reflexivity.
Qed.

End Selection.

(** ** What discard-results leaves *)

Lemma discarded_state_fixed fresh i :
  Info_DiscardResults fresh i = i ->
  m_eIncrState i = INCR_STATE_NEW \/ m_eIncrState i = INCR_STATE_NO_RESULTS.
Proof.
  unfold Info_DiscardResults. destruct i as [pl id stage state mat tc dist stamp].
  destruct state; cbn; intros Heq; try (left; reflexivity); try (right; reflexivity);
    injection Heq; intros; discriminate.
Qed.

Section AfterDiscard.

Context `{External}.

Lemma update_distances_bound eye lights X Y :
  update_distances eye lights X = Ok Y ->
  length Y = length X /\ forallb (is_bound Y) lights = true.
Proof.
  revert X. induction lights as [|l rest IH]; intros X Hrun.
  - injection Hrun as <-. split; reflexivity.
  - cbn [update_distances] in Hrun. rewrite update_distance_eq in Hrun.
    unfold update_info in Hrun.
    destruct (m_pIncrementalInfo l) as [a|] eqn:Hp; [|discriminate].
    destruct (X !! a) as [i|] eqn:Hi; [|discriminate].
    cbn [bind] in Hrun. destruct (IH _ Hrun) as [Hlen Hrest].
    rewrite length_insert in Hlen. split; [exact Hlen|].
    cbn [forallb]. rewrite Hrest, andb_true_r.
    unfold is_bound, get_info. rewrite Hp.
    apply lookup_lt_Some in Hi. rewrite <- Hlen in Hi.
    apply lookup_lt_is_Some in Hi as [i' ->]. reflexivity.
Qed.

Lemma DiscardResults_store now st st' :
  DiscardResults now st = Ok st' ->
  m_pLightList st' = m_pLightList st /\ m_pRtEnv st' = m_pRtEnv st /\
  length (m_pIncrementalLightInfoList st') = length (m_pIncrementalLightInfoList st) /\
  (forall a, erase_distance <$> (m_pIncrementalLightInfoList st' !! a)
             = erase_distance <$> (Info_DiscardResults uninit_cell
                                     <$> (m_pIncrementalLightInfoList st !! a))) /\
  Forall (fun i => Info_DiscardResults uninit_cell i = i) (m_pIncrementalLightInfoList st') /\
  forallb (is_bound (m_pIncrementalLightInfoList st')) (lights_of st') = true.
Proof.
  unfold DiscardResults, lights_of. intros Hrun. bind_inv Hrun as infos eqn:E.
  injection Hrun as <-. cbn. split; [reflexivity|]. split; [reflexivity|].
  destruct (m_pLightList st) as [lights|]; cbn [default].
  - pose proof (update_distances_agree _ _ _ _ E) as [Hlen [Herase _]].
    pose proof (update_distances_bound _ _ _ _ E) as [_ Hbound].
    pose proof (update_distances_discarded _ _ _ _ (discarded_after_map _) E) as Hfix.
    rewrite length_map in Hlen. split; [symmetry; exact Hlen|].
    split; [|split; [exact Hfix|exact Hbound]].
    intros a. rewrite <- Herase, list_lookup_fmap. reflexivity.
  - injection E as <-. rewrite length_map. split; [reflexivity|].
    split; [|split; [apply discarded_after_map|reflexivity]].
    intros a. rewrite list_lookup_fmap. reflexivity.
Qed.

(** X6: what discard-results leaves of a record.  After the engine's
    DiscardResults every record of the store is still there, at its
    address; its contribution matrix is released and its state is New if
    it was New and NoResults otherwise, while its level, total
    contribution, time stamp, object id and light are as they were (the
    distance to the eye alone is refreshed). *)
Theorem DiscardResults_records (now : double) (st st' : CLightingPreviewThread)
    (a : nat) (i : CIncrementalLightInfo) :
  DiscardResults now st = Ok st' ->
  m_pIncrementalLightInfoList st !! a = Some i ->
  exists i', m_pIncrementalLightInfoList st' !! a = Some i' /\
    m_eIncrState i' = discarded_state (m_eIncrState i) /\
    m_CalculatedContribution i' = empty_matrix /\
    m_PartialResultsStage i' = m_PartialResultsStage i /\
    m_fTotalContribution i' = m_fTotalContribution i /\
    m_nMostRecentNonZeroContributionTimeStamp i'
      = m_nMostRecentNonZeroContributionTimeStamp i /\
    info_nObjectID i' = info_nObjectID i /\
    m_pLight i' = m_pLight i.
Proof.
  intros Hrun Hi. apply DiscardResults_store in Hrun as (_ & _ & _ & Herase & _).
  specialize (Herase a). rewrite Hi in Herase.
  destruct (m_pIncrementalLightInfoList st' !! a) as [i'|]; [|discriminate].
  exists i'. split; [reflexivity|].
  change (Some (erase_distance i')
          = Some (erase_distance (Info_DiscardResults uninit_cell i))) in Herase.
  assert (Heq : erase_distance i' = erase_distance (Info_DiscardResults uninit_cell i))
    by congruence.
  clear Herase. unfold Info_DiscardResults in Heq. rewrite SetSize_zero in Heq.
  destruct i as [pl id stage state mat tc dist stamp],
           i' as [pl' id' stage' state' mat' tc' dist' stamp'].
  destruct state; cbn in Heq; injection Heq; intros; subst; cbn; repeat split; reflexivity.
Qed.

Lemma existsb_all {A : Type} (f : A -> bool) (l : list A) :
  (forall x, In x l -> f x = true) ->
  existsb f l = match l with [] => false | _ => true end.
Proof.
  destruct l as [|x l]; intros Hall; [reflexivity|].
  cbn [existsb]. rewrite (Hall x) by (left; reflexivity). reflexivity.
Qed.

Lemma discarded_has_work infos l :
  Forall (fun i => Info_DiscardResults uninit_cell i = i) infos ->
  is_bound infos l = true -> has_work infos l = true.
Proof.
  unfold is_bound, has_work, get_info. intros Hfix Hbound.
  destruct (m_pIncrementalInfo l) as [a|]; [|discriminate].
  destruct (infos !! a) as [i|] eqn:Hi; [|discriminate].
  rewrite Forall_forall in Hfix.
  pose proof (Hfix i (list_elem_of_lookup_2 _ _ _ Hi)) as Hfixed.
  apply discarded_state_fixed in Hfixed. unfold HasWorkToDo.
  destruct Hfixed as [-> | ->]; reflexivity.
Qed.

(** X7: after discard-results every light has work.  Once DiscardResults
    has returned, AnyUsefulWorkToDo returns true iff there is a ray tracing
    environment and the light list holds at least one light: no record is
    Full any more. *)
Theorem DiscardResults_then_useful (now : double) (st st' : CLightingPreviewThread) :
  DiscardResults now st = Ok st' ->
  AnyUsefulWorkToDo st'
  = Ok (match m_pRtEnv st' with Some _ => true | None => false end
        && match lights_of st' with [] => false | _ => true end).
Proof.
  intros Hrun. apply DiscardResults_store in Hrun as (_ & _ & _ & _ & Hfix & Hbound).
  unfold AnyUsefulWorkToDo. unfold lights_of in *.
  destruct (m_pLightList st') as [lights|]; cbn [default] in *.
  - rewrite (any_light_with_work_spec _ _ _ Hbound). f_equal. f_equal.
    apply existsb_all. intros l Hl. apply discarded_has_work; [exact Hfix|].
    rewrite forallb_forall in Hbound. apply Hbound. exact Hl.
  - rewrite andb_false_r. reflexivity.
Qed.

Lemma ambient_sum_discarded infos lights sum_colors :
  Forall (fun i => Info_DiscardResults uninit_cell i = i) infos ->
  forallb (is_bound infos) lights = true ->
  ambient_sum infos lights sum_colors = Ok sum_colors.
Proof.
  intros Hfix. induction lights as [|l rest IH]; intros Hbound; [reflexivity|].
  cbn [forallb] in Hbound. apply andb_prop in Hbound as [Hl Hrest].
  cbn [ambient_sum]. unfold ambient_body.
  unfold is_bound in Hl. unfold get_info in *.
  destruct (m_pIncrementalInfo l) as [a|]; [|discriminate].
  destruct (infos !! a) as [i|] eqn:Hi; [|discriminate].
  rewrite Forall_forall in Hfix.
  pose proof (Hfix i (list_elem_of_lookup_2 _ _ _ Hi)) as Hfixed.
  apply discarded_state_fixed in Hfixed. cbn [bind].
  destruct Hfixed as [-> | ->]; cbn [bind state_eqb state_value Z.eqb orb]; apply IH; exact Hrest.
Qed.

(** X8: the ambient estimate after discard-results.  Once DiscardResults
    has returned, no record is Partial or Full, so EstimatedUnshotAmbient
    returns its floor value, 0.05 times the normalized (0.0001, 0.0001,
    0.0001), whatever the lights and their earlier contributions. *)
Theorem DiscardResults_then_ambient (now : double) (st st' : CLightingPreviewThread) :
  DiscardResults now st = Ok st' ->
  EstimatedUnshotAmbient st' = Ok ambient_floor.
Proof.
  intros Hrun. apply DiscardResults_store in Hrun as (_ & _ & _ & _ & Hfix & Hbound).
  unfold EstimatedUnshotAmbient, ambient_floor. unfold lights_of in *.
  destruct (m_pLightList st') as [lights|]; cbn [default] in *.
  - rewrite (ambient_sum_discarded _ _ _ Hfix Hbound). reflexivity.
  - reflexivity.
Qed.

End AfterDiscard.

(** ** Binding a new light list *)

Lemma for_loop_r_total {St : Type} (P : Z -> St -> Prop) (body : Z -> St -> result St)
    (n : nat) (i : Z) (s : St) :
  P i s ->
  (forall j s1, i <= j < i + Z.of_nat n -> P j s1 ->
     exists s2, body j s1 = Ok s2 /\ P (j + 1) s2) ->
  exists s', for_loop_r n i body s = Ok s' /\ P (i + Z.of_nat n) s'.
Proof.
  revert i s. induction n as [|n IH]; intros i s Hinit Hstep.
  - exists s. split; [reflexivity|]. replace (i + Z.of_nat 0) with i by lia. exact Hinit.
  - destruct (Hstep i s ltac:(lia) Hinit) as [s1 [E H1]].
    destruct (IH (i + 1) s1 H1) as [s' [Hrun H']].
    { intros j a Hj. apply Hstep. lia. }
    exists s'. rewrite for_loop_r_S, E. cbn [bind]. split; [exact Hrun|].
    replace (i + Z.of_nat (S n)) with ((i + 1) + Z.of_nat n) by lia. exact H'.
Qed.

Lemma find_info_Some infos id n a :
  find_info infos id n = Some a ->
  (a < n)%nat /\ exists r, infos !! a = Some r /\ info_nObjectID r = id.
Proof.
  induction n as [|n IH]; [discriminate|]. cbn [find_info].
  destruct (infos !! n) as [r|] eqn:Hr.
  - destruct (info_nObjectID r =? id) eqn:Hid.
    + intros [= <-]. split; [lia|]. exists r. split; [exact Hr|lia].
    + intros Hfind. destruct (IH Hfind) as [Ha Hex]. split; [lia|exact Hex].
  - intros Hfind. destruct (IH Hfind) as [Ha Hex]. split; [lia|exact Hex].
Qed.

Lemma find_info_None infos id n :
  find_info infos id n = None ->
  forall a r, (a < n)%nat -> infos !! a = Some r -> info_nObjectID r <> id.
Proof.
  induction n as [|n IH]; [intros _ a r Ha; lia|]. cbn [find_info].
  destruct (infos !! n) as [r0|] eqn:Hr.
  - destruct (info_nObjectID r0 =? id) eqn:Hid; [discriminate|].
    intros Hfind a r Ha Hlook. destruct (decide (a = n)) as [->|Hne].
    + rewrite Hr in Hlook. injection Hlook as <-. lia.
    + apply (IH Hfind a r); [lia|exact Hlook].
  - intros Hfind a r Ha Hlook. destruct (decide (a = n)) as [->|Hne].
    + rewrite Hr in Hlook. discriminate.
    + apply (IH Hfind a r); [lia|exact Hlook].
Qed.

Lemma keeps_refl X : keeps X X.
Proof. intros a r Hr. exists r. split; [exact Hr|]. split; [reflexivity|left; reflexivity]. Qed.

Lemma erase_pLight_id r r' : erase_pLight r' = erase_pLight r -> info_nObjectID r' = info_nObjectID r.
Proof. destruct r, r'. cbn. intros [= -> _ _ _ _ _ _]. reflexivity. Qed.

Lemma keeps_trans X Y W : keeps X Y -> keeps Y W -> keeps X W.
Proof.
  intros HXY HYW a r Hr.
  destruct (HXY a r Hr) as [r1 [H1 [He1 Hp1]]].
  destruct (HYW a r1 H1) as [r2 [H2 [He2 Hp2]]].
  exists r2. split; [exact H2|]. split; [congruence|].
  destruct Hp2 as [Hsame|[dl [Hdl Hid]]].
  - rewrite Hsame. exact Hp1.
  - right. exists dl. split; [exact Hdl|].
    rewrite Hid. apply erase_pLight_id. exact He1.
Qed.

Lemma keeps_length X Y : keeps X Y -> (length X <= length Y)%nat.
Proof.
  intros Hk. destruct X as [|x X'] eqn:HX; [cbn; lia|]. rewrite <- HX in *.
  destruct (lookup_lt_is_Some_2 X (length X - 1)) as [r Hr].
  { rewrite HX. cbn. lia. }
  destruct (Hk _ _ Hr) as [r' [Hr' _]]. apply lookup_lt_Some in Hr'. lia.
Qed.

Lemma bound_to_keeps Y W d d' : keeps Y W -> bound_to Y d d' -> bound_to W d d'.
Proof.
  intros Hk (a & r & dl & Hd & Hr & Hid & Hpl & Hdl).
  destruct (Hk a r Hr) as [r' [Hr' [He Hp]]].
  pose proof (erase_pLight_id _ _ He) as Hid'.
  destruct Hp as [Hsame|[dl' [Hpl' Hdl']]].
  - exists a, r', dl. repeat split; congruence.
  - exists a, r', dl'. repeat split; congruence.
Qed.

Lemma object_ids_alter d a infos :
  object_ids (alter (set_pLight d) a infos) = object_ids infos.
Proof.
  unfold object_ids. apply list_eq. intros k. rewrite !list_lookup_fmap.
  destruct (decide (k = a)) as [->|Hne].
  - rewrite list_lookup_alter_eq. destruct (infos !! a); reflexivity.
  - rewrite list_lookup_alter_ne by congruence. reflexivity.
Qed.

Lemma bind_light_step i lights infos d :
  0 <= i -> lights !! Z.to_nat i = Some d ->
  exists d' infos',
    bind_light i (lights, infos) = Ok (<[Z.to_nat i := d']> lights, infos') /\
    set_pIncrementalInfo None d' = set_pIncrementalInfo None d /\
    keeps infos infos' /\
    fresh_from (length infos) infos' /\
    (NoDup (object_ids infos) -> NoDup (object_ids infos')) /\
    (m_pIncrementalInfo d = None -> bound_to infos' d d').
Proof.
  intros Hi Hd. pose proof (lookup_lt_Some _ _ _ Hd) as Hlt.
  assert (Hget : vec_get lights i = Ok d).
  { unfold vec_get. replace (i <? 0) with false by lia. rewrite Hd. reflexivity. }
  assert (Hset : forall x, vec_set lights i x = Ok (<[Z.to_nat i := x]> lights)).
  { intros x. unfold vec_set.
    replace (i <? 0) with false by lia.
    replace (Z.of_nat (length lights) <=? i) with false by lia. reflexivity. }
  unfold bind_light. rewrite Hget. cbn [bind].
  destruct (find_info infos (m_nObjectID d) (length infos)) as [a|] eqn:Hfind.
  - apply find_info_Some in Hfind as [Ha [r [Hr Hid]]].
    cbv beta iota zeta. cbn [m_pIncrementalInfo set_pIncrementalInfo].
    rewrite Hset. cbn [bind].
    eexists _, _. split; [reflexivity|]. split; [reflexivity|]. split; [|split; [|split]].
    + intros a' r0 Hr0. destruct (decide (a' = a)) as [->|Hne].
      * rewrite list_lookup_alter_eq, Hr0. cbn. eexists. split; [reflexivity|].
        split; [destruct r0; reflexivity|].
        right. eexists. split; [reflexivity|]. cbn. congruence.
      * rewrite list_lookup_alter_ne by congruence.
        exists r0. split; [exact Hr0|]. split; [reflexivity|left; reflexivity].
    + intros a' r0 Hge Hr0. apply lookup_lt_Some in Hr0. rewrite length_alter in Hr0. lia.
    + rewrite object_ids_alter. tauto.
    + intros _. exists a, (set_pLight (set_pIncrementalInfo (Some a) d) r), (set_pIncrementalInfo (Some a) d).
      split; [reflexivity|]. split; [rewrite list_lookup_alter_eq, Hr; reflexivity|].
      split; [exact Hid|]. split; reflexivity.
  - pose proof (find_info_None _ _ _ Hfind) as Hnone.
    cbv beta iota zeta. destruct (m_pIncrementalInfo d) as [p|] eqn:Hp.
    + rewrite Hset. cbn [bind].
      exists d, infos. split; [reflexivity|]. split; [reflexivity|].
      split; [apply keeps_refl|]. split; [|split; [tauto|discriminate]].
      intros a r Hge Hr. apply lookup_lt_Some in Hr. lia.
    + rewrite Hset. cbn [bind].
      eexists _, _. split; [reflexivity|]. split; [reflexivity|]. split; [|split; [|split]].
      * intros a r Hr. exists r. split; [|split; [reflexivity|left; reflexivity]].
        rewrite lookup_app_l by (eapply lookup_lt_Some; exact Hr). exact Hr.
      * intros a r Hge Hr.
        destruct (decide (a = length infos)) as [->|Hne].
        -- rewrite list_lookup_middle in Hr by reflexivity. injection Hr as <-. reflexivity.
        -- apply lookup_lt_Some in Hr. rewrite length_app in Hr. cbn in Hr. lia.
      * intros Hnd. unfold object_ids. rewrite fmap_app. cbn [fmap list_fmap].
        apply NoDup_app. split; [exact Hnd|]. split; [|apply NoDup_singleton].
        intros x Hx Hx'. apply list_elem_of_singleton in Hx'. cbn in Hx'. subst x.
        apply list_elem_of_fmap in Hx as [r [Hid Hr]].
        apply list_elem_of_lookup in Hr as [a Hr].
        apply (Hnone a r); [eapply lookup_lt_Some; exact Hr|exact Hr|congruence].
      * intros _. eexists (length infos), _, _.
        split; [reflexivity|]. split; [apply list_lookup_middle; reflexivity|].
        split; [reflexivity|]. split; reflexivity.
Qed.

Lemma fresh_from_keeps n Y W :
  (n <= length Y)%nat -> fresh_from n Y -> keeps Y W -> fresh_from (length Y) W ->
  fresh_from n W.
Proof.
  intros Hn HY Hk HW a r Hge Hr.
  destruct (decide (a < length Y)%nat) as [Hlt|Hnlt].
  - destruct (lookup_lt_is_Some_2 Y a Hlt) as [r0 Hr0].
    destruct (Hk a r0 Hr0) as [r' [Hr' [He _]]].
    rewrite Hr in Hr'. injection Hr' as <-.
    pose proof (HY a r0 Hge Hr0) as Hfresh.
    rewrite He, (erase_pLight_id _ _ He). exact Hfresh.
  - apply (HW a r); [lia|exact Hr].
Qed.

Lemma binding_inv_step lights0 infos0 j s :
  0 <= j < Z.of_nat (length lights0) ->
  binding_inv lights0 infos0 j s ->
  exists s', bind_light j s = Ok s' /\ binding_inv lights0 infos0 (j + 1) s'.
Proof.
  intros Hj. destruct s as [lights infos].
  intros (Hlen & Hrest & Hdone & Hkeep & Hfresh & Hnd). cbn [fst snd] in *.
  destruct (lookup_lt_is_Some_2 lights0 (Z.to_nat j) ltac:(lia)) as [d Hd0].
  assert (Hd : lights !! Z.to_nat j = Some d) by (rewrite Hrest by lia; exact Hd0).
  destruct (bind_light_step j lights infos d ltac:(lia) Hd)
    as (d' & infos' & Hrun & Hsame & Hk & Hf & Hn & Hb).
  eexists. split; [exact Hrun|]. unfold binding_inv. cbn [fst snd].
  split; [rewrite length_insert; exact Hlen|]. split; [|split; [|split; [|split]]].
  - intros k Hk'. rewrite list_lookup_insert_ne by lia. apply Hrest. lia.
  - intros k d1 Hk' Hd1. destruct (decide (k = Z.to_nat j)) as [->|Hne].
    + assert (d1 = d) by congruence. subst d1.
      exists d'. split; [|split; [exact Hsame|exact Hb]].
      apply list_lookup_insert_eq. lia.
    + destruct (Hdone k d1 ltac:(lia) Hd1) as (d1' & Hl & Hs & Hbd).
      exists d1'. split; [|split; [exact Hs|]].
      * rewrite list_lookup_insert_ne by congruence. exact Hl.
      * intros Hnull. apply (bound_to_keeps infos); [exact Hk|apply Hbd; exact Hnull].
  - apply (keeps_trans _ infos); assumption.
  - apply (fresh_from_keeps _ infos); try assumption. apply keeps_length. exact Hkeep.
  - tauto.
Qed.

Lemma binding_inv_final st lights :
  m_pLightList st = Some lights ->
  exists lights' infos',
    UpdateIncrementalForNewLightList st
    = Ok (set_m_pIncrementalLightInfoList infos' (set_m_pLightList (Some lights') st)) /\
    binding_inv lights (m_pIncrementalLightInfoList st) (Z.of_nat (length lights))
      (lights', infos').
Proof.
  intros Hl. unfold UpdateIncrementalForNewLightList. rewrite Hl.
  destruct (for_loop_r_total (binding_inv lights (m_pIncrementalLightInfoList st))
              bind_light (length lights) 0 (lights, m_pIncrementalLightInfoList st))
    as [[lights' infos'] [Hrun Hinv]].
  - unfold binding_inv. cbn [fst snd]. split; [reflexivity|]. split; [reflexivity|].
    split; [intros k d Hk; cbn in Hk; lia|]. split; [apply keeps_refl|].
    split; [|tauto]. intros a r Hge Hr. apply lookup_lt_Some in Hr. lia.
  - intros j s Hj. apply binding_inv_step. lia.
  - exists lights', infos'. rewrite Hrun. cbn [bind fst snd]. split; [reflexivity|].
    exact Hinv.
Qed.

(** X9: binding a new light list.  UpdateIncrementalForNewLightList
    returns whenever a light list is present.  When every description
    arrives with a null m_pIncrementalInfo, it leaves a list of the same
    length in which the description at each index is the one that arrived
    there, now pointing to a record of the store that carries the
    description's object id and whose m_pLight points to a light of that
    id. *)
Theorem UpdateIncremental_binds (st : CLightingPreviewThread)
    (lights : list CLightingPreviewLightDescription) :
  m_pLightList st = Some lights ->
  forallb unbound lights = true ->
  exists st' lights',
    UpdateIncrementalForNewLightList st = Ok st' /\
    m_pLightList st' = Some lights' /\ length lights' = length lights /\
    forall k d, lights !! k = Some d ->
      exists a r dl,
        lights' !! k = Some (set_pIncrementalInfo (Some a) d) /\
        m_pIncrementalLightInfoList st' !! a = Some r /\
        info_nObjectID r = m_nObjectID d /\
        m_pLight r = Some dl /\ m_nObjectID dl = m_nObjectID d.
Proof.
  intros Hl Hnull.
  destruct (binding_inv_final st lights Hl)
    as (lights' & infos' & Hrun & Hlen & _ & Hdone & _).
  cbn [fst snd] in *.
  eexists _, lights'. split; [exact Hrun|]. split; [reflexivity|]. split; [exact Hlen|].
  intros k d Hd. pose proof (lookup_lt_Some _ _ _ Hd) as Hk.
  destruct (Hdone k d ltac:(lia) Hd) as (d' & Hd' & _ & Hb).
  rewrite forallb_forall in Hnull.
  assert (Hp : m_pIncrementalInfo d = None).
  { specialize (Hnull d (proj1 (list_elem_of_In _ _) (list_elem_of_lookup_2 _ _ _ Hd))).
    unfold unbound in Hnull. destruct (m_pIncrementalInfo d); [discriminate|reflexivity]. }
  destruct (Hb Hp) as (a & r & dl & -> & Hr & Hid & Hpl & Hdl).
  exists a, r, dl. cbn. repeat split; assumption.
Qed.

(** X10: a new light list keeps what is known.  UpdateIncrementalForNew-
    LightList removes no record and moves none: every record of the store
    is found at its address afterwards, with its object id, level, state,
    contribution matrix, total contribution, distance and time stamp
    unchanged (its m_pLight alone may be redirected). *)
Theorem UpdateIncremental_keeps_records (st st' : CLightingPreviewThread)
    (a : nat) (r : CIncrementalLightInfo) :
  UpdateIncrementalForNewLightList st = Ok st' ->
  m_pIncrementalLightInfoList st !! a = Some r ->
  exists r', m_pIncrementalLightInfoList st' !! a = Some r' /\
    info_nObjectID r' = info_nObjectID r /\
    m_PartialResultsStage r' = m_PartialResultsStage r /\
    m_eIncrState r' = m_eIncrState r /\
    m_CalculatedContribution r' = m_CalculatedContribution r /\
    m_fTotalContribution r' = m_fTotalContribution r /\
    m_fDistanceToEye r' = m_fDistanceToEye r /\
    m_nMostRecentNonZeroContributionTimeStamp r'
      = m_nMostRecentNonZeroContributionTimeStamp r.
Proof.
  intros Hrun Hr.
  destruct (m_pLightList st) as [lights|] eqn:Hl.
  2:{ unfold UpdateIncrementalForNewLightList in Hrun. rewrite Hl in Hrun. discriminate. }
  destruct (binding_inv_final st lights Hl)
    as (lights' & infos' & Hrun' & _ & _ & _ & Hkeep & _).
  rewrite Hrun' in Hrun. injection Hrun as <-. cbn [fst snd] in *.
  destruct (Hkeep a r Hr) as (r' & Hr' & He & _).
  exists r'. split; [exact Hr'|].
  destruct r, r'. cbn in He. injection He; intros; subst. cbn. repeat split; reflexivity.
Qed.

(** X11: the records a new light list adds.  UpdateIncrementalForNew-
    LightList keeps the object ids of the store distinct if they were, and
    every record it adds is as the constructor makes it: in state New, at
    level 0, without a contribution matrix, with total contribution 0,
    distance 0 and time stamp 0. *)
Theorem UpdateIncremental_new_records (st st' : CLightingPreviewThread) :
  UpdateIncrementalForNewLightList st = Ok st' ->
  (NoDup (object_ids (m_pIncrementalLightInfoList st)) ->
   NoDup (object_ids (m_pIncrementalLightInfoList st'))) /\
  forall a r,
    (length (m_pIncrementalLightInfoList st) <= a)%nat ->
    m_pIncrementalLightInfoList st' !! a = Some r ->
    m_eIncrState r = INCR_STATE_NEW /\ m_PartialResultsStage r = 0 /\
    m_CalculatedContribution r = empty_matrix /\
    m_fTotalContribution r = F32.zero /\ m_fDistanceToEye r = F32.zero /\
    m_nMostRecentNonZeroContributionTimeStamp r = 0.
Proof.
  intros Hrun.
  destruct (m_pLightList st) as [lights|] eqn:Hl.
  2:{ unfold UpdateIncrementalForNewLightList in Hrun. rewrite Hl in Hrun. discriminate. }
  destruct (binding_inv_final st lights Hl)
    as (lights' & infos' & Hrun' & _ & _ & _ & _ & Hfresh & Hnd).
  rewrite Hrun' in Hrun. injection Hrun as <-. cbn [fst snd] in *.
  split; [exact Hnd|]. intros a r Ha Hr.
  specialize (Hfresh a r Ha Hr).
  destruct r. cbn in Hfresh. injection Hfresh; intros; subst. cbn. repeat split; reflexivity.
Qed.

(** ** Refinement from the first pass to the last *)

Section Refinement.

Context `{External}.

Lemma CalculateForLight_level st l st' i :
  CalculateForLight st l = Ok st' ->
  get_info (m_pIncrementalLightInfoList st) (m_pIncrementalInfo l) = Ok i ->
  exists i', get_info (m_pIncrementalLightInfoList st') (m_pIncrementalInfo l) = Ok i' /\
    m_PartialResultsStage i'
      = (if state_eqb (m_eIncrState i) INCR_STATE_PARTIAL_RESULTS
         then Int.add 1 (m_PartialResultsStage i) else 0) /\
    m_eIncrState i'
      = (if m_PartialResultsStage i' =? N_INCREMENTAL_STEPS - 1
         then INCR_STATE_HAVE_FULL_RESULTS else INCR_STATE_PARTIAL_RESULTS).
Proof.
  unfold CalculateForLight. rewrite build_acceleration_infos. intros Hrun Hi.
  rewrite Hi in Hrun. cbn [bind] in Hrun.
  bind_inv Hrun as [new_incr_level prev_msk] eqn:Elvl.
  bind_inv Hrun as new_msk eqn:Enew. bind_inv Hrun as r eqn:Efan.
  bind_inv Hrun as infos eqn:Eup. injection Hrun as <-.
  cbn [m_pIncrementalLightInfoList set_m_pIncrementalLightInfoList].
  unfold update_info in Eup. unfold get_info in Hi |- *.
  destruct (m_pIncrementalInfo l) as [a|]; [|discriminate].
  destruct (m_pIncrementalLightInfoList st !! a) as [i0|] eqn:Ha; [|discriminate].
  injection Hi as ->. injection Eup as <-.
  rewrite list_lookup_insert_eq by (eapply lookup_lt_Some; exact Ha).
  eexists. split; [reflexivity|].
  destruct (account_spec (build_acceleration st) new_incr_level (fst r) (snd r) i)
    as (_ & _ & Hstage & Hstate).
  rewrite Hstate, Hstage. split; [|reflexivity].
  unfold next_level in Elvl.
  destruct (state_eqb (m_eIncrState i) INCR_STATE_PARTIAL_RESULTS).
  - bind_inv Elvl as p eqn:Ep. injection Elvl as <- _. reflexivity.
  - injection Elvl as <- _. reflexivity.
Qed.

Lemma refine_levels_aux (n : nat) st l st' i :
  get_info (m_pIncrementalLightInfoList st) (m_pIncrementalInfo l) = Ok i ->
  m_eIncrState i <> INCR_STATE_PARTIAL_RESULTS ->
  (n < 32)%nat ->
  refine (S n) st l = Ok st' ->
  exists i', get_info (m_pIncrementalLightInfoList st') (m_pIncrementalInfo l) = Ok i' /\
    m_PartialResultsStage i' = Z.of_nat n /\
    m_eIncrState i'
      = (if Z.of_nat n =? 31 then INCR_STATE_HAVE_FULL_RESULTS
         else INCR_STATE_PARTIAL_RESULTS).
Proof.
  intros Hi Hnp. revert st'. induction n as [|n IH]; intros st' Hn Hrun.
  - cbn [refine bind] in Hrun.
    destruct (CalculateForLight_level _ _ _ _ Hrun Hi) as (i' & Hi' & Hstage & Hstate).
    assert (Hs : state_eqb (m_eIncrState i) INCR_STATE_PARTIAL_RESULTS = false)
      by (destruct (m_eIncrState i); try reflexivity; congruence).
    rewrite Hs in Hstage. exists i'. split; [exact Hi'|]. split; [exact Hstage|].
    rewrite Hstate, Hstage. reflexivity.
  - change (refine (S (S n)) st l) with (st1 <-- refine (S n) st l ;; CalculateForLight st1 l)
      in Hrun.
    bind_inv Hrun as st1 eqn:E1.
    destruct (IH st1 ltac:(lia) eq_refl) as (i1 & Hi1 & Hstage1 & Hstate1).
    replace (Z.of_nat n =? 31) with false in Hstate1 by lia.
    destruct (CalculateForLight_level _ _ _ _ Hrun Hi1) as (i' & Hi' & Hstage & Hstate).
    rewrite Hstate1 in Hstage. cbn [state_eqb state_value Z.eqb Pos.eqb] in Hstage.
    rewrite Hstage1 in Hstage.
    assert (Hadd : Int.add 1 (Z.of_nat n) = Z.of_nat (S n)).
    { unfold Int.add. rewrite wrap32_small by (unfold Int.in_range; lia). lia. }
    rewrite Hadd in Hstage.
    exists i'. split; [exact Hi'|]. split; [exact Hstage|].
    rewrite Hstate, Hstage. reflexivity.
Qed.

(** X12: refinement from the first pass to the last.  For a light whose
    record is not Partial (New, NoResults or Full), n refinement passes in a
    row, 1 <= n <= N, each of which returns, leave the record at level
    n - 1; it is Partial after each of the first N - 1 passes and Full,
    with no work left, after the N-th. *)
Theorem refine_levels (n : nat) (st st' : CLightingPreviewThread)
    (l : CLightingPreviewLightDescription) (i : CIncrementalLightInfo) :
  get_info (m_pIncrementalLightInfoList st) (m_pIncrementalInfo l) = Ok i ->
  m_eIncrState i <> INCR_STATE_PARTIAL_RESULTS ->
  (1 <= n <= 32)%nat ->
  refine n st l = Ok st' ->
  exists i', get_info (m_pIncrementalLightInfoList st') (m_pIncrementalInfo l) = Ok i' /\
    m_PartialResultsStage i' = Z.of_nat n - 1 /\
    m_eIncrState i'
      = (if Z.of_nat n =? N_INCREMENTAL_STEPS then INCR_STATE_HAVE_FULL_RESULTS
         else INCR_STATE_PARTIAL_RESULTS) /\
    HasWorkToDo i' = negb (Z.of_nat n =? N_INCREMENTAL_STEPS).
Proof.
  intros Hi Hnp Hn Hrun. destruct n as [|n]; [lia|].
  destruct (refine_levels_aux n st l st' i Hi Hnp ltac:(lia) Hrun)
    as (i' & Hi' & Hstage & Hstate).
  exists i'. split; [exact Hi'|]. split; [lia|].
  unfold N_INCREMENTAL_STEPS, HasWorkToDo. rewrite Hstate.
  assert (Heq : (Z.of_nat (S n) =? 32) = (Z.of_nat n =? 31)).
  { destruct (Z.eqb_spec (Z.of_nat (S n)) 32), (Z.eqb_spec (Z.of_nat n) 31);
      try reflexivity; lia. }
  rewrite Heq. destruct (Z.of_nat n =? 31); split; reflexivity.
Qed.

End Refinement.

(** ** The bitmap of a display result *)

Section Rendering.

Context `{External}.

Lemma bytes_of_length colors : length (bytes_of colors) = (4 * length colors)%nat.
Proof.
  unfold bytes_of. induction colors as [|c colors IH]; [reflexivity|].
  cbn [fmap list_fmap concat]. rewrite length_app. cbn [length pixel_bytes].
  change (list_fmap _ _ pixel_bytes colors) with (pixel_bytes <$> colors). lia.
Qed.

Lemma bytes_of_lookup colors k c color :
  colors !! k = Some color -> (c < 4)%nat ->
  bytes_of colors !! (4 * k + c)%nat = pixel_bytes color !! c.
Proof.
  unfold bytes_of. revert k. induction colors as [|c0 colors IH]; intros k Hk Hc.
  - discriminate.
  - cbn [fmap list_fmap concat].
    change (list_fmap _ _ pixel_bytes colors) with (pixel_bytes <$> colors).
    destruct k as [|k].
    + injection Hk as ->. rewrite lookup_app_l by (cbn; lia). reflexivity.
    + rewrite lookup_app_r by (cbn; lia). cbn [length pixel_bytes].
      replace (4 * S k + c - 4)%nat with (4 * k + c)%nat by lia.
      apply IH; [exact Hk|exact Hc].
Qed.

Lemma bytes_of_snoc colors color : bytes_of (colors ++ [color]) = bytes_of colors ++ pixel_bytes color.
Proof.
  unfold bytes_of. rewrite fmap_app, concat_app. cbn [fmap list_fmap concat].
  rewrite app_nil_r. reflexivity.
Qed.

Lemma bitmap_row_rendered src y pixels pixels' :
  0 <= y ->
  rendered src (y * Z.of_nat (Z.to_nat (m_nWidth src))) pixels ->
  bitmap_row src y pixels = Ok pixels' ->
  rendered src ((y + 1) * Z.of_nat (Z.to_nat (m_nWidth src))) pixels'.
Proof.
  intros Hy Hinit Hrun. unfold bitmap_row in Hrun.
  set (W := Z.of_nat (Z.to_nat (m_nWidth src))) in *.
  replace ((y + 1) * W) with (y * W + (0 + W)) by lia.
  refine (for_loop_r_inv (fun x px => rendered src (y * W + x) px) _ _ 0 pixels pixels'
            _ _ Hrun); cbv beta.
  { rewrite Z.add_0_r. exact Hinit. }
  clear Hrun. fold W.
  intros x px px' Hx (colors & Hpx & Hlen & Hall) Hbody.
  bind_inv Hbody as color eqn:Ecol. injection Hbody as <-.
  exists (colors ++ [color]). split; [rewrite bytes_of_snoc, Hpx; reflexivity|].
  split; [rewrite length_app; cbn; lia|].
  intros k c Hk. destruct (decide (k < length colors)%nat) as [Hlt|Hge].
  - rewrite lookup_app_l in Hk by exact Hlt. apply Hall. exact Hk.
  - rewrite lookup_app_r in Hk by lia.
    destruct (k - length colors)%nat as [|m] eqn:Hm; [|destruct m; discriminate].
    injection Hk as <-. fold W.
    assert (Hkz : Z.of_nat k = x + y * W) by lia.
    rewrite Hkz, Z.mod_add, Z.div_add by lia.
    rewrite Z.mod_small, Z.div_small by lia. rewrite Z.add_0_l. exact Ecol.
Qed.

Lemma rows_rendered src pixels :
  for_loop_r (Z.to_nat (m_nHeight src)) 0 (bitmap_row src) [] = Ok pixels ->
  rendered src (Z.of_nat (Z.to_nat (m_nHeight src)) * Z.of_nat (Z.to_nat (m_nWidth src))) pixels.
Proof.
  intros Hrun.
  rewrite <- (Z.add_0_l (Z.of_nat (Z.to_nat (m_nHeight src)))).
  refine (for_loop_r_inv
            (fun y px => rendered src (y * Z.of_nat (Z.to_nat (m_nWidth src))) px)
            _ _ 0 [] pixels _ _ Hrun); cbv beta.
  { exists []. split; [reflexivity|]. split; [reflexivity|]. intros k c Hk. discriminate. }
  intros y px px' Hy Hpx Hbody. apply (bitmap_row_rendered src y px px'); [lia|exact Hpx|exact Hbody].
Qed.

(** X13: the bitmap of a display result.  The message that
    SendVectorMatrixAsRendering queues for the matrix src carries the
    engine's generation counter and a bitmap of the width and height of
    src with four bytes a pixel, row after row: the pixel (x, y) holds the
    bytes of the z, y and x components of Element(x, y), in this order,
    followed by a byte 0. *)
Theorem SendVectorMatrixAsRendering_pixels (st : CLightingPreviewThread)
    (src : CSIMDVectorMatrix) (d : MessageFromLPreview) (x y : Z) :
  SendVectorMatrixAsRendering st src = Ok d ->
  0 <= x < m_nWidth src -> 0 <= y < m_nHeight src ->
  msg_nBitmapGenerationCounter d = m_nBitmapGenerationCounter st /\
  bm_Width (m_pBitmapToDisplay d) = m_nWidth src /\
  bm_Height (m_pBitmapToDisplay d) = m_nHeight src /\
  Z.of_nat (length (bm_Pixels (m_pBitmapToDisplay d))) = 4 * (m_nWidth src * m_nHeight src) /\
  exists color,
    Element src x y = Ok color /\
    forall c, (c < 4)%nat ->
      bm_Pixels (m_pBitmapToDisplay d) !! (Z.to_nat (4 * (y * m_nWidth src + x)) + c)%nat
      = [to_byte (vz color); to_byte (vy color); to_byte (vx color); 0] !! c.
Proof.
  unfold SendVectorMatrixAsRendering. intros Hrun Hx Hy.
  bind_inv Hrun as pixels eqn:Erows. injection Hrun as <-. cbn.
  split; [reflexivity|]. split; [reflexivity|]. split; [reflexivity|].
  apply rows_rendered in Erows. destruct Erows as (colors & -> & Hlen & Hall).
  rewrite !Z2Nat.id in Hlen, Hall by lia.
  split; [rewrite bytes_of_length; lia|].
  destruct (lookup_lt_is_Some_2 colors (Z.to_nat (y * m_nWidth src + x))) as [color Hcolor].
  { nia. }
  exists color. split.
  - specialize (Hall _ _ Hcolor). rewrite Z2Nat.id in Hall by nia.
    replace (y * m_nWidth src + x) with (x + y * m_nWidth src) in Hall by lia.
    rewrite Z.mod_add, Z.div_add in Hall by lia.
    rewrite Z.mod_small, Z.div_small, Z.add_0_l in Hall by lia. exact Hall.
  - intros c Hc.
    replace (Z.to_nat (4 * (y * m_nWidth src + x)) + c)%nat
      with (4 * Z.to_nat (y * m_nWidth src + x) + c)%nat by nia.
    apply bytes_of_lookup; [exact Hcolor|exact Hc].
Qed.

End Rendering.

(** ** The image of a display result *)

Section Compositing.

Context `{External}.

Lemma same_shape_refl m : same_shape m m.
Proof. repeat split. Qed.

Lemma same_shape_trans m1 m2 m3 : same_shape m1 m2 -> same_shape m2 m3 -> same_shape m1 m3.
Proof. unfold same_shape. intros (? & ? & ? & ?) (? & ? & ? & ?). repeat split; congruence. Qed.

Lemma vec_set_length {A : Type} (v v' : list A) i a :
  vec_set v i a = Ok v' -> length v' = length v.
Proof.
  unfold vec_set. destruct ((i <? 0) || (Z.of_nat (length v) <=? i)); [discriminate|].
  intros [= <-]. apply length_insert.
Qed.

Lemma composite_group_shape st src y src_y x image image' :
  composite_group st src y src_y x image = Ok image' -> same_shape image image'.
Proof.
  unfold composite_group. intros Hrun.
  bind_inv Hrun as albedo_value eqn:E0. bind_inv Hrun as c eqn:E1.
  bind_inv Hrun as d eqn:E2. bind_inv Hrun as data eqn:E3.
  injection Hrun as <-. apply vec_set_length in E3. repeat split. exact E3.
Qed.

Lemma for_loop_r_shape (body : Z -> CSIMDVectorMatrix -> result CSIMDVectorMatrix) n i m m' :
  (forall j a b, body j a = Ok b -> same_shape a b) ->
  for_loop_r n i body m = Ok m' -> same_shape m m'.
Proof.
  intros Hbody Hrun.
  refine (for_loop_r_inv (fun _ a => same_shape m a) body n i m m' _ _ Hrun).
  - apply same_shape_refl.
  - intros j a b _ Ha Hb. apply (same_shape_trans _ a); [exact Ha|]. apply (Hbody j). exact Hb.
Qed.

Lemma composite_line_shape st l_info y image image' :
  composite_line st l_info y image = Ok image' -> same_shape image image'.
Proof.
  unfold composite_line. intros Hrun. bind_inv Hrun as off eqn:E.
  apply for_loop_r_shape in Hrun; [exact Hrun|].
  intros j a b. apply composite_group_shape.
Qed.

Lemma composite_light_shape st l image image' :
  composite_light st l image = Ok image' ->
  same_shape image image' /\
  (dark (m_pIncrementalLightInfoList st) l = true -> image' = image).
Proof.
  unfold composite_light, dark. intros Hrun. bind_inv Hrun as l_info eqn:E.
  destruct (F32.gtb (m_fTotalContribution l_info) F32.zero); cbn [andb negb] in *.
  - split; [|discriminate].
    destruct (state_value INCR_STATE_PARTIAL_RESULTS <=? state_value (m_eIncrState l_info)).
    + apply for_loop_r_shape in Hrun; [exact Hrun|].
      intros j a b. apply composite_line_shape.
    + injection Hrun as <-. apply same_shape_refl.
  - injection Hrun as <-. split; [apply same_shape_refl|reflexivity].
Qed.

Lemma composite_lights_shape st lights image image' :
  composite_lights st lights image = Ok image' ->
  same_shape image image' /\
  (forallb (dark (m_pIncrementalLightInfoList st)) lights = true -> image' = image).
Proof.
  revert image. induction lights as [|l rest IH]; intros image Hrun.
  - injection Hrun as <-. split; [apply same_shape_refl|reflexivity].
  - cbn [composite_lights] in Hrun. bind_inv Hrun as image1 eqn:E.
    apply composite_light_shape in E as [Hs1 Hd1]. apply IH in Hrun as [Hs2 Hd2].
    split; [apply (same_shape_trans _ image1); assumption|].
    cbn [forallb]. intros Hdark. apply andb_prop in Hdark as [Hl Hrest].
    rewrite (Hd2 Hrest). apply Hd1. exact Hl.
Qed.

(** X14: what SendResult leaves and sends.  A call of SendResult that
    returns changes no member of the engine but the result image, the
    result-changed flag, which it clears, and the last-send-time, which
    it sets to the clock reading.  The result image and the bitmap it
    sends have the width and height of the albedo buffer, and the message
    carries the engine's generation counter.  When no light of the list
    has a total contribution above 0, the result image is the albedo
    buffer times the ambient estimate. *)
Theorem SendResult_frame (now : double) (st st' : CLightingPreviewThread)
    (d : MessageFromLPreview) :
  SendResult now st = Ok (st', d) ->
  st' = set_m_bResultChangedSinceLastSend false
          (set_m_fLastSendTime (F32.of_double now)
             (set_m_ResultImage (m_ResultImage st') st)) /\
  m_nWidth (m_ResultImage st') = m_nWidth (m_Albedos st) /\
  m_nHeight (m_ResultImage st') = m_nHeight (m_Albedos st) /\
  bm_Width (m_pBitmapToDisplay d) = m_nWidth (m_Albedos st) /\
  bm_Height (m_pBitmapToDisplay d) = m_nHeight (m_Albedos st) /\
  msg_nBitmapGenerationCounter d = m_nBitmapGenerationCounter st /\
  (forallb (dark (m_pIncrementalLightInfoList st)) (lights_of st) = true ->
   exists ambient, EstimatedUnshotAmbient st = Ok ambient /\
                   m_ResultImage st' = Matrix_scale (m_Albedos st) ambient).
Proof.
  unfold SendResult, lights_of. intros Hrun.
  bind_inv Hrun as ambient eqn:E. bind_inv Hrun as lights eqn:E0.
  bind_inv Hrun as image eqn:E1. bind_inv Hrun as ret_msg eqn:E2.
  injection Hrun as <- <-.
  destruct (m_pLightList st) as [lights0|]; [|discriminate]. injection E0 as ->.
  apply composite_lights_shape in E1 as [(Hw & Hh & _) Hdark].
  unfold SendVectorMatrixAsRendering in E2. bind_inv E2 as pixels eqn:E3.
  injection E2 as <-. cbn in *.
  split; [reflexivity|]. repeat split; try assumption.
  intros Hall. exists ambient. split; [reflexivity|]. apply Hdark. exact Hall.
Qed.

End Compositing.

(** ** The order of events in a run *)

Section RunOrder.

Context `{External}.

Lemma HandleAMessage_quit m now now' st st' quit :
  HandleAMessage m now now' st = Ok (st', quit) -> quit = is_exit m.
Proof.
  unfold HandleAMessage. intros Hrun.
  destruct m as [|lights eye|tris|bms eye g]; cbn [is_exit].
  - injection Hrun as _ <-. reflexivity.
  - bind_inv Hrun as st1 eqn:E. bind_inv Hrun as st2 eqn:E0. injection Hrun as _ <-.
    reflexivity.
  - bind_inv Hrun as st1 eqn:E. bind_inv Hrun as st2 eqn:E0. injection Hrun as _ <-.
    reflexivity.
  - bind_inv Hrun as st1 eqn:E. bind_inv Hrun as st2 eqn:E0. injection Hrun as _ <-.
    reflexivity.
Qed.

(** What the inner loop of [Run] has done when it ends: it has handled the
    messages of the queue up to where it stopped, in order; Exit, if
    handled, is the last of them; and when it ends without Exit there is
    useful work to do. *)
Lemma message_loop_order q st st' tr e :
  message_loop q st = (st', tr, e) ->
  Forall (fun ev => exists m, ev = Handled m) tr /\
  match e with
  | LoopDone quit q' =>
      queue_messages q = handled_messages tr ++ queue_messages q' /\
      (if quit then exists tr0, tr = tr0 ++ [Handled LPREVIEW_MSG_EXIT] /\ no_exit tr0
       else no_exit tr /\ AnyUsefulWorkToDo st' = Ok true)
  | _ => (exists rest, queue_messages q = handled_messages tr ++ rest) /\ no_exit tr
  end.
Proof.
  revert st st' tr e. induction q as [|ev q IH]; intros st st' tr e Hrun.
  - cbn [message_loop] in Hrun.
    destruct (AnyUsefulWorkToDo st) as [useful|f] eqn:Hu.
    + destruct useful; injection Hrun as <- <- <-; (split; [constructor|]).
      * split; [reflexivity|]. split; [intros []|exact Hu].
      * split; [exists []; reflexivity|intros []].
    + injection Hrun as <- <- <-. split; [constructor|].
      split; [exists []; reflexivity|intros []].
  - cbn [message_loop] in Hrun.
    destruct (AnyUsefulWorkToDo st) as [useful|f] eqn:Hu.
    2:{ injection Hrun as <- <- <-. split; [constructor|].
        split; [eexists; reflexivity|intros []]. }
    destruct ev as [|m now now'].
    + destruct useful.
      * injection Hrun as <- <- <-. split; [constructor|].
        split; [reflexivity|]. split; [intros []|exact Hu].
      * apply IH in Hrun. exact Hrun.
    + destruct (HandleAMessage m now now' st) as [[st1 quit]|f] eqn:Hmsg.
      2:{ injection Hrun as <- <- <-. split; [constructor|].
          split; [eexists; reflexivity|intros []]. }
      pose proof (HandleAMessage_quit _ _ _ _ _ _ Hmsg) as Hq.
      destruct quit.
      * injection Hrun as <- <- <-.
        split; [constructor; [eexists; reflexivity|constructor]|].
        split; [reflexivity|]. exists []. split; [|intros []].
        destruct m; try discriminate. reflexivity.
      * destruct (message_loop q st1) as [[st2 tr2] e2] eqn:Hloop.
        injection Hrun as <- <- <-. apply IH in Hloop as [Hall Hend].
        split; [constructor; [eexists; reflexivity|exact Hall]|].
        assert (Hstep : forall tr', no_exit tr' -> no_exit (Handled m :: tr')).
        { intros tr' Hno [Heq|Hin]; [|exact (Hno Hin)].
          injection Heq as ->. discriminate. }
        destruct e2 as [quit2 q'| |f].
        -- destruct Hend as [Hmsgs Hexit].
           split; [change (m :: queue_messages q
                           = m :: (handled_messages tr2 ++ queue_messages q'));
                   rewrite Hmsgs; reflexivity|].
           destruct quit2.
           ++ destruct Hexit as [tr0 [-> Hno]]. exists (Handled m :: tr0).
              split; [reflexivity|]. apply Hstep. exact Hno.
           ++ destruct Hexit as [Hno Hwork]. split; [apply Hstep; exact Hno|exact Hwork].
        -- destruct Hend as [[rest Hmsgs] Hno].
           split; [exists rest;
                   change (m :: queue_messages q = m :: (handled_messages tr2 ++ rest));
                   rewrite Hmsgs; reflexivity|apply Hstep; exact Hno].
        -- destruct Hend as [[rest Hmsgs] Hno].
           split; [exists rest;
                   change (m :: queue_messages q = m :: (handled_messages tr2 ++ rest));
                   rewrite Hmsgs; reflexivity|apply Hstep; exact Hno].
Qed.

(** X15: when the inner loop of Run ends.  If the loop that handles
    messages ends without an Exit message, then AnyUsefulWorkToDo returns
    true in the state it leaves, so the call of DoWork that follows has
    work to do; it has handled the messages of the queue up to the point
    where it stopped, in their order, and nothing else. *)
Theorem message_loop_ends_with_work (q q' : list QueueEvent)
    (st st' : CLightingPreviewThread) (tr : list TraceEvent) :
  message_loop q st = (st', tr, LoopDone false q') ->
  AnyUsefulWorkToDo st' = Ok true /\
  queue_messages q = handled_messages tr ++ queue_messages q' /\
  tr = map Handled (handled_messages tr).
Proof.
  intros Hrun. apply message_loop_order in Hrun as [Hall [Hmsgs [_ Hwork]]].
  split; [exact Hwork|]. split; [exact Hmsgs|].
  clear Hmsgs Hwork. induction Hall as [|ev tr [m ->] _ IH]; [reflexivity|].
  cbn. f_equal. exact IH.
Qed.

Lemma handled_messages_app tr1 tr2 :
  handled_messages (tr1 ++ tr2) = handled_messages tr1 ++ handled_messages tr2.
Proof. unfold handled_messages. apply flat_map_app. Qed.

Lemma work_step_trace quit st st' tr :
  work_step quit st = Ok (st', tr) ->
  tr = [] \/ (quit = false /\ tr = [Worked]).
Proof.
  unfold work_step. intros Hrun.
  destruct quit; [injection Hrun as _ <-; left; reflexivity|].
  bind_inv Hrun as useful eqn:E. destruct useful.
  - bind_inv Hrun as st1 eqn:E0. injection Hrun as _ <-. right. split; reflexivity.
  - injection Hrun as _ <-. left. reflexivity.
Qed.

Lemma send_step_trace clock st st' tr :
  send_step clock st = Ok (st', tr) -> tr = [] \/ exists d, tr = [Sent d].
Proof.
  unfold send_step. intros Hrun.
  destruct (m_bResultChangedSinceLastSend st); [|injection Hrun as _ <-; left; reflexivity].
  bind_inv Hrun as due eqn:E.
  destruct due; [|injection Hrun as _ <-; left; reflexivity].
  bind_inv Hrun as r eqn:E0. injection Hrun as _ <-. right. eexists. reflexivity.
Qed.

(** X16: messages are handled in the order of the queue.  In any run, the
    messages the thread has handled are the first messages of the inbound
    queue, in their order: none is skipped, none is handled twice. *)
Theorem Run_in_order (clocks : list (double * double)) (q : list QueueEvent)
    (st : CLightingPreviewThread) :
  exists rest,
    queue_messages q = handled_messages (snd (fst (Run clocks q st))) ++ rest.
Proof.
  revert q st. induction clocks as [|clock clocks IH]; intros q st.
  - eexists. reflexivity.
  - cbn [Run].
    destruct (message_loop q st) as [[st1 tr1] e] eqn:Hloop.
    apply message_loop_order in Hloop as [_ Hend].
    destruct e as [quit q'| |f]; try (destruct Hend as [Hrest _]; exact Hrest).
    destruct Hend as [Hmsgs _].
    destruct (work_step quit st1) as [[st2 tr2]|f] eqn:Hwork;
      [|cbn [fst snd]; eexists; exact Hmsgs].
    assert (H2 : handled_messages tr2 = []).
    { apply work_step_trace in Hwork as [->|[_ ->]]; reflexivity. }
    destruct (send_step clock st2) as [[st3 tr3]|f] eqn:Hsend.
    2:{ cbn [fst snd]. rewrite handled_messages_app, H2, app_nil_r.
        eexists. exact Hmsgs. }
    assert (H3 : handled_messages tr3 = []).
    { apply send_step_trace in Hsend as [->|[d ->]]; reflexivity. }
    destruct quit.
    + cbn [fst snd]. rewrite !handled_messages_app, H2, H3, !app_nil_r.
      eexists. exact Hmsgs.
    + destruct (IH q' st3) as [rest Hrest].
      destruct (Run clocks q' st3) as [[st4 tr4] status]. cbn [fst snd] in *.
      exists rest. rewrite !handled_messages_app, H2, H3. cbn [app].
      rewrite Hmsgs, Hrest, app_assoc. reflexivity.
Qed.

Lemma no_exit_app tr1 tr2 : no_exit tr1 -> no_exit tr2 -> no_exit (tr1 ++ tr2).
Proof. unfold no_exit. intros H1 H2 Hin. apply in_app_or in Hin. tauto. Qed.

Lemma Run_exit_shape clocks q st :
  let '(_, tr, status) := Run clocks q st in
  (no_exit tr /\ status <> Exited)
  \/ (exits_cleanly tr /\ (status = Exited \/ exists f, status = Faulted f)).
Proof.
  revert q st. induction clocks as [|clock clocks IH]; intros q st.
  - left. split; [intros []|discriminate].
  - cbn [Run].
    destruct (message_loop q st) as [[st1 tr1] e] eqn:Hloop.
    apply message_loop_order in Hloop as [_ Hend].
    destruct e as [quit q'| |f]; try (left; split; [apply Hend|discriminate]).
    destruct Hend as [_ Hexit].
    destruct (work_step quit st1) as [[st2 tr2]|f] eqn:Hwork.
    2:{ destruct quit.
        - destruct Hexit as [tr0 [-> Hno]]. right. split; [|right; eexists; reflexivity].
          exists tr0, []. split; [reflexivity|]. split; [exact Hno|left; reflexivity].
        - left. split; [apply Hexit|discriminate]. }
    apply work_step_trace in Hwork.
    destruct (send_step clock st2) as [[st3 tr3]|f] eqn:Hsend.
    2:{ destruct quit.
        - destruct Hexit as [tr0 [-> Hno]]. right. split; [|right; eexists; reflexivity].
          destruct Hwork as [->|[[=] _]]. rewrite app_nil_r.
          exists tr0, []. split; [reflexivity|]. split; [exact Hno|left; reflexivity].
        - left. split; [|discriminate]. apply no_exit_app; [apply Hexit|].
          destruct Hwork as [->|[_ ->]]; [intros []|intros [[=]|[]]]. }
    apply send_step_trace in Hsend.
    destruct quit.
    + destruct Hexit as [tr0 [-> Hno]]. right. split; [|left; reflexivity].
      destruct Hwork as [->|[[=] _]]. cbn [app]. exists tr0, tr3.
      split; [rewrite <- app_assoc; reflexivity|]. split; [exact Hno|].
      destruct Hsend as [->|[d ->]]; [left; reflexivity|right; eexists; reflexivity].
    + destruct Hexit as [Hno1 _].
      assert (Hno : no_exit (tr1 ++ tr2 ++ tr3)).
      { apply no_exit_app; [exact Hno1|]. apply no_exit_app.
        - destruct Hwork as [->|[_ ->]]; [intros []|intros [[=]|[]]].
        - destruct Hsend as [->|[d ->]]; [intros []|intros [[=]|[]]]. }
      specialize (IH q' st3).
      destruct (Run clocks q' st3) as [[st4 tr4] status].
      replace (tr1 ++ tr2 ++ tr3 ++ tr4) with ((tr1 ++ tr2 ++ tr3) ++ tr4)
        by (rewrite <- !app_assoc; reflexivity).
      destruct IH as [[Hno4 Hst]|[(pre & post & -> & Hpre & Hpost) Hst]].
      * left. split; [apply no_exit_app; assumption|exact Hst].
      * right. split; [|exact Hst].
        exists ((tr1 ++ tr2 ++ tr3) ++ pre), post.
        split; [rewrite <- !app_assoc; reflexivity|].
        split; [apply no_exit_app; assumption|exact Hpost].
Qed.

(** X17: Exit ends the run.  In any run that has handled an Exit message
    or in which Run has returned, exactly one Exit message was handled;
    after it no message was handled and no work was done, at most one
    display result was sent, and Run has returned unless that last send
    stopped on a fault. *)
Theorem Run_exit (clocks : list (double * double)) (q : list QueueEvent)
    (st : CLightingPreviewThread) :
  In (Handled LPREVIEW_MSG_EXIT) (snd (fst (Run clocks q st)))
  \/ snd (Run clocks q st) = Exited ->
  exits_cleanly (snd (fst (Run clocks q st))) /\
  (snd (Run clocks q st) = Exited \/ exists f, snd (Run clocks q st) = Faulted f).
Proof.
  pose proof (Run_exit_shape clocks q st) as Hshape.
  destruct (Run clocks q st) as [[st' tr] status]. cbn [fst snd].
  intros Hexit. destruct Hshape as [[Hno Hst]|Hclean]; [|exact Hclean].
  destruct Hexit as [Hin|Hex]; [destruct (Hno Hin)|destruct (Hst Hex)].
Qed.

End RunOrder.

(** ** What handling a message leaves *)

Section Messages.

Context `{External}.

Lemma discarded_without_results i :
  Info_DiscardResults uninit_cell i = i -> without_results i.
Proof.
  intros Hfix. split; [apply (discarded_state_fixed _ _ Hfix)|].
  rewrite <- Hfix. unfold Info_DiscardResults. rewrite SetSize_zero.
  destruct (negb _); reflexivity.
Qed.

Lemma DiscardResults_effects now st st' :
  DiscardResults now st = Ok st' ->
  m_nContributionCounter st' = Int.add (m_nContributionCounter st) 1 /\
  m_bResultChangedSinceLastSend st' = true /\
  m_fLastSendTime st' = F32.of_double (F64.sub now F64.c_9) /\
  Forall without_results (m_pIncrementalLightInfoList st').
Proof.
  intros Hrun. pose proof (DiscardResults_store _ _ _ Hrun) as (_ & _ & _ & _ & Hfix & _).
  unfold DiscardResults in Hrun. bind_inv Hrun as infos eqn:E. injection Hrun as <-.
  cbn in *. repeat split.
  eapply Forall_impl; [exact Hfix|]. intros i. apply discarded_without_results.
Qed.

Lemma UpdateIncremental_counter st st' :
  UpdateIncrementalForNewLightList st = Ok st' ->
  m_nContributionCounter st' = m_nContributionCounter st.
Proof.
  unfold UpdateIncrementalForNewLightList. intros Hrun.
  destruct (m_pLightList st); [|discriminate].
  bind_inv Hrun as s eqn:E. injection Hrun as <-. reflexivity.
Qed.

Lemma CalculateSceneBounds_counter st st' :
  CalculateSceneBounds st = Ok st' ->
  m_nContributionCounter st' = m_nContributionCounter st.
Proof.
  unfold CalculateSceneBounds. intros Hrun. bind_inv Hrun as [minbound maxbound] eqn:E.
  injection Hrun as <-. reflexivity.
Qed.

(** X18: every message restarts the refinement.  HandleAMessage tells the
    thread to exit iff the message is Exit, which it handles without
    touching the engine.  Any other message ends in DiscardResults: after
    it every record of the store is New or NoResults with its matrix
    released, the result is marked changed, the last-send-time is the
    clock reading of that call less 9 s, and the contribution counter has
    been bumped once, twice for a geometry message. *)
Theorem HandleAMessage_restarts (m : MessageToLPreview) (now now' : double)
    (st st' : CLightingPreviewThread) (quit : bool) :
  HandleAMessage m now now' st = Ok (st', quit) ->
  quit = is_exit m /\
  if is_exit m then st' = st
  else
    Forall without_results (m_pIncrementalLightInfoList st') /\
    m_bResultChangedSinceLastSend st' = true /\
    m_fLastSendTime st' = F32.of_double (F64.sub (last_discard_at m now now') F64.c_9) /\
    m_nContributionCounter st'
      = Nat.iter (discards_of m) (fun c => Int.add c 1) (m_nContributionCounter st).
Proof.
  unfold HandleAMessage. intros Hrun.
  destruct m as [|lights eye|tris|bms eye g]; cbn [is_exit discards_of last_discard_at Nat.iter].
  - injection Hrun as <- <-. split; reflexivity.
  - bind_inv Hrun as st1 eqn:E. bind_inv Hrun as st2 eqn:E0. injection Hrun as <- <-.
    split; [reflexivity|].
    destruct (DiscardResults_effects _ _ _ E0) as (Hc & Hch & Ht & Hall).
    rewrite (UpdateIncremental_counter _ _ E) in Hc. repeat split; assumption.
  - bind_inv Hrun as st1 eqn:E. bind_inv Hrun as st2 eqn:E0. injection Hrun as <- <-.
    split; [reflexivity|].
    destruct (DiscardResults_effects _ _ _ E0) as (Hc & Hch & Ht & Hall).
    unfold HandleGeomMessage in E. bind_inv E as env eqn:Eenv.
    destruct (DiscardResults_effects _ _ _ E) as (Hc1 & _).
    rewrite Hc1 in Hc. repeat split; assumption.
  - bind_inv Hrun as st1 eqn:E. bind_inv Hrun as st2 eqn:E0. injection Hrun as <- <-.
    split; [reflexivity|].
    destruct (DiscardResults_effects _ _ _ E0) as (Hc & Hch & Ht & Hall).
    unfold HandleGBuffersMessage in E. destruct bms as [[bm0 bm1] bm2].
    rewrite (CalculateSceneBounds_counter _ _ E) in Hc. repeat split; assumption.
Qed.

End Messages.

(** ** The shadow geometry *)

Lemma for_loop_r_snoc {St : Type} (n : nat) (i : Z) (body : Z -> St -> result St) (s : St) :
  for_loop_r (S n) i body s
  = (s1 <-- for_loop_r n i body s ;; body (i + Z.of_nat n) s1).
Proof. unfold for_loop_r. rewrite for_loop_snoc. reflexivity. Qed.

Lemma vec_get_lookup {A : Type} (v : list A) (i : Z) :
  0 <= i -> vec_get v i = match v !! Z.to_nat i with
                          | Some a => Ok a
                          | None => Fault IndexOutOfRange
                          end.
Proof. intros Hi. unfold vec_get. replace (i <? 0) with false by lia. reflexivity. Qed.

Lemma add_triangle_at_eq tris (j : nat) env :
  3 * Z.of_nat j + 2 < 2 ^ 31 ->
  add_triangle_at tris (Z.of_nat j) env
  = match triangle_at tris j with
    | Some t => Ok (AddTriangle t env)
    | None => Fault IndexOutOfRange
    end.
Proof.
  intros Hj. unfold add_triangle_at, triangle_at.
  assert (H0 : Int.mul 3 (Z.of_nat j) = 3 * Z.of_nat j)
    by (apply wrap32_small; unfold Int.in_range; lia).
  assert (H1 : Int.add 1 (3 * Z.of_nat j) = 1 + 3 * Z.of_nat j)
    by (apply wrap32_small; unfold Int.in_range; lia).
  assert (H2 : Int.add 2 (3 * Z.of_nat j) = 2 + 3 * Z.of_nat j)
    by (apply wrap32_small; unfold Int.in_range; lia).
  rewrite H0, H1, H2. rewrite !vec_get_lookup by lia.
  replace (Z.to_nat (3 * Z.of_nat j)) with (3 * j)%nat by lia.
  replace (Z.to_nat (1 + 3 * Z.of_nat j)) with (3 * j + 1)%nat by lia.
  replace (Z.to_nat (2 + 3 * Z.of_nat j)) with (3 * j + 2)%nat by lia.
  destruct (tris !! (3 * j)%nat) as [v1|]; [|reflexivity]. cbn [bind].
  destruct (tris !! (3 * j + 1)%nat) as [v2|]; [|reflexivity]. cbn [bind].
  destruct (tris !! (3 * j + 2)%nat) as [v3|]; reflexivity.
Qed.

Lemma triangles_added tris (n : nat) :
  (3 * n <= length tris)%nat -> Z.of_nat (length tris) < 2 ^ 31 ->
  exists env,
    for_loop_r n 0 (add_triangle_at tris) (mk_RayTracingEnvironment []) = Ok env /\
    length (env_triangles env) = n /\
    forall j, (j < n)%nat -> env_triangles env !! j = triangle_at tris j.
Proof.
  intros Hn Hlen. induction n as [|n IH].
  - eexists. split; [reflexivity|]. split; [reflexivity|]. intros j Hj. lia.
  - destruct (IH ltac:(lia)) as (env & Hrun & Hcount & Hall).
    rewrite for_loop_r_snoc, Hrun. cbn [bind]. rewrite Z.add_0_l.
    rewrite add_triangle_at_eq by lia.
    assert (Htri : is_Some (triangle_at tris n)).
    { unfold triangle_at.
      destruct (lookup_lt_is_Some_2 tris (3 * n)%nat ltac:(lia)) as [v1 ->].
      destruct (lookup_lt_is_Some_2 tris (3 * n + 1)%nat ltac:(lia)) as [v2 ->].
      destruct (lookup_lt_is_Some_2 tris (3 * n + 2)%nat ltac:(lia)) as [v3 ->].
      eexists. reflexivity. }
    destruct Htri as [t Ht]. rewrite Ht.
    eexists. split; [reflexivity|]. unfold AddTriangle. cbn [env_triangles].
    split; [rewrite length_app; cbn; lia|].
    intros j Hj. destruct (decide (j = n)) as [->|Hne].
    + rewrite list_lookup_middle by (symmetry; exact Hcount). symmetry. exact Ht.
    + rewrite lookup_app_l by lia. apply Hall. lia.
Qed.

(** X19: the shadow triangles.  For a vertex list of fewer than 2^31 - 1
    entries, HandleGeomMessage's construction of the ray tracing
    environment gives no environment for an empty list; for a list of 3 n
    vertices, n > 0, an environment of n triangles in which triangle j has
    the id 3 j, the vertices 3 j, 3 j + 1 and 3 j + 2 of the list and the
    colour (.5, .5, .5); and for a list whose length is not a multiple of
    3 it reads past the end of the list. *)
Theorem build_environment_triangles (tris : list Vector) :
  Z.of_nat (length tris) < 2 ^ 31 - 1 ->
  match length tris with
  | O => build_environment tris = Ok None
  | _ =>
      if (length tris mod 3 =? 0)%nat then
        exists env,
          build_environment tris = Ok (Some env) /\
          length (env_triangles env) = (length tris / 3)%nat /\
          forall j, (j < length tris / 3)%nat -> env_triangles env !! j = triangle_at tris j
      else build_environment tris = Fault IndexOutOfRange
  end.
Proof.
  intros Hlen. destruct tris as [|v tris'] eqn:Htris; [reflexivity|].
  rewrite <- Htris in *. assert (Hpos : (0 < length tris)%nat) by (rewrite Htris; cbn; lia).
  replace (length (v :: tris')) with (length tris) by (rewrite Htris; reflexivity).
  destruct (length tris) as [|len'] eqn:Hl; [lia|]. rewrite <- Hl in *.
  assert (Hbuild : build_environment tris
                   = (env <-- for_loop_r (Z.to_nat ((Z.of_nat (length tris) + 2) / 3)) 0
                                (add_triangle_at tris) (mk_RayTracingEnvironment []) ;;
                      Ok (Some env))).
  { rewrite Htris. reflexivity. }
  rewrite Hbuild. clear Hbuild.
  pose proof (Nat.div_mod_eq (length tris) 3) as Hdiv.
  pose proof (Nat.mod_upper_bound (length tris) 3 ltac:(lia)) as Hmod.
  destruct (Nat.eqb_spec (length tris mod 3) 0) as [Hz|Hnz].
  - assert (Hn : Z.to_nat ((Z.of_nat (length tris) + 2) / 3) = (length tris / 3)%nat).
    { apply Nat2Z.inj. rewrite Z2Nat.id by (apply Z.div_pos; lia).
      symmetry. apply Z.div_unique with (r := 2); lia. }
    rewrite Hn.
    destruct (triangles_added tris (length tris / 3)%nat ltac:(lia) ltac:(lia))
      as (env & Hrun & Hcount & Hall).
    exists env. rewrite Hrun. cbn [bind]. split; [reflexivity|]. split; assumption.
  - assert (Hn : Z.to_nat ((Z.of_nat (length tris) + 2) / 3) = S (length tris / 3)).
    { apply Nat2Z.inj. rewrite Z2Nat.id by (apply Z.div_pos; lia).
      symmetry. apply Z.div_unique with (r := Z.of_nat (length tris mod 3) - 1); lia. }
    rewrite Hn.
    destruct (triangles_added tris (length tris / 3)%nat ltac:(lia) ltac:(lia))
      as (env & Hrun & _).
    rewrite for_loop_r_snoc, Hrun. cbn [bind]. rewrite Z.add_0_l.
    rewrite add_triangle_at_eq by lia.
    assert (Hnone : triangle_at tris (length tris / 3) = None).
    { unfold triangle_at.
      destruct (tris !! (3 * (length tris / 3))%nat) as [v1|]; [|reflexivity].
      destruct (tris !! (3 * (length tris / 3) + 1)%nat) as [v2|]; [|reflexivity].
      rewrite (lookup_ge_None_2 tris (3 * (length tris / 3) + 2)%nat) by lia.
      reflexivity. }
    rewrite Hnone. reflexivity.
Qed.

(** ** The priority order, continued *)

Lemma ltb_irrefl (a : float) : F32.ltb a a = false.
Proof.
  destruct (F32.ltb a a) eqn:Hlt; [|reflexivity].
  rewrite (ltb_asym a a Hlt) in Hlt. discriminate.
Qed.

(** X20: no record is lower priority than itself.  Whenever the
    high-priority test of a record returns, IsLowerPriorityThan of the
    record against itself returns false, in every state and for every
    contribution, distance and time stamp, so DoWork never replaces its
    choice by a light that shares its record. *)
Theorem IsLowerPriorityThan_irreflexive (pLPV : CLightingPreviewThread)
    (A : CIncrementalLightInfo) (h : bool) :
  IsHighPriority pLPV A = Ok h ->
  IsLowerPriorityThan pLPV A A = Ok false.
Proof.
  intros Hh. rewrite IsLowerPriorityThan_by_state, Hh. cbn [bind].
  rewrite andb_negb_r. f_equal. unfold by_state.
  assert (Hts : (m_nMostRecentNonZeroContributionTimeStamp A
                 >? m_nMostRecentNonZeroContributionTimeStamp A) = false)
    by (rewrite Z.gtb_ltb; apply Z.ltb_irrefl).
  assert (Hlvl : Int.abs (Int.sub (m_PartialResultsStage A) (m_PartialResultsStage A)) = 0)
    by (unfold Int.sub; rewrite Z.sub_diag; reflexivity).
  rewrite Hts, Hlvl. unfold F32.gtb. fold (F32.ltb (m_fDistanceToEye A) (m_fDistanceToEye A)).
  rewrite !ltb_irrefl, !andb_false_r.
  destruct (m_eIncrState A); try reflexivity.
  - destruct (F32.eqb (m_fTotalContribution A) F32.zero) eqn:Hz; cbn [andb]; [|reflexivity].
    reflexivity.
  - destruct (F32.eqb (m_fTotalContribution A) F32.zero) eqn:Hz; cbn [andb].
    + fold (F32.gtb (m_fTotalContribution A) F32.zero).
      rewrite (zero_not_positive _ Hz). reflexivity.
    + reflexivity.
Qed.

(** ** What a pass writes *)

Section KernelRows.

Context `{External}.

Lemma in_line_unique m y y' idx : in_line m y idx -> in_line m y' idx -> y = y'.
Proof. unfold in_line. intros Hy Hy'. nia. Qed.

Lemma in_line_shape m m' y idx : same_shape m m' -> in_line m' y idx <-> in_line m y idx.
Proof. unfold in_line. intros (_ & _ & -> & _). reflexivity. Qed.

Lemma set_CompoundElement_spec m x y v m' :
  set_CompoundElement m x y v = Ok m' ->
  same_shape m m' /\ 0 <= x + m_nPaddedWidth m * y /\
  m_pData m' = <[Z.to_nat (x + m_nPaddedWidth m * y) := v]> (m_pData m) /\
  (Z.to_nat (x + m_nPaddedWidth m * y) < length (m_pData m))%nat.
Proof.
  unfold set_CompoundElement, vec_set. intros Hrun.
  destruct (x + m_nPaddedWidth m * y <? 0) eqn:Hneg; [discriminate|].
  destruct (Z.of_nat (length (m_pData m)) <=? x + m_nPaddedWidth m * y) eqn:Hlen;
    [discriminate|].
  cbn in Hrun. injection Hrun as <-. cbn. to_Z.
  split; [repeat split; apply length_insert|]. split; [lia|]. split; [reflexivity|lia].
Qed.

Lemma shade_line_spec st l y rslt r :
  0 <= y ->
  shade_line st l y rslt = Ok r ->
  same_shape rslt (fst r) /\ line_shaded st l (fst r) y /\
  forall idx, ~ in_line rslt y idx -> m_pData (fst r) !! idx = m_pData rslt !! idx.
Proof.
  intros Hy Hrun. unfold shade_line in Hrun.
  set (pw := m_nPaddedWidth rslt) in *.
  pose (P := fun (x0 : Z) (s : CSIMDVectorMatrix * FourVectors) =>
               same_shape rslt (fst s) /\
               (forall x, 0 <= x < x0 ->
                  exists g, shade_group st l x y = Ok g /\
                            m_pData (fst s) !! Z.to_nat (x + pw * y) = Some (fst g)) /\
               (forall idx, ~ (pw * y <= Z.of_nat idx < pw * y + x0) ->
                  m_pData (fst s) !! idx = m_pData rslt !! idx)).
  assert (Hend : P (0 + Z.of_nat (Z.to_nat pw)) r).
  { refine (for_loop_r_inv P _ _ 0 _ r _ _ Hrun).
    - unfold P. cbn [fst]. split; [apply same_shape_refl|]. split; [intros x Hx; lia|].
      intros idx _. reflexivity.
    - clear Hrun. intros x [m T] s2 Hx (Hshape & Hdone & Hframe) Hbody. cbn [fst] in *.
      bind_inv Hbody as g eqn:Eg. bind_inv Hbody as m' eqn:Eset. injection Hbody as <-.
      apply set_CompoundElement_spec in Eset as (Hs & Hpos & Hdata & Hin).
      destruct Hshape as (Hw & Hh & Hpw & Hlen). fold pw in Hpw.
      rewrite Hpw in Hpos, Hdata, Hin.
      unfold P. cbn [fst]. split; [|split].
      + apply (same_shape_trans _ m); [repeat split; assumption|exact Hs].
      + intros x' Hx'. destruct (Z.eq_dec x' x) as [->|Hne].
        * exists g. split; [exact Eg|]. rewrite Hdata.
          apply list_lookup_insert_eq. exact Hin.
        * destruct (Hdone x' ltac:(lia)) as [g' [Eg' Hcell]].
          exists g'. split; [exact Eg'|]. rewrite Hdata.
          rewrite list_lookup_insert_ne by lia. exact Hcell.
      + intros idx Hout. rewrite Hdata.
        rewrite list_lookup_insert_ne by lia. apply Hframe. lia. }
  destruct Hend as (Hshape & Hdone & Hframe).
  split; [exact Hshape|]. split.
  - intros x Hx. destruct Hshape as (_ & _ & Hpw & _). rewrite Hpw in Hx |- *. fold pw.
    apply Hdone. fold pw in Hx. lia.
  - intros idx Hout. apply Hframe. unfold in_line in Hout. fold pw in Hout. lia.
Qed.

Lemma line_shaded_frame st l m m' y :
  0 <= y ->
  same_shape m m' ->
  (forall idx, in_line m y idx -> m_pData m' !! idx = m_pData m !! idx) ->
  line_shaded st l m y -> line_shaded st l m' y.
Proof.
  intros Hy Hshape Hsame Hline x Hx.
  destruct Hshape as (_ & _ & Hpw & _). rewrite Hpw in Hx |- *.
  destruct (Hline x Hx) as [g [Eg Hcell]]. exists g. split; [exact Eg|].
  rewrite Hsame; [exact Hcell|]. unfold in_line.
  rewrite Z2Nat.id by nia. lia.
Qed.

Lemma work_line_number_bound cm n : 0 <= work_line_number_at cm n <= Z.of_nat n.
Proof.
  induction n as [|n IH]; [cbn; lia|].
  cbn [work_line_number_at]. destruct (line_selected cm (Z.of_nat n)); lia.
Qed.

(** One task: it shades the lines it is in charge of and leaves every
    other cell of the matrix as it was. *)
Lemma task_spec st nLineMask nLineMatch l cm rslt rslt' mag :
  m_nHeight rslt < 2 ^ 31 ->
  CalculateForLightTask st nLineMask nLineMatch l cm rslt = Ok (rslt', mag) ->
  same_shape rslt rslt' /\
  (forall y, 0 <= y < m_nHeight rslt -> task_shades nLineMask nLineMatch cm y = true ->
     line_shaded st l rslt' y) /\
  (forall idx,
     (forall y, 0 <= y < m_nHeight rslt -> task_shades nLineMask nLineMatch cm y = true ->
        ~ in_line rslt y idx) ->
     m_pData rslt' !! idx = m_pData rslt !! idx).
Proof.
  intros HH Hrun. unfold CalculateForLightTask in Hrun.
  bind_inv Hrun as [[m total] w] eqn:Eloop. injection Hrun as <- _.
  pose (P := fun (y0 : Z) (s : CSIMDVectorMatrix * FourVectors * Z) =>
               let '(m, _, w) := s in
               w = work_line_number_at cm (Z.to_nat y0) /\
               same_shape rslt m /\
               (forall y, 0 <= y < y0 -> task_shades nLineMask nLineMatch cm y = true ->
                  line_shaded st l m y) /\
               (forall idx,
                  (forall y, 0 <= y < y0 -> task_shades nLineMask nLineMatch cm y = true ->
                     ~ in_line rslt y idx) ->
                  m_pData m !! idx = m_pData rslt !! idx)).
  assert (Hend : P (0 + Z.of_nat (Z.to_nat (m_nHeight rslt))) (m, total, w)).
  { refine (for_loop_r_inv P _ _ 0 _ _ _ _ Eloop).
    - unfold P. split; [reflexivity|]. split; [apply same_shape_refl|].
      split; [intros y Hy; lia|]. intros idx _. reflexivity.
    - clear Eloop. intros y [[m1 t1] w1] [[m2 t2] w2] Hy (Hw & Hshape & Hdone & Hframe) Hbody.
      unfold task_line in Hbody. cbv beta iota zeta in Hbody.
      assert (Htest : (Int.and (Int.shl 1 (Int.and y (Int.sub N_INCREMENTAL_STEPS 1))) cm =? 0)
                      = negb (line_selected cm y))
        by (unfold line_selected; rewrite negb_involutive; reflexivity).
      rewrite Htest in Hbody. clear Htest.
      assert (Hnext : work_line_number_at cm (Z.to_nat (y + 1))
                      = if line_selected cm y
                        then work_line_number_at cm (Z.to_nat y) + 1
                        else work_line_number_at cm (Z.to_nat y)).
      { replace (Z.to_nat (y + 1)) with (S (Z.to_nat y)) by lia.
        cbn [work_line_number_at]. rewrite Z2Nat.id by lia. reflexivity. }
      assert (Hadd : Int.add w1 1 = w1 + 1).
      { pose proof (work_line_number_bound cm (Z.to_nat y)).
        apply wrap32_small. unfold Int.in_range. lia. }
      unfold task_shades in *.
      destruct (line_selected cm y) eqn:Hsel; cbn [negb] in Hbody.
      + destruct (Int.and w1 nLineMask =? nLineMatch) eqn:Hmatch.
        * bind_inv Hbody as r eqn:Eline. injection Hbody as <- _ <-.
          apply shade_line_spec in Eline as (Hs & Hline & Hfr); [|lia].
          unfold P. split; [rewrite Hnext, Hadd, Hw; reflexivity|].
          split; [apply (same_shape_trans _ m1); assumption|]. split.
          -- intros y' Hy' Hsh. destruct (Z.eq_dec y' y) as [->|Hne]; [exact Hline|].
             apply (line_shaded_frame st l m1); [lia|exact Hs| |apply Hdone; [lia|exact Hsh]].
             intros idx Hin. apply Hfr. intros Hin'.
             apply Hne. eapply in_line_unique; eassumption.
          -- intros idx Hout. rewrite Hfr.
             ++ apply Hframe. intros y' Hy'. apply Hout. lia.
             ++ rewrite (in_line_shape rslt m1) by exact Hshape.
                apply Hout; [lia|]. rewrite Hsel, <- Hw, Hmatch. reflexivity.
        * injection Hbody as <- _ <-.
          unfold P. split; [rewrite Hnext, Hadd, Hw; reflexivity|].
          split; [exact Hshape|]. split.
          -- intros y' Hy' Hsh. destruct (Z.eq_dec y' y) as [->|Hne].
             ++ rewrite Hsel, <- Hw, Hmatch in Hsh. discriminate.
             ++ apply Hdone; [lia|exact Hsh].
          -- intros idx Hout. apply Hframe. intros y' Hy'. apply Hout. lia.
      + injection Hbody as <- _ <-.
        unfold P. split; [rewrite Hnext; exact Hw|].
        split; [exact Hshape|]. split.
        * intros y' Hy' Hsh. destruct (Z.eq_dec y' y) as [->|Hne].
          -- rewrite Hsel in Hsh. discriminate.
          -- apply Hdone; [lia|exact Hsh].
        * intros idx Hout. apply Hframe. intros y' Hy'. apply Hout. lia. }
  destruct Hend as (_ & Hshape & Hdone & Hframe).
  split; [exact Hshape|]. split.
  - intros y Hy. apply Hdone. lia.
  - intros idx Hout. apply Hframe. intros y Hy. apply Hout. lia.
Qed.

End KernelRows.

Section PassResult.

Context `{External}.

Lemma task_cell st nLineMask nLineMatch l cm rslt rslt' mag x y :
  m_nHeight rslt < 2 ^ 31 ->
  CalculateForLightTask st nLineMask nLineMatch l cm rslt = Ok (rslt', mag) ->
  0 <= x < m_nPaddedWidth rslt -> 0 <= y < m_nHeight rslt ->
  same_shape rslt rslt' /\
  if task_shades nLineMask nLineMatch cm y
  then exists g, shade_group st l x y = Ok g /\ CompoundElement rslt' x y = Ok (fst g)
  else CompoundElement rslt' x y = CompoundElement rslt x y.
Proof.
  intros HH Hrun Hx Hy.
  destruct (task_spec _ _ _ _ _ _ _ _ HH Hrun) as (Hshape & Hdone & Hframe).
  split; [exact Hshape|].
  pose proof Hshape as (_ & _ & Hpw & _).
  assert (Hpos : 0 <= x + m_nPaddedWidth rslt * y) by nia.
  unfold CompoundElement. rewrite Hpw, !vec_get_lookup by exact Hpos.
  destruct (task_shades nLineMask nLineMatch cm y) eqn:Hsh.
  - destruct (Hdone y Hy Hsh x ltac:(lia)) as [g [Eg Hcell]].
    exists g. split; [exact Eg|]. rewrite Hpw in Hcell. rewrite Hcell. reflexivity.
  - rewrite Hframe; [reflexivity|].
    intros y' Hy' Hsh' Hin.
    assert (Hin' : in_line rslt y (Z.to_nat (x + m_nPaddedWidth rslt * y))).
    { unfold in_line. rewrite Z2Nat.id by exact Hpos. lia. }
    rewrite (in_line_unique _ _ _ _ Hin Hin') in Hsh'. congruence.
Qed.

Lemma land_3 w : 0 <= w -> 0 <= Int.and w 3 < 4.
Proof.
  intros Hw. unfold Int.and. change 3 with (Z.ones 2).
  rewrite Z.land_ones by lia. apply Z.mod_pos_bound. lia.
Qed.

(** X21: what a pass writes.  The four tasks of a pass, run on a matrix of
    fewer than 2^31 rows, leave the matrix with its dimensions; every
    group of a row that the pass works on holds what the kernel stores for
    the light at that group (the light at the four pixels, blacked out
    where the shadow test hits), written by the one task in charge of
    the row, and every group of any other row holds what it held
    before. *)
Theorem fan_out_rows (st : CLightingPreviewThread) (l : CLightingPreviewLightDescription)
    (calc_mask : Z) (rslt rslt' : CSIMDVectorMatrix) (total_light : list float) (x y : Z) :
  fan_out st l calc_mask rslt = Ok (rslt', total_light) ->
  m_nHeight rslt < 2 ^ 31 ->
  0 <= x < m_nPaddedWidth rslt -> 0 <= y < m_nHeight rslt ->
  m_nWidth rslt' = m_nWidth rslt /\ m_nHeight rslt' = m_nHeight rslt /\
  m_nPaddedWidth rslt' = m_nPaddedWidth rslt /\
  if line_selected calc_mask y
  then exists g, shade_group st l x y = Ok g /\ CompoundElement rslt' x y = Ok (fst g)
  else CompoundElement rslt' x y = CompoundElement rslt x y.
Proof.
  unfold fan_out. intros Hrun HH Hx Hy.
  bind_inv Hrun as [m0 t0] eqn:E0. bind_inv Hrun as [m1 t1] eqn:E1.
  bind_inv Hrun as [m2 t2] eqn:E2. bind_inv Hrun as [m3 t3] eqn:E3.
  injection Hrun as <- _. cbn [fst] in *.
  destruct (task_cell _ _ _ _ _ _ _ _ x y HH E0 Hx Hy) as [(Hw0 & Hh0 & Hp0 & Hl0) C0].
  destruct (task_cell st 3 1 l calc_mask m0 m1 t1 x y ltac:(lia) E1 ltac:(lia) ltac:(lia))
    as [(Hw1 & Hh1 & Hp1 & Hl1) C1].
  destruct (task_cell st 3 2 l calc_mask m1 m2 t2 x y ltac:(lia) E2 ltac:(lia) ltac:(lia))
    as [(Hw2 & Hh2 & Hp2 & Hl2) C2].
  destruct (task_cell st 3 3 l calc_mask m2 m3 t3 x y ltac:(lia) E3 ltac:(lia) ltac:(lia))
    as [(Hw3 & Hh3 & Hp3 & Hl3) C3].
  split; [congruence|]. split; [congruence|]. split; [congruence|].
  unfold task_shades in C0, C1, C2, C3.
  destruct (line_selected calc_mask y); cbn [andb] in *.
  - pose proof (work_line_number_bound calc_mask (Z.to_nat y)) as [Hwl _].
    pose proof (land_3 _ Hwl) as Hk.
    set (k := Int.and (work_line_number_at calc_mask (Z.to_nat y)) 3) in *.
    assert (Hcase : k = 0 \/ k = 1 \/ k = 2 \/ k = 3) by lia.
    destruct Hcase as [Hk0|[Hk1|[Hk2|Hk3]]].
    + rewrite Hk0 in C0, C1, C2, C3. cbn [Z.eqb Pos.eqb] in *.
      destruct C0 as [g [Eg Hc]]. exists g. split; [exact Eg|]. congruence.
    + rewrite Hk1 in C0, C1, C2, C3. cbn [Z.eqb Pos.eqb] in *.
      destruct C1 as [g [Eg Hc]]. exists g. split; [exact Eg|]. congruence.
    + rewrite Hk2 in C0, C1, C2, C3. cbn [Z.eqb Pos.eqb] in *.
      destruct C2 as [g [Eg Hc]]. exists g. split; [exact Eg|]. congruence.
    + rewrite Hk3 in C0, C1, C2, C3. cbn [Z.eqb Pos.eqb] in *.
      destruct C3 as [g [Eg Hc]]. exists g. split; [exact Eg|]. congruence.
  - congruence.
Qed.

End PassResult.

(** ** No null pointer is followed *)

Lemma safe_bind {A B : Type} (m : result A) (k : A -> result B) :
  safe m -> (forall a, m = Ok a -> safe (k a)) -> safe (bind m k).
Proof. destruct m as [a|f]; cbn; intros Hm Hk; [apply Hk; reflexivity|exact Hm]. Qed.

Lemma safe_vec_get {A : Type} (v : list A) i : safe (vec_get v i).
Proof. unfold vec_get. destruct (i <? 0); [reflexivity|]. destruct (v !! Z.to_nat i); exact I || reflexivity. Qed.

Lemma safe_vec_set {A : Type} (v : list A) i a : safe (vec_set v i a).
Proof. unfold vec_set. destruct (_ || _); exact I || reflexivity. Qed.

Lemma safe_for_loop_r {St : Type} (body : Z -> St -> result St) n i s :
  (forall j s1, safe (body j s1)) -> safe (for_loop_r n i body s).
Proof.
  intros Hbody. revert i s. induction n as [|n IH]; intros i s; [exact I|].
  rewrite for_loop_r_S. apply safe_bind; [apply Hbody|]. intros s1 _. apply IH.
Qed.

Ltac safe_tac :=
  repeat first
    [ exact I
    | reflexivity
    | apply safe_vec_get
    | apply safe_vec_set
    | apply safe_bind; [|intros ? _]
    | apply safe_for_loop_r; intros ? ?
    | match goal with |- safe (if ?b then _ else _) => destruct b end
    | match goal with |- safe (match ?x with _ => _ end) => destruct x end ].

Lemma well_bound_is_bound infos l : well_bound infos l = true -> is_bound infos l = true.
Proof.
  unfold well_bound, is_bound. destruct (get_info infos (m_pIncrementalInfo l)); congruence.
Qed.

Lemma forallb_impl {A : Type} (f g : A -> bool) (l : list A) :
  (forall x, f x = true -> g x = true) -> forallb f l = true -> forallb g l = true.
Proof.
  intros Hfg. rewrite !forallb_forall. intros Hall x Hx. apply Hfg, Hall, Hx.
Qed.

Lemma well_bound_kept X Y l :
  (forall a r, X !! a = Some r -> exists r', Y !! a = Some r' /\ m_pLight r' = m_pLight r) ->
  well_bound X l = true -> well_bound Y l = true.
Proof.
  unfold well_bound, get_info. intros Hkeep.
  destruct (m_pIncrementalInfo l) as [a|]; [|discriminate].
  destruct (X !! a) as [r|] eqn:Hr; [|discriminate].
  destruct (Hkeep a r Hr) as [r' [-> Hpl]]. rewrite Hpl. tauto.
Qed.

Section PointerSafety.

Context `{External}.

Lemma update_distances_total eye lights X :
  forallb (is_bound X) lights = true -> exists Y, update_distances eye lights X = Ok Y.
Proof.
  revert X. induction lights as [|l rest IH]; intros X Hbound; [eexists; reflexivity|].
  cbn [forallb] in Hbound. apply andb_prop in Hbound as [Hl Hrest].
  cbn [update_distances]. rewrite update_distance_eq. unfold update_info.
  unfold is_bound, get_info in Hl.
  destruct (m_pIncrementalInfo l) as [a|]; [|discriminate].
  destruct (X !! a) as [i|] eqn:Hi; [|discriminate]. cbn [bind].
  apply IH. revert Hrest. apply forallb_impl. intros l'.
  unfold is_bound, get_info. destruct (m_pIncrementalInfo l') as [a'|]; [|discriminate].
  destruct (decide (a' = a)) as [->|Hne].
  - rewrite list_lookup_insert_eq by (eapply lookup_lt_Some; exact Hi). reflexivity.
  - rewrite list_lookup_insert_ne by congruence. tauto.
Qed.

Lemma DiscardResults_linked now st :
  linked st ->
  exists st', DiscardResults now st = Ok st' /\ linked st'.
Proof.
  intros Hlinked.
  assert (Hret : exists st', DiscardResults now st = Ok st').
  { unfold DiscardResults. unfold linked, lights_of in Hlinked.
    destruct (m_pLightList st) as [lights|]; cbn [default] in Hlinked.
    - destruct (update_distances_total (m_LastEyePosition st) lights
                  (map (Info_DiscardResults uninit_cell) (m_pIncrementalLightInfoList st)))
        as [Y ->]; [|eexists; reflexivity].
      revert Hlinked. apply forallb_impl. intros l Hl.
      apply well_bound_is_bound in Hl. revert Hl. unfold is_bound, get_info.
      destruct (m_pIncrementalInfo l) as [a|]; [|discriminate].
      change (map ?f ?x) with (f <$> x). rewrite list_lookup_fmap.
      destruct (m_pIncrementalLightInfoList st !! a); [reflexivity|discriminate].
    - eexists. reflexivity. }
  destruct Hret as [st' Hrun]. exists st'. split; [exact Hrun|].
  pose proof (DiscardResults_store _ _ _ Hrun) as (Hl & _ & _ & Herase & _).
  unfold linked, lights_of in *. rewrite Hl.
  revert Hlinked. apply forallb_impl. intros l. apply well_bound_kept.
  intros a r Hr. specialize (Herase a). rewrite Hr in Herase.
  destruct (m_pIncrementalLightInfoList st' !! a) as [r'|]; [|discriminate].
  exists r'. split; [reflexivity|].
  change (Some (erase_distance r') = Some (erase_distance (Info_DiscardResults uninit_cell r)))
    in Herase.
  assert (Heq : erase_distance r' = erase_distance (Info_DiscardResults uninit_cell r))
    by congruence.
  clear Herase. unfold Info_DiscardResults in Heq. rewrite SetSize_zero in Heq.
  destruct r as [pl id stage state mat tc dist stamp],
           r' as [pl' id' stage' state' mat' tc' dist' stamp'].
  destruct state; cbn in Heq; injection Heq; intros; subst; reflexivity.
Qed.

Lemma UpdateIncremental_linked st lights :
  m_pLightList st = Some lights -> forallb unbound lights = true ->
  exists st', UpdateIncrementalForNewLightList st = Ok st' /\ linked st'.
Proof.
  intros Hl Hnull.
  destruct (binding_inv_final st lights Hl)
    as (lights' & infos' & Hrun & Hlen & _ & Hdone & _).
  cbn [fst snd] in *. eexists. split; [exact Hrun|].
  unfold linked, lights_of. cbn. apply forallb_forall. intros d' Hd'.
  apply list_elem_of_In, list_elem_of_lookup in Hd' as [k Hk].
  pose proof (lookup_lt_Some _ _ _ Hk) as Hlt. rewrite Hlen in Hlt.
  destruct (lookup_lt_is_Some_2 lights k Hlt) as [d Hd].
  destruct (Hdone k d ltac:(lia) Hd) as (d'' & Hd'' & _ & Hb).
  assert (d'' = d') by congruence. subst d''.
  rewrite forallb_forall in Hnull.
  assert (Hp : m_pIncrementalInfo d = None).
  { specialize (Hnull d (proj1 (list_elem_of_In _ _) (list_elem_of_lookup_2 _ _ _ Hd))).
    unfold unbound in Hnull. destruct (m_pIncrementalInfo d); [discriminate|reflexivity]. }
  destruct (Hb Hp) as (a & r & dl & -> & Hr & _ & Hpl & _).
  unfold well_bound, get_info. cbn. rewrite Hr, Hpl. reflexivity.
Qed.

Lemma build_environment_safe tris : safe (build_environment tris).
Proof.
  unfold build_environment. destruct tris as [|v tris]; [exact I|].
  apply safe_bind; [|intros env _; exact I].
  apply safe_for_loop_r. intros j env. unfold add_triangle_at. safe_tac.
Qed.

Lemma CalculateSceneBounds_safe st : safe (CalculateSceneBounds st).
Proof.
  unfold CalculateSceneBounds. apply safe_bind.
  - apply safe_for_loop_r. intros y b. apply safe_for_loop_r. intros x [lo hi].
    unfold bounds_body. safe_tac.
  - intros [lo hi] _. exact I.
Qed.

Lemma CalculateSceneBounds_links st st' :
  CalculateSceneBounds st = Ok st' ->
  m_pLightList st' = m_pLightList st /\
  m_pIncrementalLightInfoList st' = m_pIncrementalLightInfoList st.
Proof.
  unfold CalculateSceneBounds. intros Hrun. bind_inv Hrun as [minbound maxbound] eqn:E.
  injection Hrun as <-. split; reflexivity.
Qed.

Lemma linked_same st st' :
  m_pLightList st' = m_pLightList st ->
  m_pIncrementalLightInfoList st' = m_pIncrementalLightInfoList st ->
  linked st -> linked st'.
Proof. unfold linked, lights_of. intros -> ->. tauto. Qed.

Lemma HandleAMessage_linked m now now' st :
  linked st -> fresh_lights (Message m now now') = true ->
  safe (HandleAMessage m now now' st) /\
  forall st' quit, HandleAMessage m now now' st = Ok (st', quit) -> linked st'.
Proof.
  intros Hlinked Hfresh. unfold HandleAMessage.
  destruct m as [|lights eye|tris|bms eye g].
  - split; [exact I|]. intros st' quit [= <- _]. exact Hlinked.
  - cbn [fresh_lights] in Hfresh.
    destruct (UpdateIncremental_linked
                (set_m_LastEyePosition eye (set_m_pLightList (Some lights) st)) lights
                eq_refl Hfresh) as (st1 & -> & Hl1).
    cbn [bind]. destruct (DiscardResults_linked now st1 Hl1) as (st2 & -> & Hl2).
    cbn [bind]. split; [exact I|]. intros st' quit [= <- _]. exact Hl2.
  - unfold HandleGeomMessage.
    pose proof (build_environment_safe tris) as Henv.
    destruct (build_environment tris) as [env|f]; cbn [bind].
    2:{ split; [exact Henv|]. intros st' quit [=]. }
    destruct (DiscardResults_linked now
                (set_m_bAccStructureBuilt false (set_m_pRtEnv env st)))
      as (st1 & -> & Hl1); [exact Hlinked|].
    cbn [bind]. destruct (DiscardResults_linked now' st1 Hl1) as (st2 & -> & Hl2).
    cbn [bind]. split; [exact I|]. intros st' quit [= <- _]. exact Hl2.
  - unfold HandleGBuffersMessage. destruct bms as [[bm0 bm1] bm2].
    match goal with |- context [CalculateSceneBounds ?s] =>
      pose proof (CalculateSceneBounds_safe s) as Hb;
      pose proof (CalculateSceneBounds_links s) as Hlinks;
      destruct (CalculateSceneBounds s) as [st1|f]
    end; cbn [bind].
    2:{ split; [exact Hb|]. intros st' quit [=]. }
    destruct (Hlinks st1 eq_refl) as [Hll Hli].
    destruct (DiscardResults_linked now st1) as (st2 & -> & Hl2).
    { apply (linked_same st); [rewrite Hll; reflexivity|rewrite Hli; reflexivity|exact Hlinked]. }
    cbn [bind]. split; [exact I|]. intros st' quit [= <- _]. exact Hl2.
Qed.

Lemma AnyUsefulWorkToDo_total st : linked st -> exists b, AnyUsefulWorkToDo st = Ok b.
Proof.
  intros Hlinked. unfold AnyUsefulWorkToDo. unfold linked, lights_of in Hlinked.
  destruct (m_pLightList st) as [lights|]; cbn [default] in *; [|eexists; reflexivity].
  rewrite any_light_with_work_spec; [eexists; reflexivity|].
  revert Hlinked. apply forallb_impl. intros l. apply well_bound_is_bound.
Qed.

Lemma well_bound_info infos l :
  well_bound infos l = true ->
  exists r d, get_info infos (m_pIncrementalInfo l) = Ok r /\ m_pLight r = Some d.
Proof.
  unfold well_bound. destruct (get_info infos (m_pIncrementalInfo l)) as [r|]; [|discriminate].
  destruct (m_pLight r) as [d|] eqn:Hd; [|discriminate].
  intros _. exists r, d. split; [reflexivity|exact Hd].
Qed.

Lemma IsLowerPriorityThan_total pLPV A B dA dB :
  m_pLight A = Some dA -> m_pLight B = Some dB ->
  exists b, IsLowerPriorityThan pLPV A B = Ok b.
Proof.
  intros HA HB. rewrite IsLowerPriorityThan_by_state. unfold IsHighPriority.
  rewrite HA, HB.
  destruct (state_eqb (m_eIncrState A) INCR_STATE_NEW),
           (state_eqb (m_eIncrState B) INCR_STATE_NEW); cbn [bind];
    repeat match goal with
           | |- context [if ?c then _ else _] => destruct c
           end; eexists; reflexivity.
Qed.

Lemma select_light_total st lights best0 :
  forallb (well_bound (m_pIncrementalLightInfoList st)) lights = true ->
  match best0 with
  | Some b => well_bound (m_pIncrementalLightInfoList st) b = true
  | None => True
  end ->
  exists best, select_light st lights best0 = Ok best /\
    match best with
    | Some b => well_bound (m_pIncrementalLightInfoList st) b = true
    | None => True
    end.
Proof.
  revert best0. induction lights as [|l rest IH]; intros best0 Hall Hbest.
  - exists best0. split; [reflexivity|exact Hbest].
  - cbn [forallb] in Hall. apply andb_prop in Hall as [Hl Hrest].
    cbn [select_light]. unfold pick_best.
    destruct (well_bound_info _ _ Hl) as (r & d & -> & Hd). cbn [bind].
    destruct (HasWorkToDo r).
    + destruct best0 as [b|].
      * destruct (well_bound_info _ _ Hbest) as (rb & db & -> & Hdb). cbn [bind].
        destruct (IsLowerPriorityThan_total st rb r db d Hdb Hd) as [lower ->]. cbn [bind].
        apply IH; [exact Hrest|]. destruct lower; assumption.
      * cbn [bind]. apply IH; [exact Hrest|exact Hl].
    + cbn [bind]. apply IH; [exact Hrest|exact Hbest].
Qed.

Lemma shade_group_safe st l x y : safe (shade_group st l x y).
Proof.
  unfold shade_group, CompoundElement. apply safe_bind; [apply safe_vec_get|]. intros pos _.
  apply safe_bind; [apply safe_vec_get|]. intros normal _.
  cbv zeta. destruct (negb _); [|exact I].
  destruct (shadow_rays l pos) as [myray len].
  apply safe_bind; [destruct (m_pRtEnv st); exact I || reflexivity|]. intros env _.
  apply safe_bind; [apply safe_vec_get|]. intros albedo _. exact I.
Qed.

Lemma fan_out_safe st l cm rslt : safe (fan_out st l cm rslt).
Proof.
  assert (Htask : forall a b m, safe (CalculateForLightTask st a b l cm m)).
  { intros a b m. unfold CalculateForLightTask. apply safe_bind.
    - apply safe_for_loop_r. intros y [[m1 t1] w1]. unfold task_line. cbv beta iota zeta.
      destruct (_ =? 0); [exact I|]. destruct (_ =? b); [|exact I].
      apply safe_bind; [|intros r _; exact I].
      unfold shade_line. apply safe_for_loop_r. intros x [m2 t2].
      apply safe_bind; [apply shade_group_safe|]. intros g _.
      apply safe_bind; [|intros m3 _; exact I].
      unfold set_CompoundElement. apply safe_bind; [apply safe_vec_set|]. intros d _. exact I.
    - intros [[m1 t1] w1] _. exact I. }
  unfold fan_out. repeat (apply safe_bind; [apply Htask|intros ? _]). exact I.
Qed.

Lemma account_pLight st lvl rslt total i : m_pLight (account st lvl rslt total i) = m_pLight i.
Proof.
  unfold account. cbn [m_fTotalContribution set_total set_matrix].
  destruct (F32.eqb _ _); destruct (lvl =? _); reflexivity.
Qed.

Lemma CalculateForLight_linked st l :
  linked st -> well_bound (m_pIncrementalLightInfoList st) l = true ->
  safe (CalculateForLight st l) /\
  forall st', CalculateForLight st l = Ok st' ->
    linked st' /\ m_pLightList st' = m_pLightList st /\
    well_bound (m_pIncrementalLightInfoList st') l = true.
Proof.
  intros Hlinked Hl. unfold CalculateForLight. rewrite build_acceleration_infos.
  destruct (well_bound_info _ _ Hl) as (r & d & Hr & Hd). rewrite Hr. cbn [bind].
  assert (Hlist : m_pLightList (build_acceleration st) = m_pLightList st).
  { unfold build_acceleration.
    destruct (m_pRtEnv st); [destruct (negb (m_bAccStructureBuilt st))|]; reflexivity. }
  pose proof (safe_vec_get (LineSchedule.m_LineMask (m_Tables (build_acceleration st)))) as Hget.
  destruct (next_level (build_acceleration st) r) as [[lvl prev]|f] eqn:Elvl.
  2:{ split; [|intros st' [=]]. unfold next_level in Elvl.
      destruct (state_eqb _ _); [|discriminate].
      specialize (Hget (m_PartialResultsStage r)).
      destruct (vec_get _ (m_PartialResultsStage r)); [discriminate|].
      cbn in Elvl. injection Elvl as <-. exact Hget. }
  cbn [bind]. specialize (Hget lvl).
  destruct (vec_get _ lvl) as [new_msk|f]; cbn [bind]; [|split; [exact Hget|intros st' [=]]].
  pose proof (fan_out_safe (build_acceleration st) l (Int.and new_msk (Int.not prev))
                (SetSize uninit_cell (m_nWidth (m_Albedos (build_acceleration st)))
                   (m_nHeight (m_Albedos (build_acceleration st)))
                   (m_CalculatedContribution r))) as Hfan.
  destruct (fan_out _ _ _ _) as [res|f]; cbn [bind]; [|split; [exact Hfan|intros st' [=]]].
  unfold update_info. unfold get_info in Hr.
  destruct (m_pIncrementalInfo l) as [a|] eqn:Hp; [|discriminate].
  destruct (m_pIncrementalLightInfoList st !! a) as [r0|] eqn:Ha; [|discriminate].
  injection Hr as ->. cbn [bind]. split; [exact I|]. intros st' [= <-].
  assert (Hkeep : forall l', well_bound (m_pIncrementalLightInfoList st) l' = true ->
            well_bound (<[a := account (build_acceleration st) lvl (fst res) (snd res) r]>
                          (m_pIncrementalLightInfoList st)) l' = true).
  { intros l'. apply well_bound_kept. intros a' r' Hr'.
    destruct (decide (a' = a)) as [->|Hne].
    - rewrite list_lookup_insert_eq by (eapply lookup_lt_Some; exact Ha).
      eexists. split; [reflexivity|]. rewrite account_pLight. congruence.
    - rewrite list_lookup_insert_ne by congruence. exists r'. split; [exact Hr'|reflexivity]. }
  cbn. split; [|split; [exact Hlist|apply Hkeep; exact Hl]].
  unfold linked, lights_of in *. cbn. rewrite Hlist.
  revert Hlinked. apply forallb_impl. exact Hkeep.
Qed.

Lemma select_light_member st lights best0 b :
  select_light st lights best0 = Ok (Some b) -> best0 = Some b \/ In b lights.
Proof.
  intros Hrun. apply select_light_inv in Hrun as [[Heq _]|[l [Heq [Hin _]]]].
  - left. symmetry. exact Heq.
  - right. injection Heq as ->. exact Hin.
Qed.

Lemma DoWork_linked st :
  linked st ->
  safe (DoWork st) /\ forall st', DoWork st = Ok st' -> linked st'.
Proof.
  intros Hlinked. unfold DoWork. pose proof Hlinked as Hall.
  unfold linked, lights_of in Hall.
  destruct (m_pLightList st) as [lights|] eqn:Hl; cbn [default] in Hall.
  2:{ split; [exact I|]. intros st' [= <-]. exact Hlinked. }
  destruct (select_light_total st lights None Hall I) as (best & -> & Hbest). cbn [bind].
  destruct best as [b|].
  2:{ split; [exact I|]. intros st' [= <-]. exact Hlinked. }
  destruct (CalculateForLight_linked st b Hlinked Hbest) as [Hsafe Hnext].
  destruct (CalculateForLight st b) as [st1|f]; cbn [bind]; [|split; [exact Hsafe|intros st' [=]]].
  destruct (Hnext st1 eq_refl) as (Hl1 & _ & Hb1).
  destruct (well_bound_info _ _ Hb1) as (r & d & -> & _). cbn [bind].
  destruct (F32.neb _ _); (split; [exact I|]); intros st' [= <-]; exact Hl1.
Qed.

Lemma ambient_sum_total infos lights sum_colors :
  forallb (well_bound infos) lights = true ->
  exists v, ambient_sum infos lights sum_colors = Ok v.
Proof.
  revert sum_colors. induction lights as [|l rest IH]; intros sum_colors Hall;
    [eexists; reflexivity|].
  cbn [forallb] in Hall. apply andb_prop in Hall as [Hl Hrest].
  cbn [ambient_sum]. unfold ambient_body.
  destruct (well_bound_info _ _ Hl) as (r & d & Hr & _).
  destruct (m_pIncrementalInfo l) as [a|] eqn:Hp; [|discriminate].
  rewrite Hr. cbn [bind]. destruct (_ || _); cbn [bind]; apply IH; exact Hrest.
Qed.

Lemma composite_lights_safe st lights image :
  forallb (well_bound (m_pIncrementalLightInfoList st)) lights = true ->
  safe (composite_lights st lights image).
Proof.
  revert image. induction lights as [|l rest IH]; intros image Hall; [exact I|].
  cbn [forallb] in Hall. apply andb_prop in Hall as [Hl Hrest].
  cbn [composite_lights]. apply safe_bind; [|intros image1 _; apply IH; exact Hrest].
  unfold composite_light. destruct (well_bound_info _ _ Hl) as (r & d & -> & _). cbn [bind].
  destruct (_ && _); [|exact I].
  apply safe_for_loop_r. intros y m. unfold composite_line.
  apply safe_bind; [apply safe_vec_get|]. intros off _.
  apply safe_for_loop_r. intros x m1. unfold composite_group. safe_tac.
Qed.

Lemma SendResult_linked now st :
  linked st ->
  safe (SendResult now st) /\
  forall st' d, SendResult now st = Ok (st', d) -> linked st'.
Proof.
  intros Hlinked. split.
  - unfold SendResult. pose proof Hlinked as Hall. unfold linked, lights_of in Hall.
    unfold EstimatedUnshotAmbient.
    destruct (m_pLightList st) as [lights|]; cbn [default] in Hall.
    + destruct (ambient_sum_total (m_pIncrementalLightInfoList st) lights
                  (mk_Vector F32.c_0_0001 F32.c_0_0001 F32.c_0_0001) Hall) as [v ->].
      cbn [bind]. apply safe_bind; [apply composite_lights_safe; exact Hall|].
      intros image _. apply safe_bind; [|intros msg _; exact I].
      unfold SendVectorMatrixAsRendering. apply safe_bind; [|intros px _; exact I].
      apply safe_for_loop_r. intros y px. unfold bitmap_row.
      apply safe_for_loop_r. intros x px1. unfold Element, CompoundElement. safe_tac.
    + cbn [bind]. reflexivity.
  - intros st' d Hrun. unfold SendResult in Hrun.
    bind_inv Hrun as ambient eqn:E. bind_inv Hrun as lights eqn:E0.
    bind_inv Hrun as image eqn:E1. bind_inv Hrun as ret_msg eqn:E2.
    injection Hrun as <- _. exact Hlinked.
Qed.

Lemma work_step_linked quit st :
  linked st ->
  safe (work_step quit st) /\ forall st' tr, work_step quit st = Ok (st', tr) -> linked st'.
Proof.
  intros Hlinked. unfold work_step.
  destruct quit; [split; [exact I|intros st' tr [= <- _]; exact Hlinked]|].
  destruct (AnyUsefulWorkToDo_total st Hlinked) as [useful ->]. cbn [bind].
  destruct useful; [|split; [exact I|intros st' tr [= <- _]; exact Hlinked]].
  destruct (DoWork_linked st Hlinked) as [Hsafe Hnext].
  destruct (DoWork st) as [st1|f]; cbn [bind].
  - split; [exact I|]. intros st' tr [= <- _]. apply Hnext. reflexivity.
  - split; [exact Hsafe|intros st' tr [=]].
Qed.

Lemma send_step_linked clock st :
  linked st ->
  safe (send_step clock st) /\ forall st' tr, send_step clock st = Ok (st', tr) -> linked st'.
Proof.
  intros Hlinked. unfold send_step, send_due.
  destruct (m_bResultChangedSinceLastSend st);
    [|split; [exact I|intros st' tr [= <- _]; exact Hlinked]].
  destruct (AnyUsefulWorkToDo_total st Hlinked) as [useful Hu].
  assert (Hdue : exists due,
            (if F32.gtb (F32.sub (F32.of_double (fst clock)) (m_fLastSendTime st)) F32.c_10
             then Ok true else useful <-- AnyUsefulWorkToDo st ;; Ok (negb useful)) = Ok due).
  { destruct (F32.gtb _ _); [eexists; reflexivity|]. rewrite Hu. eexists. reflexivity. }
  destruct Hdue as [due ->]. cbn [bind].
  destruct due; [|split; [exact I|intros st' tr [= <- _]; exact Hlinked]].
  destruct (SendResult_linked (snd clock) st Hlinked) as [Hsafe Hnext].
  destruct (SendResult (snd clock) st) as [[st1 d]|f]; cbn [bind].
  - split; [exact I|]. intros st' tr [= <- _]. apply (linked_same st1); try reflexivity.
    apply (Hnext st1 d). reflexivity.
  - split; [exact Hsafe|intros st' tr [=]].
Qed.

Lemma message_loop_linked q st st' tr e :
  linked st -> forallb fresh_lights q = true ->
  message_loop q st = (st', tr, e) ->
  linked st' /\
  match e with
  | LoopDone _ q' => forallb fresh_lights q' = true
  | LoopBlocked => True
  | LoopFault f => pointer_fault f = false
  end.
Proof.
  revert st st' tr e. induction q as [|ev q IH]; intros st st' tr e Hlinked Hq Hrun.
  - cbn [message_loop] in Hrun.
    destruct (AnyUsefulWorkToDo_total st Hlinked) as [useful Hu]. rewrite Hu in Hrun.
    destruct useful; injection Hrun as <- _ <-; split; try exact Hlinked; reflexivity || exact I.
  - cbn [message_loop] in Hrun. cbn [forallb] in Hq. apply andb_prop in Hq as [Hev Hq].
    destruct (AnyUsefulWorkToDo_total st Hlinked) as [useful Hu]. rewrite Hu in Hrun.
    destruct ev as [|m now now'].
    + destruct useful; [injection Hrun as <- _ <-; split; [exact Hlinked|exact Hq]|].
      apply (IH _ _ _ _ Hlinked Hq Hrun).
    + destruct (HandleAMessage_linked m now now' st Hlinked Hev) as [Hsafe Hnext].
      destruct (HandleAMessage m now now' st) as [[st1 quit]|f].
      2:{ injection Hrun as <- _ <-. split; [exact Hlinked|exact Hsafe]. }
      specialize (Hnext st1 quit eq_refl). destruct quit.
      * injection Hrun as <- _ <-. split; [exact Hnext|exact Hq].
      * destruct (message_loop q st1) as [[st2 tr2] e2] eqn:Hloop.
        injection Hrun as <- _ <-. apply (IH _ _ _ _ Hnext Hq Hloop).
Qed.

(** X22: no null pointer to a record or to a light is followed.  Take an
    engine in which every light of the list points to a record of the
    store whose m_pLight is set (the constructed engine is one), and a
    queue in which every light list arrives with null m_pIncrementalInfo
    pointers.  Then no run of the thread stops because a light's
    m_pIncrementalInfo or a record's m_pLight was followed while null or
    dangling, whatever the messages, the clock readings and the external
    functions; and the engine it leaves is again such an engine. *)
Theorem Run_follows_no_null_record (clocks : list (double * double)) (q : list QueueEvent)
    (st : CLightingPreviewThread) :
  linked st -> forallb fresh_lights q = true ->
  linked (fst (fst (Run clocks q st))) /\
  match snd (Run clocks q st) with
  | Faulted f => pointer_fault f = false
  | _ => True
  end.
Proof.
  revert q st. induction clocks as [|clock clocks IH]; intros q st Hlinked Hq.
  - split; [exact Hlinked|exact I].
  - cbn [Run].
    destruct (message_loop q st) as [[st1 tr1] e] eqn:Hloop.
    destruct (message_loop_linked _ _ _ _ _ Hlinked Hq Hloop) as [Hl1 He].
    destruct e as [quit q'| |f]; try (split; [exact Hl1|exact He || exact I]).
    destruct (work_step_linked quit st1 Hl1) as [Hsafe2 Hnext2].
    destruct (work_step quit st1) as [[st2 tr2]|f]; [|split; [exact Hl1|exact Hsafe2]].
    specialize (Hnext2 st2 tr2 eq_refl).
    destruct (send_step_linked clock st2 Hnext2) as [Hsafe3 Hnext3].
    destruct (send_step clock st2) as [[st3 tr3]|f]; [|split; [exact Hnext2|exact Hsafe3]].
    specialize (Hnext3 st3 tr3 eq_refl).
    destruct quit; [split; [exact Hnext3|exact I]|].
    specialize (IH q' st3 Hnext3 He).
    destruct (Run clocks q' st3) as [[st4 tr4] status]. exact IH.
Qed.

End PointerSafety.

(** ** High priority lights come first *)

Section HighPriority.

Context `{External}.

Lemma high_priority_has_work st l :
  high_priority st l = true -> has_work (m_pIncrementalLightInfoList st) l = true.
Proof.
  unfold high_priority, has_work, IsHighPriority, HasWorkToDo.
  destruct (get_info _ _) as [r|]; [|discriminate].
  destruct (m_eIncrState r); cbn; try discriminate. reflexivity.
Qed.

Lemma pick_best_high st l b0 b1 :
  pick_best st l b0 = Ok b1 ->
  chosen_high st b0 \/ high_priority st l = true -> chosen_high st b1.
Proof.
  intros Hrun Hhigh.
  assert (Hwork : high_priority st l = true -> exists r,
            get_info (m_pIncrementalLightInfoList st) (m_pIncrementalInfo l) = Ok r /\
            HasWorkToDo r = true /\ IsHighPriority st r = Ok true).
  { intros Hl. pose proof (high_priority_has_work _ _ Hl) as Hw.
    unfold high_priority in Hl. unfold has_work in Hw.
    destruct (get_info _ _) as [r|]; [|discriminate].
    exists r. split; [reflexivity|]. split; [exact Hw|].
    destruct (IsHighPriority st r) as [b|]; [|discriminate]. congruence. }
  unfold pick_best in Hrun. bind_inv Hrun as r eqn:Er.
  destruct (HasWorkToDo r) eqn:Hw.
  - destruct b0 as [b|].
    + bind_inv Hrun as rb eqn:Erb. bind_inv Hrun as lower eqn:Elow.
      injection Hrun as <-.
      rewrite IsLowerPriorityThan_by_state in Elow.
      bind_inv Elow as hb eqn:Ehb. bind_inv Elow as hl eqn:Ehl.
      assert (Hb : high_priority st b = hb) by (unfold high_priority; rewrite Erb, Ehb; reflexivity).
      assert (Hl : high_priority st l = hl) by (unfold high_priority; rewrite Er, Ehl; reflexivity).
      assert (Hone : hb = true \/ hl = true).
      { destruct Hhigh as [(b' & [= <-] & Hb')|Hl']; [left|right]; congruence. }
      destruct hb, hl; cbn [andb negb] in Elow; injection Elow as <-.
      * destruct (by_state rb r); eexists; (split; [reflexivity|assumption]).
      * exists b. split; [reflexivity|exact Hb].
      * exists l. split; [reflexivity|exact Hl].
      * destruct Hone; discriminate.
    + injection Hrun as <-. destruct Hhigh as [(b' & [=] & _)|Hl].
      exists l. split; [reflexivity|exact Hl].
  - injection Hrun as <-. destruct Hhigh as [Hb|Hl]; [exact Hb|].
    destruct (Hwork Hl) as (r' & Er' & Hw' & _). congruence.
Qed.

Lemma select_light_high st lights b0 best :
  select_light st lights b0 = Ok best ->
  chosen_high st b0 \/ (exists l, In l lights /\ high_priority st l = true) ->
  chosen_high st best.
Proof.
  revert b0. induction lights as [|l rest IH]; intros b0 Hrun Hhigh.
  - injection Hrun as <-. destruct Hhigh as [Hb|[l [[] _]]]. exact Hb.
  - cbn [select_light] in Hrun. bind_inv Hrun as b1 eqn:Epick.
    apply (IH b1 Hrun).
    destruct Hhigh as [Hb|[l' [[<-|Hin] Hl']]].
    + left. apply (pick_best_high _ _ _ _ Epick). left. exact Hb.
    + left. apply (pick_best_high _ _ _ _ Epick). right. exact Hl'.
    + right. exists l'. split; assumption.
Qed.

(** X23: high priority lights come first.  If some light of the list is
    high priority, that is its record is New and its position lies within
    the scene bounds, then the light that DoWork's selection loop settles
    on is high priority too: a light that is not New, or that lies outside
    the bounds, is never worked on while a New light within the bounds
    waits. *)
Theorem select_light_prefers_high (st : CLightingPreviewThread)
    (lights : list CLightingPreviewLightDescription)
    (best : option CLightingPreviewLightDescription) (l : CLightingPreviewLightDescription) :
  select_light st lights None = Ok best ->
  In l lights -> high_priority st l = true ->
  exists b, best = Some b /\ In b lights /\ high_priority st b = true.
Proof.
  intros Hrun Hin Hl.
  destruct (select_light_high st lights None best Hrun) as (b & -> & Hb).
  { right. exists l. split; assumption. }
  exists b. split; [reflexivity|]. split; [|exact Hb].
  apply select_light_member in Hrun as [[=]|Hmem]. exact Hmem.
Qed.

(** X24: a pass touches one record.  A refinement pass for a light that
    returns leaves the light list and the contribution counter as they
    were and changes no record of the store but the one the light points
    to; when there is a ray tracing environment its acceleration
    structure is built by the pass unless it was built before, and
    counts as built afterwards. *)
Theorem CalculateForLight_frame (st st' : CLightingPreviewThread)
    (l : CLightingPreviewLightDescription) :
  CalculateForLight st l = Ok st' ->
  m_pLightList st' = m_pLightList st /\
  m_nContributionCounter st' = m_nContributionCounter st /\
  length (m_pIncrementalLightInfoList st') = length (m_pIncrementalLightInfoList st) /\
  (forall a, m_pIncrementalInfo l <> Some a ->
     m_pIncrementalLightInfoList st' !! a = m_pIncrementalLightInfoList st !! a) /\
  match m_pRtEnv st with
  | Some env =>
      m_bAccStructureBuilt st' = true /\
      m_pRtEnv st' = Some (if m_bAccStructureBuilt st then env
                           else SetupAccelerationStructure env)
  | None => m_pRtEnv st' = None /\ m_bAccStructureBuilt st' = m_bAccStructureBuilt st
  end.
Proof.
  unfold CalculateForLight. rewrite build_acceleration_infos. intros Hrun.
  bind_inv Hrun as l_info eqn:E. bind_inv Hrun as [new_incr_level prev_msk] eqn:E0.
  bind_inv Hrun as new_msk eqn:E1. bind_inv Hrun as r eqn:E2.
  bind_inv Hrun as infos eqn:E3. injection Hrun as <-.
  unfold update_info in E3.
  destruct (m_pIncrementalInfo l) as [a0|]; [|discriminate].
  destruct (m_pIncrementalLightInfoList st !! a0) as [i0|]; [|discriminate].
  injection E3 as <-. cbn.
  unfold build_acceleration.
  destruct (m_pRtEnv st) as [env|] eqn:Henv; [destruct (m_bAccStructureBuilt st) eqn:Hbuilt|];
    cbn; rewrite ?Hbuilt, ?Henv; (split; [reflexivity|]); (split; [reflexivity|]);
    (split; [apply length_insert|]);
    (split; [intros a Ha; apply list_lookup_insert_ne; congruence|]);
    split; reflexivity.
Qed.

End HighPriority.

Section SendOnce.

Context `{External}.

(** X25: a result is sent once.  A turn of the loop that sends a display
    result clears the result-changed flag and sets the last-send-time to
    the clock reading taken in Run; as long as nothing sets the flag
    again, no later turn sends, whatever the clock shows. *)
Theorem send_step_once (clock clock' : double * double) (st st' : CLightingPreviewThread)
    (d : MessageFromLPreview) :
  send_step clock st = Ok (st', [Sent d]) ->
  m_bResultChangedSinceLastSend st' = false /\
  m_fLastSendTime st' = F32.of_double (fst clock) /\
  send_step clock' st' = Ok (st', []).
Proof.
  unfold send_step at 1. intros Hrun.
  destruct (m_bResultChangedSinceLastSend st); [|discriminate].
  bind_inv Hrun as due eqn:E. destruct due; [|discriminate].
  bind_inv Hrun as r eqn:E0. injection Hrun as <- _.
  split; [reflexivity|]. split; [reflexivity|]. reflexivity.
Qed.

End SendOnce.

(** ** No work before geometry and lights *)

Lemma works_when_fed_app g l tr1 tr2 :
  works_when_fed g l (tr1 ++ tr2) <->
  works_when_fed g l tr1 /\ works_when_fed (geometry_after g tr1) (lights_after l tr1) tr2.
Proof.
  revert g l. induction tr1 as [|e tr1 IH]; intros g l.
  - cbn. tauto.
  - destruct e as [m| |d]; cbn [app works_when_fed].
    + rewrite IH. reflexivity.
    + rewrite IH. cbn. tauto.
    + rewrite IH. reflexivity.
Qed.

Lemma geometry_after_app g tr1 tr2 :
  geometry_after g (tr1 ++ tr2) = geometry_after (geometry_after g tr1) tr2.
Proof. unfold geometry_after. apply fold_left_app. Qed.

Lemma lights_after_app l tr1 tr2 :
  lights_after l (tr1 ++ tr2) = lights_after (lights_after l tr1) tr2.
Proof. unfold lights_after. apply fold_left_app. Qed.

Section WorkWhenFed.

Context `{External}.

Lemma fed_same g l st st' :
  m_pRtEnv st' = m_pRtEnv st -> m_pLightList st' = m_pLightList st ->
  fed g l st -> fed g l st'.
Proof. unfold fed, lights_of. intros -> ->. tauto. Qed.

Lemma DiscardResults_fed g l now st st' :
  DiscardResults now st = Ok st' -> fed g l st -> fed g l st'.
Proof.
  intros Hrun. apply DiscardResults_store in Hrun as (Hl & He & _).
  apply fed_same; assumption.
Qed.

Lemma build_environment_some tris env :
  build_environment tris = Ok (Some env) -> tris <> [].
Proof. destruct tris; [discriminate|]. intros _. discriminate. Qed.

Lemma HandleAMessage_fed g l m now now' st st' quit :
  HandleAMessage m now now' st = Ok (st', quit) -> fed g l st ->
  fed (geometry_after g [Handled m]) (lights_after l [Handled m]) st'.
Proof.
  unfold HandleAMessage. intros Hrun Hfed.
  destruct m as [|lights eye|tris|bms eye gen]; cbn [geometry_after lights_after fold_left].
  - injection Hrun as <- _. exact Hfed.
  - bind_inv Hrun as st1 eqn:E. bind_inv Hrun as st2 eqn:E0. injection Hrun as <- _.
    apply (DiscardResults_fed _ _ _ _ _ E0).
    destruct (binding_inv_final (set_m_LastEyePosition eye (set_m_pLightList (Some lights) st))
                lights eq_refl) as (lights' & infos' & Hrun' & Hlen & _).
    rewrite Hrun' in E. injection E as <-. cbn [fst] in Hlen.
    destruct Hfed as [Hg _]. split; [exact Hg|].
    unfold lights_of. cbn. intros Hne.
    destruct lights as [|d ds]; [|reflexivity].
    destruct lights'; [congruence|discriminate].
  - bind_inv Hrun as st1 eqn:E. bind_inv Hrun as st2 eqn:E0. injection Hrun as <- _.
    apply (DiscardResults_fed _ _ _ _ _ E0).
    unfold HandleGeomMessage in E. bind_inv E as env eqn:Eenv.
    apply (DiscardResults_fed _ _ _ _ _ E).
    destruct Hfed as [_ Hl]. split; [|exact Hl].
    cbn. intros Hne. destruct env as [env|]; [|congruence].
    apply build_environment_some in Eenv. destruct tris; [congruence|reflexivity].
  - bind_inv Hrun as st1 eqn:E. bind_inv Hrun as st2 eqn:E0. injection Hrun as <- _.
    apply (DiscardResults_fed _ _ _ _ _ E0).
    unfold HandleGBuffersMessage in E. destruct bms as [[bm0 bm1] bm2].
    unfold CalculateSceneBounds in E. bind_inv E as [minbound maxbound] eqn:Eb.
    injection E as <-. exact Hfed.
Qed.

Lemma message_loop_fed g l q st st' tr e :
  message_loop q st = (st', tr, e) -> fed g l st ->
  works_when_fed g l tr /\ fed (geometry_after g tr) (lights_after l tr) st'.
Proof.
  revert g l st st' tr e. induction q as [|ev q IH]; intros g l st st' tr e Hrun Hfed.
  - cbn [message_loop] in Hrun.
    destruct (AnyUsefulWorkToDo st) as [[]|]; injection Hrun as <- <- _;
      (split; [exact I|exact Hfed]).
  - cbn [message_loop] in Hrun.
    destruct (AnyUsefulWorkToDo st) as [useful|f].
    2:{ injection Hrun as <- <- _. split; [exact I|exact Hfed]. }
    destruct ev as [|m now now'].
    + destruct useful; [injection Hrun as <- <- _; split; [exact I|exact Hfed]|].
      apply (IH _ _ _ _ _ _ Hrun Hfed).
    + destruct (HandleAMessage m now now' st) as [[st1 quit]|f] eqn:Hmsg.
      2:{ injection Hrun as <- <- _. split; [exact I|exact Hfed]. }
      pose proof (HandleAMessage_fed _ _ _ _ _ _ _ _ Hmsg Hfed) as Hfed1.
      destruct quit.
      * injection Hrun as <- <- _. split; [exact I|exact Hfed1].
      * destruct (message_loop q st1) as [[st2 tr2] e2] eqn:Hloop.
        injection Hrun as <- <- _.
        destruct (IH _ _ _ _ _ _ Hloop Hfed1) as [Hw Hf].
        split; [exact Hw|exact Hf].
Qed.

Lemma useful_fed g l st : AnyUsefulWorkToDo st = Ok true -> fed g l st -> g = true /\ l = true.
Proof.
  unfold AnyUsefulWorkToDo, fed, lights_of. intros Hu [Hg Hl].
  destruct (m_pLightList st) as [lights|]; [|discriminate]. cbn [default] in Hl.
  destruct lights as [|d ds]; [discriminate|].
  split; [|apply Hl; discriminate].
  apply Hg. destruct (m_pRtEnv st); [discriminate|].
  exfalso. revert Hu. generalize (d :: ds). intros ls.
  induction ls as [|x xs IH]; [discriminate|]. cbn [any_light_with_work].
  destruct (get_info _ _) as [r|]; [|discriminate]. cbn [bind].
  destruct (HasWorkToDo r); [discriminate|exact IH].
Qed.

Lemma DoWork_fed g l st st' : DoWork st = Ok st' -> fed g l st -> fed g l st'.
Proof.
  intros Hrun. apply DoWork_one_pass in Hrun as [[-> _]|(d & st1 & _ & _ & Hpass & Hst)];
    [tauto|].
  pose proof (CalculateForLight_frame _ _ _ Hpass) as (Hl & _ & _ & _ & Henv).
  assert (Hnone : m_pRtEnv st1 <> None -> m_pRtEnv st <> None).
  { destruct (m_pRtEnv st); [discriminate|]. destruct Henv as [-> _]. tauto. }
  intros [Hg Hlights]. unfold fed, lights_of in *.
  destruct Hst as [-> | ->]; cbn; rewrite Hl; split; auto.
Qed.

Lemma send_step_fed g l clock st st' tr :
  send_step clock st = Ok (st', tr) -> fed g l st ->
  fed g l st' /\ (tr = [] \/ exists d, tr = [Sent d]).
Proof.
  intros Hrun Hfed. pose proof (send_step_trace _ _ _ _ Hrun) as Htr.
  split; [|exact Htr].
  unfold send_step in Hrun.
  destruct (m_bResultChangedSinceLastSend st); [|injection Hrun as <- _; exact Hfed].
  bind_inv Hrun as due eqn:E. destruct due; [|injection Hrun as <- _; exact Hfed].
  bind_inv Hrun as [st1 d] eqn:E0. injection Hrun as <- _.
  apply SendResult_frame in E0 as (Hst & _). rewrite Hst. exact Hfed.
Qed.

Lemma Run_works_when_fed g l clocks q st :
  fed g l st -> works_when_fed g l (snd (fst (Run clocks q st))).
Proof.
  revert g l q st. induction clocks as [|clock clocks IH]; intros g l q st Hfed; [exact I|].
  cbn [Run].
  destruct (message_loop q st) as [[st1 tr1] e] eqn:Hloop.
  destruct (message_loop_fed _ _ _ _ _ _ _ Hloop Hfed) as [Hw1 Hf1].
  destruct e as [quit q'| |f]; try exact Hw1.
  destruct (work_step quit st1) as [[st2 tr2]|f] eqn:Hwork; [|exact Hw1].
  assert (H2 : works_when_fed (geometry_after g tr1) (lights_after l tr1) tr2 /\
               fed (geometry_after g (tr1 ++ tr2)) (lights_after l (tr1 ++ tr2)) st2).
  { rewrite geometry_after_app, lights_after_app.
    unfold work_step in Hwork. destruct quit.
    - injection Hwork as <- <-. split; [exact I|exact Hf1].
    - bind_inv Hwork as useful eqn:Eu. destruct useful.
      + bind_inv Hwork as st2' eqn:Ew. injection Hwork as <- <-.
        destruct (useful_fed _ _ _ Eu Hf1) as [Hg Hl].
        split; [cbn; tauto|]. apply (DoWork_fed _ _ _ _ Ew). exact Hf1.
      + injection Hwork as <- <-. split; [exact I|exact Hf1]. }
  destruct H2 as [Hw2 Hf2].
  assert (H12 : works_when_fed g l (tr1 ++ tr2)).
  { apply works_when_fed_app. split; assumption. }
  destruct (send_step clock st2) as [[st3 tr3]|f] eqn:Hsend; [|exact H12].
  destruct (send_step_fed _ _ _ _ _ _ Hsend Hf2) as [Hf3 Htr3].
  assert (Hsame : geometry_after g ((tr1 ++ tr2) ++ tr3) = geometry_after g (tr1 ++ tr2) /\
                  lights_after l ((tr1 ++ tr2) ++ tr3) = lights_after l (tr1 ++ tr2)).
  { rewrite geometry_after_app, lights_after_app.
    destruct Htr3 as [->|[d ->]]; split; reflexivity. }
  assert (H123 : works_when_fed g l ((tr1 ++ tr2) ++ tr3)).
  { apply works_when_fed_app. split; [exact H12|].
    destruct Htr3 as [->|[d ->]]; exact I. }
  destruct Hsame as [Hgs Hls]. rewrite <- Hgs, <- Hls in Hf3.
  destruct quit.
  - cbn [fst snd]. rewrite app_assoc. exact H123.
  - specialize (IH _ _ q' st3 Hf3).
    destruct (Run clocks q' st3) as [[st4 tr4] status]. cbn [fst snd] in *.
    replace (tr1 ++ tr2 ++ tr3 ++ tr4) with (((tr1 ++ tr2) ++ tr3) ++ tr4)
      by (rewrite <- !app_assoc; reflexivity).
    apply works_when_fed_app. split; assumption.
Qed.

(** X26: no work before geometry and lights.  In a run that starts from
    an engine without a ray tracing environment and without a light list,
    as the constructor leaves it, every call of DoWork comes after a
    geometry message and a light list were handled, and the last geometry
    message handled before it brought triangles and the last light list
    handled before it brought lights. *)
Theorem Run_works_after_inputs (clocks : list (double * double)) (q : list QueueEvent)
    (st : CLightingPreviewThread) (pre post : list TraceEvent) :
  m_pRtEnv st = None -> m_pLightList st = None ->
  snd (fst (Run clocks q st)) = pre ++ Worked :: post ->
  geometry_after false pre = true /\ lights_after false pre = true.
Proof.
  intros Henv Hlist Htrace.
  assert (Hfed : fed false false st).
  { unfold fed, lights_of. rewrite Henv, Hlist. cbn [default].
    split; intros Hne; exfalso; apply Hne; reflexivity. }
  pose proof (Run_works_when_fed false false clocks q st Hfed) as Hw.
  rewrite Htrace in Hw. apply works_when_fed_app in Hw as [_ Hw].
  cbn [works_when_fed] in Hw. destruct Hw as (Hg & Hl & _). split; assumption.
Qed.

End WorkWhenFed.

(** ** When the thread waits *)

Section Waiting.

Context `{External}.

Lemma message_loop_blocked q st st' tr :
  message_loop q st = (st', tr, LoopBlocked) ->
  queue_messages q = handled_messages tr /\ AnyUsefulWorkToDo st' = Ok false.
Proof.
  revert st st' tr. induction q as [|ev q IH]; intros st st' tr Hrun.
  - cbn [message_loop] in Hrun.
    destruct (AnyUsefulWorkToDo st) as [useful|f] eqn:Hu; [|discriminate].
    destruct useful; [discriminate|]. injection Hrun as <- <-. split; [reflexivity|exact Hu].
  - cbn [message_loop] in Hrun.
    destruct (AnyUsefulWorkToDo st) as [useful|f] eqn:Hu; [|discriminate].
    destruct ev as [|m now now'].
    + destruct useful; [discriminate|]. apply IH in Hrun. exact Hrun.
    + destruct (HandleAMessage m now now' st) as [[st1 quit]|f]; [|discriminate].
      destruct quit; [discriminate|].
      destruct (message_loop q st1) as [[st2 tr2] e2] eqn:Hloop.
      injection Hrun as <- <- ->. apply IH in Hloop as [Hmsgs Hidle].
      split; [|exact Hidle].
      change (m :: queue_messages q = m :: handled_messages tr2). rewrite Hmsgs. reflexivity.
Qed.

(** X27: the thread waits only when idle.  In any run that ends with the
    thread blocked in WaitMessage, every message of the inbound queue has
    been handled, in order, and AnyUsefulWorkToDo returns false in the
    state the engine is left in: the thread never waits while a message
    is pending or a light still has work. *)
Theorem Run_blocks_when_idle (clocks : list (double * double)) (q : list QueueEvent)
    (st : CLightingPreviewThread) :
  snd (Run clocks q st) = Blocked ->
  handled_messages (snd (fst (Run clocks q st))) = queue_messages q /\
  AnyUsefulWorkToDo (fst (fst (Run clocks q st))) = Ok false.
Proof.
  revert q st. induction clocks as [|clock clocks IH]; intros q st; [discriminate|].
  cbn [Run].
  destruct (message_loop q st) as [[st1 tr1] e] eqn:Hloop.
  destruct e as [quit q'| |f]; [|cbn [fst snd]|discriminate].
  2:{ intros _. apply message_loop_blocked in Hloop as [Hmsgs Hidle].
      split; [symmetry; exact Hmsgs|exact Hidle]. }
  apply message_loop_order in Hloop as [_ [Hmsgs _]].
  destruct (work_step quit st1) as [[st2 tr2]|f] eqn:Hwork; [|discriminate].
  assert (H2 : handled_messages tr2 = []).
  { apply work_step_trace in Hwork as [->|[_ ->]]; reflexivity. }
  destruct (send_step clock st2) as [[st3 tr3]|f] eqn:Hsend; [|discriminate].
  assert (H3 : handled_messages tr3 = []).
  { apply send_step_trace in Hsend as [->|[d ->]]; reflexivity. }
  destruct quit; [discriminate|].
  specialize (IH q' st3).
  destruct (Run clocks q' st3) as [[st4 tr4] status]. cbn [fst snd] in *.
  intros Hst. destruct (IH Hst) as [Hrest Hidle]. split; [|exact Hidle].
  rewrite !handled_messages_app, H2, H3. cbn [app]. rewrite Hmsgs, Hrest. reflexivity.
Qed.

End Waiting.

(** ** The scene bounds *)

Lemma lex_le (e1 e2 : Z) (m1 m2 : positive) :
  match (match e1 ?= e2 with
         | Eq => (m1 ?= m2)%positive
         | Lt => Lt
         | Gt => Gt
         end) with
  | Gt => false
  | _ => true
  end = true <-> e1 < e2 \/ (e1 = e2 /\ (m1 <= m2)%positive).
Proof.
  destruct (Z.compare_spec e1 e2); [destruct (Pos.compare_spec m1 m2)|..];
    split; intros; try discriminate; try reflexivity; lia.
Qed.

Lemma lex_ge (e1 e2 : Z) (m1 m2 : positive) :
  match (match e1 ?= e2 with
         | Eq => CompOpp (m1 ?= m2)%positive
         | Lt => Gt
         | Gt => Lt
         end) with
  | Gt => false
  | _ => true
  end = true <-> e2 < e1 \/ (e1 = e2 /\ (m2 <= m1)%positive).
Proof.
  destruct (Z.compare_spec e1 e2); [destruct (Pos.compare_spec m1 m2)|..];
    split; intros; try discriminate; try reflexivity; cbn in *; try discriminate; lia.
Qed.

(** The order of the floats is transitive. *)
Lemma leb_trans (a b c : float) :
  F32.leb a b = true -> F32.leb b c = true -> F32.leb a c = true.
Proof.
  unfold F32.leb, SFleb, SFcompare.
  destruct a as [sa|sa| |sa ma ea], b as [sb|sb| |sb mb eb], c as [sc|sc| |sc mc ec];
    try destruct sa; try destruct sb; try destruct sc;
    try reflexivity; try discriminate; try (intros _ H; exact H); try (intros H _; exact H);
    change (PosDef.Pos.compare_cont Eq ma mb) with (Pos.compare ma mb);
    change (PosDef.Pos.compare_cont Eq mb mc) with (Pos.compare mb mc);
    change (PosDef.Pos.compare_cont Eq ma mc) with (Pos.compare ma mc).
  - rewrite !lex_ge. lia.
  - rewrite !lex_le. lia.
Qed.

Lemma leb_refl (a : float) : ordered a = true -> F32.leb a a = true.
Proof.
  unfold F32.leb, SFleb, SFcompare.
  destruct a as [s|s| |s m e]; try destruct s; try reflexivity; try discriminate;
    intros _; rewrite Z.compare_refl;
    change (PosDef.Pos.compare_cont Eq m m) with (Pos.compare m m);
    rewrite Pos.compare_refl; reflexivity.
Qed.

Lemma leb_ordered (a b : float) : F32.leb a b = true -> ordered a = true /\ ordered b = true.
Proof.
  unfold F32.leb, SFleb, SFcompare.
  destruct a as [sa|sa| |sa ma ea], b as [sb|sb| |sb mb eb]; try discriminate;
    intros _; split; reflexivity.
Qed.

Lemma ltb_leb (a b : float) : F32.ltb a b = true -> F32.leb a b = true.
Proof.
  unfold F32.ltb, F32.leb, SFltb, SFleb. destruct (SFcompare a b) as [[]|]; congruence.
Qed.

Lemma not_ltb_leb (a b : float) :
  ordered a = true -> ordered b = true -> F32.ltb a b = false -> F32.leb b a = true.
Proof.
  unfold F32.ltb, F32.leb, SFltb, SFleb. rewrite (SFcompare_antisym a b).
  intros Ha Hb.
  assert (Hsome : exists c, SFcompare a b = Some c).
  { destruct a as [sa|sa| |sa ma ea], b as [sb|sb| |sb mb eb]; try discriminate;
      cbn; eexists; reflexivity. }
  destruct Hsome as [c ->]. destruct c; cbn; congruence.
Qed.

(** One step of a running minimum or maximum. *)
Lemma min_step (c m : float) :
  ordered m = true ->
  let m' := if F32.ltb c m then c else m in
  F32.leb m' m = true /\ (ordered c = true -> F32.leb m' c = true).
Proof.
  intros Hm m'. subst m'. destruct (F32.ltb c m) eqn:Hlt.
  - pose proof (ltb_leb _ _ Hlt) as Hle. split; [exact Hle|].
    intros Hc. apply leb_refl. exact Hc.
  - split; [apply leb_refl; exact Hm|]. intros Hc. apply not_ltb_leb; assumption.
Qed.

Lemma max_step (c m : float) :
  ordered m = true ->
  let m' := if F32.gtb c m then c else m in
  F32.leb m m' = true /\ (ordered c = true -> F32.leb c m' = true).
Proof.
  intros Hm m'. subst m'. unfold F32.gtb. fold (F32.ltb m c).
  destruct (F32.ltb m c) eqn:Hlt.
  - pose proof (ltb_leb _ _ Hlt) as Hle. split; [exact Hle|].
    intros Hc. apply leb_refl. exact Hc.
  - split; [apply leb_refl; exact Hm|]. intros Hc. apply not_ltb_leb; assumption.
Qed.

Lemma fmin_le (a b : float) :
  ordered a = true -> ordered b = true ->
  F32.leb (fmin a b) a = true /\ F32.leb (fmin a b) b = true.
Proof.
  intros Ha Hb. unfold fmin. destruct (F32.ltb a b) eqn:Hlt.
  - split; [apply leb_refl; exact Ha|apply ltb_leb; exact Hlt].
  - split; [apply not_ltb_leb; assumption|apply leb_refl; exact Hb].
Qed.

Lemma fmax_ge (a b : float) :
  ordered a = true -> ordered b = true ->
  F32.leb a (fmax a b) = true /\ F32.leb b (fmax a b) = true.
Proof.
  intros Ha Hb. unfold fmax, F32.gtb. fold (F32.ltb b a). destruct (F32.ltb b a) eqn:Hlt.
  - split; [apply leb_refl; exact Ha|apply ltb_leb; exact Hlt].
  - split; [apply not_ltb_leb; assumption|apply leb_refl; exact Hb].
Qed.

Lemma lane_zip4 (f : Z -> Z -> Z) (a b : fltx4) (i : Z) :
  lane (zip4 f a b) i = f (lane a i) (lane b i).
Proof.
  unfold lane, zip4. cbn [lane0 lane1 lane2 lane3].
  destruct (i =? 0); [reflexivity|]. destruct (i =? 1); [reflexivity|].
  destruct (i =? 2); reflexivity.
Qed.

Lemma lane_value_min (c m : FourVectors) (k i : Z) :
  lane_value (mk_FourVectors (MinSIMD (fx c) (fx m)) (MinSIMD (fy c) (fy m))
                             (MinSIMD (fz c) (fz m))) k i
  = if F32.ltb (lane_value c k i) (lane_value m k i)
    then lane_value c k i else lane_value m k i.
Proof.
  unfold lane_value, coord, MinSIMD. cbn [fx fy fz].
  destruct (k =? 0); [|destruct (k =? 1)]; rewrite lane_zip4;
    destruct (F32.ltb _ _); reflexivity.
Qed.

Lemma lane_value_max (c m : FourVectors) (k i : Z) :
  lane_value (mk_FourVectors (MaxSIMD (fx c) (fx m)) (MaxSIMD (fy c) (fy m))
                             (MaxSIMD (fz c) (fz m))) k i
  = if F32.gtb (lane_value c k i) (lane_value m k i)
    then lane_value c k i else lane_value m k i.
Proof.
  unfold lane_value, coord, MaxSIMD. cbn [fx fy fz].
  destruct (k =? 0); [|destruct (k =? 1)]; rewrite lane_zip4;
    destruct (F32.gtb _ _); reflexivity.
Qed.

Lemma encloses_step eye data n c b :
  0 <= n -> data !! Z.to_nat n = Some c ->
  encloses eye data n b ->
  encloses eye data (n + 1)
    (mk_FourVectors (MinSIMD (fx c) (fx (fst b))) (MinSIMD (fy c) (fy (fst b)))
                    (MinSIMD (fz c) (fz (fst b))),
     mk_FourVectors (MaxSIMD (fx c) (fx (snd b))) (MaxSIMD (fy c) (fy (snd b)))
                    (MaxSIMD (fz c) (fz (snd b)))).
Proof.
  intros Hn Hc [Heye Hcells].
  assert (Hstep : forall k i v, between b k i v ->
            between (mk_FourVectors (MinSIMD (fx c) (fx (fst b))) (MinSIMD (fy c) (fy (fst b)))
                                    (MinSIMD (fz c) (fz (fst b))),
                     mk_FourVectors (MaxSIMD (fx c) (fx (snd b))) (MaxSIMD (fy c) (fy (snd b)))
                                    (MaxSIMD (fz c) (fz (snd b)))) k i v).
  { intros k i v [Hlo Hhi]. unfold between. cbn [fst snd].
    rewrite lane_value_min, lane_value_max.
    destruct (min_step (lane_value c k i) (lane_value (fst b) k i)) as [Hmin _];
      [apply (leb_ordered _ _ Hlo)|].
    destruct (max_step (lane_value c k i) (lane_value (snd b) k i)) as [Hmax _];
      [apply (leb_ordered _ _ Hhi)|].
    cbv zeta in Hmin, Hmax.
    split; [apply (leb_trans _ _ _ Hmin Hlo)|apply (leb_trans _ _ _ Hhi Hmax)]. }
  split.
  - intros k i. apply Hstep, Heye.
  - intros idx c' k i Hidx Hc' Hord.
    destruct (decide (idx = Z.to_nat n)) as [->|Hne].
    + assert (c' = c) by congruence. subst c'.
      destruct (Heye k i) as [Hlo Hhi].
      unfold between. cbn [fst snd]. rewrite lane_value_min, lane_value_max.
      destruct (min_step (lane_value c k i) (lane_value (fst b) k i)) as [_ Hmin];
        [apply (leb_ordered _ _ Hlo)|].
      destruct (max_step (lane_value c k i) (lane_value (snd b) k i)) as [_ Hmax];
        [apply (leb_ordered _ _ Hhi)|].
      split; [apply Hmin; exact Hord|apply Hmax; exact Hord].
    + apply Hstep. apply (Hcells idx c' k i); [lia|exact Hc'|exact Hord].
Qed.

Lemma lane_value_Vec (v : FourVectors) (k i : Z) :
  vcoord k (FourVectors_Vec v i) = lane_value v k i.
Proof.
  unfold vcoord, lane_value, coord, FourVectors_Vec. cbn [vx vy vz].
  destruct (k =? 0); [reflexivity|]. destruct (k =? 1); reflexivity.
Qed.

Lemma lane_range (r : fltx4) (i : Z) :
  lane r i = lane r 0 \/ lane r i = lane r 1 \/ lane r i = lane r 2 \/ lane r i = lane r 3.
Proof.
  unfold lane. destruct (i =? 0); [left; reflexivity|].
  destruct (i =? 1); [right; left; reflexivity|].
  destruct (i =? 2); [right; right; left; reflexivity|right; right; right; reflexivity].
Qed.

(** The fold of the four lanes of a bound into one vector. *)
Lemma fold_min_below (mn : FourVectors) (k i : Z) (v : float) :
  (forall j, ordered (lane_value mn k j) = true) ->
  F32.leb (lane_value mn k i) v = true ->
  F32.leb (vcoord k (for_loop 3 1 (fun v acc => Vector_Min acc (FourVectors_Vec mn v))
                       (FourVectors_Vec mn 0))) v = true.
Proof.
  intros Hord Hle.
  set (l := fun j => lane_value mn k j).
  assert (Hfold : vcoord k (for_loop 3 1 (fun v acc => Vector_Min acc (FourVectors_Vec mn v))
                              (FourVectors_Vec mn 0))
                  = fmin (fmin (fmin (l 0) (l 1)) (l 2)) (l 3)).
  { cbn [for_loop]. change (1 + 1) with 2. change (2 + 1) with 3.
    unfold l. rewrite <- !lane_value_Vec. unfold vcoord, Vector_Min. cbn [vx vy vz].
    destruct (k =? 0); [reflexivity|]. destruct (k =? 1); reflexivity. }
  rewrite Hfold.
  assert (O : forall a b, ordered a = true -> ordered b = true -> ordered (fmin a b) = true).
  { intros a b Ha Hb. unfold fmin. destruct (F32.ltb a b); assumption. }
  pose proof (Hord 0) as O0. pose proof (Hord 1) as O1.
  pose proof (Hord 2) as O2. pose proof (Hord 3) as O3. fold (l 0) (l 1) (l 2) (l 3) in *.
  destruct (fmin_le (l 0) (l 1) O0 O1) as [A0 A1].
  destruct (fmin_le (fmin (l 0) (l 1)) (l 2) (O _ _ O0 O1) O2) as [B01 B2].
  destruct (fmin_le (fmin (fmin (l 0) (l 1)) (l 2)) (l 3) (O _ _ (O _ _ O0 O1) O2) O3)
    as [C012 C3].
  assert (Hcase : l i = l 0 \/ l i = l 1 \/ l i = l 2 \/ l i = l 3).
  { unfold l, lane_value. destruct (lane_range (coord k mn) i) as [-> | [-> | [-> | ->]]]; tauto. }
  fold (l i) in Hle.
  destruct Hcase as [E|[E|[E|E]]]; rewrite E in Hle.
  - apply (leb_trans _ _ _ C012). apply (leb_trans _ _ _ B01). apply (leb_trans _ _ _ A0 Hle).
  - apply (leb_trans _ _ _ C012). apply (leb_trans _ _ _ B01). apply (leb_trans _ _ _ A1 Hle).
  - apply (leb_trans _ _ _ C012). apply (leb_trans _ _ _ B2 Hle).
  - apply (leb_trans _ _ _ C3 Hle).
Qed.

Lemma fold_max_above (mx : FourVectors) (k i : Z) (v : float) :
  (forall j, ordered (lane_value mx k j) = true) ->
  F32.leb v (lane_value mx k i) = true ->
  F32.leb v (vcoord k (for_loop 3 1 (fun v acc => Vector_Max acc (FourVectors_Vec mx v))
                         (FourVectors_Vec mx 0))) = true.
Proof.
  intros Hord Hle.
  set (l := fun j => lane_value mx k j).
  assert (Hfold : vcoord k (for_loop 3 1 (fun v acc => Vector_Max acc (FourVectors_Vec mx v))
                              (FourVectors_Vec mx 0))
                  = fmax (fmax (fmax (l 0) (l 1)) (l 2)) (l 3)).
  { cbn [for_loop]. change (1 + 1) with 2. change (2 + 1) with 3.
    unfold l. rewrite <- !lane_value_Vec. unfold vcoord, Vector_Max. cbn [vx vy vz].
    destruct (k =? 0); [reflexivity|]. destruct (k =? 1); reflexivity. }
  rewrite Hfold.
  assert (O : forall a b, ordered a = true -> ordered b = true -> ordered (fmax a b) = true).
  { intros a b Ha Hb. unfold fmax. destruct (F32.gtb a b); assumption. }
  pose proof (Hord 0) as O0. pose proof (Hord 1) as O1.
  pose proof (Hord 2) as O2. pose proof (Hord 3) as O3. fold (l 0) (l 1) (l 2) (l 3) in *.
  destruct (fmax_ge (l 0) (l 1) O0 O1) as [A0 A1].
  destruct (fmax_ge (fmax (l 0) (l 1)) (l 2) (O _ _ O0 O1) O2) as [B01 B2].
  destruct (fmax_ge (fmax (fmax (l 0) (l 1)) (l 2)) (l 3) (O _ _ (O _ _ O0 O1) O2) O3)
    as [C012 C3].
  assert (Hcase : l i = l 0 \/ l i = l 1 \/ l i = l 2 \/ l i = l 3).
  { unfold l, lane_value. destruct (lane_range (coord k mx) i) as [-> | [-> | [-> | ->]]]; tauto. }
  fold (l i) in Hle.
  destruct Hcase as [E|[E|[E|E]]]; rewrite E in Hle.
  - apply (leb_trans _ _ _ Hle). apply (leb_trans _ _ _ A0). apply (leb_trans _ _ _ B01 C012).
  - apply (leb_trans _ _ _ Hle). apply (leb_trans _ _ _ A1). apply (leb_trans _ _ _ B01 C012).
  - apply (leb_trans _ _ _ Hle). apply (leb_trans _ _ _ B2 C012).
  - apply (leb_trans _ _ _ Hle C3).
Qed.

Lemma WithinAABox_coords (p lo hi : Vector) :
  (forall k, F32.leb (vcoord k lo) (vcoord k p) = true /\
             F32.leb (vcoord k p) (vcoord k hi) = true) ->
  WithinAABox p lo hi = true.
Proof.
  intros Hall. unfold WithinAABox, F32.geb.
  destruct (Hall 0) as [X0 X1]. destruct (Hall 1) as [Y0 Y1]. destruct (Hall 2) as [Z0 Z1].
  cbn in X0, X1, Y0, Y1, Z0, Z1. unfold F32.leb in *.
  rewrite X0, X1, Y0, Y1, Z0, Z1. reflexivity.
Qed.

Section SceneBounds.

Context `{External}.

Lemma scan_encloses st b :
  for_loop_r (Z.to_nat (m_nHeight (m_Positions st))) 0
    (fun y b => for_loop_r (Z.to_nat (m_nPaddedWidth (m_Positions st))) 0
                  (bounds_body (m_Positions st) y) b)
    (DuplicateVector (m_LastEyePosition st), DuplicateVector (m_LastEyePosition st)) = Ok b ->
  Vector_ordered (eye_in_register st) = true ->
  encloses (eye_in_register st) (m_pData (m_Positions st))
    (Z.of_nat (Z.to_nat (m_nHeight (m_Positions st)))
     * Z.of_nat (Z.to_nat (m_nPaddedWidth (m_Positions st)))) b.
Proof.
  intros Hrun Heye.
  set (data := m_pData (m_Positions st)).
  set (pw := Z.of_nat (Z.to_nat (m_nPaddedWidth (m_Positions st)))).
  rewrite <- (Z.add_0_l (Z.of_nat (Z.to_nat (m_nHeight (m_Positions st))))).
  refine (for_loop_r_inv (fun y b => encloses (eye_in_register st) data (y * pw) b)
            _ _ 0 _ b _ _ Hrun); cbv beta.
  - split.
    + intros k i. unfold between. cbn [fst snd].
      assert (Hval : lane_value (DuplicateVector (m_LastEyePosition st)) k i
                     = vcoord k (eye_in_register st)).
      { unfold eye_in_register. rewrite lane_value_Vec.
        unfold lane_value, coord, DuplicateVector, ReplicateX4, lane.
        cbn [fx fy fz lane0 lane1 lane2 lane3].
        destruct (k =? 0); [|destruct (k =? 1)];
          destruct (i =? 0); try reflexivity; destruct (i =? 1); try reflexivity;
          destruct (i =? 2); reflexivity. }
      rewrite Hval.
      assert (Hord : ordered (vcoord k (eye_in_register st)) = true).
      { unfold Vector_ordered in Heye. apply andb_prop in Heye as [Hxy Hz].
        apply andb_prop in Hxy as [Hx Hy]. unfold vcoord.
        destruct (k =? 0); [exact Hx|]. destruct (k =? 1); [exact Hy|exact Hz]. }
      split; apply leb_refl; exact Hord.
    + intros idx c k i Hidx. lia.
  - clear Hrun. intros y b1 b2 Hy Hb1 Hinner.
    replace ((y + 1) * pw) with (y * pw + (0 + pw)) by lia.
    refine (for_loop_r_inv (fun x b => encloses (eye_in_register st) data (y * pw + x) b)
              _ _ 0 b1 b2 _ _ Hinner); cbv beta.
    + rewrite Z.add_0_r. exact Hb1.
    + clear Hinner. intros x [mn mx] b' Hx Hb Hbody. unfold bounds_body in Hbody.
      bind_inv Hbody as c eqn:Ec. injection Hbody as <-.
      assert (Hpw : m_nPaddedWidth (m_Positions st) = pw) by (unfold pw; lia).
      rewrite Hpw in Ec. apply vec_get_Ok in Ec as [Hpos Hc].
      replace (y * pw + (x + 1)) with ((pw * y + x) + 1) by lia.
      apply (encloses_step _ _ (pw * y + x) c (mn, mx)); [exact Hpos|exact Hc|].
      replace (pw * y + x) with (y * pw + x) by lia. exact Hb.
Qed.

(** X28: the scene bounds enclose the eye and the pixels.  The bounds that
    CalculateSceneBounds leaves, when the eye position has no NaN
    coordinate, contain the eye position and, for every group of the
    position buffer and each of its four lanes, the position held in that
    lane if it has no NaN coordinate: such a position passes the
    within-bounds test of the high-priority rule. *)
Theorem CalculateSceneBounds_encloses (st st' : CLightingPreviewThread)
    (x y i : Z) (c : FourVectors) :
  CalculateSceneBounds st = Ok st' ->
  Vector_ordered (eye_in_register st) = true ->
  WithinAABox (eye_in_register st) (m_MinViewCoords st') (m_MaxViewCoords st') = true /\
  (0 <= x < m_nPaddedWidth (m_Positions st) -> 0 <= y < m_nHeight (m_Positions st) ->
   CompoundElement (m_Positions st) x y = Ok c ->
   Vector_ordered (FourVectors_Vec c i) = true ->
   WithinAABox (FourVectors_Vec c i) (m_MinViewCoords st') (m_MaxViewCoords st') = true).
Proof.
  unfold CalculateSceneBounds. intros Hrun Heye.
  bind_inv Hrun as [mn mx] eqn:Escan. injection Hrun as <-.
  cbn [m_MinViewCoords m_MaxViewCoords set_m_MaxViewCoords set_m_MinViewCoords].
  apply scan_encloses in Escan; [|exact Heye]. destruct Escan as [Hin Hcells].
  assert (Hord : forall k j, ordered (lane_value mn k j) = true /\
                             ordered (lane_value mx k j) = true).
  { intros k j. destruct (Hin k j) as [Hlo Hhi]. cbn [fst snd] in *.
    split; [apply (leb_ordered _ _ Hlo)|apply (leb_ordered _ _ Hhi)]. }
  assert (Hfold : forall p k j, between (mn, mx) k j (vcoord k p) ->
            F32.leb (vcoord k (for_loop 3 1
                                 (fun v acc => Vector_Min acc (FourVectors_Vec mn v))
                                 (FourVectors_Vec mn 0))) (vcoord k p) = true /\
            F32.leb (vcoord k p)
                    (vcoord k (for_loop 3 1
                                 (fun v acc => Vector_Max acc (FourVectors_Vec mx v))
                                 (FourVectors_Vec mx 0))) = true).
  { intros p k j [Hlo Hhi]. cbn [fst snd] in *. split.
    - exact (fold_min_below mn k j (vcoord k p) (fun j' => proj1 (Hord k j')) Hlo).
    - exact (fold_max_above mx k j (vcoord k p) (fun j' => proj2 (Hord k j')) Hhi). }
  split.
  - apply WithinAABox_coords. intros k. apply (Hfold _ k 0). apply Hin.
  - intros Hx Hy Hc Hp. apply WithinAABox_coords. intros k. apply (Hfold _ k i).
    unfold CompoundElement in Hc. apply vec_get_Ok in Hc as [Hpos Hc].
    rewrite lane_value_Vec.
    apply (Hcells (Z.to_nat (x + m_nPaddedWidth (m_Positions st) * y)) c k i).
    + rewrite !Z2Nat.id by lia. nia.
    + exact Hc.
    + rewrite <- lane_value_Vec. unfold Vector_ordered in Hp.
      apply andb_prop in Hp as [Hxy Hz]. apply andb_prop in Hxy as [Hpx Hpy]. unfold vcoord.
      destruct (k =? 0); [exact Hpx|]. destruct (k =? 1); [exact Hpy|exact Hz].
Qed.

End SceneBounds.

(** * The further properties on the 4 x 2 image *)

Lemma bit_reverse_involutive_witness :
  0 <= 11 < N_INCREMENTAL_STEPS /\
  exists r, LineSchedule.bit_reverse 11 = Some r /\ 0 <= r < N_INCREMENTAL_STEPS /\
            LineSchedule.bit_reverse r = Some 11.
Proof.
  assert (H11 : 0 <= 11 < N_INCREMENTAL_STEPS) by (unfold N_INCREMENTAL_STEPS; lia).
  split; [exact H11|]. exact (bit_reverse_involutive 11 H11).
Defined.

Lemma pass_rows_witness :
  LineSchedule.InitIncrementalInformation = Some (m_Tables first_pass) /\
  next_level first_pass (record_0 first_pass) = Ok (1, 1) /\
  vec_get (LineSchedule.m_LineMask (m_Tables first_pass)) 1 = Ok 65537 /\
  0 <= 48 < 2 ^ 31 /\
  exists r, LineSchedule.bit_reverse 1 = Some r /\
            line_selected (Int.and 65537 (Int.not 1)) 48 = (48 mod 32 =? r).
Proof.
  assert (H1 : LineSchedule.InitIncrementalInformation = Some (m_Tables first_pass))
    by (vm_compute; reflexivity).
  assert (H2 : next_level first_pass (record_0 first_pass) = Ok (1, 1))
    by (vm_compute; reflexivity).
  assert (H3 : vec_get (LineSchedule.m_LineMask (m_Tables first_pass)) 1 = Ok 65537)
    by (vm_compute; reflexivity).
  assert (H4 : 0 <= 48 < 2 ^ 31) by lia.
  split; [exact H1|]. split; [exact H2|]. split; [exact H3|]. split; [exact H4|].
  exact (pass_rows first_pass (record_0 first_pass) 1 1 65537 48 H1 H2 H3 H4).
Defined.


Lemma AnyUsefulWorkToDo_iff_witness :
  forallb (is_bound (m_pIncrementalLightInfoList lit_state)) (lights_of lit_state) = true /\
  AnyUsefulWorkToDo lit_state
  = Ok (match m_pRtEnv lit_state with Some _ => true | None => false end
        && existsb (has_work (m_pIncrementalLightInfoList lit_state)) (lights_of lit_state)).
Proof.
  assert (H1 : forallb (is_bound (m_pIncrementalLightInfoList lit_state))
                 (lights_of lit_state) = true) by (vm_compute; reflexivity).
  split; [exact H1|]. exact (AnyUsefulWorkToDo_iff lit_state H1).
Defined.

Lemma DoWork_one_pass_witness :
  DoWork (H := reference_external) lit_state = Ok worked_once /\
  ((worked_once = lit_state /\
    existsb (has_work (m_pIncrementalLightInfoList lit_state)) (lights_of lit_state) = false)
   \/ exists l st1,
        In l (lights_of lit_state) /\
        has_work (m_pIncrementalLightInfoList lit_state) l = true /\
        CalculateForLight (H := reference_external) lit_state l = Ok st1 /\
        (worked_once = st1 \/ worked_once = set_m_bResultChangedSinceLastSend true st1)).
Proof.
  assert (H1 : DoWork (H := reference_external) lit_state = Ok worked_once)
    by (vm_compute; reflexivity).
  split; [exact H1|].
  exact (DoWork_one_pass (H := reference_external) lit_state worked_once H1).
Defined.

Lemma DiscardResults_records_witness :
  DiscardResults (H := reference_external) t120 second_pass = Ok discarded_engine /\
  m_pIncrementalLightInfoList second_pass !! 0%nat = Some (record_0 second_pass) /\
  exists i', m_pIncrementalLightInfoList discarded_engine !! 0%nat = Some i' /\
    m_eIncrState i' = discarded_state (m_eIncrState (record_0 second_pass)) /\
    m_CalculatedContribution i' = empty_matrix /\
    m_PartialResultsStage i' = m_PartialResultsStage (record_0 second_pass) /\
    m_fTotalContribution i' = m_fTotalContribution (record_0 second_pass) /\
    m_nMostRecentNonZeroContributionTimeStamp i'
      = m_nMostRecentNonZeroContributionTimeStamp (record_0 second_pass) /\
    info_nObjectID i' = info_nObjectID (record_0 second_pass) /\
    m_pLight i' = m_pLight (record_0 second_pass).
Proof.
  assert (H1 : DiscardResults (H := reference_external) t120 second_pass = Ok discarded_engine)
    by (vm_compute; reflexivity).
  assert (H2 : m_pIncrementalLightInfoList second_pass !! 0%nat = Some (record_0 second_pass))
    by (vm_compute; reflexivity).
  split; [exact H1|]. split; [exact H2|].
  exact (DiscardResults_records (H := reference_external) t120 second_pass discarded_engine
           0%nat (record_0 second_pass) H1 H2).
Defined.

Lemma DiscardResults_then_useful_witness :
  DiscardResults (H := reference_external) t120 second_pass = Ok discarded_engine /\
  AnyUsefulWorkToDo discarded_engine
  = Ok (match m_pRtEnv discarded_engine with Some _ => true | None => false end
        && match lights_of discarded_engine with [] => false | _ => true end).
Proof.
  assert (H1 : DiscardResults (H := reference_external) t120 second_pass = Ok discarded_engine)
    by (vm_compute; reflexivity).
  split; [exact H1|].
  exact (DiscardResults_then_useful (H := reference_external) t120 second_pass
           discarded_engine H1).
Defined.

Lemma DiscardResults_then_ambient_witness :
  DiscardResults (H := reference_external) t120 second_pass = Ok discarded_engine /\
  EstimatedUnshotAmbient (H := reference_external) discarded_engine
  = Ok (ambient_floor (H := reference_external)).
Proof.
  assert (H1 : DiscardResults (H := reference_external) t120 second_pass = Ok discarded_engine)
    by (vm_compute; reflexivity).
  split; [exact H1|].
  exact (DiscardResults_then_ambient (H := reference_external) t120 second_pass
           discarded_engine H1).
Defined.

Lemma UpdateIncremental_binds_witness :
  m_pLightList two_lights_arrived = Some [lamp; glow] /\
  forallb unbound [lamp; glow] = true /\
  exists st' lights',
    UpdateIncrementalForNewLightList two_lights_arrived = Ok st' /\
    m_pLightList st' = Some lights' /\ length lights' = length [lamp; glow] /\
    forall k d, [lamp; glow] !! k = Some d ->
      exists a r dl,
        lights' !! k = Some (set_pIncrementalInfo (Some a) d) /\
        m_pIncrementalLightInfoList st' !! a = Some r /\
        info_nObjectID r = m_nObjectID d /\
        m_pLight r = Some dl /\ m_nObjectID dl = m_nObjectID d.
Proof.
  assert (H1 : m_pLightList two_lights_arrived = Some [lamp; glow]) by reflexivity.
  assert (H2 : forallb unbound [lamp; glow] = true) by reflexivity.
  split; [exact H1|]. split; [exact H2|].
  exact (UpdateIncremental_binds two_lights_arrived [lamp; glow] H1 H2).
Defined.

Lemma UpdateIncremental_keeps_records_witness :
  UpdateIncrementalForNewLightList two_lights_arrived = Ok two_lights_bound /\
  m_pIncrementalLightInfoList two_lights_arrived !! 0%nat = Some (record_0 two_lights_arrived) /\
  exists r', m_pIncrementalLightInfoList two_lights_bound !! 0%nat = Some r' /\
    info_nObjectID r' = info_nObjectID (record_0 two_lights_arrived) /\
    m_PartialResultsStage r' = m_PartialResultsStage (record_0 two_lights_arrived) /\
    m_eIncrState r' = m_eIncrState (record_0 two_lights_arrived) /\
    m_CalculatedContribution r' = m_CalculatedContribution (record_0 two_lights_arrived) /\
    m_fTotalContribution r' = m_fTotalContribution (record_0 two_lights_arrived) /\
    m_fDistanceToEye r' = m_fDistanceToEye (record_0 two_lights_arrived) /\
    m_nMostRecentNonZeroContributionTimeStamp r'
      = m_nMostRecentNonZeroContributionTimeStamp (record_0 two_lights_arrived).
Proof.
  assert (H1 : UpdateIncrementalForNewLightList two_lights_arrived = Ok two_lights_bound)
    by (vm_compute; reflexivity).
  assert (H2 : m_pIncrementalLightInfoList two_lights_arrived !! 0%nat
               = Some (record_0 two_lights_arrived)) by (vm_compute; reflexivity).
  split; [exact H1|]. split; [exact H2|].
  exact (UpdateIncremental_keeps_records two_lights_arrived two_lights_bound 0%nat
           (record_0 two_lights_arrived) H1 H2).
Defined.

Lemma UpdateIncremental_new_records_witness :
  UpdateIncrementalForNewLightList two_lights_arrived = Ok two_lights_bound /\
  (NoDup (object_ids (m_pIncrementalLightInfoList two_lights_arrived)) ->
   NoDup (object_ids (m_pIncrementalLightInfoList two_lights_bound))) /\
  forall a r,
    (length (m_pIncrementalLightInfoList two_lights_arrived) <= a)%nat ->
    m_pIncrementalLightInfoList two_lights_bound !! a = Some r ->
    m_eIncrState r = INCR_STATE_NEW /\ m_PartialResultsStage r = 0 /\
    m_CalculatedContribution r = empty_matrix /\
    m_fTotalContribution r = F32.zero /\ m_fDistanceToEye r = F32.zero /\
    m_nMostRecentNonZeroContributionTimeStamp r = 0.
Proof.
  assert (H1 : UpdateIncrementalForNewLightList two_lights_arrived = Ok two_lights_bound)
    by (vm_compute; reflexivity).
  split; [exact H1|].
  exact (UpdateIncremental_new_records two_lights_arrived two_lights_bound H1).
Defined.

Lemma refine_levels_witness :
  get_info (m_pIncrementalLightInfoList lit_state) (m_pIncrementalInfo bound_lamp)
    = Ok (record_0 lit_state) /\
  m_eIncrState (record_0 lit_state) <> INCR_STATE_PARTIAL_RESULTS /\
  (1 <= 32 <= 32)%nat /\
  refine (H := reference_external) 32 lit_state bound_lamp = Ok fully_refined /\
  exists i',
    get_info (m_pIncrementalLightInfoList fully_refined) (m_pIncrementalInfo bound_lamp)
      = Ok i' /\
    m_PartialResultsStage i' = Z.of_nat 32 - 1 /\
    m_eIncrState i'
      = (if Z.of_nat 32 =? N_INCREMENTAL_STEPS then INCR_STATE_HAVE_FULL_RESULTS
         else INCR_STATE_PARTIAL_RESULTS) /\
    HasWorkToDo i' = negb (Z.of_nat 32 =? N_INCREMENTAL_STEPS).
Proof.
  assert (H1 : get_info (m_pIncrementalLightInfoList lit_state) (m_pIncrementalInfo bound_lamp)
               = Ok (record_0 lit_state)) by (vm_compute; reflexivity).
  assert (H2 : m_eIncrState (record_0 lit_state) <> INCR_STATE_PARTIAL_RESULTS)
    by (vm_compute; discriminate).
  assert (H3 : (1 <= 32 <= 32)%nat) by lia.
  assert (H4 : refine (H := reference_external) 32 lit_state bound_lamp = Ok fully_refined)
    by (vm_compute; reflexivity).
  split; [exact H1|]. split; [exact H2|]. split; [exact H3|]. split; [exact H4|].
  exact (refine_levels (H := reference_external) 32 lit_state fully_refined bound_lamp
           (record_0 lit_state) H1 H2 H3 H4).
Defined.

Lemma SendVectorMatrixAsRendering_pixels_witness :
  SendVectorMatrixAsRendering (H := reference_external) lit_state (m_Albedos lit_state)
    = Ok albedo_message /\
  0 <= 3 < m_nWidth (m_Albedos lit_state) /\ 0 <= 1 < m_nHeight (m_Albedos lit_state) /\
  msg_nBitmapGenerationCounter albedo_message = m_nBitmapGenerationCounter lit_state /\
  bm_Width (m_pBitmapToDisplay albedo_message) = m_nWidth (m_Albedos lit_state) /\
  bm_Height (m_pBitmapToDisplay albedo_message) = m_nHeight (m_Albedos lit_state) /\
  Z.of_nat (length (bm_Pixels (m_pBitmapToDisplay albedo_message)))
    = 4 * (m_nWidth (m_Albedos lit_state) * m_nHeight (m_Albedos lit_state)) /\
  exists color,
    Element (m_Albedos lit_state) 3 1 = Ok color /\
    forall c, (c < 4)%nat ->
      bm_Pixels (m_pBitmapToDisplay albedo_message)
        !! (Z.to_nat (4 * (1 * m_nWidth (m_Albedos lit_state) + 3)) + c)%nat
      = [to_byte (H := reference_external) (vz color);
         to_byte (H := reference_external) (vy color);
         to_byte (H := reference_external) (vx color); 0] !! c.
Proof.
  assert (H1 : SendVectorMatrixAsRendering (H := reference_external) lit_state
                 (m_Albedos lit_state) = Ok albedo_message) by (vm_compute; reflexivity).
  assert (H2 : 0 <= 3 < m_nWidth (m_Albedos lit_state)) by (vm_compute; split; [discriminate|reflexivity]).
  assert (H3 : 0 <= 1 < m_nHeight (m_Albedos lit_state)) by (vm_compute; split; [discriminate|reflexivity]).
  split; [exact H1|]. split; [exact H2|]. split; [exact H3|].
  exact (SendVectorMatrixAsRendering_pixels (H := reference_external) lit_state
           (m_Albedos lit_state) albedo_message 3 1 H1 H2 H3).
Defined.

Lemma SendResult_frame_witness :
  SendResult (H := reference_external) t120 first_pass = Ok sent_at_120 /\
  fst sent_at_120
    = set_m_bResultChangedSinceLastSend false
        (set_m_fLastSendTime (F32.of_double t120)
           (set_m_ResultImage (m_ResultImage (fst sent_at_120)) first_pass)) /\
  m_nWidth (m_ResultImage (fst sent_at_120)) = m_nWidth (m_Albedos first_pass) /\
  m_nHeight (m_ResultImage (fst sent_at_120)) = m_nHeight (m_Albedos first_pass) /\
  bm_Width (m_pBitmapToDisplay (snd sent_at_120)) = m_nWidth (m_Albedos first_pass) /\
  bm_Height (m_pBitmapToDisplay (snd sent_at_120)) = m_nHeight (m_Albedos first_pass) /\
  msg_nBitmapGenerationCounter (snd sent_at_120) = m_nBitmapGenerationCounter first_pass /\
  (forallb (dark (m_pIncrementalLightInfoList first_pass)) (lights_of first_pass) = true ->
   exists ambient,
     EstimatedUnshotAmbient (H := reference_external) first_pass = Ok ambient /\
     m_ResultImage (fst sent_at_120)
       = Matrix_scale (m_Albedos first_pass) ambient).
Proof.
  assert (H1 : SendResult (H := reference_external) t120 first_pass
               = Ok (fst sent_at_120, snd sent_at_120)) by (vm_compute; reflexivity).
  split; [vm_compute; reflexivity|].
  exact (SendResult_frame (H := reference_external) t120 first_pass (fst sent_at_120)
           (snd sent_at_120) H1).
Defined.

Lemma message_loop_ends_with_work_witness :
  message_loop (H := reference_external) sample_queue fresh_engine
    = (lit_state, snd (fst sample_loop), LoopDone false []) /\
  AnyUsefulWorkToDo lit_state = Ok true /\
  queue_messages sample_queue
    = handled_messages (snd (fst sample_loop)) ++ queue_messages [] /\
  snd (fst sample_loop) = map Handled (handled_messages (snd (fst sample_loop))).
Proof.
  assert (H1 : message_loop (H := reference_external) sample_queue fresh_engine
               = (lit_state, snd (fst sample_loop), LoopDone false []))
    by (vm_compute; reflexivity).
  split; [exact H1|].
  exact (message_loop_ends_with_work (H := reference_external) sample_queue []
           fresh_engine lit_state (snd (fst sample_loop)) H1).
Defined.

Lemma Run_exit_witness :
  (In (Handled LPREVIEW_MSG_EXIT)
      (snd (fst (Run (H := reference_external) [(t101, t101)] exit_queue fresh_engine)))
   \/ snd (Run (H := reference_external) [(t101, t101)] exit_queue fresh_engine) = Exited) /\
  exits_cleanly (snd (fst (Run (H := reference_external) [(t101, t101)] exit_queue
                            fresh_engine))) /\
  (snd (Run (H := reference_external) [(t101, t101)] exit_queue fresh_engine) = Exited
   \/ exists f,
        snd (Run (H := reference_external) [(t101, t101)] exit_queue fresh_engine)
        = Faulted f).
Proof.
  assert (H1 : In (Handled LPREVIEW_MSG_EXIT)
                 (snd (fst (Run (H := reference_external) [(t101, t101)] exit_queue
                              fresh_engine)))
               \/ snd (Run (H := reference_external) [(t101, t101)] exit_queue fresh_engine)
                  = Exited)
    by (right; vm_compute; reflexivity).
  split; [exact H1|].
  exact (Run_exit (H := reference_external) [(t101, t101)] exit_queue fresh_engine H1).
Defined.

Lemma HandleAMessage_restarts_witness :
  HandleAMessage (H := reference_external) geometry_msg t100 t101 second_pass
    = Ok (fst after_geometry, snd after_geometry) /\
  snd after_geometry = is_exit geometry_msg /\
  if is_exit geometry_msg then fst after_geometry = second_pass
  else
    Forall without_results (m_pIncrementalLightInfoList (fst after_geometry)) /\
    m_bResultChangedSinceLastSend (fst after_geometry) = true /\
    m_fLastSendTime (fst after_geometry)
      = F32.of_double (F64.sub (last_discard_at geometry_msg t100 t101) F64.c_9) /\
    m_nContributionCounter (fst after_geometry)
      = Nat.iter (discards_of geometry_msg) (fun c => Int.add c 1)
          (m_nContributionCounter second_pass).
Proof.
  assert (H1 : HandleAMessage (H := reference_external) geometry_msg t100 t101 second_pass
               = Ok (fst after_geometry, snd after_geometry)) by (vm_compute; reflexivity).
  split; [exact H1|].
  exact (HandleAMessage_restarts (H := reference_external) geometry_msg t100 t101 second_pass
           (fst after_geometry) (snd after_geometry) H1).
Defined.

Lemma build_environment_triangles_witness :
  Z.of_nat (length [origin_point; corner 1; corner 2]) < 2 ^ 31 - 1 /\
  match length [origin_point; corner 1; corner 2] with
  | O => build_environment [origin_point; corner 1; corner 2] = Ok None
  | _ =>
      if (length [origin_point; corner 1; corner 2] mod 3 =? 0)%nat then
        exists env,
          build_environment [origin_point; corner 1; corner 2] = Ok (Some env) /\
          length (env_triangles env) = (length [origin_point; corner 1; corner 2] / 3)%nat /\
          forall j, (j < length [origin_point; corner 1; corner 2] / 3)%nat ->
            env_triangles env !! j = triangle_at [origin_point; corner 1; corner 2] j
      else build_environment [origin_point; corner 1; corner 2] = Fault IndexOutOfRange
  end.
Proof.
  assert (H1 : Z.of_nat (length [origin_point; corner 1; corner 2]) < 2 ^ 31 - 1)
    by (vm_compute; reflexivity).
  split; [exact H1|].
  exact (build_environment_triangles [origin_point; corner 1; corner 2] H1).
Defined.

Lemma IsLowerPriorityThan_irreflexive_witness :
  IsHighPriority fresh_engine (dark_partial 5 1000003) = Ok false /\
  IsLowerPriorityThan fresh_engine (dark_partial 5 1000003) (dark_partial 5 1000003)
  = Ok false.
Proof.
  assert (H1 : IsHighPriority fresh_engine (dark_partial 5 1000003) = Ok false)
    by reflexivity.
  split; [exact H1|].
  exact (IsLowerPriorityThan_irreflexive fresh_engine (dark_partial 5 1000003) false H1).
Defined.

Lemma fan_out_rows_witness :
  fan_out (H := reference_external) lit_state bound_lamp 1 level_0_matrix
    = Ok (fst level_0_pass, snd level_0_pass) /\
  m_nHeight level_0_matrix < 2 ^ 31 /\
  0 <= 0 < m_nPaddedWidth level_0_matrix /\ 0 <= 1 < m_nHeight level_0_matrix /\
  m_nWidth (fst level_0_pass) = m_nWidth level_0_matrix /\
  m_nHeight (fst level_0_pass) = m_nHeight level_0_matrix /\
  m_nPaddedWidth (fst level_0_pass) = m_nPaddedWidth level_0_matrix /\
  if line_selected 1 1
  then exists g, shade_group (H := reference_external) lit_state bound_lamp 0 1 = Ok g /\
                 CompoundElement (fst level_0_pass) 0 1 = Ok (fst g)
  else CompoundElement (fst level_0_pass) 0 1 = CompoundElement level_0_matrix 0 1.
Proof.
  assert (H1 : fan_out (H := reference_external) lit_state bound_lamp 1 level_0_matrix
               = Ok (fst level_0_pass, snd level_0_pass)) by (vm_compute; reflexivity).
  assert (H2 : m_nHeight level_0_matrix < 2 ^ 31) by (vm_compute; reflexivity).
  assert (H3 : 0 <= 0 < m_nPaddedWidth level_0_matrix)
    by (vm_compute; split; [discriminate|reflexivity]).
  assert (H4 : 0 <= 1 < m_nHeight level_0_matrix)
    by (vm_compute; split; [discriminate|reflexivity]).
  split; [exact H1|]. split; [exact H2|]. split; [exact H3|]. split; [exact H4|].
  exact (fan_out_rows (H := reference_external) lit_state bound_lamp 1 level_0_matrix
           (fst level_0_pass) (snd level_0_pass) 0 1 H1 H2 H3 H4).
Defined.

Lemma Run_follows_no_null_record_witness :
  linked fresh_engine /\ forallb fresh_lights sample_queue = true /\
  linked (fst (fst (Run (H := reference_external)
                      [(t101, t101); (t101, t101); (t120, t120); (t120, t120)]
                      sample_queue fresh_engine))) /\
  match snd (Run (H := reference_external)
               [(t101, t101); (t101, t101); (t120, t120); (t120, t120)]
               sample_queue fresh_engine) with
  | Faulted f => pointer_fault f = false
  | _ => True
  end.
Proof.
  assert (H1 : linked fresh_engine) by (vm_compute; reflexivity).
  assert (H2 : forallb fresh_lights sample_queue = true) by (vm_compute; reflexivity).
  split; [exact H1|]. split; [exact H2|].
  exact (Run_follows_no_null_record (H := reference_external)
           [(t101, t101); (t101, t101); (t120, t120); (t120, t120)]
           sample_queue fresh_engine H1 H2).
Defined.

Lemma select_light_prefers_high_witness :
  select_light two_lights_state [bound_lamp; bound_glow] None = Ok (Some bound_glow) /\
  In bound_glow [bound_lamp; bound_glow] /\
  high_priority two_lights_state bound_glow = true /\
  exists b, Some bound_glow = Some b /\ In b [bound_lamp; bound_glow] /\
            high_priority two_lights_state b = true.
Proof.
  assert (H1 : select_light two_lights_state [bound_lamp; bound_glow] None
               = Ok (Some bound_glow)) by (vm_compute; reflexivity).
  assert (H2 : In bound_glow [bound_lamp; bound_glow]) by (right; left; reflexivity).
  assert (H3 : high_priority two_lights_state bound_glow = true) by (vm_compute; reflexivity).
  split; [exact H1|]. split; [exact H2|]. split; [exact H3|].
  exact (select_light_prefers_high two_lights_state [bound_lamp; bound_glow]
           (Some bound_glow) bound_glow H1 H2 H3).
Defined.

Lemma CalculateForLight_frame_witness :
  CalculateForLight (H := reference_external) lit_state bound_lamp = Ok first_pass /\
  m_pLightList first_pass = m_pLightList lit_state /\
  m_nContributionCounter first_pass = m_nContributionCounter lit_state /\
  length (m_pIncrementalLightInfoList first_pass)
    = length (m_pIncrementalLightInfoList lit_state) /\
  (forall a, m_pIncrementalInfo bound_lamp <> Some a ->
     m_pIncrementalLightInfoList first_pass !! a
     = m_pIncrementalLightInfoList lit_state !! a) /\
  match m_pRtEnv lit_state with
  | Some env =>
      m_bAccStructureBuilt first_pass = true /\
      m_pRtEnv first_pass
        = Some (if m_bAccStructureBuilt lit_state then env
                else SetupAccelerationStructure (External := reference_external) env)
  | None => m_pRtEnv first_pass = None /\
            m_bAccStructureBuilt first_pass = m_bAccStructureBuilt lit_state
  end.
Proof.
  assert (H1 : CalculateForLight (H := reference_external) lit_state bound_lamp
               = Ok first_pass) by (vm_compute; reflexivity).
  split; [exact H1|].
  exact (CalculateForLight_frame (H := reference_external) lit_state first_pass bound_lamp H1).
Defined.

Lemma send_step_once_witness :
  send_step (H := reference_external) (t120, t120) lit_state
    = Ok (fst sent_turn, [Sent sent_turn_result]) /\
  m_bResultChangedSinceLastSend (fst sent_turn) = false /\
  m_fLastSendTime (fst sent_turn) = F32.of_double (fst (t120, t120)) /\
  send_step (H := reference_external) (t101, t101) (fst sent_turn) = Ok (fst sent_turn, []).
Proof.
  assert (H1 : send_step (H := reference_external) (t120, t120) lit_state
               = Ok (fst sent_turn, [Sent sent_turn_result])) by (vm_compute; reflexivity).
  split; [exact H1|].
  exact (send_step_once (H := reference_external) (t120, t120) (t101, t101) lit_state
           (fst sent_turn) sent_turn_result H1).
Defined.

Lemma send_step_emits_witness :
  send_step (H := reference_external) (t120, t120) lit_state
    = Ok (fst sent_turn, snd sent_turn) /\
  ((exists d, snd sent_turn = [Sent d]) <->
   m_bResultChangedSinceLastSend lit_state = true /\
   (F32.gtb (F32.sub (F32.of_double (fst (t120, t120))) (m_fLastSendTime lit_state)) F32.c_10
    = true \/
    AnyUsefulWorkToDo lit_state = Ok false)).
Proof.
  assert (H1 : send_step (H := reference_external) (t120, t120) lit_state
               = Ok (fst sent_turn, snd sent_turn)) by (vm_compute; reflexivity).
  split; [exact H1|].
  exact (send_step_emits (H := reference_external) (t120, t120) lit_state (fst sent_turn)
           (snd sent_turn) H1).
Defined.

Lemma both_lower_only_dark_partial_witness :
  m_eIncrState (dark_partial 5 1000003) <> INCR_STATE_HAVE_FULL_RESULTS /\
  m_eIncrState (dark_partial 0 0) <> INCR_STATE_HAVE_FULL_RESULTS /\
  0 <= m_PartialResultsStage (dark_partial 5 1000003) < N_INCREMENTAL_STEPS /\
  0 <= m_PartialResultsStage (dark_partial 0 0) < N_INCREMENTAL_STEPS /\
  IsLowerPriorityThan fresh_engine (dark_partial 5 1000003) (dark_partial 0 0) = Ok true /\
  IsLowerPriorityThan fresh_engine (dark_partial 0 0) (dark_partial 5 1000003) = Ok true /\
  m_eIncrState (dark_partial 5 1000003) = INCR_STATE_PARTIAL_RESULTS /\
  m_eIncrState (dark_partial 0 0) = INCR_STATE_PARTIAL_RESULTS /\
  F32.eqb (m_fTotalContribution (dark_partial 5 1000003)) F32.zero = true /\
  F32.eqb (m_fTotalContribution (dark_partial 0 0)) F32.zero = true /\
  m_nMostRecentNonZeroContributionTimeStamp (dark_partial 5 1000003)
    <> m_nMostRecentNonZeroContributionTimeStamp (dark_partial 0 0) /\
  1 < Z.abs (m_PartialResultsStage (dark_partial 5 1000003)
             - m_PartialResultsStage (dark_partial 0 0)).
Proof.
  assert (H1 : m_eIncrState (dark_partial 5 1000003) <> INCR_STATE_HAVE_FULL_RESULTS)
    by (vm_compute; discriminate).
  assert (H2 : m_eIncrState (dark_partial 0 0) <> INCR_STATE_HAVE_FULL_RESULTS)
    by (vm_compute; discriminate).
  assert (H3 : 0 <= m_PartialResultsStage (dark_partial 5 1000003) < N_INCREMENTAL_STEPS)
    by (vm_compute; split; [discriminate|reflexivity]).
  assert (H4 : 0 <= m_PartialResultsStage (dark_partial 0 0) < N_INCREMENTAL_STEPS)
    by (vm_compute; split; [discriminate|reflexivity]).
  assert (H5 : IsLowerPriorityThan fresh_engine (dark_partial 5 1000003) (dark_partial 0 0)
               = Ok true) by (vm_compute; reflexivity).
  assert (H6 : IsLowerPriorityThan fresh_engine (dark_partial 0 0) (dark_partial 5 1000003)
               = Ok true) by (vm_compute; reflexivity).
  split; [exact H1|]. split; [exact H2|]. split; [exact H3|]. split; [exact H4|].
  split; [exact H5|]. split; [exact H6|].
  exact (both_lower_only_dark_partial fresh_engine (dark_partial 5 1000003) (dark_partial 0 0)
           H1 H2 H3 H4 H5 H6).
Defined.

Lemma Run_works_after_inputs_witness :
  m_pRtEnv fresh_engine = None /\ m_pLightList fresh_engine = None /\
  snd (fst (Run (H := reference_external)
              [(t101, t101); (t101, t101); (t120, t120); (t120, t120)]
              sample_queue fresh_engine))
    = [Handled gbuffers_msg; Handled geometry_msg; Handled lights_msg]
      ++ Worked :: [Worked; Worked; Sent sample_result; Worked] /\
  geometry_after false [Handled gbuffers_msg; Handled geometry_msg; Handled lights_msg] = true /\
  lights_after false [Handled gbuffers_msg; Handled geometry_msg; Handled lights_msg] = true.
Proof.
  assert (H1 : m_pRtEnv fresh_engine = None) by reflexivity.
  assert (H2 : m_pLightList fresh_engine = None) by reflexivity.
  assert (H3 : snd (fst (Run (H := reference_external)
                           [(t101, t101); (t101, t101); (t120, t120); (t120, t120)]
                           sample_queue fresh_engine))
               = [Handled gbuffers_msg; Handled geometry_msg; Handled lights_msg]
                 ++ Worked :: [Worked; Worked; Sent sample_result; Worked])
    by (vm_compute; reflexivity).
  split; [exact H1|]. split; [exact H2|]. split; [exact H3|].
  exact (Run_works_after_inputs (H := reference_external) _ _ _ _ _ H1 H2 H3).
Defined.

Lemma Run_blocks_when_idle_witness :
  snd (Run (H := reference_external) [(t101, t101); (t101, t101)]
         [Message gbuffers_msg t100 t100] fresh_engine) = Blocked /\
  handled_messages (snd (fst (Run (H := reference_external) [(t101, t101); (t101, t101)]
                                [Message gbuffers_msg t100 t100] fresh_engine)))
    = queue_messages [Message gbuffers_msg t100 t100] /\
  AnyUsefulWorkToDo (fst (fst (Run (H := reference_external) [(t101, t101); (t101, t101)]
                                 [Message gbuffers_msg t100 t100] fresh_engine)))
    = Ok false.
Proof.
  assert (H1 : snd (Run (H := reference_external) [(t101, t101); (t101, t101)]
                      [Message gbuffers_msg t100 t100] fresh_engine) = Blocked)
    by (vm_compute; reflexivity).
  split; [exact H1|].
  exact (Run_blocks_when_idle (H := reference_external) [(t101, t101); (t101, t101)]
           [Message gbuffers_msg t100 t100] fresh_engine H1).
Defined.

Lemma CalculateSceneBounds_encloses_witness :
  CalculateSceneBounds eye_moved = Ok bounds_found /\
  Vector_ordered (eye_in_register eye_moved) = true /\
  0 <= 0 < m_nPaddedWidth (m_Positions eye_moved) /\
  0 <= 1 < m_nHeight (m_Positions eye_moved) /\
  CompoundElement (m_Positions eye_moved) 0 1 = Ok (DuplicateVector origin_point) /\
  Vector_ordered (FourVectors_Vec (DuplicateVector origin_point) 2) = true /\
  WithinAABox (eye_in_register eye_moved) (m_MinViewCoords bounds_found)
    (m_MaxViewCoords bounds_found) = true /\
  (0 <= 0 < m_nPaddedWidth (m_Positions eye_moved) ->
   0 <= 1 < m_nHeight (m_Positions eye_moved) ->
   CompoundElement (m_Positions eye_moved) 0 1 = Ok (DuplicateVector origin_point) ->
   Vector_ordered (FourVectors_Vec (DuplicateVector origin_point) 2) = true ->
   WithinAABox (FourVectors_Vec (DuplicateVector origin_point) 2)
     (m_MinViewCoords bounds_found) (m_MaxViewCoords bounds_found) = true).
Proof.
  assert (H1 : CalculateSceneBounds eye_moved = Ok bounds_found) by (vm_compute; reflexivity).
  assert (H2 : Vector_ordered (eye_in_register eye_moved) = true) by (vm_compute; reflexivity).
  split; [exact H1|]. split; [exact H2|].
  split; [vm_compute; split; [discriminate|reflexivity]|].
  split; [vm_compute; split; [discriminate|reflexivity]|].
  split; [vm_compute; reflexivity|]. split; [vm_compute; reflexivity|].
  exact (CalculateSceneBounds_encloses eye_moved bounds_found 0 1 2
           (DuplicateVector origin_point) H1 H2).
Defined.
